(** * The workflow engine of langgraph_builder.py

    A shallow embedding of [LangGraphBuilder]: the reference resolver
    ([_resolve_inputs]), the environment substitution of tool configs
    ([_resolve_env_variables]), the agent cache ([_load_agent]), the node
    function of a step, the graph built from the declared steps and
    [execute].

    Python values that the engine walks, serialises or stores are JSON
    values.  Text is a Rocq [string], so a character is a code point below
    256.  The [json] module of the Python library is embedded with it:
    [dumps] with the default separators and [ensure_ascii], [loads] with
    the strict decoder. *)

From Stdlib Require Import String Ascii List ZArith Lia Bool Arith.
From Stdlib Require Import DecimalString DecimalZ DecimalPos DecimalN DecimalFacts.
Import ListNotations.
Local Open Scope list_scope.
Local Open Scope string_scope.

Set Implicit Arguments.

(** ** Python strings *)

Module PyStr.

Fixpoint startswith (s p : string) {struct p} : bool :=
  match p with
  | "" => true
  | String a p' =>
      match s with
      | String b s' => Ascii.eqb a b && startswith s' p'
      | "" => false
      end
  end.

Fixpoint drop (n : nat) (s : string) : string :=
  match n, s with
  | S k, String _ r => drop k r
  | _, _ => s
  end.

Fixpoint take (n : nat) (s : string) : string :=
  match n, s with
  | S k, String c r => String c (take k r)
  | _, _ => ""
  end.

Definition endswith (s p : string) : bool :=
  Nat.leb (String.length p) (String.length s)
  && String.eqb (drop (String.length s - String.length p) s) p.

(** [s[a:-b]] for [a + b <= len s]. *)
Definition slice (a b : nat) (s : string) : string :=
  take (String.length s - a - b) (drop a s).

Definition nat_in (lo hi : nat) (c : ascii) : bool :=
  Nat.leb lo (nat_of_ascii c) && Nat.leb (nat_of_ascii c) hi.

(** [str.isspace] on the code points below 256. *)
Definition isspace (c : ascii) : bool :=
  nat_in 9 13 c || nat_in 28 32 c
  || Nat.eqb (nat_of_ascii c) 133 || Nat.eqb (nat_of_ascii c) 160.

Fixpoint lstrip (s : string) : string :=
  match s with
  | String c r => if isspace c then lstrip r else s
  | "" => ""
  end.

Fixpoint rstrip (s : string) : string :=
  match s with
  | String c r =>
      match rstrip r with
      | "" => if isspace c then "" else String c ""
      | r' => String c r'
      end
  | "" => ""
  end.

Definition strip (s : string) : string := rstrip (lstrip s).

(** [s.split(sep)] for a one-character separator. *)
Fixpoint split (sep : ascii) (s : string) : list string :=
  match s with
  | "" => [""]
  | String c r =>
      if Ascii.eqb c sep then "" :: split sep r
      else match split sep r with
           | h :: t => String c h :: t
           | [] => [String c ""]
           end
  end.

Definition lower_char (c : ascii) : ascii :=
  if nat_in 65 90 c || nat_in 192 214 c || nat_in 216 222 c
  then ascii_of_nat (nat_of_ascii c + 32) else c.

Fixpoint lower (s : string) : string :=
  match s with
  | "" => ""
  | String c r => String (lower_char c) (lower r)
  end.

(** [s.replace(old, new)]: every occurrence, leftmost first, without
    overlap.  [skip] counts the characters of a replaced occurrence that
    are still to be passed over. *)
Fixpoint replace_from (old new : string) (skip : nat) (s : string) : string :=
  match s with
  | "" => ""
  | String c r =>
      match skip with
      | S k => replace_from old new k r
      | O =>
          if startswith s old
          then new ++ replace_from old new (String.length old - 1) r
          else String c (replace_from old new 0 r)
      end
  end.

(** For a non-empty [old], as every token is. *)
Definition replace (old new s : string) : string := replace_from old new 0 s.

End PyStr.

(** ** JSON values *)

(** An integer is a [JNum]; a float is kept as its literal, the text
    [float.__repr__] gives it, which is also what [dumps] writes and what
    the decoder reads it from ([NaN], [Infinity] and [-Infinity] for the
    floats that are no numbers). *)
Unset Elimination Schemes.
Inductive json : Type :=
| JNull
| JBool (b : bool)
| JNum (z : Z)
| JFloat (literal : string)
| JStr (s : string)
| JList (items : list json)
| JDict (members : list (string * json)).
Set Elimination Schemes.

(** A Python [dict] with string keys, in insertion order. *)
Definition dict := list (string * json).

Section JsonInduction.
Variable P : json -> Prop.
Hypothesis Hnull : P JNull.
Hypothesis Hbool : forall b, P (JBool b).
Hypothesis Hnum : forall z, P (JNum z).
Hypothesis Hfloat : forall l, P (JFloat l).
Hypothesis Hstr : forall s, P (JStr s).
Hypothesis Hlist : forall l, Forall P l -> P (JList l).
Hypothesis Hdict : forall d, Forall (fun kv => P (snd kv)) d -> P (JDict d).

Fixpoint json_ind (v : json) : P v :=
    match v with
    | JNull => Hnull
    | JBool b => Hbool b
    | JNum z => Hnum z
    | JFloat l => Hfloat l
    | JStr s => Hstr s
    | JList l =>
        Hlist ((fix go (l : list json) : Forall P l :=
                  match l with
                  | [] => Forall_nil _
                  | x :: r => Forall_cons x (json_ind x) (go r)
                  end) l)
    | JDict d =>
        Hdict ((fix go (d : dict) : Forall (fun kv => P (snd kv)) d :=
                  match d with
                  | [] => Forall_nil _
                  | kv :: r => Forall_cons kv (json_ind (snd kv)) (go r)
                  end) d)
    end.
End JsonInduction.

Module Dict.

Fixpoint get (d : dict) (k : string) : option json :=
  match d with
  | [] => None
  | (k', v) :: r => if String.eqb k' k then Some v else get r k
  end.

(** [d[k] = v]: an existing key keeps its place. *)
Fixpoint set (d : dict) (k : string) (v : json) : dict :=
  match d with
  | [] => [(k, v)]
  | (k', v') :: r =>
      if String.eqb k' k then (k', v) :: r else (k', v') :: set r k v
  end.

Definition keys (d : dict) : list string := map fst d.

(** [dict(pairs)]. *)
Definition of_pairs (l : list (string * json)) : dict :=
  fold_left (fun d kv => set d (fst kv) (snd kv)) l [].

End Dict.

(** ** The [json] library: [dumps] and [loads] *)

Module Json.

Definition quote : ascii := "034"%char.
Definition backslash : ascii := "092"%char.

Definition hex_digit (n : nat) : ascii :=
  if Nat.ltb n 10 then ascii_of_nat (48 + n) else ascii_of_nat (87 + n).

(** The encoder's escapes under [ensure_ascii]: the short forms, and
    [\u00xx] (lower-case digits) for every other character outside
    [' '..'~']. *)
Definition escape_char (c : ascii) : string :=
  let n := nat_of_ascii c in
  if Nat.eqb n 34 then String backslash (String quote "")
  else if Nat.eqb n 92 then String backslash (String backslash "")
  else if Nat.eqb n 8 then String backslash "b"
  else if Nat.eqb n 12 then String backslash "f"
  else if Nat.eqb n 10 then String backslash "n"
  else if Nat.eqb n 13 then String backslash "r"
  else if Nat.eqb n 9 then String backslash "t"
  else if Nat.ltb n 32 || Nat.ltb 126 n
       then String backslash
              (String "u" (String "0" (String "0"
                 (String (hex_digit (n / 16)) (String (hex_digit (n mod 16)) "")))))
       else String c "".

Fixpoint escape (s : string) : string :=
  match s with
  | "" => ""
  | String c r => escape_char c ++ escape r
  end.

Definition encode_string (s : string) : string :=
  String quote (escape s ++ String quote "").

Definition string_of_Z (z : Z) : string := NilZero.string_of_int (Z.to_int z).

(** [json.dumps(v)]: items separated by [", "], keys by [": "]. *)
Fixpoint dumps (v : json) : string :=
  match v with
  | JNull => "null"
  | JBool true => "true"
  | JBool false => "false"
  | JNum z => string_of_Z z
  | JFloat l => l
  | JStr s => encode_string s
  | JList [] => "[]"
  | JList (x :: r) =>
      "[" ++ dumps x
          ++ (fix more (l : list json) : string :=
                match l with
                | [] => "]"
                | y :: l' => ", " ++ dumps y ++ more l'
                end) r
  | JDict [] => "{}"
  | JDict ((k, x) :: r) =>
      "{" ++ encode_string k ++ ": " ++ dumps x
          ++ (fix more (d : dict) : string :=
                match d with
                | [] => "}"
                | (k', y) :: d' =>
                    ", " ++ encode_string k' ++ ": " ++ dumps y ++ more d'
                end) r
  end.

(** What [dumps] writes after the first item of an array, and after the
    first member of an object. *)
Fixpoint items_tail (l : list json) : string :=
  match l with
  | [] => "]"
  | y :: l' => ", " ++ dumps y ++ items_tail l'
  end.

Fixpoint pairs_tail (d : dict) : string :=
  match d with
  | [] => "}"
  | (k', y) :: d' => ", " ++ encode_string k' ++ ": " ++ dumps y ++ pairs_tail d'
  end.

(** *** The decoder *)

Definition is_ws (c : ascii) : bool :=
  let n := nat_of_ascii c in
  Nat.eqb n 32 || Nat.eqb n 9 || Nat.eqb n 10 || Nat.eqb n 13.

Fixpoint skip_ws (s : string) : string :=
  match s with
  | String c r => if is_ws c then skip_ws r else s
  | "" => ""
  end.

Definition is_digit (c : ascii) : bool := PyStr.nat_in 48 57 c.

Definition hex_val (c : ascii) : option nat :=
  let n := nat_of_ascii c in
  if PyStr.nat_in 48 57 c then Some (n - 48)
  else if PyStr.nat_in 97 102 c then Some (n - 87)
  else if PyStr.nat_in 65 70 c then Some (n - 55)
  else None.

(** The character a one-letter escape stands for. *)
Definition unescape (e : ascii) : option ascii :=
  let n := nat_of_ascii e in
  if Nat.eqb n 34 then Some quote
  else if Nat.eqb n 92 then Some backslash
  else if Nat.eqb n 47 then Some "/"%char
  else if Nat.eqb n 98 then Some (ascii_of_nat 8)
  else if Nat.eqb n 102 then Some (ascii_of_nat 12)
  else if Nat.eqb n 110 then Some (ascii_of_nat 10)
  else if Nat.eqb n 114 then Some (ascii_of_nat 13)
  else if Nat.eqb n 116 then Some (ascii_of_nat 9)
  else None.

(** The code point of [\uXXXX]; one above 255 has no character here. *)
Definition decode_u (h1 h2 h3 h4 : ascii) : option ascii :=
  match hex_val h1, hex_val h2, hex_val h3, hex_val h4 with
  | Some a, Some b, Some c, Some d =>
      if Nat.eqb a 0 && Nat.eqb b 0 then Some (ascii_of_nat (16 * c + d))
      else None
  | _, _, _, _ => None
  end.

Definition cons_result (c : ascii) (r : option (string * string))
  : option (string * string) :=
  match r with
  | Some (x, rest) => Some (String c x, rest)
  | None => None
  end.

(** The body of a string, after its opening quote: the decoded text and
    what follows the closing quote.  A raw control character is an
    error. *)
Fixpoint scanstring (s : string) : option (string * string) :=
  match s with
  | "" => None
  | String c r =>
      if Ascii.eqb c quote then Some ("", r)
      else if Ascii.eqb c backslash then
        match r with
        | "" => None
        | String e r2 =>
            if Ascii.eqb e "u"%char then
              match r2 with
              | String h1 (String h2 (String h3 (String h4 r3))) =>
                  match decode_u h1 h2 h3 h4 with
                  | Some ch => cons_result ch (scanstring r3)
                  | None => None
                  end
              | _ => None
              end
            else
              match unescape e with
              | Some ch => cons_result ch (scanstring r2)
              | None => None
              end
        end
      else if Nat.ltb (nat_of_ascii c) 32 then None
      else cons_result c (scanstring r)
  end.

(** The longest run of digits. *)
Fixpoint scan_digits (s : string) : string * string :=
  match s with
  | String c r =>
      if is_digit c then let (ds, rest) := scan_digits r in (String c ds, rest)
      else ("", s)
  | "" => ("", "")
  end.

(** The integer part: an optional minus sign, then a single zero or a
    digit run that starts with a non-zero digit. *)
Definition scan_int (s : string) : option (string * string) :=
  let (sign, s1) :=
    match s with
    | String "-" r => ("-", r)
    | _ => ("", s)
    end in
  match s1 with
  | String c r =>
      if Ascii.eqb c "0" then Some (sign ++ "0", r)
      else if is_digit c
           then let (ds, rest) := scan_digits r in Some (sign ++ String c ds, rest)
           else None
  | "" => None
  end.

(** The optional fraction: a dot and at least one digit. *)
Definition scan_frac (s : string) : string * string :=
  match s with
  | String "." r =>
      match scan_digits r with
      | ("", _) => ("", s)
      | (ds, rest) => (String "." ds, rest)
      end
  | _ => ("", s)
  end.

(** The optional exponent: e or E, an optional sign, at least one digit. *)
Definition scan_exp (s : string) : string * string :=
  match s with
  | String e r =>
      if Ascii.eqb e "e" || Ascii.eqb e "E" then
        let (sign, r1) :=
          match r with
          | String "-" r' => ("-", r')
          | String "+" r' => ("+", r')
          | _ => ("", r)
          end in
        match scan_digits r1 with
        | ("", _) => ("", s)
        | (ds, rest) => (String e (sign ++ ds), rest)
        end
      else ("", s)
  | "" => ("", "")
  end.

Definition Z_of_string (s : string) : Z :=
  match NilZero.int_of_string s with
  | Some d => Z.of_int d
  | None => 0%Z
  end.

(** A number: an integer when it has neither fraction nor exponent, else a
    float, kept as its literal. *)
Definition scan_number (s : string) : option (json * string) :=
  match scan_int s with
  | None => None
  | Some (i, r1) =>
      let (f, r2) := scan_frac r1 in
      let (e, r3) := scan_exp r2 in
      match f, e with
      | "", "" => Some (JNum (Z_of_string i), r3)
      | _, _ => Some (JFloat (i ++ f ++ e), r3)
      end
  end.

Definition literal (word : string) (v : json) (s : string)
  : option (json * string) :=
  if PyStr.startswith s word then Some (v, PyStr.drop (String.length word) s)
  else None.

Definition or_else {A : Type} (a b : option A) : option A :=
  match a with
  | Some _ => a
  | None => b
  end.

(** A value that is neither a string, an object nor an array: a
    constant, a number, or one of the names the decoder takes for floats
    that are no numbers. *)
Definition scan_atom (s : string) : option (json * string) :=
  or_else (literal "null" JNull s)
    (or_else (literal "true" (JBool true) s)
       (or_else (literal "false" (JBool false) s)
          (or_else (scan_number s)
             (or_else (literal "NaN" (JFloat "NaN") s)
                (or_else (literal "Infinity" (JFloat "Infinity") s)
                   (literal "-Infinity" (JFloat "-Infinity") s)))))).

(** [s] without its first character. *)
Definition tail (s : string) : string := PyStr.drop 1 s.

(** [scan_once] reads one value; [scan_items] the items of an array after
    its first bracket, [scan_pairs] the members of an object from a key's
    opening quote.  [fuel] bounds the nesting of calls. *)
Fixpoint scan_once (fuel : nat) (s : string) : option (json * string) :=
  match fuel with
  | O => None
  | S n =>
      match s with
      | String c r =>
          if Ascii.eqb c quote then
            match scanstring r with
            | Some (x, rest) => Some (JStr x, rest)
            | None => None
            end
          else if Ascii.eqb c "{" then
            let r1 := skip_ws r in
            if PyStr.startswith r1 "}" then Some (JDict [], tail r1)
            else
              match scan_pairs n r1 with
              | Some (ps, rest) => Some (JDict (Dict.of_pairs ps), rest)
              | None => None
              end
          else if Ascii.eqb c "[" then
            let r1 := skip_ws r in
            if PyStr.startswith r1 "]" then Some (JList [], tail r1)
            else
              match scan_items n r1 with
              | Some (xs, rest) => Some (JList xs, rest)
              | None => None
              end
          else scan_atom s
      | "" => None
      end
  end
with scan_items (fuel : nat) (s : string) : option (list json * string) :=
  match fuel with
  | O => None
  | S n =>
      match scan_once n s with
      | None => None
      | Some (x, r1) =>
          let r2 := skip_ws r1 in
          if PyStr.startswith r2 "]" then Some ([x], tail r2)
          else if PyStr.startswith r2 "," then
            match scan_items n (skip_ws (tail r2)) with
            | Some (xs, rest) => Some (x :: xs, rest)
            | None => None
            end
          else None
      end
  end
with scan_pairs (fuel : nat) (s : string)
  : option (list (string * json) * string) :=
  match fuel with
  | O => None
  | S n =>
      if PyStr.startswith s (String quote "") then
        match scanstring (tail s) with
        | None => None
        | Some (k, r1) =>
            let r2 := skip_ws r1 in
            if PyStr.startswith r2 ":" then
              match scan_once n (skip_ws (tail r2)) with
              | None => None
              | Some (x, r3) =>
                  let r4 := skip_ws r3 in
                  if PyStr.startswith r4 "}" then Some ([(k, x)], tail r4)
                  else if PyStr.startswith r4 "," then
                    match scan_pairs n (skip_ws (tail r4)) with
                    | Some (ps, rest) => Some ((k, x) :: ps, rest)
                    | None => None
                    end
                  else None
              end
            else None
        end
      else None
  end.

(** [json.loads(s)]: one value between optional white space, and nothing
    after it; [None] stands for [JSONDecodeError]. *)
Definition loads (s : string) : option json :=
  match scan_once (2 * String.length s + 2) (skip_ws s) with
  | Some (v, rest) =>
      match skip_ws rest with
      | "" => Some v
      | _ => None
      end
  | None => None
  end.

End Json.

(** What may follow a value inside an array or an object, or at the end. *)
Definition closes (rest : string) : bool :=
  match rest with
  | "" => true
  | String c _ => Ascii.eqb c "," || Ascii.eqb c "]" || Ascii.eqb c "}"
  end.

(** A value with no float in it. *)
Fixpoint integral (v : json) : bool :=
  match v with
  | JFloat _ => false
  | JList l =>
      (fix all (l : list json) : bool :=
         match l with
         | [] => true
         | x :: r => integral x && all r
         end) l
  | JDict d =>
      (fix all (d : dict) : bool :=
         match d with
         | [] => true
         | kv :: r => integral (snd kv) && all r
         end) d
  | _ => true
  end.

(** The literal of a float: text that the number scanner reads whole, as
    a float, or one of the three names of the floats that are no
    numbers.  What [dumps] writes for a float, [float.__repr__] of a
    finite one, is such a literal. *)
Definition float_literal (l : string) : bool :=
  match Json.scan_number l with
  | Some (JFloat l', "") => String.eqb l' l
  | Some _ => false
  | None => String.eqb l "NaN" || String.eqb l "Infinity" || String.eqb l "-Infinity"
  end.

(** A value as Python holds it: each float is given by a literal of
    its. *)
Fixpoint float_literals (v : json) : bool :=
  match v with
  | JFloat l => float_literal l
  | JList l =>
      (fix all (l : list json) : bool :=
         match l with
         | [] => true
         | x :: r => float_literals x && all r
         end) l
  | JDict d =>
      (fix all (d : dict) : bool :=
         match d with
         | [] => true
         | kv :: r => float_literals (snd kv) && all r
         end) d
  | _ => true
  end.

(** A value as Python holds it: in each mapping a key occurs once. *)
Fixpoint distinct_keys (v : json) : Prop :=
  match v with
  | JList l =>
      (fix all (l : list json) : Prop :=
         match l with
         | [] => True
         | x :: r => distinct_keys x /\ all r
         end) l
  | JDict d =>
      NoDup (Dict.keys d)
      /\ (fix all (d : dict) : Prop :=
            match d with
            | [] => True
            | kv :: r => distinct_keys (snd kv) /\ all r
            end) d
  | _ => True
  end.

(** The value the decoder builds from the members it reads: of two
    members with one key the later value stays, at the place of the
    first. *)
Fixpoint normalize (v : json) : json :=
  match v with
  | JList l => JList (map normalize l)
  | JDict d => JDict (Dict.of_pairs (map (fun kv => (fst kv, normalize (snd kv))) d))
  | _ => v
  end.

(** Fuel that is enough to decode the text of a value. *)
Fixpoint cost (v : json) : nat :=
  match v with
  | JList l =>
      S ((fix sum (l : list json) : nat :=
            match l with
            | [] => 0
            | x :: r => S (cost x + sum r)
            end) l)
  | JDict d =>
      S ((fix sum (d : dict) : nat :=
            match d with
            | [] => 0
            | kv :: r => S (cost (snd kv) + sum r)
            end) d)
  | _ => 1
  end.

(** Every string of a value, the keys included, through [f]. *)
Fixpoint map_strings (f : string -> string) (v : json) : json :=
  match v with
  | JStr s => JStr (f s)
  | JList l => JList (map (map_strings f) l)
  | JDict d => JDict (map (fun kv => (f (fst kv), map_strings f (snd kv))) d)
  | _ => v
  end.

(** ** Values of bodies *)

(** A character that a string of a JSON text holds as it is: any but the
    quote, the backslash and the control characters. *)
Definition raw_char (c : ascii) : bool :=
  negb (Ascii.eqb c Json.quote) && negb (Ascii.eqb c Json.backslash)
  && negb (Nat.ltb (nat_of_ascii c) 32).

Fixpoint raw (s : string) : bool :=
  match s with
  | "" => true
  | String c r => raw_char c && raw r
  end.

(** The text of a value whose strings hold the text of their bodies, the
    escapes written out: what [dumps] does after the escaping. *)
Fixpoint render (t : json) : string :=
  match t with
  | JNull => "null"
  | JBool true => "true"
  | JBool false => "false"
  | JNum z => Json.string_of_Z z
  | JFloat l => l
  | JStr b => String Json.quote (b ++ String Json.quote "")
  | JList [] => "[]"
  | JList (x :: r) =>
      "[" ++ render x
          ++ (fix more (l : list json) : string :=
                match l with
                | [] => "]"
                | y :: l' => ", " ++ render y ++ more l'
                end) r
  | JDict [] => "{}"
  | JDict ((k, x) :: r) =>
      "{" ++ String Json.quote (k ++ String Json.quote "") ++ ": " ++ render x
          ++ (fix more (d : dict) : string :=
                match d with
                | [] => "}"
                | (k', y) :: d' =>
                    ", " ++ String Json.quote (k' ++ String Json.quote "")
                         ++ ": " ++ render y ++ more d'
                end) r
  end.

Fixpoint render_items (l : list json) : string :=
  match l with
  | [] => "]"
  | y :: l' => ", " ++ render y ++ render_items l'
  end.

Fixpoint render_pairs (d : dict) : string :=
  match d with
  | [] => "}"
  | (k', y) :: d' =>
      ", " ++ String Json.quote (k' ++ String Json.quote "")
           ++ ": " ++ render y ++ render_pairs d'
  end.

(** [spells b s]: the text [b] is a body of the string [s], each
    character written as the encoder escapes it, or as it is where the
    decoder takes it so. *)
Inductive spells : string -> string -> Prop :=
| spells_nil : spells "" ""
| spells_escape c b s : spells b s -> spells (Json.escape_char c ++ b) (String c s)
| spells_raw c b s : raw_char c = true -> spells b s -> spells (String c b) (String c s).

(** The string a body stands for. *)
Definition body_value (b : string) : string :=
  match Json.scanstring (b ++ String Json.quote "") with
  | Some (s, _) => s
  | None => ""
  end.

(** Every string of a value, the keys included. *)
Fixpoint strings_of (v : json) : list string :=
  match v with
  | JStr s => [s]
  | JList l => flat_map strings_of l
  | JDict d => flat_map (fun kv => fst kv :: strings_of (snd kv)) d
  | _ => []
  end.

(** A value whose strings are bodies. *)
Definition spelt (t : json) : Prop :=
  Forall (fun b => spells b (body_value b)) (strings_of t).

(** What decoding states for the text of one value of bodies. *)
Definition reads (t : json) : Prop :=
  float_literals t = true -> spelt t ->
  forall fuel rest,
    cost t <= fuel -> closes rest = true ->
    Json.scan_once fuel (render t ++ rest)
    = Some (normalize (map_strings body_value t), rest).

(** The first character of a text, when it has one, is none of [P]. *)
Definition head_not (P : ascii -> bool) (s : string) : bool :=
  match s with
  | "" => true
  | String c _ => negb (P c)
  end.

(** ** The [re] library: [re.findall(r'\{\{([A-Z_]+)\}\}', s)] *)

Module Re.

Definition is_var_char (c : ascii) : bool :=
  PyStr.nat_in 65 90 c || Nat.eqb (nat_of_ascii c) 95.

(** The longest run of [[A-Z_]]. *)
Fixpoint scan_name (s : string) : string * string :=
  match s with
  | String c r =>
      if is_var_char c
      then let (name, rest) := scan_name r in (String c name, rest)
      else ("", s)
  | "" => ("", "")
  end.

(** A match of the pattern at the head of [s]: the captured name.  The
    class is greedy and [}] is not in it, so the name is the longest run. *)
Definition match_token (s : string) : option string :=
  if PyStr.startswith s "{{" then
    match scan_name (PyStr.drop 2 s) with
    | ("", _) => None
    | (name, rest) => if PyStr.startswith rest "}}" then Some name else None
    end
  else None.

(** The captures of the successive matches, left to right, without
    overlap; [skip] as in [PyStr.replace_from]. *)
Fixpoint findall_from (skip : nat) (s : string) : list string :=
  match s with
  | "" => []
  | String _ r =>
      match skip with
      | S k => findall_from k r
      | O =>
          match match_token s with
          | Some name => name :: findall_from (String.length name + 3) r
          | None => findall_from 0 r
          end
      end
  end.

Definition findall (s : string) : list string := findall_from 0 s.

End Re.

(** ** Exceptions, the log and the engine's monad *)

Inductive exn : Type :=
| KeyError (key : string)
| TypeError
| IndexError
| ValueError (msg : string)
| JSONDecodeError
| GraphRecursionError.

Inductive result (A : Type) : Type :=
| Ok (a : A)
| Raise (e : exn).
Arguments Ok {A} a.
Arguments Raise {A} e.

Inductive level : Type := INFO | WARNING | ERROR.

Definition log_record : Type := level * string.

(** ** ConfigResolver: [_resolve_env_variables] *)

(** [os.environ]. *)
Definition environ := string -> option string.

(** [os.getenv(var, default)]. *)
Definition getenv (env : environ) (var default : string) : string :=
  match env var with
  | Some x => x
  | None => default
  end.

(** The f-string [{{VAR}}] written with doubled braces in the source. *)
Definition token (var : string) : string := "{{" ++ var ++ "}}".

(** One turn of the loop over [matches]. *)
Definition substitute (env : environ) (config_str var : string) : string :=
  let env_value := getenv env var ("MISSING_" ++ var) in
  PyStr.replace (token var) env_value config_str.

Definition _resolve_env_variables (env : environ) (config : json) : result json :=
  let config_str := Json.dumps config in
  let matches := Re.findall config_str in
  let config_str := fold_left (substitute env) matches config_str in
  match Json.loads config_str with
  | Some v => Ok v
  | None => Raise JSONDecodeError
  end.

(** A character the encoder writes as it is, and text made of such. *)
Definition plain_char (c : ascii) : bool :=
  let n := nat_of_ascii c in
  Nat.leb 32 n && Nat.leb n 126 && negb (Nat.eqb n 34) && negb (Nat.eqb n 92).

Fixpoint plain (s : string) : bool :=
  match s with
  | "" => true
  | String c r => plain_char c && plain r
  end.

(** Text without the character [x]. *)
Fixpoint free_of (x : ascii) (s : string) : bool :=
  match s with
  | "" => true
  | String c r => negb (Ascii.eqb c x) && free_of x r
  end.

(** A name the pattern captures. *)
Fixpoint var_name (s : string) : bool :=
  match s with
  | "" => true
  | String c r => Re.is_var_char c && var_name r
  end.

(** One turn of the loop, on the value instead of its text. *)
Definition subst_var (env : environ) (v : json) (var : string) : json :=
  map_strings (PyStr.replace (token var) (getenv env var ("MISSING_" ++ var))) v.

(** ** The data model *)

Module Step.
Record t : Type := mk {
  id : string;
  agent : string;
  inputs : option dict;
  instructions : option string;
  tools : option (list json)
}.
End Step.

Module Workflow.
(** The loaded document: [workflow_name], [steps] and its other top-level
    keys. *)
Record t : Type := mk {
  workflow_name : string;
  steps : list Step.t;
  extra : dict
}.
End Workflow.

Definition option_member (k : string) (v : option json) : dict :=
  match v with
  | Some x => [(k, x)]
  | None => []
  end.

Definition step_document (s : Step.t) : json :=
  JDict ([("id", JStr (Step.id s)); ("agent", JStr (Step.agent s))]
         ++ option_member "inputs" (option_map JDict (Step.inputs s))
         ++ option_member "instructions" (option_map JStr (Step.instructions s))
         ++ option_member "tools" (option_map JList (Step.tools s)))%list.

(** [self.workflow_config] as the mapping the resolver indexes. *)
Definition workflow_config (w : Workflow.t) : json :=
  JDict (("workflow_name", JStr (Workflow.workflow_name w))
         :: ("steps", JList (map step_document (Workflow.steps w)))
         :: Workflow.extra w).

Module History.
Record t : Type := mk {
  step : string;
  agent : string;
  inputs : dict;
  output : json
}.
End History.

Module WorkflowState.
Record t : Type := mk {
  workflow_name : string;
  current_step : string;
  data : dict;
  errors : list string;
  history : list History.t
}.
End WorkflowState.

Module RunResult.
Record t : Type := mk {
  success : bool;
  data : dict;
  errors : list string;
  history : list History.t
}.
End RunResult.

(** ** ReferenceResolver: [_resolve_inputs] *)

(** [for part in parts: current = current[part]].  Indexing a mapping
    with a missing key raises [KeyError]; indexing anything else with a
    string raises [TypeError]. *)
Fixpoint walk (current : json) (parts : list string) : result json :=
  match parts with
  | [] => Ok current
  | part :: rest =>
      match current with
      | JDict d =>
          match Dict.get d part with
          | Some v => walk v rest
          | None => Raise (KeyError part)
          end
      | _ => Raise TypeError
      end
  end.

Definition is_reference (value : json) : option string :=
  match value with
  | JStr s =>
      if PyStr.startswith s "{{" && PyStr.endswith s "}}" then Some s else None
  | _ => None
  end.

(** The body of the loop for one input: the resolved value and what is
    logged. *)
Definition resolve_value (config : json) (data : dict) (value : json)
  : json * list log_record :=
  match is_reference value with
  | Some s =>
      let ref_path := PyStr.strip (PyStr.slice 2 2 s) in
      let parts := PyStr.split "." ref_path in
      if String.eqb (hd "" parts) "config" then
        match walk config parts with
        | Ok current => (current, [])
        | Raise _ =>
            (JNull, [(WARNING, "Could not resolve config reference: " ++ ref_path)])
        end
      else
        match walk (JDict data) parts with
        | Ok current => (current, [])
        | Raise _ =>
            (JNull, [(WARNING, "Could not resolve reference: " ++ ref_path)])
        end
  | None => (value, [])
  end.

Definition _resolve_inputs (config : json) (inputs : dict) (state : WorkflowState.t)
  : dict * list log_record :=
  fold_left
    (fun (acc : dict * list log_record) (kv : string * json) =>
       let (v, warnings) := resolve_value config (WorkflowState.data state) (snd kv) in
       (Dict.set (fst acc) (fst kv) v, (snd acc ++ warnings)%list))
    inputs ([], []).

(** The path of a reference string, [value[2:-2].strip()], and its
    segments. *)
Definition ref_path (s : string) : string := PyStr.strip (PyStr.slice 2 2 s).

Definition ref_parts (s : string) : list string := PyStr.split "." (ref_path s).

(** The mapping a path is walked in, and the warning of a failed walk. *)
Definition ref_root (config : json) (data : dict) (parts : list string) : json :=
  if String.eqb (hd "" parts) "config" then config else JDict data.

Definition ref_warning (s : string) : log_record :=
  (WARNING,
   (if String.eqb (hd "" (ref_parts s)) "config"
    then "Could not resolve config reference: "
    else "Could not resolve reference: ") ++ ref_path s).

Definition is_reference_string (s : string) : bool :=
  PyStr.startswith s "{{" && PyStr.endswith s "}}".

(** What [_resolve_inputs] binds a declared input to. *)
Definition resolved_pair (config : json) (data : dict) (kv : string * json)
  : string * json :=
  (fst kv, fst (resolve_value config data (snd kv))).

(** ** HandlerRegistry: the agents package and [_load_agent] *)

Inductive agent_class : Type :=
| BaseAgent
| ProspectSearchAgent
| DataEnrichmentAgent
| ScoringAgent
| OutreachContentAgent
| OutreachExecutorAgent
| ResponseTrackerAgent
| FeedbackTrainerAgent.

(** The modules of the package with the agent classes each one binds: its
    own and the imported [BaseAgent]; the module of the package itself,
    [__init__], binds them all.  The other names a module binds (those of
    [typing], the logger) are left out: none of them is spelt as a module
    of the package is, whatever the case of its letters. *)
Definition agent_modules : list (string * list (string * agent_class)) :=
  [ ("base_agent", [("BaseAgent", BaseAgent)]);
    ("prospectsearchagent",
       [("BaseAgent", BaseAgent); ("ProspectSearchAgent", ProspectSearchAgent)]);
    ("dataenrichmentagent",
       [("BaseAgent", BaseAgent); ("DataEnrichmentAgent", DataEnrichmentAgent)]);
    ("scoringagent", [("BaseAgent", BaseAgent); ("ScoringAgent", ScoringAgent)]);
    ("outreachcontentagent",
       [("BaseAgent", BaseAgent); ("OutreachContentAgent", OutreachContentAgent)]);
    ("outreachexecutoragent",
       [("BaseAgent", BaseAgent); ("OutreachExecutorAgent", OutreachExecutorAgent)]);
    ("responsetrackeragent",
       [("BaseAgent", BaseAgent); ("ResponseTrackerAgent", ResponseTrackerAgent)]);
    ("feedbacktraineragent",
       [("BaseAgent", BaseAgent); ("FeedbackTrainerAgent", FeedbackTrainerAgent)]);
    ("__init__",
       [("BaseAgent", BaseAgent);
        ("ProspectSearchAgent", ProspectSearchAgent);
        ("DataEnrichmentAgent", DataEnrichmentAgent);
        ("ScoringAgent", ScoringAgent);
        ("OutreachContentAgent", OutreachContentAgent);
        ("OutreachExecutorAgent", OutreachExecutorAgent);
        ("ResponseTrackerAgent", ResponseTrackerAgent);
        ("FeedbackTrainerAgent", FeedbackTrainerAgent)]) ].

Fixpoint assoc {A : Type} (l : list (string * A)) (k : string) : option A :=
  match l with
  | [] => None
  | (k', v) :: r => if String.eqb k' k then Some v else assoc r k
  end.

(** What [getattr(module, agent_name)] finds: a class the module binds, or
    the [__init__] method a module object has from its type.  Of the names
    a module object has beyond its bindings this is the only one that is
    also the name of a module. *)
Inductive attribute : Type :=
| Class (c : agent_class)
| ModuleInit.

Definition getattr (attrs : list (string * agent_class)) (name : string)
  : option attribute :=
  match assoc attrs name with
  | Some c => Some (Class c)
  | None => if String.eqb name "__init__" then Some ModuleInit else None
  end.

(** The exceptions [_load_agent] catches: no module of the path, and no
    attribute of the name in the module. *)
Inductive lookup_error : Type :=
| ImportError (module_path : string)
| AttributeError (module_path name : string).

(** The first two statements of the [try] block of [_load_agent]: what
    the name is bound to in the module of its lower-cased name, or the
    exception of the import or of [getattr]. *)
Definition lookup_class (agent_name : string) : attribute + lookup_error :=
  let module_name := PyStr.lower agent_name in
  let module_path := "agents." ++ module_name in
  match assoc agent_modules module_name with
  | None => inr (ImportError module_path)
  | Some attrs =>
      match getattr attrs agent_name with
      | Some a => inl a
      | None => inr (AttributeError module_path agent_name)
      end
  end.

(** [agent_class(llm=self.llm)] returns an agent for the seven subclasses.
    [BaseAgent] takes a name as well, and the method of a module object
    the name of the module: called with [llm] alone they raise
    [TypeError]. *)
Definition instantiable (a : attribute) : bool :=
  match a with
  | Class BaseAgent => false
  | Class _ => true
  | ModuleInit => false
  end.

(** The names for which [_load_agent] returns an agent. *)
Definition agent_loads (agent_name : string) : bool :=
  match lookup_class agent_name with
  | inl a => instantiable a
  | inr _ => true
  end.

(** The name each subclass hands to [BaseAgent.__init__]. *)
Definition class_name (c : agent_class) : string :=
  match c with
  | BaseAgent => "BaseAgent"
  | ProspectSearchAgent => "ProspectSearchAgent"
  | DataEnrichmentAgent => "DataEnrichmentAgent"
  | ScoringAgent => "ScoringAgent"
  | OutreachContentAgent => "OutreachContentAgent"
  | OutreachExecutorAgent => "OutreachExecutorAgent"
  | ResponseTrackerAgent => "ResponseTrackerAgent"
  | FeedbackTrainerAgent => "FeedbackTrainerAgent"
  end.

Module Agent.
(** An agent object: [obj] is its identity, [memory] what it has
    accumulated ([reasoning_history] and whatever else its class keeps). *)
Record t (mem : Type) : Type := mk {
  obj : nat;
  class : agent_class;
  agent_name : string;
  memory : mem
}.
Arguments mk {mem} obj class agent_name memory.
Arguments obj {mem} t.
Arguments class {mem} t.
Arguments agent_name {mem} t.
Arguments memory {mem} t.
End Agent.

(** ** The graph library *)

Inductive target : Type :=
| Node (name : string)
| END.

Module StateGraph.
Record t : Type := mk {
  nodes : list (string * Step.t);
  edges : list (string * target);
  entry_point : option string
}.
End StateGraph.

(** ** Sample handlers, workflows and environments *)

Module Sample.

(** The scenario of two steps: [A] returns a count, [B] doubles its input
    [n]; every other agent raises. *)
Definition handler (c : agent_class) (name : string) (m : nat) (inputs : dict)
    (instructions : string) (tools : json) : (json + string) * nat :=
  if String.eqb name "A" then (inl (JDict [("count", JNum 3)]), S m)
  else if String.eqb name "B" then
    match Dict.get inputs "n" with
    | Some (JNum n) => (inl (JDict [("doubled", JNum (n * 2))]), S m)
    | _ => (inr "n is not a number", S m)
    end
  else (inr "boom", S m).

Definition no_env : environ := fun _ => None.

(** A graph library that reserves the names of its start and end nodes
    and allows twenty-five node runs. *)
Definition refuses (name : string) : option string :=
  if String.eqb name "__start__" || String.eqb name "__end__"
  then Some ("Node `" ++ name ++ "` is reserved.")
  else None.

Definition recursion_limit : nat := 25.

(** The texts of the interpreter for a name of letters, digits and
    underscores. *)
Definition describe (e : lookup_error) : string :=
  match e with
  | ImportError module_path => "No module named '" ++ module_path ++ "'"
  | AttributeError module_path name =>
      "module '" ++ module_path ++ "' has no attribute '" ++ name ++ "'"
  end.

Definition step_A : Step.t := Step.mk "a" "A" None None None.

Definition step_B : Step.t :=
  Step.mk "b" "B" (Some [("n", JStr "{{a.output.count}}")]) (Some "double it")
          (Some [JDict [("name", JStr "Clay");
                        ("config", JDict [("api_key", JStr "{{API_KEY}}")])]]).

Definition step_X : Step.t := Step.mk "x" "X" None None None.

Definition two_steps : Workflow.t := Workflow.mk "demo" [step_A; step_B] [].

Definition three_steps : Workflow.t := Workflow.mk "demo" [step_A; step_X; step_B] [].

(** A step whose agent has the name of the package's own module. *)
Definition step_I : Step.t := Step.mk "i" "__init__" None None None.

Definition misnamed : Workflow.t := Workflow.mk "demo" [step_A; step_I; step_B] [].

(** An environment whose variable [K] holds one double quote, and a step
    whose tool config names it. *)
Definition quote_env : environ :=
  fun var => if String.eqb var "K" then Some (String Json.quote "") else None.

Definition step_Q : Step.t :=
  Step.mk "q" "A" None None
          (Some [JDict [("name", JStr "Clay");
                        ("config", JDict [("api_key", JStr "{{K}}")])]]).

Definition broken : Workflow.t := Workflow.mk "demo" [step_A; step_Q; step_B] [].

Definition broken_first : Workflow.t := Workflow.mk "demo" [step_Q; step_B] [].

(** A document with a top-level [config] entry. *)
Definition with_config : Workflow.t :=
  Workflow.mk "demo" [step_A]
    [("config", JDict [("scoring", JNum 5); ("workflow_name", JStr "inner")])].

Definition seed : dict := [("seed", JDict [("n", JNum 1)])].

Definition config_seed : dict := [("config", JDict [("x", JNum 1)])].

Definition declared_inputs : dict :=
  [("n", JStr "{{a.output.count}}");
   ("nested", JList [JStr "{{a.output.count}}"]);
   ("m", JNum 1)].

Definition empty_state : WorkflowState.t := WorkflowState.mk "demo" "" [] [] [].

(** Tool configs: one that names [API_KEY], one that names [K] too, one
    with no token. *)
Definition api_config : json :=
  JDict [("tools",
          JList [JDict [("name", JStr "Clay");
                        ("config", JDict [("api_key", JStr "{{API_KEY}}");
                                          ("limit", JNum 50)])]])].

Definition two_tokens : json :=
  JDict [("api_key", JStr "{{API_KEY}}"); ("other", JStr "{{K}}")].

Definition plain_config : json :=
  JDict [("tools",
          JList [JDict [("name", JStr "Clay");
                        ("config", JDict [("endpoint", JStr "https://api.clay.com/{v1}");
                                          ("limit", JNum 50);
                                          ("tags", JList [JStr "a"; JNull; JBool true])])]])].

(** One with floats. *)
Definition float_config : json :=
  JDict [("tools",
          JList [JDict [("name", JStr "Clay");
                        ("config", JDict [("rate", JFloat "0.5");
                                          ("scale", JFloat "1e+22");
                                          ("bound", JFloat "-Infinity");
                                          ("endpoint", JStr "{v1}")])]])].

(** An environment whose variable [K] holds an e with an acute accent,
    the character DEL and a tilde, and a config that names it, with such
    an e of its own and a float. *)
Definition accent_env : environ :=
  fun var =>
    if String.eqb var "K" then Some (String "233" (String "127" "~")) else None.

Definition mixed_config : json :=
  JDict [("api_key", JStr "{{API_KEY}}");
         ("other", JStr (String "233" " {{K}}"));
         ("rate", JFloat "0.5")].

End Sample.

(** The state a step leaves: after a result, and after an exception. *)
Definition state_after_result (s : Step.t) (inputs : dict) (result : json)
    (state : WorkflowState.t) : WorkflowState.t :=
  WorkflowState.mk
    (WorkflowState.workflow_name state)
    (Step.id s)
    (Dict.set (WorkflowState.data state) (Step.id s) (JDict [("output", result)]))
    (WorkflowState.errors state)
    (WorkflowState.history state
       ++ [History.mk (Step.id s) (Step.agent s) inputs result])%list.

Definition state_after_error (s : Step.t) (msg : string)
    (state : WorkflowState.t) : WorkflowState.t :=
  WorkflowState.mk
    (WorkflowState.workflow_name state)
    (WorkflowState.current_step state)
    (WorkflowState.data state)
    (WorkflowState.errors state ++ [(Step.id s ++ ": " ++ msg)%string])%list
    (WorkflowState.history state).

Definition state_after (s : Step.t) (inputs : dict) (outcome : json + string)
    (state : WorkflowState.t) : WorkflowState.t :=
  match outcome with
  | inl result => state_after_result s inputs result state
  | inr msg => state_after_error s msg state
  end.

(** ** GraphEngine *)

Section Engine.

(** The handlers are external: [agent_execute] is what
    [agent.execute(inputs, instructions, tools)] does for an agent of a
    class, a name and a memory: the result, or the message [str(e)] of the
    [Exception] it raises, and the agent's memory afterwards.  A handler
    is a function of what it is given: the values are passed to it, not
    shared with it, so what a handler writes into its inputs is not seen
    in the state. *)
Variable mem : Type.
Variable new_memory : mem.
Variable agent_execute :
  agent_class -> string -> mem -> dict -> string -> json -> (json + string) * mem.
Variable env : environ.

(** [describe e] is [str(e)], the text the interpreter gives the exception
    of a failed lookup. *)
Variable describe : lookup_error -> string.

(** The graph library: [refuses name] is the message with which it
    refuses a name for a node of a graph over [WorkflowState] (a name it
    reserves, a key of the state), and [recursion_limit] the number of
    node runs it allows in one [invoke]. *)
Variable refuses : string -> option string.
Variable recursion_limit : nat.

(** The builder object: [self.agents], the next object identity and the
    records of the module's logger. *)
Record builder : Type := mk_builder {
  agents : list (string * Agent.t mem);
  next_obj : nat;
  log : list log_record
}.

Definition M (A : Type) : Type := builder -> result A * builder.

Definition ret {A : Type} (a : A) : M A := fun b => (Ok a, b).

Definition raise {A : Type} (e : exn) : M A := fun b => (Raise e, b).

Definition bind {A B : Type} (m : M A) (f : A -> M B) : M B :=
  fun b =>
    match m b with
    | (Ok a, b') => f a b'
    | (Raise e, b') => (Raise e, b')
    end.

Notation "x <- m ;; k" := (bind m (fun x => k))
  (at level 61, m at next level, right associativity).
Notation "m ;; k" := (bind m (fun _ => k))
  (at level 61, right associativity).

Definition logger (records : list log_record) : M unit :=
  fun b => (Ok tt, mk_builder (agents b) (next_obj b) (log b ++ records)).

Definition logger_info (msg : string) : M unit := logger [(INFO, msg)].

Definition logger_error (msg : string) : M unit := logger [(ERROR, msg)].

Definition _validate_workflow (w : Workflow.t) : M unit :=
  match Workflow.steps w with
  | [] => raise (ValueError "Workflow must have at least one step")
  | _ => logger_info "Workflow validation passed"
  end.

(** A new object of the class. *)
Definition construct (c : agent_class) (agent_name : string) : M (Agent.t mem) :=
  fun b =>
    (Ok (Agent.mk (next_obj b) c agent_name new_memory),
     mk_builder (agents b) (S (next_obj b)) (log b)).

(** [agent_class(llm=self.llm)] *)
Definition instantiate (a : attribute) : M (Agent.t mem) :=
  match a with
  | Class BaseAgent => raise TypeError
  | Class c => construct c (class_name c)
  | ModuleInit => raise TypeError
  end.

(** The [except] clause catches the exceptions of the lookup, not the
    [TypeError] of a call. *)
Definition _load_agent (agent_name : string) : M (Agent.t mem) :=
  match lookup_class agent_name with
  | inl a => instantiate a
  | inr e =>
      logger_error ("Failed to load agent " ++ agent_name ++ ": " ++ describe e) ;;
      construct BaseAgent agent_name
  end.

Fixpoint assoc_set {A : Type} (l : list (string * A)) (k : string) (v : A)
  : list (string * A) :=
  match l with
  | [] => [(k, v)]
  | (k', v') :: r =>
      if String.eqb k' k then (k', v) :: r else (k', v') :: assoc_set r k v
  end.

Definition store_agent (agent_name : string) (a : Agent.t mem) : M unit :=
  fun b => (Ok tt, mk_builder (assoc_set (agents b) agent_name a) (next_obj b) (log b)).

(** [if agent_name not in self.agents: ...; agent = self.agents[agent_name]] *)
Definition get_agent (agent_name : string) : M (Agent.t mem) :=
  fun b =>
    match assoc (agents b) agent_name with
    | Some a => (Ok a, b)
    | None => (a <- _load_agent agent_name ;; store_agent agent_name a ;; ret a) b
    end.

(** [agent.execute(...)]: the call changes the agent's memory.  The
    object is the one [self.agents] holds under the step's agent name, and
    no other entry holds it: each entry is made by a call of its own to
    [_load_agent]. *)
Definition call_agent (agent_name : string) (a : Agent.t mem) (inputs : dict)
    (instructions : string) (tools : json) : M (json + string) :=
  fun b =>
    let (outcome, m') :=
      agent_execute (Agent.class a) (Agent.agent_name a) (Agent.memory a)
                    inputs instructions tools in
    let a' := Agent.mk (Agent.obj a) (Agent.class a) (Agent.agent_name a) m' in
    (Ok outcome,
     mk_builder (assoc_set (agents b) agent_name a') (next_obj b) (log b)).

Definition lift {A : Type} (r : result A) : M A := fun b => (r, b).

Definition or_default {A : Type} (o : option A) (d : A) : A :=
  match o with
  | Some x => x
  | None => d
  end.

(** [str(e)] for the exceptions of indexing. *)
Definition exn_message (e : exn) : string :=
  match e with
  | KeyError k => "'" ++ k ++ "'"
  | ValueError msg => msg
  | _ => "object is not subscriptable"
  end.

(** The node function of a step, in the three parts of its body.  First
    what precedes the [try]: the agent, the resolved inputs and the
    resolved tool configs.  An exception here is not caught. *)
Definition prepare (w : Workflow.t) (step_config : Step.t) (state : WorkflowState.t)
  : M (Agent.t mem * dict * json) :=
  let step_id := Step.id step_config in
  let agent_name := Step.agent step_config in
  logger_info ("Executing node: " ++ step_id ++ " (" ++ agent_name ++ ")") ;;
  agent <- get_agent agent_name ;;
  let (inputs, warnings) :=
    _resolve_inputs (workflow_config w)
                    (or_default (Step.inputs step_config) []) state in
  logger warnings ;;
  tools_config <-
    lift (_resolve_env_variables env
            (JDict [("tools", JList (or_default (Step.tools step_config) []))])) ;;
  ret (agent, inputs, tools_config).

(** The call inside the [try]: the handler's result, or the message of
    the exception.  [tools_config['tools']] is evaluated there too. *)
Definition attempt (step_config : Step.t) (agent : Agent.t mem) (inputs : dict)
    (tools_config : json) : M (json + string) :=
  match walk tools_config ["tools"] with
  | Ok tools =>
      call_agent (Step.agent step_config) agent inputs
                 (or_default (Step.instructions step_config) "") tools
  | Raise e => ret (inr (exn_message e))
  end.

(** The rest of the [try] block on a result, the [except] block on an
    exception. *)
Definition commit (step_config : Step.t) (inputs : dict) (outcome : json + string)
    (state : WorkflowState.t) : M WorkflowState.t :=
  let step_id := Step.id step_config in
  match outcome with
  | inl result =>
      logger_info ("Node " ++ step_id ++ " completed successfully") ;;
      ret (WorkflowState.mk
             (WorkflowState.workflow_name state)
             step_id
             (Dict.set (WorkflowState.data state) step_id
                       (JDict [("output", result)]))
             (WorkflowState.errors state)
             (WorkflowState.history state
                ++ [History.mk step_id (Step.agent step_config) inputs result]))
  | inr e =>
      logger_error ("Error in node " ++ step_id ++ ": " ++ e) ;;
      ret (WorkflowState.mk
             (WorkflowState.workflow_name state)
             (WorkflowState.current_step state)
             (WorkflowState.data state)
             (WorkflowState.errors state ++ [step_id ++ ": " ++ e])
             (WorkflowState.history state))
  end.

Definition node_function (w : Workflow.t) (step_config : Step.t)
    (state : WorkflowState.t) : M WorkflowState.t :=
  p <- prepare w step_config state ;;
  let '(agent, inputs, tools_config) := p in
  outcome <- attempt step_config agent inputs tools_config ;;
  commit step_config inputs outcome state.

(** [workflow.add_node(name, f)]: the library refuses a name the graph
    already holds, and the names of [refuses].  The node function is the
    one [_create_node_function] makes for the step, so the step stands for
    it. *)
Definition add_node (g : StateGraph.t) (name : string) (step_config : Step.t)
  : M StateGraph.t :=
  match assoc (StateGraph.nodes g) name with
  | Some _ => raise (ValueError ("Node `" ++ name ++ "` already present."))
  | None =>
      match refuses name with
      | Some msg => raise (ValueError msg)
      | None =>
          ret (StateGraph.mk (StateGraph.nodes g ++ [(name, step_config)])
                             (StateGraph.edges g) (StateGraph.entry_point g))
      end
  end.

Definition add_edge (g : StateGraph.t) (start : string) (stop : target)
  : StateGraph.t :=
  StateGraph.mk (StateGraph.nodes g) (StateGraph.edges g ++ [(start, stop)])
                (StateGraph.entry_point g).

Definition set_entry_point (g : StateGraph.t) (name : string) : StateGraph.t :=
  StateGraph.mk (StateGraph.nodes g) (StateGraph.edges g) (Some name).

Fixpoint add_nodes (g : StateGraph.t) (steps : list Step.t) : M StateGraph.t :=
  match steps with
  | [] => ret g
  | step :: rest => g' <- add_node g (Step.id step) step ;; add_nodes g' rest
  end.

(** [for i in range(len(steps) - 1): add_edge(steps[i], steps[i+1])] *)
Fixpoint add_edges (g : StateGraph.t) (steps : list Step.t) : StateGraph.t :=
  match steps with
  | a :: ((b :: _) as rest) =>
      add_edges (add_edge g (Step.id a) (Node (Step.id b))) rest
  | _ => g
  end.

(** [build_graph]: the nodes, the edges between consecutive steps, the
    entry point and the edge to [END].  [compile] then checks the graph,
    in which every node lies on the path from the entry point to [END]. *)
Definition build_graph (w : Workflow.t) : M StateGraph.t :=
  let steps := Workflow.steps w in
  g <- add_nodes (StateGraph.mk [] [] None) steps ;;
  let g := add_edges g steps in
  match steps with
  | [] => raise IndexError
  | first :: _ =>
      let g := set_entry_point g (Step.id first) in
      let g := add_edge g (Step.id (last steps first)) END in
      logger_info "LangGraph built successfully" ;;
      ret g
  end.

(** [graph.invoke]: from a node, run its function and follow its edge,
    until [END].  [fuel] is the number of node runs still allowed. *)
Fixpoint run_from (w : Workflow.t) (g : StateGraph.t) (fuel : nat)
    (name : string) (state : WorkflowState.t) : M WorkflowState.t :=
  match fuel with
  | O => raise GraphRecursionError
  | S n =>
      match assoc (StateGraph.nodes g) name with
      | None => raise (KeyError name)
      | Some step_config =>
          state' <- node_function w step_config state ;;
          match assoc (StateGraph.edges g) name with
          | Some (Node next) => run_from w g n next state'
          | Some END => ret state'
          | None => ret state'
          end
      end
  end.

Definition invoke (w : Workflow.t) (g : StateGraph.t) (state : WorkflowState.t)
  : M WorkflowState.t :=
  match StateGraph.entry_point g with
  | Some name => run_from w g recursion_limit name state
  | None => raise (ValueError "Graph must have an entrypoint")
  end.

(** [initial_data or {}] *)
Definition initial_or_empty (initial_data : option dict) : dict :=
  or_default initial_data [].

Definition initial_state (w : Workflow.t) (initial_data : option dict)
  : WorkflowState.t :=
  WorkflowState.mk (Workflow.workflow_name w) "" (initial_or_empty initial_data)
                   [] [].

(** [execute] on a builder that has not built its graph yet, which it
    then does first. *)
Definition execute (w : Workflow.t) (initial_data : option dict) : M RunResult.t :=
  g <- build_graph w ;;
  logger_info ("Starting workflow execution: " ++ Workflow.workflow_name w) ;;
  final_state <- invoke w g (initial_state w initial_data) ;;
  logger_info "Workflow execution completed" ;;
  ret (RunResult.mk
         (Nat.eqb (List.length (WorkflowState.errors final_state)) 0)
         (WorkflowState.data final_state)
         (WorkflowState.errors final_state)
         (WorkflowState.history final_state)).

Definition new_builder : builder := mk_builder [] 0 [].

(** The declared steps, one node function after the other: what a run of
    the graph is shown to amount to. *)
Fixpoint run_steps (w : Workflow.t) (steps : list Step.t) (state : WorkflowState.t)
  : M WorkflowState.t :=
  match steps with
  | [] => ret state
  | step :: rest => state' <- node_function w step state ;; run_steps w rest state'
  end.

(** The builder when [execute] starts the graph: the graph is built and
    the start of the run is logged. *)
Definition started (w : Workflow.t) (b : builder) : builder :=
  mk_builder (agents b) (next_obj b)
    (log b ++ [(INFO, "LangGraph built successfully");
               (INFO, "Starting workflow execution: " ++ Workflow.workflow_name w)]).

(** What the handler call of a step comes to, for the agent, the inputs
    and the tool configs the node has before its [try]: the result that
    [agent.execute] returns, or the message of the exception it raises
    (that of indexing, when the resolved configs have no entry
    [tools]). *)
Definition handler_outcome (step_config : Step.t) (agent : Agent.t mem)
    (inputs : dict) (tools_config : json) : json + string :=
  match walk tools_config ["tools"] with
  | Ok tools =>
      fst (agent_execute (Agent.class agent) (Agent.agent_name agent)
             (Agent.memory agent) inputs
             (or_default (Step.instructions step_config) "") tools)
  | Raise e => inr (exn_message e)
  end.

(** The handler calls of the declared steps, one after the other: for
    each step the inputs it resolved in the state the steps before it
    left, and the outcome of its handler call for the agent the registry
    gave it.  The list ends before a step that raises ahead of its
    call. *)
Fixpoint outcomes_of (w : Workflow.t) (steps : list Step.t) (state : WorkflowState.t)
    (b : builder) : list (dict * (json + string)) :=
  match steps with
  | [] => []
  | step :: rest =>
      match prepare w step state b with
      | (Ok (agent, inputs, tools_config), _) =>
          let outcome := handler_outcome step agent inputs tools_config in
          (inputs, outcome)
            :: outcomes_of w rest (state_after step inputs outcome state)
                 (snd (node_function w step state b))
      | (Raise _, _) => []
      end
  end.

(** The tool configs of a step resolve. *)
Definition config_resolves (step_config : Step.t) : Prop :=
  exists tools_config,
    _resolve_env_variables env
      (JDict [("tools", JList (or_default (Step.tools step_config) []))])
    = Ok tools_config.

(** What [get_agent] constructs for a name that loads and that it does
    not hold, and what [_load_agent] logs for it. *)
Definition fresh_agent (name : string) (b : builder) : Agent.t mem :=
  match lookup_class name with
  | inl (Class c) => Agent.mk (next_obj b) c (class_name c) new_memory
  | _ => Agent.mk (next_obj b) BaseAgent name new_memory
  end.

Definition load_records (name : string) : list log_record :=
  match lookup_class name with
  | inl _ => []
  | inr e => [(ERROR, "Failed to load agent " ++ name ++ ": " ++ describe e)]
  end.

(** Two states of one agent object. *)
Definition same_object (a a' : Agent.t mem) : Prop :=
  Agent.obj a' = Agent.obj a
  /\ Agent.class a' = Agent.class a
  /\ Agent.agent_name a' = Agent.agent_name a.

End Engine.

(** The record of the logger for a node that starts, and the test for
    such records. *)
Definition executing_record (s : Step.t) : log_record :=
  (INFO, "Executing node: " ++ Step.id s ++ " (" ++ Step.agent s ++ ")").

Definition is_executing (r : log_record) : bool :=
  match fst r with
  | INFO => PyStr.startswith (snd r) "Executing node: "
  | _ => false
  end.

(** The edges [build_graph] adds for the steps, the one to [END]
    included. *)
Fixpoint edges_of (steps : list Step.t) : list (string * target) :=
  match steps with
  | [] => []
  | a :: rest =>
      (Step.id a, match rest with
                  | [] => END
                  | b :: _ => Node (Step.id b)
                  end) :: edges_of rest
  end.

Definition chain_graph (steps : list Step.t) : StateGraph.t :=
  StateGraph.mk (map (fun s => (Step.id s, s)) steps) (edges_of steps)
                (option_map Step.id (hd_error steps)).

(** What the steps leave in the state, given for each step the inputs it
    resolved and the outcome of its handler call: a history record for a
    result, an error for an exception. *)
Definition history_of (steps : list Step.t) (outcomes : list (dict * (json + string)))
  : list History.t :=
  flat_map
    (fun so : Step.t * (dict * (json + string)) =>
       match snd (snd so) with
       | inl result => [History.mk (Step.id (fst so)) (Step.agent (fst so))
                                   (fst (snd so)) result]
       | inr _ => []
       end)
    (combine steps outcomes).

Definition errors_of (steps : list Step.t) (outcomes : list (dict * (json + string)))
  : list string :=
  flat_map
    (fun so : Step.t * (dict * (json + string)) =>
       match snd (snd so) with
       | inl _ => []
       | inr msg => [Step.id (fst so) ++ ": " ++ msg]
       end)
    (combine steps outcomes).

(** [state['data'][step_id] = {'output': result}] for a history record. *)
Definition record_output (data : dict) (h : History.t) : dict :=
  Dict.set data (History.step h) (JDict [("output", History.output h)]).

(** ** Further predicates and sample data *)

(** Text of whitespace only. *)
Fixpoint blank (s : string) : bool :=
  match s with
  | "" => true
  | String c r => PyStr.isspace c && blank r
  end.

Module Fixture.

(** The data of a state in which a step [a] has returned a count and a
    list of leads. *)
Definition data : dict :=
  [("a", JDict [("output", JDict [("count", JNum 3);
                                  ("leads", JList [JStr "x"])])])].

End Fixture.

(** ** Python's view of JSON values *)

Module Py.

(** [sub in s] for strings. *)
Fixpoint contains (s sub : string) : bool :=
  PyStr.startswith s sub
  || match s with
     | "" => false
     | String _ r => contains r sub
     end.

(** The number of fraction digits and the exponent of a float literal of
    the decoder, and whether the float it denotes is zero: its digits are
    all zero, or it lies at most half the least positive float above
    zero, [2 ** -1075], which rounds to zero. *)
Definition exponent_of (e : string) : Z :=
  match e with
  | String _ (String "-" ds) => (- Json.Z_of_string ds)%Z
  | String _ (String "+" ds) => Json.Z_of_string ds
  | String _ ds => Json.Z_of_string ds
  | "" => 0%Z
  end.

Definition float_is_zero (literal : string) : bool :=
  match Json.scan_int literal with
  | None => false
  | Some (i, r1) =>
      let (f, r2) := Json.scan_frac r1 in
      let (e, _) := Json.scan_exp r2 in
      let digits := Z.abs (Json.Z_of_string (i ++ PyStr.drop 1 f)) in
      let scale := (exponent_of e - Z.of_nat (String.length (PyStr.drop 1 f)))%Z in
      Z.eqb digits 0
      || (Z.ltb scale 0 && Z.leb (digits * 2 ^ 1075) (10 ^ (- scale)))%Z
  end.

(** The truth value of a value: [bool(v)]. *)
Definition truthy (v : json) : bool :=
  match v with
  | JNull => false
  | JBool b => b
  | JNum z => negb (Z.eqb z 0)
  | JFloat literal => negb (float_is_zero literal)
  | JStr s => negb (String.eqb s "")
  | JList l => match l with [] => false | _ => true end
  | JDict d => match d with [] => false | _ => true end
  end.

(** [key in v] for a string [key]: a key of a mapping, an item of a
    sequence, a part of a string; other values are not iterable. *)
Definition has (v : json) (key : string) : result bool :=
  match v with
  | JDict d => Ok (existsb (String.eqb key) (Dict.keys d))
  | JList l =>
      Ok (existsb (fun x => match x with
                            | JStr s => String.eqb s key
                            | _ => false
                            end) l)
  | JStr s => Ok (contains s key)
  | _ => Raise TypeError
  end.

(** [type(v).__name__] *)
Definition type_name (v : json) : string :=
  match v with
  | JNull => "NoneType"
  | JBool _ => "bool"
  | JNum _ => "int"
  | JFloat _ => "float"
  | JStr _ => "str"
  | JList _ => "list"
  | JDict _ => "dict"
  end.

(** The exceptions met outside the graph: those of the engine, the
    [AttributeError] of a method the value's type does not have, the
    [KeyError] of an integer key, and those of [open]. *)
Inductive raised : Type :=
| Engine (e : exn)
| AttributeError (type_name attribute : string)
| KeyErrorInt (key : Z)
| FileNotFoundError
| OSError.

(** What a call gives: [inl] the value it returns, [inr] the exception
    it raises. *)
Definition of_result {A : Type} (r : result A) : A + raised :=
  match r with
  | Ok a => inl a
  | Raise e => inr (Engine e)
  end.

Definition bind {A B : Type} (m : A + raised) (f : A -> B + raised) : B + raised :=
  match m with
  | inl a => f a
  | inr e => inr e
  end.

(** [v.get(key, default)] *)
Definition get (v : json) (key : string) (default : json) : json + raised :=
  match v with
  | JDict d => inl (or_default (Dict.get d key) default)
  | _ => inr (AttributeError (type_name v) "get")
  end.

(** [v[key]] for a string [key]. *)
Definition getitem (v : json) (key : string) : json + raised :=
  match v with
  | JDict d =>
      match Dict.get d key with
      | Some x => inl x
      | None => inr (Engine (KeyError key))
      end
  | _ => inr (Engine TypeError)
  end.

(** [v[0]] *)
Definition first (v : json) : json + raised :=
  match v with
  | JList (x :: _) => inl x
  | JList [] => inr (Engine IndexError)
  | JStr (String c _) => inl (JStr (String c ""))
  | JStr "" => inr (Engine IndexError)
  | JDict _ => inr (KeyErrorInt 0)
  | _ => inr (Engine TypeError)
  end.

(** The items a [for] loop over [v] goes through: those of a list, the
    keys of a mapping, the characters of a string. *)
Definition iter (v : json) : list json + raised :=
  match v with
  | JList l => inl l
  | JDict d => inl (map JStr (Dict.keys d))
  | JStr s => inl (map (fun c => JStr (String c "")) (list_ascii_of_string s))
  | _ => inr (Engine TypeError)
  end.

(** [len(v)] *)
Definition len (v : json) : nat + raised :=
  match v with
  | JList l => inl (length l)
  | JDict d => inl (length d)
  | JStr s => inl (String.length s)
  | _ => inr (Engine TypeError)
  end.

(** [v == s] for a string [s]. *)
Definition eq_str (v : json) (s : string) : bool :=
  match v with
  | JStr x => String.eqb x s
  | _ => false
  end.

(** [v.lower()] and [v.startswith(prefix)] *)
Definition lower (v : json) : string + raised :=
  match v with
  | JStr s => inl (PyStr.lower s)
  | _ => inr (AttributeError (type_name v) "lower")
  end.

Definition startswith (v : json) (prefix : string) : bool + raised :=
  match v with
  | JStr s => inl (PyStr.startswith s prefix)
  | _ => inr (AttributeError (type_name v) "startswith")
  end.

(** A [for] loop over [items] that updates [state]; an exception of the
    body ends it. *)
Fixpoint for_each {X S : Type} (items : list X) (body : S -> X -> S + raised)
    (state : S) : S + raised :=
  match items with
  | [] => inl state
  | x :: rest =>
      match body state x with
      | inl state' => for_each rest body state'
      | inr e => inr e
      end
  end.

(** [next((t for t in tools if t['name'] == name), None)] *)
Fixpoint first_named (name : string) (items : list json) : option json + raised :=
  match items with
  | [] => inl None
  | t :: rest =>
      match getitem t "name" with
      | inr e => inr e
      | inl n => if eq_str n name then inl (Some t) else first_named name rest
      end
  end.

Definition next_tool (tools : json) (name : string) : option json + raised :=
  bind (iter tools) (first_named name).

(** [str(n)] for a natural number. *)
Definition str_nat (n : nat) : string := Json.string_of_Z (Z.of_nat n).

End Py.

Declare Scope py_scope.
Notation "x <- m ;; k" := (Py.bind m (fun x => k))
  (at level 61, m at next level, right associativity) : py_scope.

(** ** The workflow document: [load_workflow] and [_validate_workflow] *)

Module Loader.

(** What [open] finds at a path: a file with its text, no file, or
    something it cannot open (a directory, a file without permission),
    which is an [OSError].  Files whose bytes are no text are left out. *)
Inductive file : Type :=
| Text (content : string)
| Missing
| Unreadable.

(** [for key in required_keys: if key not in config: raise ValueError] *)
Fixpoint check_required (config : json) (required_keys : list string) : result unit :=
  match required_keys with
  | [] => Ok tt
  | key :: rest =>
      match Py.has config key with
      | Raise e => Raise e
      | Ok false => Raise (ValueError ("Missing required key in workflow: " ++ key))
      | Ok true => check_required config rest
      end
  end.

(** [_validate_workflow]: the record it logs, or the exception. *)
Definition _validate_workflow (config : json) : result log_record :=
  match check_required config ["workflow_name"; "steps"] with
  | Raise e => Raise e
  | Ok _ =>
      match walk config ["steps"] with
      | Raise e => Raise e
      | Ok steps =>
          if Py.truthy steps then Ok (INFO, "Workflow validation passed")
          else Raise (ValueError "Workflow must have at least one step")
      end
  end.

Section Load.

(** The path the builder was made with, the files of the system, [str(v)]
    for a value, and the text of the decoder's exception for a text. *)
Variable workflow_path : string.
Variable files : string -> file.
Variable py_str : json -> string.
Variable decode_error : string -> string.

(** The part of the builder [load_workflow] works on: [workflow_config]
    and the records of the logger. *)
Record builder : Type := mk {
  workflow_config : option json;
  records : list log_record
}.

Definition logged (b : builder) (r : log_record) : builder :=
  mk (workflow_config b) (records b ++ [r])%list.

(** [load_workflow]: the document is stored before it is looked at; the
    two exceptions of the [except] clauses are logged and raised again,
    any other one leaves as it is. *)
Definition load_workflow (b : builder) : (json + Py.raised) * builder :=
  match files workflow_path with
  | Missing =>
      (inr Py.FileNotFoundError,
       logged b (ERROR, "Workflow file not found: " ++ workflow_path))
  | Unreadable => (inr Py.OSError, b)
  | Text content =>
      match Json.loads content with
      | None =>
          (inr (Py.Engine JSONDecodeError),
           logged b (ERROR, "Invalid JSON in workflow file: " ++ decode_error content))
      | Some config =>
          let b := mk (Some config) (records b) in
          match config with
          | JDict d =>
              let name := or_default (Dict.get d "workflow_name") JNull in
              let b := logged b (INFO, "Loaded workflow: " ++ py_str name) in
              match _validate_workflow config with
              | Ok r => (inl config, logged b r)
              | Raise e => (inr (Py.Engine e), b)
              end
          | _ => (inr (Py.AttributeError (Py.type_name config) "get"), b)
          end
      end
  end.

(** The first lines of [build_graph]:
    [if not self.workflow_config: self.load_workflow()]. *)
Definition ensure_loaded (b : builder) : (unit + Py.raised) * builder :=
  match workflow_config b with
  | Some config =>
      if Py.truthy config then (inl tt, b)
      else match load_workflow b with
           | (inl _, b') => (inl tt, b')
           | (inr e, b') => (inr e, b')
           end
  | None =>
      match load_workflow b with
      | (inl _, b') => (inl tt, b')
      | (inr e, b') => (inr e, b')
      end
  end.

End Load.

(** The records of level [ERROR]. *)
Definition is_error (r : log_record) : bool :=
  match fst r with
  | ERROR => true
  | _ => false
  end.

(** A document, written as [json.dump] writes it. *)
Module Sample.
Definition document : dict :=
  [("workflow_name", JStr "demo");
   ("steps", JList [JDict [("id", JStr "a"); ("agent", JStr "A")]])].
Definition draft : dict := [("steps", JList [])].
Definition files (path : string) : file :=
  if String.eqb path "workflow.json" then Text (Json.dumps (JDict document))
  else if String.eqb path "draft.json" then Text (Json.dumps (JDict draft))
  else Missing.
(** [str(v)] for the values the samples print: a text, [None], a
    boolean, an integer. *)
Definition py_str (v : json) : string :=
  match v with
  | JStr s => s
  | JNull => "None"
  | JBool true => "True"
  | JBool false => "False"
  | JNum z => Json.string_of_Z z
  | _ => "..."
  end.
(** The text of the decoder's exception for the one text the samples do
    not decode. *)
Definition decode_error (content : string) : string :=
  "Expecting value: line 1 column 1 (char 0)".
End Sample.

End Loader.

(** ** The agents

    The classes of [agents/].  A call gives [inl] the value it returns
    or [inr] the exception it raises.  What the program does not decide
    (the model, the services, the random generator, the clock) is a
    variable of a section, given for the call at hand.  The records of
    the agents' own loggers are left out; what a log call evaluates and
    can raise is evaluated where the call stands. *)

Module Agents.

Local Open Scope py_scope.

(** *** [ProspectSearchAgent] *)

Module ProspectSearchAgent.

Definition companies : list string :=
  ["TechCorp Solutions"; "DataDrive Inc"; "CloudScale Systems";
   "Innovation Labs"; "Digital Ventures"; "SmartOps Co";
   "FutureStack Inc"; "AgileWorks"; "NexGen Software"; "Quantum Analytics"].

Definition titles : list string :=
  ["VP of Sales"; "Head of Revenue"; "Chief Revenue Officer";
   "Sales Director"; "VP Marketing"].

Definition signals_map : list (string * string) :=
  [("recent_funding", "Recent $10M Series B");
   ("hiring_for_sales", "Hiring 5+ sales roles");
   ("tech_stack_change", "Migrating to new CRM");
   ("expansion", "Opening new office")].

(** [l[i % len(l)]] *)
Definition cyclic (l : list string) (i : nat) : string :=
  nth (i mod length l) l "".

(** [icp.get('signals', ['general'])[0] if 'signals' in icp else 'general'] *)
Definition signal_key (icp : json) : json + Py.raised :=
  present <- Py.of_result (Py.has icp "signals") ;;
  if present
  then signals <- Py.get icp "signals" (JList [JStr "general"]) ;; Py.first signals
  else inl (JStr "general").

(** [signals_map.get(key, 'Active in target market')]: a list or a
    mapping is no key of a [dict]. *)
Definition signal_text (key : json) : json + Py.raised :=
  match key with
  | JList _ | JDict _ => inr (Py.Engine TypeError)
  | JStr s => inl (JStr (or_default (assoc signals_map s) "Active in target market"))
  | _ => inl (JStr "Active in target market")
  end.

(** The signal of the mock leads. *)
Definition signal_of (icp : json) : json + Py.raised :=
  key <- signal_key icp ;; signal_text key.

(** The lead of turn [i] of the loop of [_generate_mock_leads]. *)
Definition mock_record (source : string) (i : nat) (signal : json) : json :=
  let company := cyclic companies i in
  let n := Py.str_nat (i + 1) in
  JDict
    [("company", JStr company);
     ("contact_name", JStr ("John Doe " ++ n));
     ("email", JStr ("john.doe" ++ n ++ "@"
                     ++ PyStr.replace " " "" (PyStr.lower company) ++ ".com"));
     ("linkedin", JStr ("https://linkedin.com/in/johndoe" ++ n));
     ("title", JStr (cyclic titles i));
     ("signal", signal);
     ("source", JStr source)].

Definition mock_lead (source : string) (icp : json) (i : nat) : json + Py.raised :=
  signal <- signal_of icp ;; inl (mock_record source i signal).

Definition _generate_mock_leads (source : string) (icp : json) (count : nat)
  : list json + Py.raised :=
  Py.for_each (seq 0 count)
    (fun mock_leads i =>
       lead <- mock_lead source icp i ;; inl (mock_leads ++ [lead])%list)
    [].

(** [lead.get('email', '').lower()] *)
Definition email_of (lead : json) : string + Py.raised :=
  v <- Py.get lead "email" (JStr "") ;; Py.lower v.

(** Some lead of [leads] has the email of [lead], letter case apart. *)
Definition email_among (leads : list json) (lead : json) : bool :=
  match email_of lead with
  | inl email =>
      existsb (fun other => match email_of other with
                            | inl e => String.eqb e email
                            | inr _ => false
                            end) leads
  | inr _ => false
  end.

(** A mapping whose [email], if it has one, is a string. *)
Definition has_text_email (lead : json) : bool :=
  match lead with
  | JDict d =>
      match Dict.get d "email" with
      | None | Some (JStr _) => true
      | _ => false
      end
  | _ => false
  end.

(** One turn of the loop of [_deduplicate_leads], on [seen_emails] and
    [unique_leads]. *)
Definition keep_new (state : list string * list json) (lead : json)
  : (list string * list json) + Py.raised :=
  let (seen_emails, unique_leads) := state in
  email <- email_of lead ;;
  if negb (String.eqb email "") && negb (existsb (String.eqb email) seen_emails)
  then inl (email :: seen_emails, (unique_leads ++ [lead])%list)
  else inl (seen_emails, unique_leads).

Definition _deduplicate_leads (leads : list json) : list json + Py.raised :=
  state <- Py.for_each leads keep_new ([], []) ;;
  inl (snd state).

(** [not api_key or api_key.startswith('MISSING')] *)
Definition not_configured (api_key : json) : bool + Py.raised :=
  if Py.truthy api_key then Py.startswith api_key "MISSING" else inl true.

Section Act.

(** The requests are external.  [apollo_attempt] and [clay_attempt] are
    what the [try] block of [_search_apollo] and of [_search_clay] gives
    in this call, if it is reached: the leads it returns for a response of
    status 200, or [None] for another status and for an exception, which
    the [except] clause catches.  The [signals] of the inputs are read
    inside these blocks only. *)
Variable apollo_attempt : option (list json).
Variable clay_attempt : option (list json).

Definition _search_apollo (icp config : json) : list json + Py.raised :=
  api_key <- Py.get config "api_key" (JStr "") ;;
  missing <- not_configured api_key ;;
  if missing then _generate_mock_leads "Apollo" icp 5
  else match apollo_attempt with
       | Some leads => inl leads
       | None => _generate_mock_leads "Apollo" icp 5
       end.

Definition _search_clay (icp config : json) : list json + Py.raised :=
  api_key <- Py.get config "api_key" (JStr "") ;;
  missing <- not_configured api_key ;;
  if missing then _generate_mock_leads "Clay" icp 5
  else match clay_attempt with
       | Some leads => inl leads
       | None => _generate_mock_leads "Clay" icp 5
       end.

(** [if tool: leads.extend(search(icp, signals, tool['config']))] *)
Definition search_with (tool : option json)
    (search : json -> json -> list json + Py.raised) (icp : json)
  : list json + Py.raised :=
  match tool with
  | Some t =>
      if Py.truthy t
      then config <- Py.getitem t "config" ;; search icp config
      else inl []
  | None => inl []
  end.

Definition _act (reasoning : string) (inputs : dict) (tools : json)
  : json + Py.raised :=
  let icp := or_default (Dict.get inputs "icp") (JDict []) in
  apollo_tool <- Py.next_tool tools "ApolloAPI" ;;
  apollo_leads <- search_with apollo_tool _search_apollo icp ;;
  clay_tool <- Py.next_tool tools "ClayAPI" ;;
  clay_leads <- search_with clay_tool _search_clay icp ;;
  unique_leads <- _deduplicate_leads (apollo_leads ++ clay_leads)%list ;;
  inl (JDict [("leads", JList unique_leads);
              ("count", JNum (Z.of_nat (length unique_leads)));
              ("sources", JList [JStr "Apollo"; JStr "Clay"]);
              ("reasoning", JStr reasoning)]).

End Act.

End ProspectSearchAgent.

(** Sample leads and tools. *)
Module Sample.
Definition ada : json :=
  JDict [("contact_name", JStr "Ada"); ("email", JStr "Ada@Example.com");
         ("source", JStr "Apollo")].
Definition ada_again : json :=
  JDict [("contact_name", JStr "A. L."); ("email", JStr "ada@example.COM");
         ("source", JStr "Clay")].
Definition bob : json :=
  JDict [("contact_name", JStr "Bob"); ("email", JStr "bob@example.com");
         ("source", JStr "Clay")].
Definition nameless : json := JDict [("contact_name", JStr "Nobody")].
Definition unconfigured_tools : json :=
  JList [JDict [("name", JStr "ApolloAPI");
                ("config", JDict [("api_key", JStr "MISSING_APOLLO_API_KEY")])];
         JDict [("name", JStr "ClayAPI"); ("config", JDict [])]].
End Sample.

(** *** [DataEnrichmentAgent] *)

Module DataEnrichmentAgent.


(** [any(word in title_lower for word in words)] *)
Definition any_in (title_lower : string) (words : list string) : bool :=
  existsb (Py.contains title_lower) words.

Definition _determine_seniority (title : json) : string + Py.raised :=
  title_lower <- Py.lower title ;;
  if any_in title_lower ["vp"; "chief"; "head"; "director"] then inl "Executive"
  else if any_in title_lower ["manager"; "lead"] then inl "Manager"
  else inl "Individual Contributor".

(** [d.update(pairs)] *)
Definition update (d : dict) (pairs : list (string * json)) : dict :=
  fold_left (fun d kv => Dict.set d (fst kv) (snd kv)) pairs d.

(** [lead.copy()]: a mapping and a list have the method. *)
Definition copy (lead : json) : json + Py.raised :=
  match lead with
  | JDict _ | JList _ => inl lead
  | _ => inr (Py.AttributeError (Py.type_name lead) "copy")
  end.

(** The mock enrichment of [_enrich_lead]. *)
Definition mock_enrichment (role : json) (seniority : string) : list (string * json) :=
  [("role", role);
   ("seniority", JStr seniority);
   ("department", JStr "Sales");
   ("technologies", JList [JStr "Salesforce"; JStr "HubSpot"; JStr "Outreach"]);
   ("company_size", JStr "100-500");
   ("company_industry", JStr "SaaS");
   ("funding_stage", JStr "Series B");
   ("enrichment_confidence", JFloat "0.85")].

Section Act.

(** The request is external.  [builtwith_attempt position] is what the
    [try] block of [_call_builtwith] gives for the lead at a position of
    the loop, if it is reached: the technologies it returns, or [None]
    when it returns the empty mapping (a status that is not 200, errors
    in the response, an exception that is caught). *)
Variable builtwith_attempt : nat -> option (list json).

Definition _call_builtwith (position : nat) (company_domain api_key : json)
  : dict + Py.raised :=
  if negb (Py.truthy company_domain) then inl []
  else
    dotted <- Py.of_result (Py.has company_domain ".") ;;
    if negb dotted then inl []
    else match builtwith_attempt position with
         | Some technologies =>
             inl [("technologies", JList technologies);
                  ("builtwith_enriched", JBool true)]
         | None => inl []
         end.

(** [builtwith_tool and 'api_key' in builtwith_tool.get('config', {})] *)
Definition has_key (builtwith_tool : option json) : bool + Py.raised :=
  match builtwith_tool with
  | Some t =>
      if Py.truthy t
      then config <- Py.get t "config" (JDict []) ;;
           Py.of_result (Py.has config "api_key")
      else inl false
  | None => inl false
  end.

(** The second half of [_enrich_lead], from [if builtwith_tool and ...]. *)
Definition with_builtwith (position : nat) (lead : json) (enriched : dict)
    (builtwith_tool : option json) : dict + Py.raised :=
  keyed <- has_key builtwith_tool ;;
  match builtwith_tool with
  | Some t =>
      if keyed
      then
        config <- Py.getitem t "config" ;;
        api_key <- Py.getitem config "api_key" ;;
        missing <- Py.startswith api_key "MISSING" ;;
        if missing then inl enriched
        else
          company <- Py.get lead "company" (JStr "") ;;
          builtwith_data <- _call_builtwith position company api_key ;;
          match builtwith_data with
          | [] => inl enriched
          | _ => inl (update enriched builtwith_data)
          end
      else inl enriched
  | None => inl enriched
  end.

Definition _enrich_lead (position : nat) (lead : json) (builtwith_tool : option json)
  : json + Py.raised :=
  enriched <- copy lead ;;
  match enriched with
  | JDict d =>
      role <- Py.get lead "title" (JStr "Unknown") ;;
      title <- Py.get lead "title" (JStr "") ;;
      seniority <- _determine_seniority title ;;
      d' <- with_builtwith position lead (update d (mock_enrichment role seniority))
              builtwith_tool ;;
      inl (JDict d')
  | _ => inr (Py.AttributeError (Py.type_name enriched) "update")
  end.

Definition _act (reasoning : string) (inputs : dict) (tools : json)
  : json + Py.raised :=
  let leads := or_default (Dict.get inputs "leads") (JList []) in
  _ <- Py.len leads ;;
  builtwith_tool <- Py.next_tool tools "BuiltWithTool" ;;
  items <- Py.iter leads ;;
  state <- Py.for_each items
             (fun state lead =>
                let (position, enriched_leads) := state : nat * list json in
                enriched_lead <- _enrich_lead position lead builtwith_tool ;;
                inl (S position, enriched_leads ++ [enriched_lead])%list)
             (0, []) ;;
  let enriched_leads := snd state in
  inl (JDict [("enriched_leads", JList enriched_leads);
              ("count", JNum (Z.of_nat (length enriched_leads)));
              ("reasoning", JStr reasoning)]).

End Act.

End DataEnrichmentAgent.

(** *** [OutreachContentAgent] *)

Module OutreachContentAgent.

(** [s.index(c)], for a character that [s] holds. *)
Fixpoint index (c : ascii) (s : string) : nat :=
  match s with
  | "" => 0
  | String x r => if Ascii.eqb x c then 0 else S (index c r)
  end.

(** [s.rindex(c)] *)
Fixpoint rindex (c : ascii) (s : string) : option nat :=
  match s with
  | "" => None
  | String x r =>
      match rindex c r with
      | Some n => Some (S n)
      | None => if Ascii.eqb x c then Some 0 else None
      end
  end.

(** [content[content.index('{') : content.rindex('}') + 1]], for a
    content that holds both braces. *)
Definition braced (content : string) : string :=
  let start := index "{" content in
  let stop := match rindex "}" content with
              | Some n => n + 1
              | None => 0
              end in
  PyStr.take (stop - start) (PyStr.drop start content).

(** [', '.join(technologies)] raises unless it is given strings. *)
Definition joinable (technologies : json) : bool :=
  match Py.iter technologies with
  | inl items => forallb (fun x => match x with
                                   | JStr _ => true
                                   | _ => false
                                   end) items
  | inr _ => false
  end.

(** [l.get('grade') in ['A', 'B']] *)
Definition top_grade (l : dict) : bool :=
  let grade := or_default (Dict.get l "grade") JNull in
  Py.eq_str grade "A" || Py.eq_str grade "B".

(** [[l for l in ranked_leads if l.get('grade') in ['A', 'B']]]: the
    leads kept are mappings. *)
Fixpoint top (items : list json) : list dict + Py.raised :=
  match items with
  | [] => inl []
  | JDict l :: rest =>
      kept <- top rest ;;
      inl (if top_grade l then l :: kept else kept)
  | v :: _ => inr (Py.AttributeError (Py.type_name v) "get")
  end.

Definition nl : string := String "010" "".

Section Act.

(** The model is external.  [reply position] is the content of the
    response to the prompt for the lead at a position of the loop, when
    the call returns one and it is a string; [None] when the call raises
    or the content is no string, which both lead to the fallback.
    [py_str v] is [str(v)] for a value that is no string. *)
Variable reply : nat -> option string.
Variable py_str : json -> string.

(** [f"{v}"] *)
Definition str (v : json) : string :=
  match v with
  | JStr s => s
  | _ => py_str v
  end.

(** [f"{lead.get(key, default)}"] *)
Definition field (lead : dict) (key default : string) : string :=
  str (or_default (Dict.get lead key) (JStr default)).

(** The message the [try] block returns, if it returns one. *)
Definition parsed_reply (position : nat) (lead : dict) : option json :=
  if joinable (or_default (Dict.get lead "technologies") (JList []))
  then match reply position with
       | Some content =>
           if Py.contains content "{" && Py.contains content "}"
           then Json.loads (braced content)
           else None
       | None => None
       end
  else None.

(** The fallback template. *)
Definition fallback (lead : dict) : json :=
  JDict
    [("subject",
      JStr ("Quick question about " ++ field lead "company" "your company"
            ++ "'s analytics"));
     ("body",
      JStr ("Hi " ++ field lead "contact_name" "there" ++ "," ++ nl ++ nl
            ++ "I noticed " ++ field lead "company" "your company" ++ " is "
            ++ field lead "signal" "growing fast" ++ ". Many "
            ++ field lead "title" "sales leaders"
            ++ " we work with struggle to get actionable insights from their data."
            ++ nl ++ nl
            ++ "Axxxxxxx.ai helps B2B teams like yours turn raw data into revenue-driving decisions. Would you be open to a quick 15-min call to explore if we can help?"
            ++ nl ++ nl ++ "Best regards"))].

Definition _generate_message (position : nat) (lead : dict) : json :=
  match parsed_reply position lead with
  | Some message_data => message_data
  | None => fallback lead
  end.

(** The entry [_act] appends for a lead and its message. *)
Definition entry (lead : dict) (message : json) : json + Py.raised :=
  subject <- Py.getitem message "subject" ;;
  body <- Py.getitem message "body" ;;
  inl (JDict [("lead", or_default (Dict.get lead "contact_name") (JStr "Unknown"));
              ("email", or_default (Dict.get lead "email") (JStr ""));
              ("company", or_default (Dict.get lead "company") (JStr ""));
              ("subject", subject);
              ("email_body", body);
              ("score", or_default (Dict.get lead "score") (JNum 0));
              ("grade", or_default (Dict.get lead "grade") (JStr "N/A"))]).

Definition _act (reasoning : string) (inputs : dict) (tools : json)
  : json + Py.raised :=
  let ranked_leads := or_default (Dict.get inputs "ranked_leads") (JList []) in
  items <- Py.iter ranked_leads ;;
  top_leads <- top items ;;
  state <- Py.for_each (firstn 20 top_leads)
             (fun state lead =>
                let (position, messages) := state : nat * list json in
                let message := _generate_message position lead in
                m <- entry lead message ;;
                inl (S position, messages ++ [m])%list)
             (0, []) ;;
  let messages := snd state in
  inl (JDict [("messages", JList messages);
              ("count", JNum (Z.of_nat (length messages)));
              ("reasoning", JStr reasoning)]).

End Act.

End OutreachContentAgent.

(** *** [OutreachExecutorAgent] *)

Module OutreachExecutorAgent.

Section Act.

(** The clock and the random generator are external.  [now] is
    [int(time.time())] when the campaign is named; for the message at a
    position of the loop, [delivered position] is the outcome of
    [random.random() < 0.95] and [sent_at position] the text of
    [time.strftime]. *)
Variable now : Z.
Variable delivered : nat -> bool.
Variable sent_at : nat -> string.

Definition _send_email (position : nat) (message : json) (campaign_id : string)
  : json + Py.raised :=
  _ <- Py.get message "email" (JStr "unknown") ;;
  let success := delivered position in
  email <- Py.get message "email" (JStr "") ;;
  contact_name <- Py.get message "lead" (JStr "") ;;
  company <- Py.get message "company" (JStr "") ;;
  inl (JDict [("email", email);
              ("contact_name", contact_name);
              ("company", company);
              ("status", JStr (if success then "sent" else "failed"));
              ("campaign_id", JStr campaign_id);
              ("sent_at", JStr (sent_at position));
              ("error", if success then JNull else JStr "Simulated failure")]).

(** [sum(1 for s in sent_status if s['status'] == 'sent')] *)
Fixpoint count_sent (sent_status : list json) : nat + Py.raised :=
  match sent_status with
  | [] => inl 0
  | s :: rest =>
      status <- Py.getitem s "status" ;;
      n <- count_sent rest ;;
      inl (if Py.eq_str status "sent" then 1 + n else n)
  end.

Definition _act (reasoning : string) (inputs : dict) (tools : json)
  : json + Py.raised :=
  let messages := or_default (Dict.get inputs "messages") (JList []) in
  total <- Py.len messages ;;
  apollo_tool <- Py.next_tool tools "ApolloAPI" ;;
  let campaign_id := "campaign_" ++ Json.string_of_Z now in
  items <- Py.iter messages ;;
  state <- Py.for_each items
             (fun state message =>
                let (position, sent_status) := state : nat * list json in
                status <- _send_email position message campaign_id ;;
                inl (S position, sent_status ++ [status])%list)
             (0, []) ;;
  let sent_status := snd state in
  success_count <- count_sent sent_status ;;
  inl (JDict [("sent_status", JList sent_status);
              ("campaign_id", JStr campaign_id);
              ("success_count", JNum (Z.of_nat success_count));
              ("total", JNum (Z.of_nat total));
              ("reasoning", JStr reasoning)]).

End Act.

End OutreachExecutorAgent.

(** *** [ResponseTrackerAgent] *)

Module ResponseTrackerAgent.

Section Act.

(** The random generator and the arithmetic of floats are external.
    [num_sent] is what [random.randint(15, 20)] gives; for the response
    at a position of the loop, [draw position k] is the outcome of the
    comparison of the [k]-th stage ([random.random() < 0.35], [< 0.15],
    [< 0.25], [< 0.30]), if it is evaluated.  [rate count total] is
    [round(count / total * 100, 2)]. *)
Variable num_sent : nat.
Variable draw : nat -> nat -> bool.
Variable rate : nat -> nat -> json.

(** The response of turn [i] of the loop of [_generate_mock_responses]. *)
Definition mock_response (campaign_id : json) (i : nat) : json :=
  let opened := draw i 0 in
  let clicked := opened && draw i 1 in
  let replied := clicked && draw i 2 in
  let meeting_booked := replied && draw i 3 in
  JDict [("contact_id", JStr ("contact_" ++ Py.str_nat (i + 1)));
         ("campaign_id", campaign_id);
         ("sent", JBool true);
         ("opened", JBool opened);
         ("clicked", JBool clicked);
         ("replied", JBool replied);
         ("meeting_booked", JBool meeting_booked);
         ("sentiment", JStr (if replied then "positive" else "neutral"))].

Definition _generate_mock_responses (campaign_id : json) : list json :=
  fold_left (fun responses i => responses ++ [mock_response campaign_id i])%list
            (seq 0 num_sent) [].

(** [sum(1 for r in responses if r.get(key))] *)
Fixpoint count (key : string) (responses : list json) : nat + Py.raised :=
  match responses with
  | [] => inl 0
  | r :: rest =>
      v <- Py.get r key JNull ;;
      n <- count key rest ;;
      inl (if Py.truthy v then 1 + n else n)
  end.

Definition _calculate_metrics (responses : list json) : dict + Py.raised :=
  let total := length responses in
  if Nat.eqb total 0 then inl []
  else
    opened <- count "opened" responses ;;
    clicked <- count "clicked" responses ;;
    replied <- count "replied" responses ;;
    meetings <- count "meeting_booked" responses ;;
    inl [("total_sent", JNum (Z.of_nat total));
         ("open_rate", rate opened total);
         ("click_rate", rate clicked total);
         ("reply_rate", rate replied total);
         ("meeting_rate", rate meetings total);
         ("opened", JNum (Z.of_nat opened));
         ("clicked", JNum (Z.of_nat clicked));
         ("replied", JNum (Z.of_nat replied));
         ("meetings_booked", JNum (Z.of_nat meetings))].

Definition _act (reasoning : string) (inputs : dict) (tools : json)
  : json + Py.raised :=
  let campaign_id := or_default (Dict.get inputs "campaign_id") (JStr "") in
  let responses := _generate_mock_responses campaign_id in
  metrics <- _calculate_metrics responses ;;
  inl (JDict [("responses", JList responses);
              ("campaign_id", campaign_id);
              ("metrics", JDict metrics);
              ("reasoning", JStr reasoning)]).

End Act.

End ResponseTrackerAgent.

(** *** [BaseAgent] *)

Module BaseAgent.

(** An entry of [reasoning_history]. *)
Record entry : Type := mk_entry {
  inputs : dict;
  reasoning : json;
  result : json
}.

(** What [_build_react_prompt] reads of the tools: of each one its name,
    then its description.  The text of the prompt is for the model. *)
Definition _build_react_prompt (tools : json) : unit + Py.raised :=
  items <- Py.iter tools ;;
  Py.for_each items
    (fun _ tool =>
       _ <- Py.getitem tool "name" ;;
       _ <- Py.get tool "description" (JStr "No description") ;;
       inl tt)
    tt.

(** The [_act] of the base class. *)
Definition _act (agent_name : string) (reasoning : json) (inputs : dict)
    (tools : json) : json + Py.raised :=
  inl (JDict [("status", JStr "completed");
              ("reasoning", reasoning);
              ("inputs_processed", JDict inputs);
              ("agent", JStr agent_name)]).

Section Execute.

(** The model is external.  [reasoning] is what [_reason] returns in this
    call: the content of the response, or the text [Error in reasoning:
    ...] when the call raises, which [_reason] catches.  [act] is the
    [_act] of the agent's class. *)
Variable reasoning : json.
Variable act : json -> dict -> json -> json + Py.raised.

(** [execute]: the result or the exception, and [reasoning_history]
    afterwards. *)
Definition execute (reasoning_history : list entry) (inputs : dict)
    (instructions : string) (tools : json)
  : (json + Py.raised) * list entry :=
  match _build_react_prompt tools with
  | inr e => (inr e, reasoning_history)
  | inl _ =>
      match act reasoning inputs tools with
      | inl result =>
          (inl result,
           (reasoning_history ++ [mk_entry inputs reasoning result])%list)
      | inr e => (inr e, reasoning_history)
      end
  end.

End Execute.

End BaseAgent.

(** *** The agents as the handlers of the engine *)

Section Handler.

(** [reason] is what the model gives an agent of a name and a history
    for the arguments of a call, [describe_raised e] is [str(e)], and
    [act_of c] the [_act] of a subclass. *)
Variable reason : string -> list BaseAgent.entry -> dict -> string -> json -> json.
Variable describe_raised : Py.raised -> string.
Variable act_of : agent_class -> json -> dict -> json -> json + Py.raised.

(** [agent.execute(inputs, instructions, tools)] as the node function
    sees it: the memory of an agent is its [reasoning_history]. *)
Definition handler (c : agent_class) (agent_name : string)
    (reasoning_history : list BaseAgent.entry) (inputs : dict)
    (instructions : string) (tools : json)
  : (json + string) * list BaseAgent.entry :=
  let act := match c with
             | BaseAgent => BaseAgent._act agent_name
             | _ => act_of c
             end in
  match BaseAgent.execute
          (reason agent_name reasoning_history inputs instructions tools)
          act reasoning_history inputs instructions tools with
  | (inl result, history) => (inl result, history)
  | (inr e, history) => (inr (describe_raised e), history)
  end.

End Handler.

End Agents.

(** * Properties *)

Local Open Scope list_scope.
Unset Implicit Arguments.

(** ** Mappings *)

Lemma get_set_same (d : dict) k v : Dict.get (Dict.set d k v) k = Some v.
Proof.
  induction d as [|[k' v'] d IH]; simpl.
  - now rewrite String.eqb_refl.
  - destruct (String.eqb k' k) eqn:E; simpl; rewrite E; auto.
Qed.

Lemma get_set_other (d : dict) k k' v :
  k' <> k -> Dict.get (Dict.set d k v) k' = Dict.get d k'.
Proof.
  intros N. induction d as [|[k0 v0] d IH]; simpl.
  - destruct (String.eqb_spec k k'); congruence.
  - destruct (String.eqb_spec k0 k); simpl.
    + subst. destruct (String.eqb_spec k k'); congruence.
    + now rewrite IH.
Qed.

Lemma get_none_keys (d : dict) k : Dict.get d k = None <-> ~ In k (Dict.keys d).
Proof.
  induction d as [|[k' v'] d IH]; simpl.
  - tauto.
  - destruct (String.eqb_spec k' k).
    + split; [discriminate | tauto].
    + rewrite IH. tauto.
Qed.

Lemma set_fresh (d : dict) k v :
  ~ In k (Dict.keys d) -> Dict.set d k v = d ++ [(k, v)].
Proof.
  induction d as [|[k' v'] d IH]; simpl; intros N; [reflexivity|].
  destruct (String.eqb_spec k' k); [tauto|].
  rewrite IH; tauto.
Qed.

Lemma keys_set (d : dict) k v :
  Dict.keys (Dict.set d k v)
  = if existsb (String.eqb k) (Dict.keys d) then Dict.keys d else Dict.keys d ++ [k].
Proof.
  induction d as [|[k' v'] d IH]; simpl; [reflexivity|].
  rewrite (String.eqb_sym k k').
  destruct (String.eqb k' k) eqn:E; simpl; [reflexivity|].
  rewrite IH. now destruct (existsb _ _).
Qed.

Lemma fold_set_nodup (l acc : dict) :
  NoDup (Dict.keys (acc ++ l)) ->
  fold_left (fun d kv => Dict.set d (fst kv) (snd kv)) l acc = acc ++ l.
Proof.
  revert acc. induction l as [|[k v] l IH]; intros acc N; simpl.
  - now rewrite List.app_nil_r.
  - rewrite set_fresh.
    + rewrite IH; rewrite <- List.app_assoc; [reflexivity | exact N].
    + unfold Dict.keys in *. rewrite map_app in N. simpl in N.
      apply NoDup_remove_2 in N. intros I. apply N, in_or_app. now left.
Qed.

Lemma of_pairs_nodup (l : dict) : NoDup (Dict.keys l) -> Dict.of_pairs l = l.
Proof. intros N. unfold Dict.of_pairs. now rewrite fold_set_nodup. Qed.

Lemma get_in_nodup (d : dict) k v :
  NoDup (Dict.keys d) -> In (k, v) d -> Dict.get d k = Some v.
Proof.
  induction d as [|[k' v'] d IH]; simpl; intros N I; [tauto|].
  inversion N as [|? ? Hn Hd]; subst.
  destruct I as [E|I].
  - inversion E; subst. now rewrite String.eqb_refl.
  - destruct (String.eqb_spec k' k).
    + subst. exfalso. apply Hn. apply (in_map fst) in I. exact I.
    + auto.
Qed.

(** ** Text *)

Lemma str_app_assoc (a b c : string) : ((a ++ b) ++ c = a ++ (b ++ c))%string.
Proof. induction a as [|x a IH]; simpl; [reflexivity | now rewrite IH]. Qed.

Lemma str_app_nil_r (a : string) : (a ++ "" = a)%string.
Proof. induction a as [|x a IH]; simpl; [reflexivity | now rewrite IH]. Qed.

Lemma str_length_app (a b : string) :
  String.length (a ++ b)%string = String.length a + String.length b.
Proof. induction a as [|x a IH]; simpl; [reflexivity | now rewrite IH]. Qed.

(** ** Decoding what the encoder writes *)

(** *** Strings *)

Lemma scanstring_escape_char c r :
  Json.scanstring (Json.escape_char c ++ r)%string
  = Json.cons_result c (Json.scanstring r).
Proof.
  destruct c as [[] [] [] [] [] [] [] []]; reflexivity.
Qed.

Lemma scanstring_escape s rest :
  Json.scanstring (Json.escape s ++ String Json.quote rest)%string = Some (s, rest).
Proof.
  induction s as [|c s IH]; [reflexivity|].
  cbn [Json.escape]. rewrite str_app_assoc, scanstring_escape_char, IH. reflexivity.
Qed.

(** *** Integers *)

Lemma closes_cases rest :
  closes rest = true ->
  rest = ""%string \/ exists r, rest = String "," r \/ rest = String "]" r \/ rest = String "}" r.
Proof.
  destruct rest as [|c r]; [now left|]. simpl. intros H. right. exists r.
  destruct (Ascii.eqb_spec c ","); [subst; auto|].
  destruct (Ascii.eqb_spec c "]"); [subst; auto|].
  destruct (Ascii.eqb_spec c "}"); [subst; auto|]. discriminate.
Qed.

Lemma scan_digits_uint d rest :
  closes rest = true ->
  Json.scan_digits (NilEmpty.string_of_uint d ++ rest)%string
  = (NilEmpty.string_of_uint d, rest).
Proof.
  intros C. induction d; cbn [NilEmpty.string_of_uint append];
    try (cbn [Json.scan_digits]; change (Json.is_digit _) with true; cbv iota;
         rewrite IHd; reflexivity).
  destruct (closes_cases rest C) as [->|(r & [->|[->| ->]])]; reflexivity.
Qed.

Lemma unorm_head d :
  Decimal.unorm d = Decimal.D0 Decimal.Nil
  \/ match Decimal.unorm d with
     | Decimal.Nil | Decimal.D0 _ => False
     | _ => True
     end.
Proof. induction d; simpl; auto. Qed.

Lemma to_uint_head p :
  match Pos.to_uint p with
  | Decimal.Nil | Decimal.D0 _ => False
  | _ => True
  end.
Proof.
  assert (U : Decimal.unorm (Pos.to_uint p) = Pos.to_uint p).
  { rewrite <- (DecimalPos.Unsigned.to_of (Pos.to_uint p)).
    rewrite DecimalPos.Unsigned.of_to. reflexivity. }
  destruct (unorm_head (Pos.to_uint p)) as [Z|H].
  - rewrite U in Z. exfalso. apply (Unsigned.to_uint_nonzero p Z).
  - now rewrite U in H.
Qed.

Lemma scan_int_uint d rest :
  match d with
  | Decimal.Nil | Decimal.D0 _ => False
  | _ => True
  end ->
  closes rest = true ->
  Json.scan_int (NilEmpty.string_of_uint d ++ rest)%string
  = Some (NilEmpty.string_of_uint d, rest)
  /\ Json.scan_int (String "-" (NilEmpty.string_of_uint d ++ rest))%string
     = Some (String "-" (NilEmpty.string_of_uint d), rest).
Proof.
  intros H C.
  destruct d; try contradiction;
    cbn [NilEmpty.string_of_uint append]; unfold Json.scan_int;
    cbn [Ascii.eqb Bool.eqb]; change (Json.is_digit _) with true; cbv iota;
    rewrite (scan_digits_uint _ _ C); split; reflexivity.
Qed.

Lemma scan_tail rest :
  closes rest = true ->
  Json.scan_frac rest = (""%string, rest) /\ Json.scan_exp rest = (""%string, rest).
Proof.
  intros C. destruct (closes_cases rest C) as [->|(r & [->|[->| ->]])];
    split; reflexivity.
Qed.

Lemma Z_of_string_of_Z z : Json.Z_of_string (Json.string_of_Z z) = z.
Proof.
  unfold Json.Z_of_string, Json.string_of_Z.
  rewrite NilZero.isi.
  - apply DecimalZ.of_to.
  - destruct z; simpl; try discriminate.
    intros E. inversion E as [E']. apply (Unsigned.to_uint_nonnil _ E').
  - destruct z; simpl; try discriminate.
    intros E. inversion E as [E']. apply (Unsigned.to_uint_nonnil _ E').
Qed.

Lemma string_of_Z_cases z :
  z = 0%Z
  \/ (exists p, Json.string_of_Z z = NilEmpty.string_of_uint (Pos.to_uint p))
  \/ (exists p, Json.string_of_Z z = String "-" (NilEmpty.string_of_uint (Pos.to_uint p))).
Proof.
  destruct z as [|p|p]; [now left | right; left | right; right]; exists p;
    unfold Json.string_of_Z; cbn [Z.to_int NilZero.string_of_int];
    unfold NilZero.string_of_uint;
    pose proof (to_uint_head p) as H; destruct (Pos.to_uint p); try contradiction;
    reflexivity.
Qed.

Lemma scan_int_Z z rest :
  closes rest = true ->
  Json.scan_int (Json.string_of_Z z ++ rest)%string = Some (Json.string_of_Z z, rest).
Proof.
  intros C. destruct (string_of_Z_cases z) as [->|[[p E]|[p E]]].
  - reflexivity.
  - rewrite E. apply (scan_int_uint _ _ (to_uint_head p) C).
  - rewrite E. apply (scan_int_uint _ _ (to_uint_head p) C).
Qed.

Lemma scan_number_Z z rest :
  closes rest = true ->
  Json.scan_number (Json.string_of_Z z ++ rest)%string = Some (JNum z, rest).
Proof.
  intros C. unfold Json.scan_number. rewrite (scan_int_Z z rest C).
  destruct (scan_tail rest C) as [-> ->]. now rewrite Z_of_string_of_Z.
Qed.

(** The first character of a printed integer: a digit or the sign. *)
Lemma string_of_Z_head z :
  exists c r, Json.string_of_Z z = String c r
              /\ (Json.is_digit c = true \/ c = "-"%char).
Proof.
  destruct (string_of_Z_cases z) as [->|[[p E]|[p E]]].
  - exists "0"%char, ""%string. auto.
  - rewrite E. pose proof (to_uint_head p) as H.
    destruct (Pos.to_uint p); try contradiction;
      cbn [NilEmpty.string_of_uint]; eexists _, _; split; try reflexivity; now left.
  - rewrite E. eexists _, _. split; [reflexivity | now right].
Qed.

Lemma scan_once_number n c r x :
  Json.is_digit c = true \/ c = "-"%char ->
  Json.scan_number (String c r) = Some x ->
  Json.scan_once (S n) (String c r) = Some x.
Proof.
  intros H E.
  destruct c as [[] [] [] [] [] [] [] []];
    try (exfalso; destruct H as [H|H]; discriminate H);
    cbn [Json.scan_once Ascii.eqb Bool.eqb Json.quote andb]; cbv iota;
    unfold Json.scan_atom; rewrite E; reflexivity.
Qed.

Lemma scan_once_Z n z rest :
  closes rest = true ->
  Json.scan_once (S n) (Json.string_of_Z z ++ rest)%string = Some (JNum z, rest).
Proof.
  intros C. pose proof (scan_number_Z z rest C) as E.
  destruct (string_of_Z_head z) as (c & r & S & H).
  rewrite S in *. cbn [append] in *. apply (scan_once_number _ _ _ _ H E).
Qed.

(** *** Floats *)

(** The number scanner, case by case on the first character. *)
Lemma scan_int_minus t :
  Json.scan_int (String "-" t)
  = match t with
    | String c r =>
        if Ascii.eqb c "0" then Some ("-0"%string, r)
        else if Json.is_digit c
             then let (ds, rest) := Json.scan_digits r in
                  Some (String "-" (String c ds), rest)
             else None
    | ""%string => None
    end.
Proof. reflexivity. Qed.

Lemma scan_int_unsigned c t :
  Ascii.eqb c "-" = false ->
  Json.scan_int (String c t)
  = if Ascii.eqb c "0" then Some ("0"%string, t)
    else if Json.is_digit c
         then let (ds, rest) := Json.scan_digits t in Some (String c ds, rest)
         else None.
Proof.
  destruct c as [[] [] [] [] [] [] [] []]; intros H; try discriminate H; reflexivity.
Qed.

Lemma scan_frac_dot t :
  Json.scan_frac (String "." t)
  = match Json.scan_digits t with
    | (""%string, _) => (""%string, String "." t)
    | (ds, rest) => (String "." ds, rest)
    end.
Proof. reflexivity. Qed.

Lemma scan_frac_other c t :
  Ascii.eqb c "." = false -> Json.scan_frac (String c t) = (""%string, String c t).
Proof.
  destruct c as [[] [] [] [] [] [] [] []]; intros H; try discriminate H; reflexivity.
Qed.

Lemma scan_exp_other c t :
  Ascii.eqb c "e" || Ascii.eqb c "E" = false ->
  Json.scan_exp (String c t) = (""%string, String c t).
Proof. intros H. cbn [Json.scan_exp]. now rewrite H. Qed.

Lemma scan_exp_signed c (sign : ascii) t :
  Ascii.eqb c "e" || Ascii.eqb c "E" = true ->
  sign = "-"%char \/ sign = "+"%char ->
  Json.scan_exp (String c (String sign t))
  = match Json.scan_digits t with
    | (""%string, _) => (""%string, String c (String sign t))
    | (ds, rest) => (String c (String sign ds), rest)
    end.
Proof.
  intros H [->| ->]; cbn [Json.scan_exp]; rewrite H;
    destruct (Json.scan_digits t) as [[|d ds] rest]; reflexivity.
Qed.

Lemma scan_exp_unsigned c t :
  Ascii.eqb c "e" || Ascii.eqb c "E" = true ->
  match t with
  | String d _ => Ascii.eqb d "-" = false /\ Ascii.eqb d "+" = false
  | ""%string => True
  end ->
  Json.scan_exp (String c t)
  = match Json.scan_digits t with
    | (""%string, _) => (""%string, String c t)
    | (ds, rest) => (String c ds, rest)
    end.
Proof.
  intros H N. cbn [Json.scan_exp]. rewrite H. destruct t as [|d t]; [reflexivity|].
  destruct N as [N1 N2].
  destruct d as [[] [] [] [] [] [] [] []]; try discriminate N1; try discriminate N2;
    destruct (Json.scan_digits (String _ t)) as [[|x ds] rest]; reflexivity.
Qed.

Lemma digit_char c :
  Json.is_digit c = true ->
  Ascii.eqb c "{" = false /\ Ascii.eqb c "-" = false /\ Ascii.eqb c "+" = false
  /\ Ascii.eqb c "." = false /\ Ascii.eqb c "e" || Ascii.eqb c "E" = false.
Proof.
  destruct c as [[] [] [] [] [] [] [] []]; intros H; try discriminate H;
    repeat split; reflexivity.
Qed.

Lemma scan_digits_stop X :
  head_not Json.is_digit X = true -> Json.scan_digits X = (""%string, X).
Proof.
  destruct X as [|c r]; [reflexivity|]. cbn [head_not Json.scan_digits]. intros H.
  apply negb_true_iff in H. now rewrite H.
Qed.

(** What the scanners take is read again as it is, before any text that
    does not continue it, and holds no brace. *)
Lemma scan_digits_out s : forall ds r,
  Json.scan_digits s = (ds, r) ->
  free_of "{" ds = true
  /\ head_not Json.is_digit r = true
  /\ match ds with
     | String d _ => Json.is_digit d = true
     | ""%string => True
     end
  /\ forall X, head_not Json.is_digit X = true -> Json.scan_digits (ds ++ X) = (ds, X).
Proof.
  induction s as [|c s IH]; intros ds r H.
  - inversion H; subst. repeat split. intros X HX. now apply scan_digits_stop.
  - cbn [Json.scan_digits] in H. destruct (Json.is_digit c) eqn:D.
    + destruct (Json.scan_digits s) as [ds' rest] eqn:E. inversion H; subst.
      destruct (IH ds' r eq_refl) as (F & S & _ & O). split; [|split; [|split]].
      * cbn [free_of]. now rewrite (proj1 (digit_char c D)), F.
      * exact S.
      * exact D.
      * intros X HX. cbn [append Json.scan_digits]. now rewrite D, (O X HX).
    + inversion H; subst. split; [reflexivity|]. split; [|split; [exact I|]].
      * cbn [head_not]. now rewrite D.
      * intros X HX. now apply scan_digits_stop.
Qed.

Lemma scan_int_out s i r :
  Json.scan_int s = Some (i, r) ->
  free_of "{" i = true
  /\ (exists c t, i = String c t /\ (Json.is_digit c = true \/ c = "-"%char))
  /\ forall X, head_not Json.is_digit X = true -> Json.scan_int (i ++ X) = Some (i, X).
Proof.
  intros H. destruct s as [|c t]; [discriminate H|].
  destruct (Ascii.eqb_spec c "-") as [->|NM].
  - rewrite scan_int_minus in H. destruct t as [|c2 t2]; [discriminate H|].
    destruct (Ascii.eqb c2 "0") eqn:Z.
    + inversion H; subst. split; [reflexivity|]. split; [eexists _, _; split; eauto|].
      intros X HX. reflexivity.
    + destruct (Json.is_digit c2) eqn:D; [|discriminate H].
      destruct (Json.scan_digits t2) as [ds rest] eqn:E. inversion H; subst.
      destruct (scan_digits_out t2 ds r E) as (F & _ & _ & O).
      split; [|split; [eexists _, _; split; eauto|]].
      * cbn [free_of]. now rewrite (proj1 (digit_char c2 D)), F.
      * intros X HX. cbn [append]. rewrite scan_int_minus, Z, D, (O X HX). reflexivity.
  - assert (M : Ascii.eqb c "-" = false)
      by (destruct (Ascii.eqb_spec c "-"); [contradiction | reflexivity]).
    rewrite (scan_int_unsigned c t M) in H.
    destruct (Ascii.eqb c "0") eqn:Z.
    + apply Ascii.eqb_eq in Z. subst c. inversion H; subst.
      split; [reflexivity|]. split; [eexists _, _; split; [reflexivity | now left]|].
      intros X HX. reflexivity.
    + destruct (Json.is_digit c) eqn:D; [|discriminate H].
      destruct (Json.scan_digits t) as [ds rest] eqn:E. inversion H; subst.
      destruct (scan_digits_out t ds r E) as (F & _ & _ & O).
      split; [|split; [eexists _, _; split; [reflexivity | now left]|]].
      * cbn [free_of]. now rewrite (proj1 (digit_char c D)), F.
      * intros X HX. cbn [append]. rewrite (scan_int_unsigned c _ M), Z, D, (O X HX).
        reflexivity.
Qed.

Lemma scan_frac_none X :
  head_not (fun c => Ascii.eqb c ".") X = true -> Json.scan_frac X = (""%string, X).
Proof.
  destruct X as [|c t]; [reflexivity|]. cbn [head_not]. intros H.
  apply negb_true_iff in H. now apply scan_frac_other.
Qed.

Lemma scan_frac_out s f r :
  Json.scan_frac s = (f, r) ->
  free_of "{" f = true
  /\ (f = ""%string \/ exists t, f = String "." t)
  /\ forall X,
       head_not Json.is_digit X = true ->
       head_not (fun c => Ascii.eqb c ".") X = true ->
       Json.scan_frac (f ++ X) = (f, X).
Proof.
  intros H.
  assert (None : free_of "{" "" = true
                 /\ (""%string = ""%string \/ exists t, ""%string = String "." t)
                 /\ forall X,
                      head_not Json.is_digit X = true ->
                      head_not (fun c => Ascii.eqb c ".") X = true ->
                      Json.scan_frac ("" ++ X) = (""%string, X)).
  { split; [reflexivity|]. split; [now left|].
    intros X _ HX. now apply scan_frac_none. }
  destruct s as [|c t]; [inversion H; subst; exact None|].
  destruct (Ascii.eqb_spec c ".") as [->|ND].
  - rewrite scan_frac_dot in H.
    destruct (Json.scan_digits t) as [ds rest] eqn:E.
    destruct (scan_digits_out t ds rest E) as (F & _ & _ & O).
    destruct ds as [|d ds]; inversion H; subst; [exact None|].
    split; [exact F|]. split; [right; eauto|].
    intros X HX _. cbn [append]. rewrite scan_frac_dot.
    change (String d (ds ++ X)) with (String d ds ++ X)%string.
    now rewrite (O X HX).
  - assert (M : Ascii.eqb c "." = false)
      by (destruct (Ascii.eqb_spec c "."); [contradiction | reflexivity]).
    rewrite (scan_frac_other c t M) in H. inversion H; subst. exact None.
Qed.

Lemma scan_exp_none X :
  head_not (fun c => Ascii.eqb c "e" || Ascii.eqb c "E") X = true ->
  Json.scan_exp X = (""%string, X).
Proof.
  destruct X as [|c t]; [reflexivity|]. cbn [head_not]. intros H.
  apply negb_true_iff in H. now apply scan_exp_other.
Qed.

Lemma scan_exp_out s e r :
  Json.scan_exp s = (e, r) ->
  free_of "{" e = true
  /\ (e = ""%string \/ exists c t, e = String c t /\ Ascii.eqb c "e" || Ascii.eqb c "E" = true)
  /\ forall X,
       head_not Json.is_digit X = true ->
       head_not (fun c => Ascii.eqb c "e" || Ascii.eqb c "E") X = true ->
       Json.scan_exp (e ++ X) = (e, X).
Proof.
  intros H.
  assert (None : free_of "{" "" = true
                 /\ (""%string = ""%string
                     \/ exists c t, ""%string = String c t
                                    /\ Ascii.eqb c "e" || Ascii.eqb c "E" = true)
                 /\ forall X,
                      head_not Json.is_digit X = true ->
                      head_not (fun c => Ascii.eqb c "e" || Ascii.eqb c "E") X = true ->
                      Json.scan_exp ("" ++ X) = (""%string, X)).
  { split; [reflexivity|]. split; [now left|].
    intros X _ HX. now apply scan_exp_none. }
  destruct s as [|c t]; [inversion H; subst; exact None|].
  destruct (Ascii.eqb c "e" || Ascii.eqb c "E") eqn:Ec;
    [|rewrite (scan_exp_other c t Ec) in H; inversion H; subst; exact None].
  assert (Fc : Ascii.eqb c "{" = false).
  { apply orb_prop in Ec. destruct Ec as [Ec|Ec]; apply Ascii.eqb_eq in Ec; now subst c. }
  assert (Signed : forall sign t',
             sign = "-"%char \/ sign = "+"%char -> t = String sign t' ->
             free_of "{" e = true
             /\ (e = ""%string
                 \/ exists c t, e = String c t
                                /\ Ascii.eqb c "e" || Ascii.eqb c "E" = true)
             /\ forall X,
                  head_not Json.is_digit X = true ->
                  head_not (fun c => Ascii.eqb c "e" || Ascii.eqb c "E") X = true ->
                  Json.scan_exp (e ++ X) = (e, X)).
  { intros sign t' Hs ->. rewrite (scan_exp_signed c sign t' Ec Hs) in H.
    destruct (Json.scan_digits t') as [ds rest] eqn:E.
    destruct (scan_digits_out t' ds rest E) as (F & _ & _ & O).
    destruct ds as [|d ds]; inversion H; subst; [exact None|].
    split; [|split; [right; eauto|]].
    - cbn [free_of] in F |- *. rewrite Fc. cbn [negb andb].
      destruct Hs as [->| ->]; exact F.
    - intros X HX _. cbn [append]. rewrite (scan_exp_signed c sign _ Ec Hs).
      change (String d (ds ++ X)) with (String d ds ++ X)%string.
      now rewrite (O X HX). }
  destruct t as [|d t]; [cbn in H; rewrite Ec in H; inversion H; subst; exact None|].
  destruct (Ascii.eqb_spec d "-") as [->|NM]; [apply (Signed "-"%char t); auto|].
  destruct (Ascii.eqb_spec d "+") as [->|NP]; [apply (Signed "+"%char t); auto|].
  assert (N : Ascii.eqb d "-" = false /\ Ascii.eqb d "+" = false).
  { split; [destruct (Ascii.eqb_spec d "-") | destruct (Ascii.eqb_spec d "+")];
      try contradiction; reflexivity. }
  rewrite (scan_exp_unsigned c (String d t) Ec N) in H.
  destruct (Json.scan_digits (String d t)) as [ds rest] eqn:E.
  destruct (scan_digits_out (String d t) ds rest E) as (F & _ & Hd & O).
  destruct ds as [|x ds]; inversion H; subst; [exact None|].
  split; [|split; [right; eauto|]].
  - cbn [free_of] in F |- *. now rewrite Fc.
  - intros X HX _. cbn [append].
    destruct (digit_char x Hd) as (_ & X1 & X2 & _).
    rewrite (scan_exp_unsigned c (String x (ds ++ X)) Ec (conj X1 X2)).
    change (String x (ds ++ X)) with (String x ds ++ X)%string.
    now rewrite (O X HX).
Qed.

Lemma closes_head_not rest :
  closes rest = true ->
  head_not Json.is_digit rest = true
  /\ head_not (fun c => Ascii.eqb c ".") rest = true
  /\ head_not (fun c => Ascii.eqb c "e" || Ascii.eqb c "E") rest = true.
Proof.
  intros C. destruct (closes_cases rest C) as [->|(r & [->|[->| ->]])];
    repeat split; reflexivity.
Qed.

Lemma free_of_app x a b : free_of x (a ++ b) = free_of x a && free_of x b.
Proof.
  induction a as [|c a IH]; [reflexivity|]. cbn [append free_of].
  now rewrite IH, andb_assoc.
Qed.

Lemma head_not_app P a b :
  a <> ""%string -> head_not P (a ++ b) = head_not P a.
Proof. destruct a; [congruence | reflexivity]. Qed.

(** A float the scanner reads is read again from its literal, before
    anything that may follow a value. *)
Lemma scan_number_out s l r :
  Json.scan_number s = Some (JFloat l, r) ->
  free_of "{" l = true
  /\ (exists c t, l = String c t /\ (Json.is_digit c = true \/ c = "-"%char))
  /\ forall X, closes X = true -> Json.scan_number (l ++ X) = Some (JFloat l, X).
Proof.
  unfold Json.scan_number. intros H.
  destruct (Json.scan_int s) as [[i r1]|] eqn:Ei; [|discriminate H].
  destruct (Json.scan_frac r1) as [f r2] eqn:Ef.
  destruct (Json.scan_exp r2) as [e r3] eqn:Ee.
  destruct (scan_int_out s i r1 Ei) as (Fi & (c & t & Hi & Hc) & Oi).
  destruct (scan_frac_out r1 f r2 Ef) as (Ff & Sf & Of).
  destruct (scan_exp_out r2 e r3 Ee) as (Fe & Se & Oe).
  assert (L : l = (i ++ f ++ e)%string /\ (f <> ""%string \/ e <> ""%string)).
  { destruct f as [|a f]; [destruct e as [|a e]|]; inversion H; subst;
      (split; [reflexivity|]); [right | left]; discriminate. }
  destruct L as [-> NE]. clear H.
  split; [now rewrite !free_of_app, Fi, Ff, Fe|].
  split; [exists c, (t ++ f ++ e)%string; split; [now rewrite Hi | exact Hc]|].
  intros X C. destruct (closes_head_not X C) as (X1 & X2 & X3).
  assert (He : head_not Json.is_digit (e ++ X) = true
               /\ head_not (fun c => Ascii.eqb c ".") (e ++ X) = true).
  { destruct Se as [->|(a & u & -> & Ha)]; [now split|]. cbn [append head_not].
    apply orb_prop in Ha. destruct Ha as [Ha|Ha]; apply Ascii.eqb_eq in Ha; subst a;
      now split. }
  assert (Hf : head_not Json.is_digit (f ++ e ++ X) = true).
  { destruct Sf as [->|(u & ->)]; [exact (proj1 He) | reflexivity]. }
  rewrite !str_app_assoc.
  rewrite (Oi _ Hf), (Of _ (proj1 He) (proj2 He)), (Oe X X1 X3).
  destruct f as [|a f]; [destruct e as [|a e]|]; try reflexivity.
  destruct NE as [NE|NE]; congruence.
Qed.

Lemma float_literal_cases l :
  float_literal l = true ->
  Json.scan_number l = Some (JFloat l, ""%string)
  \/ l = "NaN"%string \/ l = "Infinity"%string \/ l = "-Infinity"%string.
Proof.
  unfold float_literal.
  destruct (Json.scan_number l) as [[[] [|]]|]; intros H; try discriminate H.
  - left. apply String.eqb_eq in H. now subst.
  - right. apply orb_prop in H. destruct H as [H|H].
    + apply orb_prop in H. destruct H as [H|H]; apply String.eqb_eq in H; auto.
    + apply String.eqb_eq in H. auto.
Qed.

(** The decoder returns floats by their literals. *)
Lemma scan_number_float s l r :
  Json.scan_number s = Some (JFloat l, r) -> float_literal l = true.
Proof.
  intros H. destruct (scan_number_out s l r H) as (_ & _ & O).
  unfold float_literal. rewrite <- (str_app_nil_r l) at 1.
  rewrite (O ""%string eq_refl). apply String.eqb_refl.
Qed.

Lemma float_literal_free l : float_literal l = true -> free_of "{" l = true.
Proof.
  intros H. destruct (float_literal_cases l H) as [E|[->|[->| ->]]]; try reflexivity.
  apply (scan_number_out l l _ E).
Qed.

Lemma float_literal_head l :
  float_literal l = true ->
  exists c r, l = String c r /\ Json.is_ws c = false /\ Ascii.eqb c "]" = false.
Proof.
  intros H. destruct (float_literal_cases l H) as [E|[->|[->| ->]]];
    try (eexists _, _; repeat split; reflexivity).
  destruct (scan_number_out l l _ E) as (_ & (c & t & -> & Hc) & _).
  exists c, t. split; [reflexivity|].
  destruct c as [[] [] [] [] [] [] [] []];
    try (exfalso; destruct Hc as [Hc|Hc]; discriminate Hc); split; reflexivity.
Qed.

Lemma scan_once_float n l rest :
  float_literal l = true -> closes rest = true ->
  Json.scan_once (S n) (l ++ rest) = Some (JFloat l, rest).
Proof.
  intros H C. destruct (float_literal_cases l H) as [E|[->|[->| ->]]];
    try reflexivity.
  destruct (scan_number_out l l _ E) as (_ & (c & t & Hl & Hc) & O).
  pose proof (O rest C) as N. rewrite Hl in N |- *. cbn [append] in N |- *.
  apply (scan_once_number _ _ _ _ Hc N).
Qed.

(** *** Values *)

Lemma dumps_list x r :
  Json.dumps (JList (x :: r)) = ("[" ++ Json.dumps x ++ Json.items_tail r)%string.
Proof.
  reflexivity.
Qed.

Lemma dumps_dict k x r :
  Json.dumps (JDict ((k, x) :: r))
  = ("{" ++ Json.encode_string k ++ ": " ++ Json.dumps x ++ Json.pairs_tail r)%string.
Proof.
  reflexivity.
Qed.

Lemma integral_list x r :
  integral (JList (x :: r)) = integral x && integral (JList r).
Proof. reflexivity. Qed.

Lemma integral_dict k x r :
  integral (JDict ((k, x) :: r)) = integral x && integral (JDict r).
Proof. reflexivity. Qed.

Lemma cost_list x r : cost (JList (x :: r)) = S (cost x + cost (JList r)).
Proof. cbn [cost]. lia. Qed.

Lemma cost_dict k x r : cost (JDict ((k, x) :: r)) = S (cost x + cost (JDict r)).
Proof. cbn [cost snd]. lia. Qed.

Lemma cost_pos v : 1 <= cost v.
Proof. destruct v; simpl; lia. Qed.

(** The tests of the decoder's loops on the separators the encoder
    writes. *)
Lemma at_comma X :
  let T := String "," (String " " X) in
  PyStr.startswith (Json.skip_ws T) "]" = false
  /\ PyStr.startswith (Json.skip_ws T) "}" = false
  /\ PyStr.startswith (Json.skip_ws T) "," = true
  /\ Json.skip_ws (Json.tail (Json.skip_ws T)) = Json.skip_ws X.
Proof. repeat split; reflexivity. Qed.

Lemma distinct_list x r :
  distinct_keys (JList (x :: r)) <-> distinct_keys x /\ distinct_keys (JList r).
Proof. reflexivity. Qed.

Lemma normalize_distinct v : distinct_keys v -> normalize v = v.
Proof.
  induction v as [|b|z|l|s|l IH|d IH] using json_ind; intros D; try reflexivity.
  - cbn [normalize]. f_equal.
    induction IH as [|x r Hx Hr IHr]; [reflexivity|].
    destruct D as [Dx Dr]. cbn [map]. rewrite (Hx Dx). f_equal. apply IHr, Dr.
  - cbn [normalize]. f_equal. destruct D as [N D].
    assert (E : map (fun kv => (fst kv, normalize (snd kv))) d = d).
    { clear N. induction IH as [|[k x] r Hx Hr IHr]; [reflexivity|].
      destruct D as [Dx Dr]. cbn [map fst snd] in *. rewrite (Hx Dx). f_equal.
      apply IHr, Dr. }
    rewrite E. apply of_pairs_nodup, N.
Qed.

(** ** Substitution in the text of a value *)

(** *** Plain text *)

Lemma escape_char_plain c : plain_char c = true -> Json.escape_char c = String c "".
Proof. destruct c as [[] [] [] [] [] [] [] []]; intros H; try discriminate H; reflexivity. Qed.

Lemma escape_char_not_plain c :
  plain_char c = false ->
  exists t, Json.escape_char c = String Json.backslash t
            /\ free_of "{" (Json.escape_char c) = true.
Proof.
  destruct c as [[] [] [] [] [] [] [] []]; intros H; try discriminate H;
    eexists; split; reflexivity.
Qed.

Lemma plain_not_special c :
  plain_char c = true ->
  Ascii.eqb c Json.quote = false /\ Ascii.eqb c Json.backslash = false.
Proof.
  destruct c as [[] [] [] [] [] [] [] []]; intros H; try discriminate H; split; reflexivity.
Qed.

Lemma plain_app a b : plain (a ++ b)%string = plain a && plain b.
Proof.
  induction a as [|c a IH]; [reflexivity|]. cbn [append plain].
  now rewrite IH, andb_assoc.
Qed.

Lemma var_char_plain c : Re.is_var_char c = true -> plain_char c = true.
Proof. destruct c as [[] [] [] [] [] [] [] []]; intros H; try discriminate H; reflexivity. Qed.

Lemma var_name_plain s : var_name s = true -> plain s = true.
Proof.
  induction s as [|c s IH]; [reflexivity|]. cbn [var_name plain]. intros H.
  apply andb_prop in H. destruct H as [Hc Hs].
  now rewrite (var_char_plain c Hc), (IH Hs).
Qed.

Lemma token_plain var : var_name var = true -> plain (token var) = true.
Proof.
  intros H. unfold token. cbn [append plain].
  rewrite plain_app, (var_name_plain var H). reflexivity.
Qed.

Lemma sentinel_plain var : var_name var = true -> plain ("MISSING_" ++ var)%string = true.
Proof. intros H. rewrite plain_app, (var_name_plain var H). reflexivity. Qed.

(** *** [startswith] and [replace] *)

Lemma startswith_app s p : PyStr.startswith (p ++ s)%string p = true.
Proof.
  induction p as [|c p IH]; [reflexivity|]. cbn [append PyStr.startswith].
  now rewrite Ascii.eqb_refl, IH.
Qed.

Lemma startswith_split s p :
  PyStr.startswith s p = true -> s = (p ++ PyStr.drop (String.length p) s)%string.
Proof.
  revert s. induction p as [|a p IH]; intros s H; [reflexivity|].
  destruct s as [|b s]; [discriminate H|]. cbn [PyStr.startswith] in H.
  apply andb_prop in H. destruct H as [E H].
  apply Ascii.eqb_eq in E. subst b. cbn [append String.length PyStr.drop].
  f_equal. apply IH, H.
Qed.

Lemma drop_app p s : PyStr.drop (String.length p) (p ++ s)%string = s.
Proof. induction p as [|c p IH]; [now destruct s | exact IH]. Qed.

Lemma drop_length s n :
  String.length (PyStr.drop n s) = String.length s - n.
Proof.
  revert n. induction s as [|c s IH]; intros [|n]; try reflexivity. cbn. apply IH.
Qed.

Lemma replace_from_skip old new s : forall k,
  PyStr.replace_from old new k s = PyStr.replace_from old new 0 (PyStr.drop k s).
Proof.
  induction s as [|c s IH]; intros [|k]; try reflexivity.
  cbn [PyStr.replace_from PyStr.drop]. apply IH.
Qed.

Lemma replace_cons old new c r :
  PyStr.replace old new (String c r)
  = if PyStr.startswith (String c r) old
    then (new ++ PyStr.replace old new (PyStr.drop (String.length old - 1) r))%string
    else String c (PyStr.replace old new r).
Proof.
  unfold PyStr.replace. cbn [PyStr.replace_from].
  destruct (PyStr.startswith (String c r) old); [|reflexivity].
  now rewrite replace_from_skip.
Qed.

Lemma replace_prefix a old' new s :
  PyStr.replace (String a old') new (String a old' ++ s)%string
  = (new ++ PyStr.replace (String a old') new s)%string.
Proof.
  cbn [append]. rewrite replace_cons.
  change (String a (old' ++ s)%string) with (String a old' ++ s)%string.
  rewrite startswith_app.
  replace (String.length (String a old') - 1) with (String.length old')
    by (cbn [String.length]; lia).
  now rewrite drop_app.
Qed.

(** A character other than the opening brace is copied. *)
Lemma replace_other var new c r :
  Ascii.eqb c "{" = false ->
  PyStr.replace (token var) new (String c r)
  = String c (PyStr.replace (token var) new r).
Proof.
  intros H. rewrite replace_cons. unfold token. cbn [append PyStr.startswith].
  rewrite Ascii.eqb_sym, H. reflexivity.
Qed.

Lemma replace_free var new e s :
  free_of "{" e = true ->
  PyStr.replace (token var) new (e ++ s)%string
  = (e ++ PyStr.replace (token var) new s)%string.
Proof.
  induction e as [|c e IH]; [reflexivity|]. cbn [free_of append]. intros H.
  apply andb_prop in H. destruct H as [Hc He].
  rewrite replace_other by (now destruct (Ascii.eqb c "{")).
  now rewrite IH.
Qed.

(** So is an opening brace that no second one follows. *)
Lemma replace_open var new c r :
  Ascii.eqb c "{" = false ->
  PyStr.replace (token var) new (String "{" (String c r))
  = String "{" (String c (PyStr.replace (token var) new r)).
Proof.
  intros H. rewrite replace_cons. unfold token at 1. cbn [append PyStr.startswith].
  rewrite (Ascii.eqb_sym "{" c), H. cbn [andb].
  now rewrite replace_other.
Qed.

Lemma replace_nil old new : PyStr.replace old new "" = ""%string.
Proof. reflexivity. Qed.

Lemma token_cons var : token var = String "{" (String "{" (var ++ "}}"))%string.
Proof. reflexivity. Qed.

Lemma uint_free d : free_of "{" (NilEmpty.string_of_uint d) = true.
Proof. induction d; cbn [NilEmpty.string_of_uint free_of]; auto. Qed.

Lemma string_of_Z_free z : free_of "{" (Json.string_of_Z z) = true.
Proof.
  destruct (string_of_Z_cases z) as [->|[[p E]|[p E]]]; [reflexivity| |];
    rewrite E; cbn [free_of]; apply uint_free.
Qed.

Lemma scan_name_var r : var_name (fst (Re.scan_name r)) = true.
Proof.
  induction r as [|c r IH]; [reflexivity|]. cbn [Re.scan_name].
  destruct (Re.is_var_char c) eqn:E; [|reflexivity].
  destruct (Re.scan_name r) as [name rest]. cbn [fst var_name] in *.
  now rewrite E, IH.
Qed.

Lemma match_token_var s name : Re.match_token s = Some name -> var_name name = true.
Proof.
  unfold Re.match_token. destruct (PyStr.startswith s "{{"); [|discriminate].
  pose proof (scan_name_var (PyStr.drop 2 s)) as V.
  destruct (Re.scan_name (PyStr.drop 2 s)) as [n rest]. cbn [fst] in V.
  destruct n as [|c n]; [discriminate|].
  destruct (PyStr.startswith rest "}}"); [|discriminate].
  intros E. inversion E; subst. exact V.
Qed.

Lemma findall_var_names s : Forall (fun var => var_name var = true) (Re.findall s).
Proof.
  unfold Re.findall. generalize 0 as skip.
  induction s as [|c s IH]; intros skip; [constructor|].
  cbn [Re.findall_from]. destruct skip as [|k]; [|apply IH].
  destruct (Re.match_token (String c s)) as [name|] eqn:M; [|apply IH].
  constructor; [apply (match_token_var _ _ M) | apply IH].
Qed.

(** *** Bodies of strings *)

Lemma raw_char_facts c :
  raw_char c = true ->
  Ascii.eqb c Json.quote = false /\ Ascii.eqb c Json.backslash = false
  /\ Nat.ltb (nat_of_ascii c) 32 = false.
Proof.
  unfold raw_char. intros H. apply andb_prop in H. destruct H as [H H3].
  apply andb_prop in H. destruct H as [H1 H2].
  repeat split; now apply negb_true_iff.
Qed.

Lemma plain_raw_char c : plain_char c = true -> raw_char c = true.
Proof. destruct c as [[] [] [] [] [] [] [] []]; intros H; try discriminate H; reflexivity. Qed.

Lemma plain_raw s : plain s = true -> raw s = true.
Proof.
  induction s as [|c s IH]; [reflexivity|]. cbn [plain raw]. intros H.
  apply andb_prop in H. destruct H as [Hc Hs].
  now rewrite (plain_raw_char c Hc), (IH Hs).
Qed.

Lemma spells_escaped s : spells (Json.escape s) s.
Proof. induction s as [|c s IH]; [constructor|]. cbn [Json.escape]. now constructor. Qed.

Lemma spells_raw_app x b s : raw x = true -> spells b s -> spells (x ++ b) (x ++ s).
Proof.
  intros R H. induction x as [|c x IH]; [exact H|]. cbn [raw] in R.
  apply andb_prop in R. destruct R as [Rc Rx]. cbn [append].
  apply spells_raw; [exact Rc | now apply IH].
Qed.

Lemma spells_scan b s :
  spells b s ->
  forall rest, Json.scanstring (b ++ String Json.quote rest) = Some (s, rest).
Proof.
  induction 1 as [|c b s H IH|c b s R H IH]; intros rest.
  - reflexivity.
  - rewrite str_app_assoc, scanstring_escape_char, IH. reflexivity.
  - destruct (raw_char_facts c R) as (Q & B & L).
    cbn [append Json.scanstring]. rewrite Q, B, L, IH. reflexivity.
Qed.

Lemma spells_value b s : spells b s -> body_value b = s.
Proof. intros H. unfold body_value. now rewrite (spells_scan b s H). Qed.

Lemma spells_body b s : spells b s -> spells b (body_value b).
Proof. intros H. now rewrite (spells_value b s H). Qed.

(** The pattern's tokens are plain text, which a body spells as it is. *)
Lemma startswith_spells p :
  plain p = true ->
  forall b s, spells b s -> PyStr.startswith b p = PyStr.startswith s p.
Proof.
  induction p as [|a p IH]; intros P b s H; [reflexivity|].
  cbn [plain] in P. apply andb_prop in P. destruct P as [Pa Pp].
  destruct (plain_not_special a Pa) as [Q B].
  destruct H as [|c b s H|c b s R H].
  - reflexivity.
  - destruct (plain_char c) eqn:Pc.
    + rewrite (escape_char_plain c Pc). cbn [append PyStr.startswith].
      now rewrite (IH Pp b s H).
    + destruct (escape_char_not_plain c Pc) as (t & E & _). rewrite E.
      cbn [append PyStr.startswith]. rewrite B. cbn [andb].
      destruct (Ascii.eqb_spec a c) as [->|N]; [congruence | reflexivity].
  - cbn [PyStr.startswith]. now rewrite (IH Pp b s H).
Qed.

Lemma drop_zero s : PyStr.drop 0 s = s.
Proof. now destruct s. Qed.

Lemma spells_drop p :
  plain p = true ->
  forall b s,
    spells b s -> PyStr.startswith s p = true ->
    spells (PyStr.drop (String.length p) b) (PyStr.drop (String.length p) s).
Proof.
  induction p as [|a p IH]; intros P b s H SW.
  - cbn [String.length]. now rewrite !drop_zero.
  - cbn [plain] in P. apply andb_prop in P. destruct P as [Pa Pp].
    destruct H as [|c b s H|c b s R H]; [discriminate SW| |];
      cbn [PyStr.startswith] in SW; apply andb_prop in SW; destruct SW as [E SW];
      apply Ascii.eqb_eq in E; subst c.
    + rewrite (escape_char_plain a Pa). cbn [append String.length PyStr.drop].
      now apply IH.
    + cbn [String.length PyStr.drop]. now apply IH.
Qed.

(** Replacing a token by raw text in a body is replacing it in the
    string the body stands for. *)
Lemma replace_spells var new :
  var_name var = true -> raw new = true ->
  forall n b s,
    String.length b <= n -> spells b s ->
    spells (PyStr.replace (token var) new b) (PyStr.replace (token var) new s).
Proof.
  intros V R.
  pose proof (token_plain var V) as PT.
  induction n as [|n IH]; intros b s L H.
  - destruct b; [|cbn in L; lia].
    inversion H as [|c b' s' H' E|]; subst; [constructor|].
    exfalso. destruct (Json.escape_char c) eqn:X; [|discriminate E].
    destruct c as [[] [] [] [] [] [] [] []]; discriminate X.
  - assert (Self : forall c b' s',
               spells (String c b') (String c s') -> spells b' s' ->
               String.length b' <= n ->
               (forall X Y, spells X Y -> spells (String c X) (String c Y)) ->
               spells (PyStr.replace (token var) new (String c b'))
                      (PyStr.replace (token var) new (String c s'))).
    { intros c b' s' H0 H' L' K. rewrite !replace_cons.
      rewrite (startswith_spells (token var) PT _ _ H0).
      destruct (PyStr.startswith (String c s') (token var)) eqn:SW.
      - apply spells_raw_app; [exact R|]. apply IH.
        + rewrite drop_length. lia.
        + pose proof (spells_drop (token var) PT _ _ H0 SW) as D.
          rewrite token_cons in D |- *.
          replace (String.length (String "{" (String "{" (var ++ "}}"))) - 1)
            with (String.length (String "{" (var ++ "}}")))
            by (cbn [String.length]; lia).
          cbn [String.length PyStr.drop] in D |- *. exact D.
      - apply K. now apply IH. }
    destruct H as [|c b s H|c b s Rc H].
    + constructor.
    + destruct (plain_char c) eqn:Pc.
      * pose proof (@spells_escape c b s H) as H0.
        rewrite (escape_char_plain c Pc) in H0, L |- *. cbn [append] in *.
        apply Self; [exact H0 | exact H | cbn in L; lia |].
        intros X Y HXY. pose proof (@spells_escape c X Y HXY) as K.
        now rewrite (escape_char_plain c Pc) in K.
      * destruct (escape_char_not_plain c Pc) as (t & E & F).
        rewrite (replace_free var new _ _ F).
        rewrite (replace_other var new c s).
        -- apply spells_escape. apply IH; [|exact H].
           rewrite str_length_app, E in L. cbn [String.length] in L. lia.
        -- destruct (Ascii.eqb_spec c "{") as [->|]; [discriminate Pc | reflexivity].
    + apply Self; [now apply spells_raw | exact H | cbn in L; lia |].
      intros X Y HXY. now apply spells_raw.
Qed.

(** *** The text of a value of bodies *)

Lemma render_list x r :
  render (JList (x :: r)) = ("[" ++ render x ++ render_items r)%string.
Proof. reflexivity. Qed.

Lemma render_dict k x r :
  render (JDict ((k, x) :: r))
  = ("{" ++ String Json.quote (k ++ String Json.quote "") ++ ": " ++ render x
         ++ render_pairs r)%string.
Proof. reflexivity. Qed.

Lemma float_literals_list x r :
  float_literals (JList (x :: r)) = float_literals x && float_literals (JList r).
Proof. reflexivity. Qed.

Lemma float_literals_dict k x r :
  float_literals (JDict ((k, x) :: r)) = float_literals x && float_literals (JDict r).
Proof. reflexivity. Qed.

Lemma float_literals_map_strings f v :
  float_literals (map_strings f v) = float_literals v.
Proof.
  induction v as [|b|z|l|s|l IH|d IH] using json_ind; try reflexivity.
  - induction IH as [|x r Hx Hr IHr]; [reflexivity|].
    change (map_strings f (JList (x :: r)))
      with (JList (map_strings f x :: map (map_strings f) r)).
    rewrite !float_literals_list, Hx. f_equal. exact IHr.
  - induction IH as [|[k x] r Hx Hr IHr]; [reflexivity|]. cbn [snd] in Hx.
    change (map_strings f (JDict ((k, x) :: r)))
      with (JDict ((f k, map_strings f x)
                   :: map (fun kv => (f (fst kv), map_strings f (snd kv))) r)).
    rewrite !float_literals_dict, Hx. f_equal. exact IHr.
Qed.

Lemma integral_float_literals v : integral v = true -> float_literals v = true.
Proof.
  induction v as [|b|z|l|s|l IH|d IH] using json_ind; intros I; try reflexivity.
  - discriminate I.
  - induction IH as [|x r Hx Hr IHr]; [reflexivity|].
    rewrite integral_list in I. apply andb_prop in I. destruct I as [Ix Ir].
    rewrite float_literals_list, (Hx Ix). now apply IHr.
  - induction IH as [|[k x] r Hx Hr IHr]; [reflexivity|]. cbn [snd] in Hx.
    rewrite integral_dict in I. apply andb_prop in I. destruct I as [Ix Ir].
    rewrite float_literals_dict, (Hx Ix). now apply IHr.
Qed.

(** The strings of a value of bodies. *)
Lemma spelt_list x r : spelt (JList (x :: r)) <-> spelt x /\ spelt (JList r).
Proof. unfold spelt. cbn [strings_of flat_map]. apply Forall_app. Qed.

Lemma spelt_dict k x r :
  spelt (JDict ((k, x) :: r))
  <-> spells k (body_value k) /\ spelt x /\ spelt (JDict r).
Proof.
  unfold spelt. cbn [strings_of flat_map fst snd app].
  rewrite Forall_cons_iff, Forall_app. reflexivity.
Qed.

(** The text of a value starts with a character that is no white space
    and closes nothing. *)
Lemma render_head t :
  float_literals t = true ->
  exists c r, render t = String c r
              /\ Json.is_ws c = false /\ Ascii.eqb c "]" = false.
Proof.
  destruct t as [|[]|z|l|s|[|x l]|[|[k x] d]]; intros I;
    try (eexists _, _; repeat split; reflexivity).
  - destruct (string_of_Z_head z) as (c & r & E & H). exists c, r.
    split; [exact E|].
    destruct c as [[] [] [] [] [] [] [] []];
      try (exfalso; destruct H as [H|H]; discriminate H); split; reflexivity.
  - apply (float_literal_head l I).
Qed.

Lemma skip_ws_render t rest :
  float_literals t = true ->
  Json.skip_ws (render t ++ rest)%string = (render t ++ rest)%string.
Proof.
  intros I. destruct (render_head t I) as (c & r & E & W & _).
  rewrite E. cbn [append Json.skip_ws]. now rewrite W.
Qed.

Lemma render_not_closing t rest :
  float_literals t = true -> PyStr.startswith (render t ++ rest)%string "]" = false.
Proof.
  intros I. destruct (render_head t I) as (c & r & E & _ & B).
  rewrite E. cbn [append PyStr.startswith]. rewrite Ascii.eqb_sym, B. reflexivity.
Qed.

Lemma closes_render_items r rest : closes (render_items r ++ rest)%string = true.
Proof. destruct r; reflexivity. Qed.

Lemma closes_render_pairs d rest : closes (render_pairs d ++ rest)%string = true.
Proof. destruct d as [|[k x] d]; reflexivity. Qed.

Lemma render_items_cons y r rest :
  (render_items (y :: r) ++ rest
   = String "," (String " " (render y ++ render_items r ++ rest)))%string.
Proof. cbn [render_items append]. now rewrite str_app_assoc. Qed.

Lemma render_pairs_cons k y d rest :
  (render_pairs ((k, y) :: d) ++ rest
   = String "," (String " " (String Json.quote
       (k ++ String Json.quote
          (String ":" (String " " (render y ++ render_pairs d ++ rest)))))))%string.
Proof.
  cbn [render_pairs]. cbn [append].
  rewrite !str_app_assoc. cbn [append]. rewrite !str_app_assoc. reflexivity.
Qed.

Lemma reads_items x r :
  reads x -> Forall reads r ->
  float_literals (JList (x :: r)) = true -> spelt (JList (x :: r)) ->
  forall fuel rest,
    cost (JList (x :: r)) <= S fuel ->
    Json.scan_items fuel (render x ++ render_items r ++ rest)%string
    = Some (map normalize (map (map_strings body_value) (x :: r)), rest).
Proof.
  intros Dx Dr. revert x Dx. induction Dr as [|y r Dy Dr IH]; intros x Dx I Sp fuel rest C.
  - rewrite float_literals_list in I. apply andb_prop in I. destruct I as [Ix _].
    apply spelt_list in Sp. destruct Sp as [Sx _].
    rewrite cost_list in C. pose proof (cost_pos x) as Px.
    change (cost (JList [])) with 1 in C.
    destruct fuel as [|fuel]; [lia|].
    cbn [Json.scan_items].
    rewrite (Dx Ix Sx fuel _ ltac:(lia) (closes_render_items [] rest)).
    reflexivity.
  - rewrite float_literals_list in I. apply andb_prop in I. destruct I as [Ix Ir].
    apply spelt_list in Sp. destruct Sp as [Sx Sr].
    rewrite cost_list in C. pose proof (cost_pos (JList (y :: r))) as Py.
    pose proof (cost_pos x) as Px.
    destruct fuel as [|fuel]; [lia|].
    cbn [Json.scan_items].
    rewrite (Dx Ix Sx fuel _ ltac:(lia) (closes_render_items (y :: r) rest)).
    rewrite render_items_cons. cbv zeta.
    destruct (at_comma (render y ++ render_items r ++ rest)%string)
      as (B & _ & Cm & T).
    cbv zeta in B, Cm, T. rewrite B, Cm, T.
    pose proof Ir as Ir'. rewrite float_literals_list in Ir'. apply andb_prop in Ir'.
    rewrite (skip_ws_render y _ (proj1 Ir')).
    rewrite (IH y Dy Ir Sr fuel rest ltac:(lia)). reflexivity.
Qed.

Lemma reads_pairs k x d :
  reads x -> Forall (fun kv => reads (snd kv)) d ->
  float_literals (JDict ((k, x) :: d)) = true -> spelt (JDict ((k, x) :: d)) ->
  forall fuel rest,
    cost (JDict ((k, x) :: d)) <= S fuel ->
    Json.scan_pairs fuel
      (String Json.quote
         (k ++ String Json.quote
            (String ":" (String " " (render x ++ render_pairs d ++ rest)))))%string
    = Some (map (fun kv => (fst kv, normalize (snd kv)))
              (map (fun kv => (body_value (fst kv), map_strings body_value (snd kv)))
                 ((k, x) :: d)),
            rest).
Proof.
  intros Dx Dd. revert k x Dx.
  induction Dd as [|[k' y] d Dy Dd IH]; intros k x Dx I Sp fuel rest C;
    rewrite float_literals_dict in I; apply andb_prop in I; destruct I as [Ix Id];
    apply spelt_dict in Sp; destruct Sp as (Sk & Sx & Sd);
    rewrite cost_dict in C; pose proof (cost_pos x) as Px.
  - change (cost (JDict [])) with 1 in C.
    destruct fuel as [|fuel]; [lia|].
    cbn [Json.scan_pairs].
    change (PyStr.startswith (String Json.quote _) (String Json.quote "")) with true.
    cbv iota. unfold Json.tail at 1. cbn [PyStr.drop].
    rewrite (spells_scan _ _ Sk). cbv zeta.
    change (Json.skip_ws (String ":" ?X)) with (String ":" X).
    change (PyStr.startswith (String ":" _) ":") with true. cbv iota.
    unfold Json.tail at 1. cbn [PyStr.drop].
    change (Json.skip_ws (String " " ?X)) with (Json.skip_ws X).
    rewrite (skip_ws_render x _ Ix).
    rewrite (Dx Ix Sx fuel _ ltac:(lia) (closes_render_pairs [] rest)).
    reflexivity.
  - pose proof (cost_pos (JDict ((k', y) :: d))) as Py.
    destruct fuel as [|fuel]; [lia|].
    cbn [Json.scan_pairs].
    change (PyStr.startswith (String Json.quote _) (String Json.quote "")) with true.
    cbv iota. unfold Json.tail at 1. cbn [PyStr.drop].
    rewrite (spells_scan _ _ Sk). cbv zeta.
    change (Json.skip_ws (String ":" ?X)) with (String ":" X).
    change (PyStr.startswith (String ":" _) ":") with true. cbv iota.
    unfold Json.tail at 1. cbn [PyStr.drop].
    change (Json.skip_ws (String " " ?X)) with (Json.skip_ws X).
    rewrite (skip_ws_render x _ Ix).
    rewrite (Dx Ix Sx fuel _ ltac:(lia) (closes_render_pairs ((k', y) :: d) rest)).
    rewrite render_pairs_cons.
    match goal with
    | |- context [Json.skip_ws (String "," (String " " ?X))] =>
        destruct (at_comma X) as (_ & B & Cm & T)
    end.
    cbv zeta in B, Cm, T. rewrite B, Cm, T.
    change (Json.skip_ws (String Json.quote ?X)) with (String Json.quote X).
    cbn [snd] in Dy.
    rewrite (IH k' y Dy Id Sd fuel rest ltac:(lia)). reflexivity.
Qed.

Lemma all_read t : reads t.
Proof.
  induction t as [|b|z|l|s|l IH|d IH] using json_ind; intros I Sp fuel rest C Cl;
    (destruct fuel as [|fuel]; [pose proof (cost_pos JNull); simpl in C; lia|]).
  - reflexivity.
  - destruct b; reflexivity.
  - apply (scan_once_Z _ _ _ Cl).
  - apply (scan_once_float _ _ _ I Cl).
  - cbn [render map_strings normalize]. cbn [append].
    rewrite str_app_assoc. cbn [append Json.scan_once].
    change (Ascii.eqb Json.quote Json.quote) with true. cbv iota.
    unfold spelt in Sp. cbn [strings_of] in Sp. inversion Sp as [|? ? Ss _]; subst.
    rewrite (spells_scan _ _ Ss). reflexivity.
  - destruct l as [|x r]; [reflexivity|].
    inversion IH as [|? ? Dx Dr]; subst.
    rewrite render_list. cbn [append]. rewrite str_app_assoc.
    cbn [Json.scan_once].
    change (Ascii.eqb "[" Json.quote) with false.
    change (Ascii.eqb "[" "{") with false.
    change (Ascii.eqb "[" "[") with true. cbv iota zeta.
    pose proof I as I'. rewrite float_literals_list in I'. apply andb_prop in I'.
    rewrite (skip_ws_render x _ (proj1 I')).
    rewrite (render_not_closing x _ (proj1 I')).
    rewrite (reads_items x r Dx Dr I Sp fuel rest C). reflexivity.
  - destruct d as [|[k x] d]; [reflexivity|].
    inversion IH as [|? ? Dx Dd]; subst. cbn [snd] in Dx.
    rewrite render_dict. cbn [append].
    rewrite !str_app_assoc. cbn [append]. rewrite !str_app_assoc.
    cbn [Json.scan_once].
    change (Ascii.eqb "{" Json.quote) with false.
    change (Ascii.eqb "{" "{") with true. cbv iota zeta.
    change (Json.skip_ws (String Json.quote ?X)) with (String Json.quote X).
    change (PyStr.startswith (String Json.quote _) "}") with false. cbv iota.
    rewrite (reads_pairs k x d Dx Dd I Sp fuel rest C). reflexivity.
Qed.

(** The fuel [loads] gives is enough for the text of a value. *)
Lemma cost_render_items r :
  Forall (fun v => cost v <= String.length (render v) + 1) r ->
  cost (JList r) <= String.length (render_items r).
Proof.
  induction 1 as [|y r Hy Hr IH]; [simpl; lia|].
  rewrite cost_list. cbn [render_items append String.length].
  rewrite str_length_app. lia.
Qed.

Lemma cost_render_pairs d :
  Forall (fun kv => cost (snd kv) <= String.length (render (snd kv)) + 1) d ->
  cost (JDict d) <= String.length (render_pairs d).
Proof.
  induction 1 as [|[k y] d Hy Hd IH]; [simpl; lia|]. cbn [snd] in Hy.
  rewrite cost_dict. cbn [render_pairs append String.length].
  rewrite !str_length_app. cbn [String.length]. rewrite str_length_app. lia.
Qed.

Lemma cost_le_render t : cost t <= String.length (render t) + 1.
Proof.
  induction t as [|b|z|l|s|l IH|d IH] using json_ind; try (simpl; lia).
  - destruct l as [|x r]; [simpl; lia|].
    inversion IH as [|? ? Hx Hr]; subst.
    rewrite cost_list, render_list. cbn [append String.length].
    rewrite str_length_app. pose proof (cost_render_items r Hr). lia.
  - destruct d as [|[k x] d]; [simpl; lia|].
    inversion IH as [|? ? Hx Hd]; subst. cbn [snd] in Hx.
    rewrite cost_dict, render_dict. cbn [append String.length].
    rewrite !str_length_app. cbn [String.length]. rewrite str_length_app.
    pose proof (cost_render_pairs d Hd). lia.
Qed.

(** Decoding the text of a value of bodies gives the value of the
    strings they stand for, with the members of each mapping as [dict]
    builds them. *)
Lemma loads_render t :
  float_literals t = true -> spelt t ->
  Json.loads (render t) = Some (normalize (map_strings body_value t)).
Proof.
  intros I Sp. unfold Json.loads.
  rewrite <- (str_app_nil_r (render t)) at 2.
  rewrite (skip_ws_render t "" I).
  rewrite (all_read t I Sp _ ""%string); [reflexivity | | reflexivity].
  pose proof (cost_le_render t). lia.
Qed.

(** *** The strings of a value *)

Lemma strings_of_map_strings f v :
  strings_of (map_strings f v) = map f (strings_of v).
Proof.
  induction v as [|b|z|l|s|l IH|d IH] using json_ind; try reflexivity.
  - cbn [map_strings strings_of].
    induction IH as [|x r Hx Hr IHr]; [reflexivity|].
    cbn [map flat_map]. now rewrite map_app, Hx, IHr.
  - cbn [map_strings strings_of].
    induction IH as [|[k x] r Hx Hr IHr]; [reflexivity|]. cbn [snd] in Hx.
    cbn [map flat_map fst snd app]. now rewrite map_app, Hx, IHr.
Qed.

Lemma map_strings_compose f g v :
  map_strings f (map_strings g v) = map_strings (fun s => f (g s)) v.
Proof.
  induction v as [|b|z|l|s|l IH|d IH] using json_ind; try reflexivity.
  - cbn [map_strings]. f_equal.
    induction IH as [|x r Hx Hr IHr]; [reflexivity|].
    cbn [map]. now rewrite Hx, IHr.
  - cbn [map_strings]. f_equal.
    induction IH as [|[k x] r Hx Hr IHr]; [reflexivity|]. cbn [snd] in Hx.
    cbn [map fst snd]. now rewrite Hx, IHr.
Qed.

Lemma map_strings_ext f g v :
  (forall s, In s (strings_of v) -> f s = g s) ->
  map_strings f v = map_strings g v.
Proof.
  induction v as [|b|z|l|s|l IH|d IH] using json_ind; intros E; try reflexivity.
  - cbn [map_strings]. f_equal. apply E. now left.
  - cbn [map_strings]. f_equal. cbn [strings_of] in E.
    induction IH as [|x r Hx Hr IHr]; [reflexivity|].
    cbn [map flat_map] in *. f_equal.
    + apply Hx. intros s I. apply E, in_or_app. now left.
    + apply IHr. intros s I. apply E, in_or_app. now right.
  - cbn [map_strings]. f_equal. cbn [strings_of] in E.
    induction IH as [|[k x] r Hx Hr IHr]; [reflexivity|]. cbn [snd] in Hx.
    cbn [map flat_map fst snd app] in *. f_equal.
    + f_equal; [apply E; now left|].
      apply Hx. intros s I. apply E. right. apply in_or_app. now left.
    + apply IHr. intros s I. apply E. right. apply in_or_app. now right.
Qed.

Lemma map_strings_id f v :
  (forall s, In s (strings_of v) -> f s = s) -> map_strings f v = v.
Proof.
  intros E. rewrite (map_strings_ext f (fun s => s) v E).
  clear E. induction v as [|b|z|l|s|l IH|d IH] using json_ind; try reflexivity.
  - cbn [map_strings]. f_equal.
    induction IH as [|x r Hx Hr IHr]; [reflexivity|]. cbn [map]. now rewrite Hx, IHr.
  - cbn [map_strings]. f_equal.
    induction IH as [|[k x] r Hx Hr IHr]; [reflexivity|]. cbn [snd] in Hx.
    cbn [map fst snd]. now rewrite Hx, IHr.
Qed.

(** [dumps] writes the text of the value of the escaped strings. *)
Lemma render_escaped v : render (map_strings Json.escape v) = Json.dumps v.
Proof.
  induction v as [|b|z|l|s|l IH|d IH] using json_ind; try reflexivity.
  - destruct l as [|x r]; [reflexivity|].
    inversion IH as [|? ? Hx Hr]; subst.
    change (map_strings Json.escape (JList (x :: r)))
      with (JList (map_strings Json.escape x :: map (map_strings Json.escape) r)).
    rewrite render_list, dumps_list, Hx. do 2 f_equal.
    clear IH Hx x. induction Hr as [|y r Hy Hr IHr]; [reflexivity|].
    cbn [map render_items Json.items_tail]. now rewrite Hy, IHr.
  - destruct d as [|[k x] d]; [reflexivity|].
    inversion IH as [|? ? Hx Hd]; subst. cbn [snd] in Hx.
    change (map_strings Json.escape (JDict ((k, x) :: d)))
      with (JDict ((Json.escape k, map_strings Json.escape x)
                   :: map (fun kv => (Json.escape (fst kv),
                                      map_strings Json.escape (snd kv))) d)).
    rewrite render_dict, dumps_dict, Hx. unfold Json.encode_string. do 4 f_equal.
    clear IH Hx x k. induction Hd as [|[k y] d Hy Hd IHd]; [reflexivity|].
    cbn [snd] in Hy.
    cbn [map render_pairs Json.pairs_tail fst snd]. unfold Json.encode_string.
    now rewrite Hy, IHd.
Qed.

Lemma spelt_escaped v : spelt (map_strings Json.escape v).
Proof.
  unfold spelt. rewrite strings_of_map_strings. apply Forall_map, Forall_forall.
  intros s _. apply (spells_body _ s), spells_escaped.
Qed.

Lemma value_escaped v : map_strings body_value (map_strings Json.escape v) = v.
Proof.
  rewrite map_strings_compose. apply map_strings_id.
  intros s _. apply spells_value, spells_escaped.
Qed.

(** The round trip of the library: decoding the text of a value gives
    the value, with the members of each mapping as [dict] builds them. *)
Lemma loads_dumps_floats v :
  float_literals v = true -> Json.loads (Json.dumps v) = Some (normalize v).
Proof.
  intros I. rewrite <- render_escaped, loads_render.
  - now rewrite value_escaped.
  - now rewrite float_literals_map_strings.
  - apply spelt_escaped.
Qed.

Lemma loads_dumps v :
  integral v = true -> Json.loads (Json.dumps v) = Some (normalize v).
Proof. intros I. apply loads_dumps_floats, integral_float_literals, I. Qed.

(** *** Replacing in the text of a value of bodies *)

Lemma startswith_body p :
  plain p = true ->
  forall b X, PyStr.startswith (b ++ String Json.quote X) p = PyStr.startswith b p.
Proof.
  induction p as [|a p IH]; intros P b X; [reflexivity|].
  cbn [plain] in P. apply andb_prop in P. destruct P as [Pa Pp].
  destruct (plain_not_special a Pa) as [Q _].
  destruct b as [|c b]; cbn [append PyStr.startswith].
  - now rewrite Q.
  - now rewrite (IH Pp).
Qed.

Lemma replace_token_prefix var new s :
  PyStr.replace (token var) new (token var ++ s)%string
  = (new ++ PyStr.replace (token var) new s)%string.
Proof. rewrite token_cons. apply replace_prefix. Qed.

(** A replacement does not go past the quote that ends a body. *)
Lemma replace_body var new :
  var_name var = true ->
  forall n b X,
    String.length b <= n ->
    PyStr.replace (token var) new (b ++ String Json.quote X)
    = (PyStr.replace (token var) new b
       ++ String Json.quote (PyStr.replace (token var) new X))%string.
Proof.
  intros V. pose proof (token_plain var V) as PT.
  induction n as [|n IH]; intros b X L.
  - destruct b; [|cbn in L; lia]. cbn [append]. now apply replace_other.
  - destruct b as [|c b]; [cbn [append]; now apply replace_other|].
    destruct (PyStr.startswith (String c b) (token var)) eqn:SW.
    + pose proof (startswith_split _ _ SW) as E.
      set (b2 := PyStr.drop (String.length (token var)) (String c b)) in E.
      assert (L2 : String.length b2 <= n).
      { unfold b2. rewrite drop_length. rewrite token_cons. cbn [String.length] in *. lia. }
      rewrite E, str_app_assoc, !replace_token_prefix, (IH b2 X L2), str_app_assoc.
      reflexivity.
    + cbn [append]. rewrite (replace_cons _ _ c (b ++ String Json.quote X)).
      change (String c (b ++ String Json.quote X))
        with (String c b ++ String Json.quote X)%string.
      rewrite (startswith_body (token var) PT), SW.
      rewrite (replace_cons _ _ c b), SW. cbn [append]. f_equal.
      apply IH. cbn in L. lia.
Qed.

Lemma replace_quoted var new b X :
  var_name var = true ->
  PyStr.replace (token var) new (String Json.quote (b ++ String Json.quote "") ++ X)%string
  = (String Json.quote (PyStr.replace (token var) new b ++ String Json.quote "")
     ++ PyStr.replace (token var) new X)%string.
Proof.
  intros V. cbn [append]. rewrite !str_app_assoc. cbn [append].
  rewrite replace_other by reflexivity.
  now rewrite (replace_body var new V (String.length b) b X (le_n _)).
Qed.

(** Replacing a token in the text of a value is replacing it in each of
    its bodies. *)
Lemma replace_render var new :
  var_name var = true ->
  forall t, float_literals t = true ->
  forall X,
    PyStr.replace (token var) new (render t ++ X)%string
    = (render (map_strings (PyStr.replace (token var) new) t)
       ++ PyStr.replace (token var) new X)%string.
Proof.
  intros V t.
  induction t as [|b|z|l|s|l IH|d IH] using json_ind; intros I X.
  - cbn [render map_strings append]. now rewrite !replace_other by reflexivity.
  - destruct b; cbn [render map_strings append];
      now rewrite !replace_other by reflexivity.
  - cbn [render map_strings]. apply replace_free, string_of_Z_free.
  - cbn [render map_strings]. apply replace_free, float_literal_free, I.
  - cbn [render map_strings]. now apply replace_quoted.
  - assert (Tail : forall r,
               Forall (fun t : json =>
                         float_literals t = true ->
                         forall X,
                           PyStr.replace (token var) new (render t ++ X)%string
                           = (render (map_strings (PyStr.replace (token var) new) t)
                              ++ PyStr.replace (token var) new X)%string) r ->
               float_literals (JList r) = true ->
               PyStr.replace (token var) new (render_items r ++ X)%string
               = (render_items (map (map_strings (PyStr.replace (token var) new)) r)
                  ++ PyStr.replace (token var) new X)%string).
    { induction 1 as [|y r Hy Hr IHr]; intros Ir.
      - cbn [render_items map append]. now rewrite replace_other by reflexivity.
      - rewrite float_literals_list in Ir. apply andb_prop in Ir. destruct Ir as [Iy Ir].
        cbn [render_items map append]. rewrite !str_app_assoc.
        rewrite !replace_other by reflexivity. now rewrite (Hy Iy), (IHr Ir). }
    destruct l as [|x r].
    + cbn [render map_strings map append]. now rewrite !replace_other by reflexivity.
    + inversion IH as [|? ? Hx Hr]; subst.
      change (map_strings (PyStr.replace (token var) new) (JList (x :: r)))
        with (JList (map_strings (PyStr.replace (token var) new) x
                     :: map (map_strings (PyStr.replace (token var) new)) r)).
      rewrite !render_list. cbn [append]. rewrite !str_app_assoc.
      rewrite replace_other by reflexivity.
      rewrite float_literals_list in I. apply andb_prop in I. destruct I as [Ix Ir].
      now rewrite (Hx Ix), (Tail r Hr Ir).
  - assert (Open : forall k Y,
               PyStr.replace (token var) new
                 (String "{" (String Json.quote
                                (k ++ String Json.quote (String ":" (String " " Y)))))
               = String "{"
                   (String Json.quote
                      (PyStr.replace (token var) new k
                       ++ String Json.quote
                            (String ":" (String " " (PyStr.replace (token var) new Y)))))%string).
    { intros k Y. rewrite replace_open by reflexivity.
      rewrite (replace_body var new V (String.length k) k _ (le_n _)).
      now rewrite !replace_other by reflexivity. }
    assert (Tail : forall m,
               Forall (fun kv =>
                         float_literals (snd kv) = true ->
                         forall X,
                           PyStr.replace (token var) new (render (snd kv) ++ X)%string
                           = (render (map_strings (PyStr.replace (token var) new) (snd kv))
                              ++ PyStr.replace (token var) new X)%string) m ->
               float_literals (JDict m) = true ->
               PyStr.replace (token var) new (render_pairs m ++ X)%string
               = (render_pairs
                    (map (fun kv => (PyStr.replace (token var) new (fst kv),
                                     map_strings (PyStr.replace (token var) new) (snd kv)))
                         m)
                  ++ PyStr.replace (token var) new X)%string).
    { induction 1 as [|[k y] m Hy Hd IHd]; intros Id.
      - cbn [render_pairs map append]. now rewrite replace_other by reflexivity.
      - cbn [snd] in Hy.
        rewrite float_literals_dict in Id. apply andb_prop in Id. destruct Id as [Iy Id].
        cbn [render_pairs map append fst snd]. rewrite !str_app_assoc. cbn [append].
        rewrite !str_app_assoc. cbn [append].
        rewrite !replace_other by reflexivity.
        rewrite (replace_body var new V (String.length k) k _ (le_n _)).
        rewrite !replace_other by reflexivity.
        now rewrite (Hy Iy), (IHd Id). }
    destruct d as [|[k x] d].
    + cbn [render map_strings map append].
      rewrite replace_open by reflexivity. reflexivity.
    + inversion IH as [|? ? Hx Hd]; subst. cbn [snd] in Hx.
      change (map_strings (PyStr.replace (token var) new) (JDict ((k, x) :: d)))
        with (JDict ((PyStr.replace (token var) new k,
                      map_strings (PyStr.replace (token var) new) x)
                     :: map (fun kv => (PyStr.replace (token var) new (fst kv),
                                        map_strings (PyStr.replace (token var) new) (snd kv)))
                            d)).
      rewrite !render_dict.
      rewrite float_literals_dict in I. apply andb_prop in I. destruct I as [Ix Id].
      cbn [append]. rewrite !str_app_assoc. cbn [append]. rewrite !str_app_assoc.
      cbn [append].
      now rewrite Open, (Hx Ix), (Tail d Hd Id).
Qed.

(** *** The loop over the matches *)

Lemma getenv_raw env var :
  var_name var = true ->
  (forall x, env var = Some x -> raw x = true) ->
  raw (getenv env var ("MISSING_" ++ var)%string) = true.
Proof.
  intros V H. unfold getenv. destruct (env var) as [x|]; [now apply H|].
  now apply plain_raw, sentinel_plain.
Qed.

Lemma substitute_render env t var :
  var_name var = true -> float_literals t = true ->
  substitute env (render t) var = render (subst_var env t var).
Proof.
  intros V I. unfold substitute, subst_var.
  rewrite <- (str_app_nil_r (render t)) at 1.
  rewrite (replace_render var _ V t I ""%string), replace_nil.
  apply str_app_nil_r.
Qed.

(** One turn of the loop on a value of bodies: the bodies it leaves
    stand for the strings of the turn on the value they stood for. *)
Lemma subst_var_spelt env t var :
  var_name var = true ->
  raw (getenv env var ("MISSING_" ++ var)%string) = true ->
  spelt t ->
  spelt (subst_var env t var)
  /\ map_strings body_value (subst_var env t var)
     = subst_var env (map_strings body_value t) var.
Proof.
  intros V R Sp. unfold subst_var.
  set (new := getenv env var ("MISSING_" ++ var)%string) in *.
  assert (Step : forall b, In b (strings_of t) ->
                   spells (PyStr.replace (token var) new b)
                          (PyStr.replace (token var) new (body_value b))).
  { intros b Ib. unfold spelt in Sp. rewrite Forall_forall in Sp.
    apply (replace_spells var new V R (String.length b) b _ (le_n _)), Sp, Ib. }
  split.
  - unfold spelt. rewrite strings_of_map_strings. apply Forall_map, Forall_forall.
    intros b Ib. apply (spells_body _ _ (Step b Ib)).
  - rewrite !map_strings_compose. apply map_strings_ext.
    intros b Ib. apply spells_value, Step, Ib.
Qed.

Lemma fold_substitute env vars : forall t,
  float_literals t = true -> spelt t ->
  Forall (fun var => var_name var = true
                     /\ raw (getenv env var ("MISSING_" ++ var)%string) = true) vars ->
  fold_left (substitute env) vars (render t)
  = render (fold_left (subst_var env) vars t)
  /\ float_literals (fold_left (subst_var env) vars t) = true
  /\ spelt (fold_left (subst_var env) vars t)
  /\ map_strings body_value (fold_left (subst_var env) vars t)
     = fold_left (subst_var env) vars (map_strings body_value t).
Proof.
  induction vars as [|var vars IH]; intros t I Sp F; [now repeat split|].
  inversion F as [|? ? [V R] F']; subst. cbn [fold_left].
  rewrite (substitute_render env t var V I).
  destruct (subst_var_spelt env t var V R Sp) as [Sp' E].
  rewrite <- E. apply IH; [|exact Sp' | exact F'].
  unfold subst_var. now rewrite float_literals_map_strings.
Qed.

(** The text after the loop decodes, to the config with the loop's
    turns made on its strings. *)
Lemma substituted_loads env config :
  float_literals config = true ->
  (forall var x, In var (Re.findall (Json.dumps config)) ->
                 env var = Some x -> raw x = true) ->
  Json.loads (fold_left (substitute env) (Re.findall (Json.dumps config))
                (Json.dumps config))
  = Some (normalize (fold_left (subst_var env) (Re.findall (Json.dumps config)) config)).
Proof.
  intros I H.
  destruct (fold_substitute env (Re.findall (Json.dumps config))
              (map_strings Json.escape config)) as (E & I' & Sp & Vl).
  - now rewrite float_literals_map_strings.
  - apply spelt_escaped.
  - pose proof (findall_var_names (Json.dumps config)) as V.
    rewrite Forall_forall in V |- *. intros var In. split; [now apply V|].
    apply getenv_raw; [now apply V|]. intros x. now apply H.
  - rewrite render_escaped in E. rewrite E, (loads_render _ I' Sp), Vl, value_escaped.
    reflexivity.
Qed.

(** C7: the variables a tool config names are replaced in each of its
    strings, one after the other as the pattern finds them, by their
    values, and by [MISSING_] and the name when the environment does not
    hold them; the text still decodes, to the config so substituted,
    provided the values of the variables that are set hold no quote, no
    backslash and no control character.  The config is any value as
    Python holds it, its floats given by their literals. *)
Theorem missing_variable_sentinel env config :
  float_literals config = true ->
  (forall var x, In var (Re.findall (Json.dumps config)) ->
                 env var = Some x -> raw x = true) ->
  _resolve_env_variables env config
  = Ok (normalize (fold_left (subst_var env) (Re.findall (Json.dumps config)) config))
  /\ (forall var v,
        env var = None ->
        subst_var env v var
        = map_strings (PyStr.replace (token var) ("MISSING_" ++ var)%string) v)
  /\ (forall var text,
        env var = None ->
        substitute env text var
        = PyStr.replace (token var) ("MISSING_" ++ var)%string text).
Proof.
  intros I H. split; [|split].
  - unfold _resolve_env_variables. now rewrite (substituted_loads env config I H).
  - intros var v N. unfold subst_var, getenv. now rewrite N.
  - intros var text N. unfold substitute, getenv. now rewrite N.
Qed.

Lemma tokenless_config_resolves env config :
  float_literals config = true ->
  distinct_keys config ->
  Re.findall (Json.dumps config) = [] ->
  _resolve_env_variables env config = Ok config.
Proof.
  intros I D F. unfold _resolve_env_variables. rewrite F. cbn [fold_left].
  now rewrite (loads_dumps_floats _ I), (normalize_distinct _ D).
Qed.

(** ** What the decoder returns *)

Lemma distinct_list_forall l : distinct_keys (JList l) <-> Forall distinct_keys l.
Proof.
  induction l as [|x r IH].
  - split; [constructor | intros; exact I].
  - change (distinct_keys (JList (x :: r)))
      with (distinct_keys x /\ distinct_keys (JList r)).
    rewrite IH. split.
    + intros [Hx Hr]. now constructor.
    + intros H. inversion H. now split.
Qed.

Lemma distinct_members_forall d :
  (fix all (d : dict) : Prop :=
     match d with
     | [] => True
     | kv :: r => distinct_keys (snd kv) /\ all r
     end) d
  <-> Forall (fun kv => distinct_keys (snd kv)) d.
Proof.
  induction d as [|kv r IH].
  - split; [constructor | intros; exact I].
  - rewrite IH. split.
    + intros [Hx Hr]. now constructor.
    + intros H. inversion H. now split.
Qed.

Lemma distinct_dict_forall d :
  distinct_keys (JDict d)
  <-> NoDup (Dict.keys d) /\ Forall (fun kv => distinct_keys (snd kv)) d.
Proof. cbn [distinct_keys]. now rewrite distinct_members_forall. Qed.

Lemma set_keys_nodup (d : dict) k v :
  NoDup (Dict.keys d) -> NoDup (Dict.keys (Dict.set d k v)).
Proof.
  intros N. rewrite keys_set. destruct (existsb (String.eqb k) (Dict.keys d)) eqn:E.
  - exact N.
  - apply NoDup_app; [exact N | repeat constructor; intros [] |].
    intros x I [<-|[]].
    assert (X : existsb (String.eqb k) (Dict.keys d) = true).
    { apply existsb_exists. exists k. split; [exact I | apply String.eqb_refl]. }
    congruence.
Qed.

Lemma set_members (P : json -> Prop) (d : dict) k v :
  Forall (fun kv => P (snd kv)) d -> P v ->
  Forall (fun kv => P (snd kv)) (Dict.set d k v).
Proof.
  intros F Pv. induction F as [|[k' v'] r Hx Hr IH]; cbn [Dict.set].
  - now repeat constructor.
  - destruct (String.eqb k' k); constructor; auto.
Qed.

Lemma of_pairs_distinct ps :
  Forall (fun kv => distinct_keys (snd kv)) ps ->
  distinct_keys (JDict (Dict.of_pairs ps)).
Proof.
  intros F. apply distinct_dict_forall. unfold Dict.of_pairs.
  assert (G : forall acc,
             NoDup (Dict.keys acc) /\ Forall (fun kv => distinct_keys (snd kv)) acc ->
             NoDup (Dict.keys (fold_left (fun d kv => Dict.set d (fst kv) (snd kv)) ps acc))
             /\ Forall (fun kv => distinct_keys (snd kv))
                       (fold_left (fun d kv => Dict.set d (fst kv) (snd kv)) ps acc)).
  { induction F as [|[k v] r Hx Hr IH]; intros acc [N A]; [now split|].
    cbn [fold_left fst snd]. apply IH. split.
    - now apply set_keys_nodup.
    - now apply set_members. }
  apply G. split; constructor.
Qed.

Lemma scan_number_distinct s v r :
  Json.scan_number s = Some (v, r) -> distinct_keys v.
Proof.
  unfold Json.scan_number. destruct (Json.scan_int s) as [[i r1]|]; [|discriminate].
  destruct (Json.scan_frac r1) as [f r2]. destruct (Json.scan_exp r2) as [e r3].
  destruct f, e; intros H; inversion H; exact I.
Qed.

Lemma scan_atom_distinct s v r :
  Json.scan_atom s = Some (v, r) -> distinct_keys v.
Proof.
  unfold Json.scan_atom, Json.or_else, Json.literal. intros H.
  destruct (PyStr.startswith s "null"); [inversion H; exact I|].
  destruct (PyStr.startswith s "true"); [inversion H; exact I|].
  destruct (PyStr.startswith s "false"); [inversion H; exact I|].
  destruct (Json.scan_number s) as [[x rest]|] eqn:E;
    [inversion H; subst; apply (scan_number_distinct _ _ _ E)|].
  destruct (PyStr.startswith s "NaN"); [inversion H; exact I|].
  destruct (PyStr.startswith s "Infinity"); [inversion H; exact I|].
  destruct (PyStr.startswith s "-Infinity"); [inversion H; exact I|].
  discriminate H.
Qed.

Lemma scan_distinct fuel :
  (forall s v r, Json.scan_once fuel s = Some (v, r) -> distinct_keys v)
  /\ (forall s xs r, Json.scan_items fuel s = Some (xs, r) -> Forall distinct_keys xs)
  /\ (forall s ps r, Json.scan_pairs fuel s = Some (ps, r) ->
        Forall (fun kv => distinct_keys (snd kv)) ps).
Proof.
  induction fuel as [|n (IH1 & IH2 & IH3)]; [repeat split; discriminate|].
  split; [|split].
  - intros s v r. cbn [Json.scan_once]. destruct s as [|c s]; [discriminate|].
    destruct (Ascii.eqb c Json.quote).
    { destruct (Json.scanstring s) as [[x rest]|]; intros H; inversion H; exact I. }
    destruct (Ascii.eqb c "{").
    { cbv zeta. destruct (PyStr.startswith (Json.skip_ws s) "}").
      - intros H. inversion H. split; [constructor | exact I].
      - destruct (Json.scan_pairs n (Json.skip_ws s)) as [[ps rest]|] eqn:E;
          intros H; inversion H; subst.
        apply of_pairs_distinct, (IH3 _ _ _ E). }
    destruct (Ascii.eqb c "[").
    { cbv zeta. destruct (PyStr.startswith (Json.skip_ws s) "]").
      - intros H. inversion H. exact I.
      - destruct (Json.scan_items n (Json.skip_ws s)) as [[xs rest]|] eqn:E;
          intros H; inversion H; subst.
        apply distinct_list_forall, (IH2 _ _ _ E). }
    apply scan_atom_distinct.
  - intros s xs r. cbn [Json.scan_items].
    destruct (Json.scan_once n s) as [[x r1]|] eqn:E; [|discriminate].
    cbv zeta. destruct (PyStr.startswith (Json.skip_ws r1) "]").
    { intros H. inversion H; subst. constructor; [apply (IH1 _ _ _ E) | constructor]. }
    destruct (PyStr.startswith (Json.skip_ws r1) ","); [|discriminate].
    destruct (Json.scan_items n _) as [[ys rest]|] eqn:E2; intros H; inversion H; subst.
    constructor; [apply (IH1 _ _ _ E) | apply (IH2 _ _ _ E2)].
  - intros s ps r. cbn [Json.scan_pairs].
    destruct (PyStr.startswith s _); [|discriminate].
    destruct (Json.scanstring (Json.tail s)) as [[k r1]|]; [|discriminate].
    cbv zeta. destruct (PyStr.startswith (Json.skip_ws r1) ":"); [|discriminate].
    destruct (Json.scan_once n _) as [[x r3]|] eqn:E; [|discriminate].
    destruct (PyStr.startswith (Json.skip_ws r3) "}").
    { intros H. inversion H; subst. constructor; [apply (IH1 _ _ _ E) | constructor]. }
    destruct (PyStr.startswith (Json.skip_ws r3) ","); [|discriminate].
    destruct (Json.scan_pairs n _) as [[qs rest]|] eqn:E2; intros H; inversion H; subst.
    constructor; [apply (IH1 _ _ _ E) | apply (IH3 _ _ _ E2)].
Qed.

Lemma loads_distinct s v : Json.loads s = Some v -> distinct_keys v.
Proof.
  unfold Json.loads.
  destruct (Json.scan_once _ (Json.skip_ws s)) as [[x rest]|] eqn:E; [|discriminate].
  destruct (Json.skip_ws rest); intros H; inversion H; subst.
  apply (proj1 (scan_distinct _) _ _ _ E).
Qed.

Lemma resolved_distinct env config out :
  _resolve_env_variables env config = Ok out -> distinct_keys out.
Proof.
  unfold _resolve_env_variables.
  destruct (Json.loads _) as [v|] eqn:E; intros H; inversion H; subst.
  apply (loads_distinct _ _ E).
Qed.

(** *** Floats by their literals *)

Lemma float_literals_list_forall l :
  float_literals (JList l) = true <-> Forall (fun x => float_literals x = true) l.
Proof.
  induction l as [|x r IH]; [split; [constructor | reflexivity]|].
  rewrite float_literals_list, andb_true_iff, IH, Forall_cons_iff. reflexivity.
Qed.

Lemma float_literals_dict_forall d :
  float_literals (JDict d) = true
  <-> Forall (fun kv => float_literals (snd kv) = true) d.
Proof.
  induction d as [|[k x] r IH]; [split; [constructor | reflexivity]|].
  rewrite float_literals_dict, andb_true_iff, IH, Forall_cons_iff. reflexivity.
Qed.

Lemma of_pairs_members (P : json -> Prop) ps :
  Forall (fun kv => P (snd kv)) ps ->
  Forall (fun kv => P (snd kv)) (Dict.of_pairs ps).
Proof.
  intros F. unfold Dict.of_pairs.
  assert (G : forall acc,
             Forall (fun kv => P (snd kv)) acc ->
             Forall (fun kv => P (snd kv))
                    (fold_left (fun d kv => Dict.set d (fst kv) (snd kv)) ps acc)).
  { induction F as [|[k v] r Hx Hr IH]; intros acc A; [exact A|].
    cbn [fold_left fst snd]. apply IH. now apply set_members. }
  apply G. constructor.
Qed.

Lemma scan_number_literals s v r :
  Json.scan_number s = Some (v, r) -> float_literals v = true.
Proof.
  intros H. pose proof H as H0. unfold Json.scan_number in H.
  destruct (Json.scan_int s) as [[i r1]|]; [|discriminate H].
  destruct (Json.scan_frac r1) as [f r2]. destruct (Json.scan_exp r2) as [e r3].
  destruct f, e; inversion H; subst; try reflexivity;
    apply (scan_number_float _ _ _ H0).
Qed.

Lemma scan_atom_literals s v r :
  Json.scan_atom s = Some (v, r) -> float_literals v = true.
Proof.
  unfold Json.scan_atom, Json.or_else, Json.literal. intros H.
  destruct (PyStr.startswith s "null"); [now inversion H|].
  destruct (PyStr.startswith s "true"); [now inversion H|].
  destruct (PyStr.startswith s "false"); [now inversion H|].
  destruct (Json.scan_number s) as [[x rest]|] eqn:E;
    [inversion H; subst; apply (scan_number_literals _ _ _ E)|].
  destruct (PyStr.startswith s "NaN"); [now inversion H|].
  destruct (PyStr.startswith s "Infinity"); [now inversion H|].
  destruct (PyStr.startswith s "-Infinity"); [now inversion H|].
  discriminate H.
Qed.

Lemma scan_literals fuel :
  (forall s v r, Json.scan_once fuel s = Some (v, r) -> float_literals v = true)
  /\ (forall s xs r, Json.scan_items fuel s = Some (xs, r) ->
        Forall (fun x => float_literals x = true) xs)
  /\ (forall s ps r, Json.scan_pairs fuel s = Some (ps, r) ->
        Forall (fun kv => float_literals (snd kv) = true) ps).
Proof.
  induction fuel as [|n (IH1 & IH2 & IH3)]; [repeat split; discriminate|].
  split; [|split].
  - intros s v r. cbn [Json.scan_once]. destruct s as [|c s]; [discriminate|].
    destruct (Ascii.eqb c Json.quote).
    { destruct (Json.scanstring s) as [[x rest]|]; intros H; now inversion H. }
    destruct (Ascii.eqb c "{").
    { cbv zeta. destruct (PyStr.startswith (Json.skip_ws s) "}").
      - intros H. now inversion H.
      - destruct (Json.scan_pairs n (Json.skip_ws s)) as [[ps rest]|] eqn:E;
          intros H; inversion H; subst.
        apply float_literals_dict_forall.
        apply (of_pairs_members (fun x => float_literals x = true)), (IH3 _ _ _ E). }
    destruct (Ascii.eqb c "[").
    { cbv zeta. destruct (PyStr.startswith (Json.skip_ws s) "]").
      - intros H. now inversion H.
      - destruct (Json.scan_items n (Json.skip_ws s)) as [[xs rest]|] eqn:E;
          intros H; inversion H; subst.
        apply float_literals_list_forall, (IH2 _ _ _ E). }
    apply scan_atom_literals.
  - intros s xs r. cbn [Json.scan_items].
    destruct (Json.scan_once n s) as [[x r1]|] eqn:E; [|discriminate].
    cbv zeta. destruct (PyStr.startswith (Json.skip_ws r1) "]").
    { intros H. inversion H; subst. constructor; [apply (IH1 _ _ _ E) | constructor]. }
    destruct (PyStr.startswith (Json.skip_ws r1) ","); [|discriminate].
    destruct (Json.scan_items n _) as [[ys rest]|] eqn:E2; intros H; inversion H; subst.
    constructor; [apply (IH1 _ _ _ E) | apply (IH2 _ _ _ E2)].
  - intros s ps r. cbn [Json.scan_pairs].
    destruct (PyStr.startswith s _); [|discriminate].
    destruct (Json.scanstring (Json.tail s)) as [[k r1]|]; [|discriminate].
    cbv zeta. destruct (PyStr.startswith (Json.skip_ws r1) ":"); [|discriminate].
    destruct (Json.scan_once n _) as [[x r3]|] eqn:E; [|discriminate].
    destruct (PyStr.startswith (Json.skip_ws r3) "}").
    { intros H. inversion H; subst. constructor; [apply (IH1 _ _ _ E) | constructor]. }
    destruct (PyStr.startswith (Json.skip_ws r3) ","); [|discriminate].
    destruct (Json.scan_pairs n _) as [[qs rest]|] eqn:E2; intros H; inversion H; subst.
    constructor; [apply (IH1 _ _ _ E) | apply (IH3 _ _ _ E2)].
Qed.

Lemma loads_literals s v : Json.loads s = Some v -> float_literals v = true.
Proof.
  unfold Json.loads.
  destruct (Json.scan_once _ (Json.skip_ws s)) as [[x rest]|] eqn:E; [|discriminate].
  destruct (Json.skip_ws rest); intros H; inversion H; subst.
  apply (proj1 (scan_literals _) _ _ _ E).
Qed.

Lemma resolved_literals env config out :
  _resolve_env_variables env config = Ok out -> float_literals out = true.
Proof.
  unfold _resolve_env_variables.
  destruct (Json.loads _) as [v|] eqn:E; intros H; inversion H; subst.
  apply (loads_literals _ _ E).
Qed.

(** C8: a config in whose text the pattern finds nothing is resolved to
    itself, whatever the environment; the config is any value as Python
    holds it, its floats given by their literals and the keys of each of
    its mappings distinct.  So a resolved config with no token left,
    which is such a value, is resolved to itself again. *)
Theorem resolve_without_tokens_is_identity env config :
  float_literals config = true ->
  distinct_keys config ->
  Re.findall (Json.dumps config) = [] ->
  _resolve_env_variables env config = Ok config
  /\ (forall c out,
        _resolve_env_variables env c = Ok out ->
        Re.findall (Json.dumps out) = [] ->
        _resolve_env_variables env out = Ok out).
Proof.
  intros I D F. split; [now apply tokenless_config_resolves|].
  intros c out R Fo.
  apply (tokenless_config_resolves env out (resolved_literals env c out R)
           (resolved_distinct env c out R) Fo).
Qed.

(** ** The reference resolver *)

(** The only exceptions of a walk are the two that [_resolve_inputs]
    catches. *)
Lemma walk_raises current parts e :
  walk current parts = Raise e -> (exists k, e = KeyError k) \/ e = TypeError.
Proof.
  revert current. induction parts as [|p parts IH]; simpl; intros c H.
  - discriminate.
  - destruct c; try (inversion H; now right).
    destruct (Dict.get members p) eqn:G.
    + eauto.
    + inversion H. left. eauto.
Qed.

Lemma resolve_inputs_fold config data (inputs : dict) acc logs :
  fold_left
    (fun (acc : dict * list log_record) (kv : string * json) =>
       let (v, warnings) := resolve_value config data (snd kv) in
       (Dict.set (fst acc) (fst kv) v, (snd acc ++ warnings)%list))
    inputs (acc, logs)
  = (fold_left (fun d kv => Dict.set d (fst kv) (snd kv))
               (map (resolved_pair config data) inputs) acc,
     logs ++ concat (map (fun kv => snd (resolve_value config data (snd kv))) inputs)).
Proof.
  revert acc logs. induction inputs as [|[k v] l IH]; intros acc logs.
  - simpl. now rewrite List.app_nil_r.
  - cbn [fold_left map concat fst snd]. unfold resolved_pair at 2.
    cbn [fst snd].
    destruct (resolve_value config data v) as [x ws] eqn:E.
    cbn [fst snd]. rewrite IH. unfold resolved_pair. cbn [fst snd].
    rewrite E. cbn [fst]. now rewrite List.app_assoc.
Qed.

Lemma keys_resolved config data (inputs : dict) :
  Dict.keys (map (resolved_pair config data) inputs) = Dict.keys inputs.
Proof. unfold Dict.keys. rewrite map_map. reflexivity. Qed.

Lemma resolve_inputs_nodup config (inputs : dict) state :
  NoDup (Dict.keys inputs) ->
  _resolve_inputs config inputs state
  = (map (resolved_pair config (WorkflowState.data state)) inputs,
     concat (map (fun kv => snd (resolve_value config (WorkflowState.data state) (snd kv)))
                 inputs)).
Proof.
  intros N. unfold _resolve_inputs. rewrite resolve_inputs_fold.
  rewrite fold_set_nodup; [reflexivity|].
  simpl. now rewrite keys_resolved.
Qed.

Lemma resolved_get config (inputs : dict) state key value :
  NoDup (Dict.keys inputs) -> In (key, value) inputs ->
  Dict.get (fst (_resolve_inputs config inputs state)) key
  = Some (fst (resolve_value config (WorkflowState.data state) value)).
Proof.
  intros N I. rewrite resolve_inputs_nodup by exact N. simpl.
  apply get_in_nodup.
  - now rewrite keys_resolved.
  - apply (in_map (resolved_pair config (WorkflowState.data state))) in I. exact I.
Qed.

Lemma resolve_value_reference config data s :
  is_reference_string s = true ->
  resolve_value config data (JStr s)
  = match walk (ref_root config data (ref_parts s)) (ref_parts s) with
    | Ok current => (current, [])
    | Raise _ => (JNull, [ref_warning s])
    end.
Proof.
  intros R. unfold resolve_value, is_reference, ref_root, ref_warning.
  unfold is_reference_string in R. rewrite R.
  fold (ref_path s). fold (ref_parts s).
  destruct (String.eqb (hd "" (ref_parts s)) "config"); reflexivity.
Qed.

Lemma resolve_value_literal config data value :
  (forall s, value = JStr s -> is_reference_string s = false) ->
  resolve_value config data value = (value, []).
Proof.
  intros H. unfold resolve_value, is_reference.
  destruct value; try reflexivity.
  specialize (H s eq_refl). unfold is_reference_string in H. now rewrite H.
Qed.

(** C6: only a top-level input value is looked at.  A declared input
    whose value is not a string that starts with two opening and ends with
    two closing braces is bound unchanged in the resolved inputs; so is a
    sequence or a mapping, whatever reference-like strings it holds. *)
Theorem literal_inputs_pass_through config (inputs : dict) state key value :
  NoDup (Dict.keys inputs) ->
  In (key, value) inputs ->
  (forall s, value = JStr s -> is_reference_string s = false) ->
  Dict.get (fst (_resolve_inputs config inputs state)) key = Some value
  /\ (forall items, value = JList items ->
        Dict.get (fst (_resolve_inputs config inputs state)) key = Some (JList items))
  /\ (forall members, value = JDict members ->
        Dict.get (fst (_resolve_inputs config inputs state)) key = Some (JDict members)).
Proof.
  intros N I L.
  assert (G : Dict.get (fst (_resolve_inputs config inputs state)) key = Some value).
  { rewrite (resolved_get config inputs state key value N I).
    now rewrite resolve_value_literal. }
  split; [exact G|]. split; intros ? ->; exact G.
Qed.

(** C5: a reference whose walk fails is bound to the absent value and a
    warning is logged; every declared input, the others included, is bound
    to what its own value resolves to, and no key is lost. *)
Theorem failed_reference_resolves_to_null config (inputs : dict) state key s e :
  NoDup (Dict.keys inputs) ->
  In (key, JStr s) inputs ->
  is_reference_string s = true ->
  walk (ref_root config (WorkflowState.data state) (ref_parts s)) (ref_parts s)
  = Raise e ->
  Dict.get (fst (_resolve_inputs config inputs state)) key = Some JNull
  /\ In (ref_warning s) (snd (_resolve_inputs config inputs state))
  /\ Dict.keys (fst (_resolve_inputs config inputs state)) = Dict.keys inputs
  /\ (forall key' value', In (key', value') inputs ->
        Dict.get (fst (_resolve_inputs config inputs state)) key'
        = Some (fst (resolve_value config (WorkflowState.data state) value'))).
Proof.
  intros N I R W.
  assert (V : resolve_value config (WorkflowState.data state) (JStr s)
              = (JNull, [ref_warning s])).
  { rewrite resolve_value_reference by exact R. now rewrite W. }
  split; [|split; [|split]].
  - rewrite (resolved_get config inputs state key (JStr s) N I). now rewrite V.
  - rewrite resolve_inputs_nodup by exact N. simpl.
    apply in_concat. exists [ref_warning s]. split; [|now left].
    apply in_map_iff. exists (key, JStr s). simpl. now rewrite V.
  - rewrite resolve_inputs_nodup by exact N. simpl. apply keys_resolved.
  - intros key' value' I'. apply (resolved_get config inputs state key' value' N I').
Qed.

(** C1 (as the code has it): a reference whose first segment is [config]
    is walked in the loaded document with its whole path, [config]
    included, whatever the execution state: it resolves inside the
    document's top-level [config] entry along the remaining segments, and
    to the absent value, with a warning, when the document has no such
    entry. *)
Theorem config_reference_walks_whole_path (w : Workflow.t) data s :
  is_reference_string s = true ->
  hd "" (ref_parts s) = "config" ->
  resolve_value (workflow_config w) data (JStr s)
  = match walk (workflow_config w) (ref_parts s) with
    | Ok current => (current, [])
    | Raise _ => (JNull, [ref_warning s])
    end
  /\ walk (workflow_config w) (ref_parts s)
     = match Dict.get (Workflow.extra w) "config" with
       | Some v => walk v (tl (ref_parts s))
       | None => Raise (KeyError "config")
       end
  /\ (forall data',
        resolve_value (workflow_config w) data' (JStr s)
        = resolve_value (workflow_config w) data (JStr s)).
Proof.
  intros R H.
  assert (E : forall d, ref_root (workflow_config w) d (ref_parts s) = workflow_config w).
  { intros d. unfold ref_root. now rewrite H. }
  split; [|split].
  - rewrite resolve_value_reference by exact R. now rewrite E.
  - destruct (ref_parts s) as [|p ps]; simpl in H.
    + discriminate.
    + subst p. reflexivity.
  - intros data'. rewrite !resolve_value_reference by exact R. now rewrite !E.
Qed.

(** ** The engine *)

Lemma assoc_set_same {A : Type} (l : list (string * A)) k v :
  assoc (assoc_set l k v) k = Some v.
Proof.
  induction l as [|[k' v'] l IH]; simpl.
  - now rewrite String.eqb_refl.
  - destruct (String.eqb k' k) eqn:E; simpl; rewrite E; auto.
Qed.

Lemma assoc_set_other {A : Type} (l : list (string * A)) k k' v :
  k' <> k -> assoc (assoc_set l k v) k' = assoc l k'.
Proof.
  intros N. induction l as [|[k0 v0] l IH]; simpl.
  - destruct (String.eqb_spec k k'); congruence.
  - destruct (String.eqb_spec k0 k); simpl.
    + subst. destruct (String.eqb_spec k k'); congruence.
    + now rewrite IH.
Qed.

Lemma resolve_value_warnings config data value :
  Forall (fun r => fst r = WARNING) (snd (resolve_value config data value)).
Proof.
  unfold resolve_value. destruct (is_reference value); [|constructor].
  destruct (String.eqb _ _).
  - destruct (walk config _); simpl; repeat constructor.
  - destruct (walk (JDict data) _); simpl; repeat constructor.
Qed.

Lemma resolve_inputs_warnings config (inputs : dict) state :
  Forall (fun r => fst r = WARNING) (snd (_resolve_inputs config inputs state)).
Proof.
  unfold _resolve_inputs. rewrite resolve_inputs_fold. simpl.
  induction inputs as [|[k v] l IH]; simpl; [constructor|].
  apply Forall_app. split; [apply resolve_value_warnings | exact IH].
Qed.

Lemma filter_executing_warnings (l : list log_record) :
  Forall (fun r => fst r = WARNING) l -> filter is_executing l = [].
Proof.
  induction 1 as [|[lv m] l H _ IH]; simpl; [reflexivity|].
  simpl in H. subst lv. exact IH.
Qed.

(** ** The registry *)

Lemma lookup_class_cases name :
  match lookup_class name with
  | inl (Class c) => c <> BaseAgent /\ name = class_name c
  | inl ModuleInit => name = "__init__"%string
  | inr _ => name <> "__init__"%string
  end.
Proof.
  destruct (String.eqb_spec name "__init__") as [->|NI]; [reflexivity|].
  unfold lookup_class.
  destruct (assoc agent_modules (PyStr.lower name)) as [attrs|] eqn:M; [|exact NI].
  unfold agent_modules in M. cbn [assoc] in M.
  repeat match type of M with
         | (if String.eqb ?m ?x then _ else _) = _ =>
             destruct (String.eqb_spec m x) as [L|_];
             [injection M as <- |]
         end;
    try discriminate M;
    unfold getattr; cbn [assoc];
    repeat match goal with
           | |- context [String.eqb ?a ?b] =>
               destruct (String.eqb_spec a b); [subst|]; cbv iota
           end;
    first [ exact NI
          | now (exfalso; apply NI)
          | now (exfalso; vm_compute in L; discriminate L)
          | now (split; [discriminate | reflexivity]) ].
Qed.

(** The one name that does not load is the name of the package's own
    module. *)
Lemma agent_loads_iff name : agent_loads name = true <-> name <> "__init__"%string.
Proof.
  unfold agent_loads. pose proof (lookup_class_cases name) as C.
  destruct (lookup_class name) as [[c|]|e].
  - destruct C as [N ->]. split.
    + intros _. destruct c; discriminate.
    + intros _. destruct c; [congruence | reflexivity ..].
  - subst. split; [discriminate | congruence].
  - tauto.
Qed.

Section EngineFacts.

Variable mem : Type.
Variable new_memory : mem.
Variable agent_execute :
  agent_class -> string -> mem -> dict -> string -> json -> (json + string) * mem.
Variable env : environ.
Variable describe : lookup_error -> string.
Variable refuses : string -> option string.
Variable recursion_limit : nat.

Local Abbreviation agent_for := (get_agent new_memory describe).
Local Abbreviation prep := (prepare new_memory env describe).
Local Abbreviation try_call := (attempt agent_execute).
Local Abbreviation node := (node_function new_memory agent_execute env describe).
Local Abbreviation run := (run_from new_memory agent_execute env describe).
Local Abbreviation chain := (run_steps new_memory agent_execute env describe).
Local Abbreviation outcome_of := (handler_outcome agent_execute).
Local Abbreviation calls := (outcomes_of new_memory agent_execute env describe).
Local Abbreviation graph_of := (build_graph refuses).
Local Abbreviation exec :=
  (execute new_memory agent_execute env describe refuses recursion_limit).
Local Abbreviation accepted s := (refuses (Step.id s) = None).
Local Abbreviation resolves := (config_resolves env).
Local Abbreviation loads s := (agent_loads (Step.agent s) = true).

(** The tool configs of a step, as [prepare] resolves them. *)
Local Abbreviation tools_config_of s :=
  (_resolve_env_variables env (JDict [("tools", JList (or_default (Step.tools s) []))])).

(** *** The agent cache *)

Lemma get_agent_cached name (b : builder mem) a :
  assoc (agents b) name = Some a -> agent_for name b = (Ok a, b).
Proof. intros H. unfold get_agent. now rewrite H. Qed.

Lemma get_agent_fresh name (b : builder mem) :
  agent_loads name = true ->
  assoc (agents b) name = None ->
  agent_for name b
  = (Ok (fresh_agent new_memory name b),
     mk_builder (assoc_set (agents b) name (fresh_agent new_memory name b))
                (S (next_obj b)) (log b ++ load_records describe name)).
Proof.
  intros L H. unfold get_agent. rewrite H.
  unfold agent_loads in L.
  unfold fresh_agent, load_records, _load_agent, bind, store_agent, ret.
  destruct (lookup_class name) as [[c|]|e]; simpl in *.
  - destruct c; [discriminate | now rewrite List.app_nil_r ..].
  - discriminate.
  - reflexivity.
Qed.

(** A name that does not load and that the cache does not hold: the
    [TypeError] leaves [get_agent], which stores and logs nothing. *)
Lemma get_agent_raises name (b : builder mem) :
  agent_loads name = false ->
  assoc (agents b) name = None ->
  agent_for name b = (Raise TypeError, b).
Proof.
  intros L H. unfold get_agent. rewrite H.
  unfold agent_loads in L. unfold _load_agent, bind.
  destruct (lookup_class name) as [[c|]|e]; simpl in *.
  - destruct c; [reflexivity | discriminate ..].
  - reflexivity.
  - discriminate.
Qed.

Lemma load_records_not_executing name :
  filter is_executing (load_records describe name) = [].
Proof. unfold load_records. now destruct (lookup_class name). Qed.

(** [get_agent] returns an agent for a name that loads, which the cache
    then holds under the name; the log grows by records that are no node
    starts. *)
Lemma get_agent_total name (b : builder mem) :
  agent_loads name = true ->
  exists a b',
    agent_for name b = (Ok a, b')
    /\ assoc (agents b') name = Some a
    /\ (exists rs, log b' = log b ++ rs /\ filter is_executing rs = []).
Proof.
  intros L. destruct (assoc (agents b) name) as [a|] eqn:H.
  - exists a, b. rewrite (get_agent_cached _ _ _ H). repeat split; auto.
    exists []. now rewrite List.app_nil_r.
  - eexists _, _. rewrite (get_agent_fresh _ _ L H). split; [reflexivity|].
    simpl. split; [apply assoc_set_same|].
    exists (load_records describe name).
    split; [reflexivity | apply load_records_not_executing].
Qed.

Lemma get_agent_cases name (b : builder mem) :
  (exists a b',
     agent_for name b = (Ok a, b')
     /\ assoc (agents b') name = Some a
     /\ (exists rs, log b' = log b ++ rs /\ filter is_executing rs = []))
  \/ (agent_loads name = false
      /\ assoc (agents b) name = None
      /\ agent_for name b = (Raise TypeError, b)).
Proof.
  destruct (assoc (agents b) name) as [a|] eqn:H.
  - left. exists a, b. rewrite (get_agent_cached _ _ _ H). repeat split; auto.
    exists []. now rewrite List.app_nil_r.
  - destruct (agent_loads name) eqn:L.
    + left. destruct (get_agent_total name b L) as (a & b' & G). eauto.
    + right. repeat split. now apply get_agent_raises.
Qed.

(** *** One node *)

(** [prepare] after the agent of the step. *)
Lemma prepare_unfold w s st (b : builder mem) :
  prep w s st b
  = match agent_for (Step.agent s)
            (mk_builder (agents b) (next_obj b) (log b ++ [executing_record s])) with
    | (Ok agent, b1) =>
        let inputs :=
          fst (_resolve_inputs (workflow_config w) (or_default (Step.inputs s) []) st) in
        let warnings :=
          snd (_resolve_inputs (workflow_config w) (or_default (Step.inputs s) []) st) in
        let b2 := mk_builder (agents b1) (next_obj b1) (log b1 ++ warnings) in
        match tools_config_of s with
        | Ok tc => (Ok (agent, inputs, tc), b2)
        | Raise e => (Raise e, b2)
        end
    | (Raise e, b1) => (Raise e, b1)
    end.
Proof.
  unfold prepare, bind, logger_info, logger at 1. fold (executing_record s).
  unfold log_record in *.
  destruct (agent_for _ _) as [[agent|e] b1]; [|reflexivity].
  destruct (_resolve_inputs (workflow_config w) (or_default (Step.inputs s) []) st)
    as [inputs warnings].
  unfold logger, lift, ret. simpl.
  destruct (tools_config_of s); reflexivity.
Qed.

(** When the agent of the step loads, [prepare] raises exactly when the
    tool configs do not resolve. *)
Lemma prepare_cases w s st (b : builder mem) :
  loads s ->
  exists agent b1 rs,
    agent_for (Step.agent s) (mk_builder (agents b) (next_obj b) (log b ++ [executing_record s]))
    = (Ok agent, b1)
    /\ log b1 = (log b ++ [executing_record s]) ++ rs
    /\ filter is_executing rs = []
    /\ assoc (agents b1) (Step.agent s) = Some agent
    /\ let inputs := fst (_resolve_inputs (workflow_config w) (or_default (Step.inputs s) []) st) in
       let warnings := snd (_resolve_inputs (workflow_config w) (or_default (Step.inputs s) []) st) in
       let b2 := mk_builder (agents b1) (next_obj b1) (log b1 ++ warnings) in
       prep w s st b
       = match tools_config_of s with
         | Ok tc => (Ok (agent, inputs, tc), b2)
         | Raise e => (Raise e, b2)
         end.
Proof.
  intros Ld.
  destruct (get_agent_total (Step.agent s)
              (mk_builder (agents b) (next_obj b) (log b ++ [executing_record s])) Ld)
    as (agent & b1 & G & C & rs & L & F).
  exists agent, b1, rs. simpl in L. repeat split; auto.
  rewrite prepare_unfold. unfold log_record in *. now rewrite G.
Qed.

Lemma attempt_total s agent inputs tc (b : builder mem) :
  exists o b',
    try_call s agent inputs tc b = (Ok o, b')
    /\ log b' = log b /\ next_obj b' = next_obj b.
Proof.
  unfold attempt. destruct (walk tc ["tools"%string]) as [tools|e].
  - unfold call_agent.
    destruct (agent_execute _ _ _ _ _ _) as [o m']. eexists _, _. now split.
  - eexists _, _. unfold ret. now split.
Qed.

Lemma commit_state s inputs o st (b : builder mem) :
  exists r,
    commit s inputs o st b
    = (Ok (state_after s inputs o st),
       mk_builder (agents b) (next_obj b) (log b ++ [r]))
    /\ is_executing r = false.
Proof.
  unfold commit, bind, logger_info, logger_error, logger, ret.
  destruct o as [result|msg]; simpl; eexists; split; reflexivity.
Qed.

(** A node that has its agent returns the state its outcome gives when
    the tool configs resolve, and raises when they do not. *)
Lemma node_with_agent w s st (b : builder mem) agent b1 :
  agent_for (Step.agent s) (mk_builder (agents b) (next_obj b) (log b ++ [executing_record s]))
  = (Ok agent, b1) ->
  let inputs := fst (_resolve_inputs (workflow_config w) (or_default (Step.inputs s) []) st) in
  let warnings := snd (_resolve_inputs (workflow_config w) (or_default (Step.inputs s) []) st) in
  match tools_config_of s with
  | Ok tc =>
      exists o b' r,
        node w s st b = (Ok (state_after s inputs o st), b')
        /\ log b' = log b1 ++ warnings ++ [r]
        /\ is_executing r = false
  | Raise e =>
      node w s st b
      = (Raise e, mk_builder (agents b1) (next_obj b1) (log b1 ++ warnings))
  end.
Proof.
  intros G inputs warnings.
  pose proof (prepare_unfold w s st b) as P. unfold log_record in *.
  rewrite G in P. cbv zeta in P. fold inputs warnings in P.
  destruct (tools_config_of s) as [tc|e].
  - destruct (attempt_total s agent inputs tc
                (mk_builder (agents b1) (next_obj b1) (log b1 ++ warnings)))
      as (o & b3 & A & L3 & _).
    destruct (commit_state s inputs o st b3) as (r & C & E).
    exists o, (mk_builder (agents b3) (next_obj b3) (log b3 ++ [r])), r.
    split; [|split].
    + unfold node_function, bind. rewrite P. unfold log_record in *.
      rewrite A. exact C.
    + simpl. rewrite L3. simpl. now rewrite <- List.app_assoc.
    + exact E.
  - unfold node_function, bind. now rewrite P.
Qed.

(** A node whose agent loads and whose tool configs resolve returns: its
    state is the one its outcome gives, and it logs one node start. *)
Lemma node_returns w s st (b : builder mem) :
  loads s ->
  resolves s ->
  exists o b' rs,
    node w s st b
    = (Ok (state_after s (fst (_resolve_inputs (workflow_config w)
                                 (or_default (Step.inputs s) []) st)) o st), b')
    /\ log b' = log b ++ executing_record s :: rs
    /\ filter is_executing rs = [].
Proof.
  intros Ld [tc R].
  destruct (prepare_cases w s st b Ld) as (agent & b1 & rs & G & L1 & F1 & _).
  pose proof (node_with_agent w s st b agent b1 G) as N. cbv zeta in N.
  rewrite R in N. destruct N as (o & b' & r & N & L & E).
  exists o, b',
         (rs ++ snd (_resolve_inputs (workflow_config w)
                       (or_default (Step.inputs s) []) st) ++ [r]).
  split; [exact N|]. split.
  - rewrite L, L1. rewrite <- !List.app_assoc. reflexivity.
  - rewrite !filter_app, F1.
    rewrite (filter_executing_warnings _ (resolve_inputs_warnings _ _ _)).
    simpl. now rewrite E.
Qed.

(** A node whose agent loads and whose tool configs do not resolve
    raises, after it logged its start. *)
Lemma node_raises w s st (b : builder mem) e :
  loads s ->
  tools_config_of s = Raise e ->
  exists b' rs,
    node w s st b = (Raise e, b')
    /\ log b' = log b ++ executing_record s :: rs
    /\ filter is_executing rs = [].
Proof.
  intros Ld R.
  destruct (prepare_cases w s st b Ld) as (agent & b1 & rs & G & L1 & F1 & _).
  pose proof (node_with_agent w s st b agent b1 G) as N. cbv zeta in N.
  rewrite R in N.
  eexists (mk_builder _ _ _),
          (rs ++ snd (_resolve_inputs (workflow_config w)
                        (or_default (Step.inputs s) []) st)).
  split; [exact N|]. split.
  - simpl. rewrite L1. rewrite <- !List.app_assoc. reflexivity.
  - rewrite filter_app, F1.
    now rewrite (filter_executing_warnings _ (resolve_inputs_warnings _ _ _)).
Qed.

(** A node whose agent does not load and is not held raises, after it
    logged its start; nothing is stored. *)
Lemma node_misnamed w s st (b : builder mem) :
  agent_loads (Step.agent s) = false ->
  assoc (agents b) (Step.agent s) = None ->
  node w s st b
  = (Raise TypeError,
     mk_builder (agents b) (next_obj b) (log b ++ [executing_record s])).
Proof.
  intros L H. unfold node_function, bind. rewrite prepare_unfold.
  unfold log_record in *. now rewrite (get_agent_raises _ _ L) by exact H.
Qed.

(** A node that returns has made its handler call: its state is the one
    the outcome of the call gives. *)
Lemma node_calls_handler w s st (b : builder mem) st1 b1 :
  node w s st b = (Ok st1, b1) ->
  exists agent inputs tc b0,
    prep w s st b = (Ok (agent, inputs, tc), b0)
    /\ st1 = state_after s inputs (outcome_of s agent inputs tc) st.
Proof.
  unfold node_function, bind. intros N.
  destruct (prep w s st b) as [[[[agent inputs] tc]|e] b0]; [|discriminate N].
  exists agent, inputs, tc, b0. split; [reflexivity|].
  unfold attempt, handler_outcome in *.
  destruct (walk tc ["tools"%string]) as [tools|e].
  - unfold call_agent in N.
    destruct (agent_execute _ _ _ _ _ _) as [o m']. cbn [fst].
    match type of N with
    | commit _ _ _ _ ?b3 = _ =>
        destruct (commit_state s inputs o st b3) as (r & C & _)
    end.
    unfold log_record in *. rewrite C in N. now inversion N.
  - unfold ret in N.
    destruct (commit_state s inputs (inr (exn_message e)) st b0) as (r & C & _).
    unfold log_record in *. rewrite C in N. now inversion N.
Qed.

(** *** The declared steps in order *)

Lemma executing_record_is_executing s : is_executing (executing_record s) = true.
Proof. unfold is_executing, executing_record. simpl. reflexivity. Qed.

Lemma filter_executing_node (l rs : list log_record) s :
  filter is_executing rs = [] ->
  filter is_executing (l ++ executing_record s :: rs)
  = filter is_executing l ++ [executing_record s].
Proof.
  intros F. rewrite filter_app. cbn [filter].
  rewrite executing_record_is_executing, F. reflexivity.
Qed.

Lemma chain_returns w steps : forall st (b : builder mem),
  Forall (fun s => loads s) steps ->
  Forall resolves steps ->
  exists st' b' outcomes,
    chain w steps st b = (Ok st', b')
    /\ length outcomes = length steps
    /\ WorkflowState.history st' = WorkflowState.history st ++ history_of steps outcomes
    /\ WorkflowState.errors st' = WorkflowState.errors st ++ errors_of steps outcomes
    /\ WorkflowState.data st'
       = fold_left record_output (history_of steps outcomes) (WorkflowState.data st)
    /\ WorkflowState.workflow_name st' = WorkflowState.workflow_name st
    /\ filter is_executing (log b')
       = filter is_executing (log b) ++ map executing_record steps.
Proof.
  induction steps as [|s rest IH]; intros st b FL F.
  - exists st, b, []. simpl. rewrite !List.app_nil_r. repeat split; reflexivity.
  - inversion F as [|? ? Rs Rrest]; subst.
    inversion FL as [|? ? Ls Lrest]; subst.
    destruct (node_returns w s st b Ls Rs) as (o & b1 & rs & N & L & Fr).
    set (inputs := fst (_resolve_inputs _ _ _)) in N.
    destruct (IH (state_after s inputs o st) b1 Lrest Rrest)
      as (st' & b' & os & C & Len & H & E & D & W & V).
    exists st', b', ((inputs, o) :: os).
    split; [|split; [|split; [|split; [|split; [|split]]]]].
    + cbn [run_steps]. unfold bind. rewrite N. exact C.
    + simpl. now rewrite Len.
    + rewrite H. unfold history_of. cbn [combine flat_map fst snd].
      destruct o; simpl; rewrite <- ?List.app_assoc; reflexivity.
    + rewrite E. unfold errors_of. cbn [combine flat_map fst snd].
      destruct o; simpl; rewrite <- ?List.app_assoc; reflexivity.
    + rewrite D. unfold history_of. cbn [combine flat_map fst snd].
      destruct o; reflexivity.
    + rewrite W. now destruct o.
    + rewrite V, L, (filter_executing_node _ _ _ Fr).
      rewrite <- List.app_assoc. reflexivity.
Qed.

(** The first step whose tool configs do not resolve ends the run: the
    exception leaves the chain and no later node starts. *)
Lemma chain_raises w pre s post e : forall st (b : builder mem),
  Forall (fun s => loads s) pre ->
  Forall resolves pre ->
  loads s ->
  tools_config_of s = Raise e ->
  exists b',
    chain w (pre ++ s :: post) st b = (Raise e, b')
    /\ filter is_executing (log b')
       = filter is_executing (log b) ++ map executing_record (pre ++ [s]).
Proof.
  induction pre as [|p pre IH]; intros st b FL F Ld R.
  - destruct (node_raises w s st b e Ld R) as (b' & rs & N & L & Fr).
    exists b'. split.
    + cbn [app run_steps]. unfold bind. now rewrite N.
    + rewrite L. apply (filter_executing_node _ _ _ Fr).
  - inversion F as [|? ? Rp Rpre]; subst.
    inversion FL as [|? ? Lp Lpre]; subst.
    destruct (node_returns w p st b Lp Rp) as (o & b1 & rs & N & L & Fr).
    destruct (IH (state_after p (fst (_resolve_inputs (workflow_config w)
                                        (or_default (Step.inputs p) []) st)) o st)
                 b1 Lpre Rpre Ld R) as (b' & C & V).
    exists b'. split.
    + cbn [app run_steps]. unfold bind. rewrite N. exact C.
    + rewrite V, L, (filter_executing_node _ _ _ Fr).
      rewrite <- List.app_assoc. reflexivity.
Qed.

(** A chain that returns has made the handler call of every step: the
    history gets the record of each call that returned, the errors the
    entry of each call that raised. *)
Lemma chain_calls w steps : forall st (b : builder mem) st' b',
  chain w steps st b = (Ok st', b') ->
  length (calls w steps st b) = length steps
  /\ WorkflowState.history st'
     = WorkflowState.history st ++ history_of steps (calls w steps st b)
  /\ WorkflowState.errors st'
     = WorkflowState.errors st ++ errors_of steps (calls w steps st b).
Proof.
  induction steps as [|s rest IH]; intros st b st' b' C.
  - inversion C; subst. simpl. now rewrite !List.app_nil_r.
  - cbn [run_steps] in C. unfold bind in C.
    destruct (node w s st b) as [[st1|e] b1] eqn:N; [|discriminate C].
    destruct (node_calls_handler w s st b st1 b1 N)
      as (agent & inputs & tc & b0 & P & ->).
    cbn [outcomes_of]. rewrite P, N. cbn [snd].
    destruct (IH _ _ _ _ C) as (Len & H & E).
    split; [simpl; now rewrite Len|].
    rewrite H, E. unfold history_of, errors_of. cbn [combine flat_map fst snd].
    destruct (outcome_of s agent inputs tc); simpl; rewrite <- ?List.app_assoc;
      split; reflexivity.
Qed.

(** *** The graph *)

Lemma assoc_none {A : Type} (l : list (string * A)) k :
  ~ In k (map fst l) -> assoc l k = None.
Proof.
  induction l as [|[k' v] l IH]; simpl; intros N; [reflexivity|].
  destruct (String.eqb_spec k' k); [tauto|]. apply IH. tauto.
Qed.

Lemma add_nodes_chain steps : forall g (b : builder mem),
  NoDup (map fst (StateGraph.nodes g) ++ map Step.id steps) ->
  Forall (fun s => accepted s) steps ->
  add_nodes refuses g steps b
  = (Ok (StateGraph.mk (StateGraph.nodes g ++ map (fun s => (Step.id s, s)) steps)
                       (StateGraph.edges g) (StateGraph.entry_point g)), b).
Proof.
  induction steps as [|s rest IH]; intros g b N A.
  - simpl. rewrite List.app_nil_r. now destruct g.
  - inversion A as [|? ? As Arest]; subst.
    cbn [add_nodes map]. unfold bind, add_node.
    rewrite assoc_none.
    + rewrite As. unfold ret. rewrite IH.
      * simpl. rewrite <- List.app_assoc. reflexivity.
      * simpl. rewrite map_app. simpl. rewrite <- List.app_assoc. exact N.
      * exact Arest.
    + simpl in N. apply NoDup_remove_2 in N. intros I. apply N.
      apply in_or_app. now left.
Qed.

Lemma add_edges_fields steps : forall g d,
  steps <> [] ->
  StateGraph.nodes (add_edges g steps) = StateGraph.nodes g
  /\ StateGraph.entry_point (add_edges g steps) = StateGraph.entry_point g
  /\ StateGraph.edges (add_edges g steps) ++ [(Step.id (last steps d), END)]
     = StateGraph.edges g ++ edges_of steps.
Proof.
  induction steps as [|a rest IH]; intros g d N; [congruence|].
  destruct rest as [|b rest].
  - simpl. auto.
  - assert (N' : b :: rest <> []) by discriminate.
    destruct (IH (add_edge g (Step.id a) (Node (Step.id b))) d N') as (H1 & H2 & H3).
    change (add_edges g (a :: b :: rest))
      with (add_edges (add_edge g (Step.id a) (Node (Step.id b))) (b :: rest)).
    change (last (a :: b :: rest) d) with (last (b :: rest) d).
    rewrite H1, H2, H3. simpl. rewrite <- List.app_assoc. auto.
Qed.

Lemma build_graph_chain w (b : builder mem) :
  Workflow.steps w <> [] ->
  NoDup (map Step.id (Workflow.steps w)) ->
  Forall (fun s => accepted s) (Workflow.steps w) ->
  graph_of w b
  = (Ok (chain_graph (Workflow.steps w)),
     mk_builder (agents b) (next_obj b)
                (log b ++ [(INFO, "LangGraph built successfully"%string)])).
Proof.
  intros NE N A. unfold build_graph, bind.
  rewrite add_nodes_chain by assumption.
  destruct (Workflow.steps w) as [|first rest] eqn:S; [congruence|].
  destruct (add_edges_fields (first :: rest)
              (StateGraph.mk ([] ++ map (fun s => (Step.id s, s)) (first :: rest)) [] None)
              first NE) as (H1 & H2 & H3).
  unfold logger_info, logger, ret, set_entry_point, add_edge.
  cbn [StateGraph.nodes StateGraph.edges StateGraph.entry_point] in *.
  rewrite H1, H3. reflexivity.
Qed.

Lemma assoc_node pre s post :
  NoDup (map Step.id (pre ++ s :: post)) ->
  assoc (map (fun s => (Step.id s, s)) (pre ++ s :: post)) (Step.id s) = Some s.
Proof.
  induction pre as [|p pre IH]; simpl; intros N.
  - now rewrite String.eqb_refl.
  - inversion N as [|? ? Hn Hd]; subst.
    destruct (String.eqb_spec (Step.id p) (Step.id s)) as [E|_]; [|auto].
    exfalso. apply Hn. rewrite E, map_app. apply in_or_app. right. now left.
Qed.

Lemma assoc_edge pre s post :
  NoDup (map Step.id (pre ++ s :: post)) ->
  assoc (edges_of (pre ++ s :: post)) (Step.id s)
  = Some (match post with
          | [] => END
          | next :: _ => Node (Step.id next)
          end).
Proof.
  induction pre as [|p pre IH]; intros N.
  - simpl. now rewrite String.eqb_refl.
  - inversion N as [|? ? Hn Hd]; subst.
    change (edges_of ((p :: pre) ++ s :: post))
      with ((Step.id p, match pre ++ s :: post with
                        | [] => END
                        | b :: _ => Node (Step.id b)
                        end) :: edges_of (pre ++ s :: post)).
    cbn [assoc].
    destruct (String.eqb_spec (Step.id p) (Step.id s)) as [E|_]; [|auto].
    exfalso. apply Hn. rewrite E, map_app. apply in_or_app. right. now left.
Qed.

Lemma chain_graph_node steps pre s post :
  NoDup (map Step.id steps) -> steps = pre ++ s :: post ->
  assoc (StateGraph.nodes (chain_graph steps)) (Step.id s) = Some s.
Proof. intros N ->. apply assoc_node, N. Qed.

Lemma chain_graph_edge steps pre s post :
  NoDup (map Step.id steps) -> steps = pre ++ s :: post ->
  assoc (StateGraph.edges (chain_graph steps)) (Step.id s)
  = Some (match post with
          | [] => END
          | next :: _ => Node (Step.id next)
          end).
Proof. intros N ->. apply assoc_edge, N. Qed.

(** A run of the graph from a node is the chain of the steps from it on. *)
Lemma run_is_chain w steps :
  NoDup (map Step.id steps) ->
  forall post pre s fuel st (b : builder mem),
    steps = pre ++ s :: post ->
    length (s :: post) <= fuel ->
    run w (chain_graph steps) fuel (Step.id s) st b = chain w (s :: post) st b.
Proof.
  intros N. induction post as [|next post IH]; intros pre s fuel st b E Len;
    (destruct fuel as [|fuel]; [simpl in Len; lia|]);
    cbn [run_from run_steps];
    rewrite (chain_graph_node steps pre s _ N E), (chain_graph_edge steps pre s _ N E);
    unfold bind; destruct (node w s st b) as [[st'|e] b']; try reflexivity.
  apply (IH (pre ++ [s]) next fuel st' b').
  - rewrite E, <- List.app_assoc. reflexivity.
  - simpl in Len |- *. lia.
Qed.

(** A run that returns is the chain of the steps, whatever was allowed. *)
Lemma run_ok_chain w steps :
  NoDup (map Step.id steps) ->
  forall post pre s fuel st (b : builder mem) st' b',
    steps = pre ++ s :: post ->
    run w (chain_graph steps) fuel (Step.id s) st b = (Ok st', b') ->
    chain w (s :: post) st b = (Ok st', b').
Proof.
  intros N. induction post as [|next post IH]; intros pre s fuel st b st' b' E R;
    (destruct fuel as [|fuel]; [discriminate R|]);
    cbn [run_from run_steps] in R |- *;
    rewrite (chain_graph_node steps pre s _ N E), (chain_graph_edge steps pre s _ N E) in R;
    unfold bind in R |- *; destruct (node w s st b) as [[st1|e] b1]; try discriminate R.
  - exact R.
  - apply (IH (pre ++ [s]) next fuel st1 b1 st' b'); [|exact R].
    rewrite E, <- List.app_assoc. reflexivity.
Qed.

Lemma invoke_is_chain w (st : WorkflowState.t) (b : builder mem) :
  Workflow.steps w <> [] ->
  NoDup (map Step.id (Workflow.steps w)) ->
  length (Workflow.steps w) <= recursion_limit ->
  invoke new_memory agent_execute env describe recursion_limit w
         (chain_graph (Workflow.steps w)) st b
  = chain w (Workflow.steps w) st b.
Proof.
  intros NE N Len. unfold invoke.
  destruct (Workflow.steps w) as [|first rest] eqn:S; [congruence|].
  cbn [chain_graph StateGraph.entry_point hd_error option_map].
  apply (run_is_chain w (first :: rest) N rest [] first); [reflexivity | exact Len].
Qed.

(** *** [execute] *)

Lemma execute_is_chain w init (b : builder mem) :
  Workflow.steps w <> [] ->
  NoDup (map Step.id (Workflow.steps w)) ->
  Forall (fun s => accepted s) (Workflow.steps w) ->
  length (Workflow.steps w) <= recursion_limit ->
  exec w init b
  = match chain w (Workflow.steps w) (initial_state w init)
            (mk_builder (agents b) (next_obj b)
               (log b ++ [(INFO, "LangGraph built successfully"%string);
                          (INFO, ("Starting workflow execution: "
                                  ++ Workflow.workflow_name w)%string)]))
    with
    | (Ok final_state, b') =>
        (Ok (RunResult.mk
               (Nat.eqb (length (WorkflowState.errors final_state)) 0)
               (WorkflowState.data final_state)
               (WorkflowState.errors final_state)
               (WorkflowState.history final_state)),
         mk_builder (agents b') (next_obj b')
                    (log b' ++ [(INFO, "Workflow execution completed"%string)]))
    | (Raise e, b') => (Raise e, b')
    end.
Proof.
  intros NE N A Len. unfold execute, bind at 1.
  rewrite (build_graph_chain w b NE N A).
  unfold bind at 1, logger_info at 1, logger at 1.
  cbn [agents next_obj log]. rewrite <- List.app_assoc. cbn [app].
  unfold bind at 1. rewrite (invoke_is_chain w _ _ NE N Len).
  destruct (chain w (Workflow.steps w) (initial_state w init) _) as [[fs|e] b'];
    reflexivity.
Qed.

Lemma resolve_env_raises config e :
  _resolve_env_variables env config = Raise e -> e = JSONDecodeError.
Proof.
  unfold _resolve_env_variables. destruct (Json.loads _); congruence.
Qed.

(** C4 (as the code has it): when the graph library takes the steps (the
    ids are distinct, it refuses none of them, and their number is within
    its limit) and every step's agent loads, then, if every step's tool
    configs resolve, [execute] returns; the nodes start in the declared
    order, the first step first; every step makes its handler call, in
    the state the steps before it left and with the agent the registry
    holds for it; and the history holds one record for each call that
    returned and the errors one entry for each call that raised, both in
    the declared order.  If the tool configs of a step do not resolve
    while those of the steps before it do, the run ends there: the
    exception of the decoder leaves [execute], after the nodes up to that
    step started and none after it. *)
Theorem run_visits_steps_in_order w init (b : builder mem) :
  Workflow.steps w <> [] ->
  NoDup (map Step.id (Workflow.steps w)) ->
  Forall (fun s => refuses (Step.id s) = None) (Workflow.steps w) ->
  length (Workflow.steps w) <= recursion_limit ->
  Forall (fun s => agent_loads (Step.agent s) = true) (Workflow.steps w) ->
  (Forall resolves (Workflow.steps w) ->
   exists r b' g,
     exec w init b = (Ok r, b')
     /\ fst (graph_of w b) = Ok g
     /\ StateGraph.entry_point g = option_map Step.id (hd_error (Workflow.steps w))
     /\ filter is_executing (log b')
        = filter is_executing (log b) ++ map executing_record (Workflow.steps w)
     /\ length (calls w (Workflow.steps w) (initial_state w init) (started w b))
        = length (Workflow.steps w)
     /\ RunResult.history r
        = history_of (Workflow.steps w)
            (calls w (Workflow.steps w) (initial_state w init) (started w b))
     /\ RunResult.errors r
        = errors_of (Workflow.steps w)
            (calls w (Workflow.steps w) (initial_state w init) (started w b)))
  /\ (forall pre s post e,
        Workflow.steps w = pre ++ s :: post ->
        Forall resolves pre ->
        tools_config_of s = Raise e ->
        e = JSONDecodeError
        /\ exists b',
             exec w init b = (Raise e, b')
             /\ filter is_executing (log b')
                = filter is_executing (log b) ++ map executing_record (pre ++ [s])).
Proof.
  intros NE N A Lim FL. split.
  - intros F.
    destruct (chain_returns w (Workflow.steps w) (initial_state w init)
                (started w b) FL F)
      as (st' & b' & os & C & _ & _ & _ & _ & _ & V).
    destruct (chain_calls w (Workflow.steps w) _ _ _ _ C) as (Len & H & E).
    eexists _, _, (chain_graph (Workflow.steps w)).
    split; [|split; [|split; [|split; [|split; [|split]]]]].
    + rewrite (execute_is_chain w init b NE N A Lim). fold (started w b).
      rewrite C. reflexivity.
    + now rewrite (build_graph_chain w b NE N A).
    + reflexivity.
    + cbn [log]. rewrite filter_app, V. unfold started. cbn [log].
      rewrite filter_app. simpl. now rewrite !List.app_nil_r.
    + exact Len.
    + exact H.
    + exact E.
  - intros pre s post e S F R. split; [apply (resolve_env_raises _ _ R)|].
    assert (FLp : Forall (fun p => agent_loads (Step.agent p) = true) pre
                  /\ agent_loads (Step.agent s) = true).
    { rewrite S in FL. apply Forall_app in FL. destruct FL as [Fp Fs].
      split; [exact Fp | now inversion Fs]. }
    destruct FLp as [FLp Ls].
    destruct (chain_raises w pre s post e (initial_state w init) (started w b)
                FLp F Ls R) as (b' & C & V).
    exists b'. split.
    + rewrite (execute_is_chain w init b NE N A Lim). fold (started w b).
      rewrite S, C. reflexivity.
    + rewrite V. unfold started. cbn [log]. rewrite filter_app. simpl.
      now rewrite List.app_nil_r.
Qed.

(** C2 (as the code has it): the tool configs are resolved before the
    [try] block, so the exception of a config that does not decode after
    substitution is not recorded as a failure of the step: it leaves the
    node function and [execute], and no later step starts.  The graph
    library is taken to take the steps, the steps before this one to
    return, and its own agent to load. *)
Theorem substitution_error_leaves_execute w init (b : builder mem) pre s post e :
  Workflow.steps w = pre ++ s :: post ->
  NoDup (map Step.id (Workflow.steps w)) ->
  Forall (fun p => refuses (Step.id p) = None) (Workflow.steps w) ->
  length (Workflow.steps w) <= recursion_limit ->
  Forall (fun p => agent_loads (Step.agent p) = true) pre ->
  Forall resolves pre ->
  agent_loads (Step.agent s) = true ->
  tools_config_of s = Raise e ->
  e = JSONDecodeError
  /\ (forall st b0, fst (node w s st b0) = Raise e)
  /\ exists b',
       exec w init b = (Raise e, b')
       /\ filter is_executing (log b')
          = filter is_executing (log b) ++ map executing_record (pre ++ [s]).
Proof.
  intros S N A Len FL F Ld R. split; [apply (resolve_env_raises _ _ R)|]. split.
  - intros st b0. destruct (node_raises w s st b0 e Ld R) as (b' & rs & E & _).
    now rewrite E.
  - assert (NE : Workflow.steps w <> []) by (rewrite S; now destruct pre).
    destruct (chain_raises w pre s post e (initial_state w init)
                (mk_builder (agents b) (next_obj b)
                   (log b ++ [(INFO, "LangGraph built successfully"%string);
                              (INFO, ("Starting workflow execution: "
                                      ++ Workflow.workflow_name w)%string)]))
                FL F Ld R)
      as (b' & C & V).
    exists b'. split.
    + rewrite (execute_is_chain w init b NE N A Len), S, C. reflexivity.
    + rewrite V. cbn [log]. rewrite filter_app. simpl. now rewrite List.app_nil_r.
Qed.


(** *** The cache over a node *)

Lemma get_agent_keeps name (b : builder mem) a b' :
  agent_for name b = (Ok a, b') ->
  assoc (agents b') name = Some a
  /\ (forall n x, assoc (agents b) n = Some x -> assoc (agents b') n = Some x)
  /\ (forall x, assoc (agents b) name = Some x -> x = a /\ b' = b)
  /\ (assoc (agents b) name = None ->
        a = fresh_agent new_memory name b /\ next_obj b' = S (next_obj b)).
Proof.
  intros G. destruct (assoc (agents b) name) as [x|] eqn:H.
  - rewrite (get_agent_cached _ _ _ H) in G. inversion G; subst.
    repeat split; auto; congruence.
  - destruct (agent_loads name) eqn:L;
      [|rewrite (get_agent_raises _ _ L H) in G; discriminate].
    rewrite (get_agent_fresh _ _ L H) in G. inversion G; subst. cbn [agents next_obj].
    split; [apply assoc_set_same|]. split; [|split; [discriminate | auto]].
    intros n x Hx. rewrite assoc_set_other; [exact Hx | congruence].
Qed.

(** A node leaves every agent of the cache in it, the same object; it
    leaves the agent of its step there when that one loads, and whenever
    the node returns; and it constructs none when the cache already held
    that one. *)
Lemma node_keeps_agents w s st (b : builder mem) r b' :
  node w s st b = (r, b') ->
  (forall n a, assoc (agents b) n = Some a ->
     exists a', assoc (agents b') n = Some a' /\ same_object a a')
  /\ (loads s \/ (exists st', r = Ok st') ->
      exists a, assoc (agents b') (Step.agent s) = Some a)
  /\ (forall a, assoc (agents b) (Step.agent s) = Some a -> next_obj b' = next_obj b).
Proof.
  intros N.
  pose proof (prepare_unfold w s st b) as P.
  destruct (get_agent_cases (Step.agent s)
              (mk_builder (agents b) (next_obj b) (log b ++ [executing_record s])))
    as [(agent & b1 & G & C & _) | (L & H & G)];
    unfold log_record in *; rewrite G in P; cbv zeta in P.
  - destruct (get_agent_keeps _ _ _ _ G) as (_ & K & Same & _).
    cbn [agents next_obj] in K, Same.
    assert (Nx : forall a, assoc (agents b) (Step.agent s) = Some a ->
                           next_obj b1 = next_obj b).
    { intros a Ha. destruct (Same a Ha) as [_ ->]. reflexivity. }
    unfold node_function, bind in N. rewrite P in N.
    destruct (tools_config_of s) as [tc|e].
    + unfold attempt in N. destruct (walk tc ["tools"%string]) as [tools|e].
      * unfold call_agent in N.
        destruct (agent_execute _ _ _ _ _ _) as [o m'].
        destruct (commit_state s (fst (_resolve_inputs (workflow_config w)
                                         (or_default (Step.inputs s) []) st)) o st
                    (mk_builder
                       (assoc_set (agents b1) (Step.agent s)
                          (Agent.mk (Agent.obj agent) (Agent.class agent)
                                    (Agent.agent_name agent) m'))
                       (next_obj b1)
                       (log b1 ++ snd (_resolve_inputs (workflow_config w)
                                         (or_default (Step.inputs s) []) st))))
          as (rec & Cm & _).
        cbn [agents next_obj log] in N, Cm. unfold log_record in *.
        rewrite Cm in N. inversion N; subst.
        cbn [agents next_obj]. split; [|split].
        -- intros n a Ha. apply K in Ha.
           destruct (String.eqb_spec n (Step.agent s)) as [->|D].
           ++ rewrite assoc_set_same. eexists. split; [reflexivity|].
              assert (a = agent) by congruence. subst a. now repeat split.
           ++ rewrite assoc_set_other by exact D. exists a. now repeat split.
        -- intros _. rewrite assoc_set_same. eauto.
        -- exact Nx.
      * unfold ret in N.
        destruct (commit_state s (fst (_resolve_inputs (workflow_config w)
                                         (or_default (Step.inputs s) []) st))
                    (inr (exn_message e)) st
                    (mk_builder (agents b1) (next_obj b1)
                       (log b1 ++ snd (_resolve_inputs (workflow_config w)
                                         (or_default (Step.inputs s) []) st))))
          as (rec & Cm & _).
        unfold log_record in *. rewrite Cm in N. inversion N; subst.
        cbn [agents next_obj].
        split; [|split; [eauto | exact Nx]].
        intros n a Ha. exists a. split; [auto | now repeat split].
    + inversion N; subst. cbn [agents next_obj].
      split; [|split; [eauto | exact Nx]].
      intros n a Ha. exists a. split; [auto | now repeat split].
  - cbn [agents] in H. unfold node_function, bind in N. rewrite P in N.
    inversion N; subst. cbn [agents next_obj]. split; [|split].
    + intros n a Ha. exists a. split; [exact Ha | now repeat split].
    + intros [Ld|[st' Ld]]; congruence.
    + intros a Ha. congruence.
Qed.

(** C9 (the code departs from the claim at one name): a name whose
    lookup fails gets a new [BaseAgent] of that name, which is cached
    under the name and whose failed lookup is logged; a cached agent is
    returned as it is, nothing being constructed; and of two steps of one
    handler name, run one after the other, the second finds the agent of
    the first, the same object, and constructs none.  The registry raises
    for one name only, [__init__], which resolves to no implementation
    either: the lookup finds the method of the module object, and the
    [TypeError] of its call is not caught, so nothing is cached or logged
    and the exception leaves the node function. *)
Theorem unknown_handler_falls_back name (b : builder mem) :
  (forall e,
     lookup_class name = inr e ->
     assoc (agents b) name = None ->
     agent_for name b
     = (Ok (Agent.mk (next_obj b) BaseAgent name new_memory),
        mk_builder
          (assoc_set (agents b) name (Agent.mk (next_obj b) BaseAgent name new_memory))
          (S (next_obj b))
          (log b ++ [(ERROR, ("Failed to load agent " ++ name ++ ": "
                              ++ describe e)%string)])))
  /\ (forall a, assoc (agents b) name = Some a -> agent_for name b = (Ok a, b))
  /\ (forall w s1 s2 st st1 b1 r2 b2,
        Step.agent s1 = name ->
        Step.agent s2 = name ->
        node w s1 st b = (Ok st1, b1) ->
        node w s2 st1 b1 = (r2, b2) ->
        exists a1 a2,
          assoc (agents b1) name = Some a1
          /\ assoc (agents b2) name = Some a2
          /\ Agent.obj a2 = Agent.obj a1
          /\ next_obj b2 = next_obj b1)
  /\ (forall e b', agent_for name b = (Raise e, b') ->
        name = "__init__"%string /\ lookup_class name = inl ModuleInit
        /\ e = TypeError /\ b' = b)
  /\ (forall w s st,
        name = "__init__"%string ->
        Step.agent s = name ->
        assoc (agents b) name = None ->
        agent_for name b = (Raise TypeError, b)
        /\ fst (node w s st b) = Raise TypeError).
Proof.
  split; [|split; [|split; [|split]]].
  - intros e L H.
    assert (Ld : agent_loads name = true) by (unfold agent_loads; now rewrite L).
    rewrite (get_agent_fresh _ _ Ld H).
    unfold fresh_agent, load_records. rewrite L. reflexivity.
  - intros a H. apply (get_agent_cached _ _ _ H).
  - intros w s1 s2 st st1 b1 r2 b2 E1 E2 N1 N2. subst name.
    destruct (node_keeps_agents w s1 st b _ b1 N1) as (_ & C1 & _).
    destruct (C1 (or_intror (ex_intro _ st1 eq_refl))) as [a1 H1].
    destruct (node_keeps_agents w s2 st1 b1 r2 b2 N2) as (K2 & _ & X2).
    rewrite E2 in X2. destruct (K2 _ _ H1) as (a2 & H2 & O & _).
    exists a1, a2. repeat split; auto. apply (X2 a1 H1).
  - intros e b' G.
    destruct (get_agent_cases name b)
      as [(a & b1 & G1 & _) | (L & H & G1)]; [congruence|].
    rewrite G1 in G. inversion G; subst.
    assert (NI : name = "__init__"%string).
    { destruct (String.eqb_spec name "__init__") as [E|NE]; [exact E|].
      apply agent_loads_iff in NE. congruence. }
    subst name. repeat split; reflexivity.
  - intros w s st E Es H. subst name.
    assert (L : agent_loads (Step.agent s) = false) by (now rewrite Es).
    rewrite <- Es in H |- *. split.
    + now apply get_agent_raises.
    + now rewrite (node_misnamed w s st b L H).
Qed.

(** *** The data of a run *)

Lemma assoc_none_keys {A : Type} (l : list (string * A)) k :
  assoc l k = None -> ~ In k (map fst l).
Proof.
  induction l as [|[k' v] l IH]; simpl; [tauto|].
  destruct (String.eqb_spec k' k); [discriminate|]. intros H [E|I]; [congruence|].
  now apply IH.
Qed.

Lemma add_nodes_distinct steps : forall g (b : builder mem) g' b',
  add_nodes refuses g steps b = (Ok g', b') ->
  NoDup (map Step.id steps)
  /\ Forall (fun s => accepted s) steps
  /\ forall s, In s steps -> ~ In (Step.id s) (map fst (StateGraph.nodes g)).
Proof.
  induction steps as [|s rest IH]; intros g b g' b' H.
  - split; [constructor | split; [constructor | intros ? []]].
  - cbn [add_nodes] in H. unfold bind, add_node in H.
    destruct (assoc (StateGraph.nodes g) (Step.id s)) eqn:A;
      [unfold raise in H; discriminate|].
    destruct (refuses (Step.id s)) eqn:R; [unfold raise in H; discriminate|].
    unfold ret in H. apply IH in H. destruct H as (N & Acc & F).
    cbn [StateGraph.nodes] in F.
    split; [|split].
    + simpl. constructor; [|exact N].
      intros I. apply in_map_iff in I. destruct I as (s' & E & I).
      apply (F s' I). rewrite map_app. apply in_or_app. right. simpl. auto.
    + constructor; [exact R | exact Acc].
    + intros s' [<-|I]; [now apply assoc_none_keys|].
      intros J. apply (F s' I). rewrite map_app. apply in_or_app. now left.
Qed.

Lemma execute_returns_wellformed w init (b : builder mem) r b' :
  exec w init b = (Ok r, b') ->
  Workflow.steps w <> []
  /\ NoDup (map Step.id (Workflow.steps w))
  /\ Forall (fun s => accepted s) (Workflow.steps w).
Proof.
  unfold execute, bind at 1. intros H.
  destruct (graph_of w b) as [[g|e] b1] eqn:B; [|discriminate].
  unfold build_graph, bind in B.
  destruct (add_nodes _ _ (Workflow.steps w) b) as [[g0|e] b0] eqn:A; [|discriminate].
  apply add_nodes_distinct in A. destruct A as (N & Acc & _).
  split; [|split; assumption].
  destruct (Workflow.steps w); [unfold raise in B; discriminate | discriminate].
Qed.

(** An [execute] that returns has run the chain of the steps. *)
Lemma execute_ok_chain w init (b : builder mem) r b' :
  exec w init b = (Ok r, b') ->
  exists final bf,
    chain w (Workflow.steps w) (initial_state w init)
          (mk_builder (agents b) (next_obj b)
             (log b ++ [(INFO, "LangGraph built successfully"%string);
                        (INFO, ("Starting workflow execution: "
                                ++ Workflow.workflow_name w)%string)]))
    = (Ok final, bf)
    /\ r = RunResult.mk (Nat.eqb (length (WorkflowState.errors final)) 0)
                        (WorkflowState.data final)
                        (WorkflowState.errors final)
                        (WorkflowState.history final).
Proof.
  intros E.
  destruct (execute_returns_wellformed w init b r b' E) as (NE & N & A).
  unfold execute, bind at 1 in E.
  rewrite (build_graph_chain w b NE N A) in E.
  unfold bind at 1, logger_info at 1, logger at 1 in E.
  cbn [agents next_obj log] in E. rewrite <- List.app_assoc in E. cbn [app] in E.
  unfold bind at 1 in E. unfold invoke in E.
  destruct (Workflow.steps w) as [|first rest] eqn:S; [congruence|].
  cbn [chain_graph StateGraph.entry_point hd_error option_map] in E.
  fold (chain_graph (first :: rest)) in E.
  destruct (run w (chain_graph (first :: rest)) recursion_limit (Step.id first) _ _)
    as [[final|e] bf] eqn:R; [|discriminate].
  exists final, bf. split.
  - apply (run_ok_chain w (first :: rest) N rest [] first recursion_limit _ _ _ _
             eq_refl R).
  - unfold bind, logger_info, logger, ret in E. now inversion E.
Qed.

Lemma node_state w s st (b : builder mem) st' b' :
  node w s st b = (Ok st', b') ->
  exists inputs o, st' = state_after s inputs o st.
Proof.
  intros N.
  destruct (get_agent_cases (Step.agent s)
              (mk_builder (agents b) (next_obj b) (log b ++ [executing_record s])))
    as [(agent & b1 & G & _) | (L & H & _)].
  - pose proof (node_with_agent w s st b agent b1 G) as C. cbv zeta in C.
    destruct (tools_config_of s) as [tc|e].
    + destruct C as (o & b2 & r & E & _). rewrite E in N. inversion N. eauto.
    + rewrite C in N. discriminate.
  - rewrite (node_misnamed w s st b L H) in N. discriminate.
Qed.

Lemma chain_state w steps : forall st (b : builder mem) st' b',
  chain w steps st b = (Ok st', b') ->
  exists hs,
    WorkflowState.history st' = WorkflowState.history st ++ hs
    /\ WorkflowState.data st' = fold_left record_output hs (WorkflowState.data st).
Proof.
  induction steps as [|s rest IH]; intros st b st' b' C.
  - inversion C; subst. exists []. now rewrite List.app_nil_r.
  - cbn [run_steps] in C. unfold bind in C.
    destruct (node w s st b) as [[st1|e] b1] eqn:N; [|discriminate].
    destruct (node_state w s st b st1 b1 N) as (inputs & o & ->).
    destruct (IH _ _ _ _ C) as (hs & H & D).
    destruct o as [result|msg].
    + exists (History.mk (Step.id s) (Step.agent s) inputs result :: hs).
      rewrite H, D. cbn. rewrite <- List.app_assoc. split; reflexivity.
    + exists hs. now rewrite H, D.
Qed.

Lemma get_fold_record_output hs : forall d k,
  (forall h, In h hs -> History.step h <> k) ->
  Dict.get (fold_left record_output hs d) k = Dict.get d k.
Proof.
  induction hs as [|h hs IH]; intros d k F; [reflexivity|].
  cbn [fold_left]. rewrite IH by (intros h' I; apply F; now right).
  unfold record_output. apply get_set_other. intros E. apply (F h); [now left | auto].
Qed.

Lemma keys_fold_record_output hs : forall d k,
  In k (Dict.keys d) -> In k (Dict.keys (fold_left record_output hs d)).
Proof.
  induction hs as [|h hs IH]; intros d k I; [exact I|].
  cbn [fold_left]. apply IH. unfold record_output. rewrite keys_set.
  destruct (existsb _ _); [exact I | apply in_or_app; now left].
Qed.

(** C10 (as the code has it): [execute] runs the steps from a state whose
    data is the caller's mapping, the empty one when it gives none.  A
    reference whose first segment is a key of that mapping other than
    [config] resolves inside the seeded value.  The data of the result are
    the seeded mapping with the output of each history record written over
    it in order: every seeded key is still bound, and to its seeded value
    when no completed step has that key for id. *)
Theorem initial_data_seeds_state w init (b : builder mem) r b' :
  exec w init b = (Ok r, b') ->
  (exists b0 final bf,
     chain w (Workflow.steps w) (initial_state w init) b0 = (Ok final, bf)
     /\ WorkflowState.data (initial_state w init) = initial_or_empty init
     /\ RunResult.data r = WorkflowState.data final
     /\ RunResult.history r = WorkflowState.history final)
  /\ RunResult.data r
     = fold_left record_output (RunResult.history r) (initial_or_empty init)
  /\ (forall k, In k (Dict.keys (initial_or_empty init)) ->
        In k (Dict.keys (RunResult.data r)))
  /\ (forall k v,
        Dict.get (initial_or_empty init) k = Some v ->
        (forall h, In h (RunResult.history r) -> History.step h <> k) ->
        Dict.get (RunResult.data r) k = Some v)
  /\ (forall s k rest v,
        is_reference_string s = true ->
        ref_parts s = k :: rest ->
        k <> "config"%string ->
        Dict.get (initial_or_empty init) k = Some v ->
        resolve_value (workflow_config w) (WorkflowState.data (initial_state w init))
                      (JStr s)
        = match walk v rest with
          | Ok current => (current, [])
          | Raise _ => (JNull, [ref_warning s])
          end).
Proof.
  intros E.
  destruct (execute_ok_chain w init b r b' E) as (final & bf & C & ->).
  cbn [RunResult.data RunResult.history].
  destruct (chain_state _ _ _ _ _ _ C) as (hs & H & D).
  cbn [initial_state WorkflowState.history WorkflowState.data app] in H, D.
  rewrite H, D.
  split; [|split; [|split; [|split]]].
  - eexists _, final, bf. split; [exact C|]. rewrite H, D. repeat split.
  - reflexivity.
  - intros k I. now apply keys_fold_record_output.
  - intros k v G F. rewrite get_fold_record_output by exact F. exact G.
  - intros s k rest v R P K G. rewrite resolve_value_reference by exact R.
    unfold ref_root. rewrite P. cbn [hd].
    destruct (String.eqb_spec k "config"); [contradiction|].
    cbn [walk initial_state WorkflowState.data]. now rewrite G.
Qed.

End EngineFacts.

(** ** The claims on sample runs *)

(** The engine with the sample handlers and the sample graph library. *)
Local Abbreviation sample_execute env :=
  (execute 0 Sample.handler env Sample.describe Sample.refuses Sample.recursion_limit).

Lemma literal_inputs_pass_through_witness :
  Dict.get (fst (_resolve_inputs JNull Sample.declared_inputs Sample.empty_state))
           "nested"%string
  = Some (JList [JStr "{{a.output.count}}"%string]).
Proof.
  refine (proj1 (literal_inputs_pass_through JNull Sample.declared_inputs
                   Sample.empty_state "nested"%string
                   (JList [JStr "{{a.output.count}}"%string]) _ _ _)).
  - repeat constructor; simpl; intuition discriminate.
  - simpl. auto.
  - intros s H. discriminate H.
Defined.

Lemma failed_reference_witness :
  Dict.get (fst (_resolve_inputs JNull Sample.declared_inputs Sample.empty_state))
           "n"%string
  = Some JNull.
Proof.
  refine (proj1 (failed_reference_resolves_to_null JNull Sample.declared_inputs
                   Sample.empty_state "n"%string "{{a.output.count}}"%string
                   (KeyError "a"%string) _ _ _ _)).
  - repeat constructor; simpl; intuition discriminate.
  - simpl. auto.
  - reflexivity.
  - reflexivity.
Defined.

(** On a document with no [config] entry the reference
    [{{config.workflow_name}}] is not the name of the definition. *)
Lemma config_reference_counterexample :
  fst (resolve_value (workflow_config Sample.two_steps) []
                     (JStr "{{config.workflow_name}}"%string))
  <> JStr (Workflow.workflow_name Sample.two_steps).
Proof. vm_compute. discriminate. Qed.

Lemma config_reference_witness :
  resolve_value (workflow_config Sample.with_config) []
                (JStr "{{config.scoring}}"%string)
  = (JNum 5, []).
Proof.
  rewrite (proj1 (config_reference_walks_whole_path Sample.with_config []
                    "{{config.scoring}}"%string eq_refl eq_refl)).
  reflexivity.
Defined.

(** A quote in the value of a variable: [execute] raises. *)
Lemma substitution_error_counterexample :
  fst (sample_execute Sample.quote_env Sample.broken None (new_builder nat))
  = Raise JSONDecodeError.
Proof. vm_compute. reflexivity. Qed.

Lemma substitution_error_witness :
  exists b',
    sample_execute Sample.quote_env Sample.broken None (new_builder nat)
    = (Raise JSONDecodeError, b').
Proof.
  destruct (substitution_error_leaves_execute nat 0 Sample.handler Sample.quote_env
              Sample.describe Sample.refuses Sample.recursion_limit
              Sample.broken None (new_builder nat)
              [Sample.step_A] Sample.step_Q [Sample.step_B] JSONDecodeError)
    as (_ & _ & b' & E & _).
  - reflexivity.
  - repeat constructor; simpl; intuition discriminate.
  - repeat constructor.
  - vm_compute. lia.
  - repeat constructor.
  - repeat constructor. eexists. vm_compute. reflexivity.
  - reflexivity.
  - vm_compute. reflexivity.
  - exists b'. exact E.
Defined.


(** A step whose agent is named [__init__]: the lookup finds the module
    of the package and the method of the module object, whose call raises;
    the exception leaves [get_agent] and [execute], and the step after it
    does not start. *)
Lemma unknown_handler_counterexample :
  lookup_class "__init__"%string = inl ModuleInit
  /\ get_agent 0 Sample.describe "__init__"%string (new_builder nat)
     = (Raise TypeError, new_builder nat)
  /\ fst (sample_execute Sample.no_env Sample.misnamed None
                  (new_builder nat))
     = Raise TypeError
  /\ filter is_executing
       (log (snd (sample_execute Sample.no_env Sample.misnamed None (new_builder nat))))
     = map executing_record [Sample.step_A; Sample.step_I].
Proof. vm_compute. repeat split. Qed.

Lemma unknown_handler_witness :
  get_agent 0 Sample.describe "X"%string (new_builder nat)
  = (Ok (Agent.mk 0 BaseAgent "X"%string 0),
     mk_builder [("X"%string, Agent.mk 0 BaseAgent "X"%string 0)] 1
       [(ERROR, "Failed to load agent X: No module named 'agents.x'"%string)]).
Proof.
  exact (proj1 (unknown_handler_falls_back nat 0 Sample.handler Sample.no_env
                  Sample.describe "X"%string (new_builder nat))
               (ImportError "agents.x"%string) eq_refl eq_refl).
Defined.

(** The run stops at a first step whose config does not decode. *)
Lemma run_order_counterexample :
  fst (sample_execute Sample.quote_env Sample.broken_first None
               (new_builder nat))
  = Raise JSONDecodeError
  /\ filter is_executing
       (log (snd (sample_execute Sample.quote_env Sample.broken_first None
                          (new_builder nat))))
     = [executing_record Sample.step_Q].
Proof. vm_compute. split; reflexivity. Qed.

Lemma run_order_witness :
  exists r b',
    sample_execute Sample.no_env Sample.three_steps None (new_builder nat)
    = (Ok r, b')
    /\ filter is_executing (log b')
       = map executing_record [Sample.step_A; Sample.step_X; Sample.step_B]
    /\ map History.step (RunResult.history r) = ["a"; "b"]%string
    /\ RunResult.errors r = ["x: boom"%string].
Proof.
  destruct (run_visits_steps_in_order nat 0 Sample.handler Sample.no_env
              Sample.describe Sample.refuses Sample.recursion_limit
              Sample.three_steps None (new_builder nat))
    as [R _].
  - discriminate.
  - repeat constructor; simpl; intuition discriminate.
  - repeat constructor.
  - vm_compute. lia.
  - repeat constructor.
  - destruct R as (r & b' & g & E & _ & _ & V & _ & H & Er).
    + repeat constructor; eexists; vm_compute; reflexivity.
    + exists r, b'. split; [exact E|]. split; [exact V|].
      rewrite H, Er. vm_compute. split; reflexivity.
Defined.

(** A seeded key named [config] is not where [{{config.x}}] is looked
    up. *)
Lemma initial_data_counterexample :
  Dict.get (initial_or_empty (Some Sample.config_seed)) "config"%string
  = Some (JDict [("x"%string, JNum 1)])
  /\ fst (resolve_value (workflow_config Sample.two_steps)
            (WorkflowState.data (initial_state Sample.two_steps (Some Sample.config_seed)))
            (JStr "{{config.x}}"%string))
     <> JNum 1.
Proof. split; [reflexivity|]. vm_compute. discriminate. Qed.

Lemma initial_data_witness :
  exists r,
    fst (sample_execute Sample.no_env Sample.two_steps (Some Sample.seed)
                 (new_builder nat))
    = Ok r
    /\ Dict.get (RunResult.data r) "seed"%string = Some (JDict [("n"%string, JNum 1)]).
Proof.
  destruct (sample_execute Sample.no_env Sample.two_steps (Some Sample.seed)
                    (new_builder nat)) as [[r|e] b'] eqn:E.
  - exists r. split; [reflexivity|].
    destruct (initial_data_seeds_state nat 0 Sample.handler Sample.no_env
                Sample.describe Sample.refuses Sample.recursion_limit
                Sample.two_steps (Some Sample.seed) (new_builder nat) r b' E)
      as (_ & _ & _ & K & _).
    apply K; [reflexivity|].
    vm_compute in E. inversion E; subst. simpl.
    intros h [<-|[<-|[]]]; discriminate.
  - vm_compute in E. discriminate.
Defined.

(** With [API_KEY] unset and [K] holding a quote, a config that names
    both does not decode. *)
Lemma missing_variable_counterexample :
  In "API_KEY"%string (Re.findall (Json.dumps Sample.two_tokens))
  /\ Sample.quote_env "API_KEY"%string = None
  /\ _resolve_env_variables Sample.quote_env Sample.two_tokens = Raise JSONDecodeError.
Proof. vm_compute. repeat split. now left. Qed.

(** With [API_KEY] unset and [K] holding characters that the encoder
    would escape and the decoder takes as they are, the config resolves:
    the sentinel stands for the one token, the value for the other, and
    the config's own accented letter and its float are as they were. *)
Lemma missing_variable_witness :
  _resolve_env_variables Sample.accent_env Sample.mixed_config
  = Ok (JDict [("api_key"%string, JStr "MISSING_API_KEY"%string);
               ("other"%string,
                JStr (String "233" (String " " (String "233" (String "127" "~")))));
               ("rate"%string, JFloat "0.5"%string)]).
Proof.
  rewrite (proj1 (missing_variable_sentinel Sample.accent_env Sample.mixed_config
                    eq_refl
                    (fun var x _ (H : Sample.accent_env var = Some x) =>
                       match String.eqb var "K" as t
                             return (if t then Some (String "233" (String "127" "~"))
                                     else None) = Some x -> raw x = true
                       with
                       | true => fun E =>
                           match E in _ = o
                                 return match o with
                                        | Some y => raw y = true
                                        | None => True
                                        end
                           with eq_refl => eq_refl end
                       | false => fun E =>
                           match E in _ = o
                                 return match o with
                                        | Some y => raw y = true
                                        | None => True
                                        end
                           with eq_refl => I end
                       end H))).
  vm_compute. reflexivity.
Defined.

Lemma resolve_without_tokens_witness :
  _resolve_env_variables Sample.quote_env Sample.float_config = Ok Sample.float_config.
Proof.
  refine (proj1 (resolve_without_tokens_is_identity Sample.quote_env Sample.float_config
                   eq_refl _ eq_refl)).
  vm_compute. repeat split; repeat constructor; simpl; intuition discriminate.
Defined.

(** * More of the engine *)

(** ** References *)

Lemma take_app x y : PyStr.take (String.length x) (x ++ y)%string = x.
Proof. induction x as [|c x IH]; [now destruct y|]. cbn. now rewrite IH. Qed.

Lemma endswith_app s p : PyStr.endswith (s ++ p)%string p = true.
Proof.
  unfold PyStr.endswith. rewrite str_length_app.
  replace (String.length s + String.length p - String.length p) with (String.length s) by lia.
  rewrite drop_app, String.eqb_refl, andb_true_r. apply Nat.leb_le. lia.
Qed.

Lemma braced_is_reference x : is_reference_string ("{{" ++ x ++ "}}")%string = true.
Proof.
  unfold is_reference_string.
  change ("{{" ++ x ++ "}}")%string with ("{{" ++ (x ++ "}}"))%string at 1.
  rewrite startswith_app.
  replace ("{{" ++ x ++ "}}")%string with (("{{" ++ x) ++ "}}")%string
    by (now rewrite str_app_assoc).
  now rewrite endswith_app.
Qed.

Lemma slice_braced x : PyStr.slice 2 2 ("{{" ++ x ++ "}}")%string = x.
Proof.
  unfold PyStr.slice. cbn [append PyStr.drop String.length].
  rewrite str_length_app. cbn [String.length].
  replace (S (S (String.length x + 2)) - 2 - 2) with (String.length x) by lia.
  apply take_app.
Qed.

Lemma ref_path_braced x : ref_path ("{{" ++ x ++ "}}")%string = PyStr.strip x.
Proof. unfold ref_path. now rewrite slice_braced. Qed.

Lemma lstrip_blank w : blank w = true -> PyStr.lstrip w = ""%string.
Proof.
  induction w as [|c w IH]; [reflexivity|]. cbn. intros H.
  apply andb_prop in H. destruct H as [C H]. rewrite C. now apply IH.
Qed.

Lemma lstrip_blank_app w s : blank w = true -> PyStr.lstrip (w ++ s)%string = PyStr.lstrip s.
Proof.
  induction w as [|c w IH]; [reflexivity|]. cbn. intros H.
  apply andb_prop in H. destruct H as [C H]. rewrite C. now apply IH.
Qed.

Lemma rstrip_blank w : blank w = true -> PyStr.rstrip w = ""%string.
Proof.
  induction w as [|c w IH]; [reflexivity|]. cbn [blank PyStr.rstrip]. intros H.
  apply andb_prop in H. destruct H as [C H]. rewrite (IH H), C. reflexivity.
Qed.

Lemma rstrip_app_blank s w : blank w = true -> PyStr.rstrip (s ++ w)%string = PyStr.rstrip s.
Proof.
  intros H. induction s as [|c s IH]; [now apply rstrip_blank|].
  cbn [append PyStr.rstrip]. now rewrite IH.
Qed.

Lemma blank_app a b : blank (a ++ b)%string = blank a && blank b.
Proof.
  induction a as [|c a IH]; [reflexivity|]. cbn. rewrite IH. now rewrite andb_assoc.
Qed.

Lemma lstrip_app_not_blank p w :
  blank p = false -> PyStr.lstrip (p ++ w)%string = (PyStr.lstrip p ++ w)%string.
Proof.
  induction p as [|c p IH]; [discriminate|]. cbn. intros H.
  destruct (PyStr.isspace c); [now apply IH | reflexivity].
Qed.

Lemma strip_padded w1 p w2 :
  blank w1 = true -> blank w2 = true ->
  PyStr.strip (w1 ++ p ++ w2)%string = PyStr.strip p.
Proof.
  intros H1 H2. unfold PyStr.strip. rewrite lstrip_blank_app by exact H1.
  destruct (blank p) eqn:B.
  - rewrite (lstrip_blank p B), lstrip_blank; [reflexivity|].
    now rewrite blank_app, B, H2.
  - rewrite lstrip_app_not_blank by exact B. now apply rstrip_app_blank.
Qed.

(** X1: whitespace between the braces and the
    path is not part of the path: the padded reference resolves, to the
    value or to the warning, as the one without padding. *)
Theorem reference_ignores_padding config data w1 p w2 :
  blank w1 = true ->
  blank w2 = true ->
  ref_path ("{{" ++ w1 ++ p ++ w2 ++ "}}")%string = PyStr.strip p
  /\ resolve_value config data (JStr ("{{" ++ w1 ++ p ++ w2 ++ "}}")%string)
     = resolve_value config data (JStr ("{{" ++ p ++ "}}")%string).
Proof.
  intros H1 H2.
  assert (P : ref_path ("{{" ++ w1 ++ p ++ w2 ++ "}}")%string = PyStr.strip p).
  { replace ("{{" ++ w1 ++ p ++ w2 ++ "}}")%string
      with ("{{" ++ (w1 ++ p ++ w2) ++ "}}")%string
      by (now rewrite !str_app_assoc).
    rewrite ref_path_braced. now apply strip_padded. }
  split; [exact P|].
  replace ("{{" ++ w1 ++ p ++ w2 ++ "}}")%string
    with ("{{" ++ (w1 ++ p ++ w2) ++ "}}")%string in *
    by (now rewrite !str_app_assoc).
  rewrite !resolve_value_reference by apply braced_is_reference.
  unfold ref_warning, ref_parts. rewrite P, ref_path_braced. reflexivity.
Qed.

Lemma walk_app parts1 : forall current parts2,
  walk current (parts1 ++ parts2)
  = match walk current parts1 with
    | Ok v => walk v parts2
    | Raise e => Raise e
    end.
Proof.
  induction parts1 as [|p parts1 IH]; intros current parts2; [reflexivity|].
  cbn [app walk]. destruct current; try reflexivity.
  destruct (Dict.get members p); [apply IH | reflexivity].
Qed.

Lemma split_not_nil sep s : PyStr.split sep s <> [].
Proof.
  destruct s as [|c s]; [discriminate|]. cbn.
  destruct (Ascii.eqb c sep); [discriminate|].
  destruct (PyStr.split sep s); discriminate.
Qed.

Lemma split_app_sep sep p q :
  PyStr.split sep (p ++ String sep q)%string = PyStr.split sep p ++ PyStr.split sep q.
Proof.
  induction p as [|c p IH].
  - cbn. now rewrite Ascii.eqb_refl.
  - cbn [append PyStr.split]. rewrite IH.
    destruct (Ascii.eqb c sep); [reflexivity|].
    destruct (PyStr.split sep p) as [|h t] eqn:E; [now apply split_not_nil in E|].
    reflexivity.
Qed.

Lemma lstrip_app_kept p x : PyStr.lstrip p = p -> p <> ""%string ->
  PyStr.lstrip (p ++ x)%string = (p ++ x)%string.
Proof.
  destruct p as [|c p]; [congruence|]. cbn. intros H _.
  destruct (PyStr.isspace c) eqn:C; [|reflexivity].
  exfalso.
  assert (L : forall s, String.length (PyStr.lstrip s) <= String.length s).
  { induction s as [|a s IH]; [cbn; lia|]. cbn. destruct (PyStr.isspace a); cbn; lia. }
  specialize (L p). rewrite H in L. cbn in L. lia.
Qed.

Lemma rstrip_app_kept x q : PyStr.rstrip q = q -> q <> ""%string ->
  PyStr.rstrip (x ++ q)%string = (x ++ q)%string.
Proof.
  intros H N. induction x as [|c x IH]; [exact H|].
  cbn [append PyStr.rstrip]. rewrite IH.
  destruct (x ++ q)%string eqn:E; [|reflexivity].
  destruct x; [cbn in E; congruence | discriminate].
Qed.

Lemma strip_joined p q :
  PyStr.lstrip p = p -> PyStr.rstrip q = q ->
  PyStr.strip (p ++ "." ++ q)%string = (p ++ "." ++ q)%string.
Proof.
  intros Hp Hq. unfold PyStr.strip.
  assert (L : PyStr.lstrip (p ++ "." ++ q)%string = (p ++ "." ++ q)%string).
  { destruct p as [|c p]; [reflexivity|]. now apply lstrip_app_kept. }
  rewrite L.
  destruct q as [|c q].
  - rewrite str_app_nil_r. now apply rstrip_app_kept.
  - replace (p ++ "." ++ String c q)%string with ((p ++ ".") ++ String c q)%string
      by (now rewrite str_app_assoc).
    now apply rstrip_app_kept.
Qed.

(** X2: a path resolves segment by segment: what
    [{{p}}] resolves to is where the rest of [{{p.q}}] is looked up, and a
    path that fails makes every longer one fail. *)
Theorem reference_paths_compose config data p q :
  PyStr.lstrip p = p ->
  PyStr.rstrip p = p ->
  PyStr.rstrip q = q ->
  (forall v,
     resolve_value config data (JStr ("{{" ++ p ++ "}}")%string) = (v, []) ->
     resolve_value config data (JStr ("{{" ++ p ++ "." ++ q ++ "}}")%string)
     = match walk v (PyStr.split "." q) with
       | Ok current => (current, [])
       | Raise _ => (JNull, [ref_warning ("{{" ++ p ++ "." ++ q ++ "}}")%string])
       end)
  /\ (snd (resolve_value config data (JStr ("{{" ++ p ++ "}}")%string)) <> [] ->
      resolve_value config data (JStr ("{{" ++ p ++ "." ++ q ++ "}}")%string)
      = (JNull, [ref_warning ("{{" ++ p ++ "." ++ q ++ "}}")%string])).
Proof.
  intros Lp Rp Rq.
  assert (P1 : ref_parts ("{{" ++ p ++ "}}")%string = PyStr.split "." p).
  { unfold ref_parts. rewrite ref_path_braced. unfold PyStr.strip. now rewrite Lp, Rp. }
  assert (P2 : ref_parts ("{{" ++ p ++ "." ++ q ++ "}}")%string
               = PyStr.split "." p ++ PyStr.split "." q).
  { unfold ref_parts.
    replace ("{{" ++ p ++ "." ++ q ++ "}}")%string
      with ("{{" ++ (p ++ "." ++ q) ++ "}}")%string by (now rewrite !str_app_assoc).
    rewrite ref_path_braced, strip_joined by assumption.
    apply (split_app_sep "." p q). }
  assert (R : forall parts2,
             ref_root config data (PyStr.split "." p ++ parts2)
             = ref_root config data (PyStr.split "." p)).
  { intros parts2. unfold ref_root.
    destruct (PyStr.split "." p) as [|h t] eqn:E; [now apply split_not_nil in E|].
    reflexivity. }
  assert (B2 : is_reference_string ("{{" ++ p ++ "." ++ q ++ "}}")%string = true).
  { replace ("{{" ++ p ++ "." ++ q ++ "}}")%string
      with ("{{" ++ (p ++ "." ++ q) ++ "}}")%string by (now rewrite !str_app_assoc).
    apply braced_is_reference. }
  rewrite (resolve_value_reference config data _ (braced_is_reference p)).
  rewrite (resolve_value_reference config data _ B2).
  rewrite P1, P2, R, walk_app.
  destruct (walk (ref_root config data (PyStr.split "." p)) (PyStr.split "." p))
    as [v0|e]; split.
  - intros v H. inversion H; subst. reflexivity.
  - intros N. now contradiction N.
  - intros v H. discriminate H.
  - reflexivity.
Qed.

(** X3: only a mapping can be walked
    into: a path that reaches a sequence, a string, a number, a truth
    value or the absent value and goes on is resolved to the absent value,
    with the warning. *)
Theorem reference_through_non_mapping config data s pre part rest v :
  is_reference_string s = true ->
  ref_parts s = pre ++ part :: rest ->
  walk (ref_root config data (ref_parts s)) pre = Ok v ->
  (forall members, v <> JDict members) ->
  resolve_value config data (JStr s) = (JNull, [ref_warning s]).
Proof.
  intros R P W N. rewrite (resolve_value_reference config data s R).
  rewrite P at 2. rewrite walk_app, W. cbn [walk].
  destruct v; try reflexivity. now contradiction (N members).
Qed.

(** ** Runs *)

Section EngineRuns.

Variable mem : Type.
Variable new_memory : mem.
Variable agent_execute :
  agent_class -> string -> mem -> dict -> string -> json -> (json + string) * mem.
Variable env : environ.
Variable describe : lookup_error -> string.
Variable refuses : string -> option string.
Variable recursion_limit : nat.

Local Abbreviation agent_for := (get_agent new_memory describe).
Local Abbreviation prep := (prepare new_memory env describe).
Local Abbreviation node := (node_function new_memory agent_execute env describe).
Local Abbreviation chain := (run_steps new_memory agent_execute env describe).
Local Abbreviation calls := (outcomes_of new_memory agent_execute env describe).
Local Abbreviation graph_of := (build_graph refuses).
Local Abbreviation exec :=
  (execute new_memory agent_execute env describe refuses recursion_limit).

(** *** What a returned run accounts for *)

Lemma chain_outcomes w steps : forall st (b : builder mem) st' b',
  chain w steps st b = (Ok st', b') ->
  exists outcomes,
    length outcomes = length steps
    /\ WorkflowState.history st' = WorkflowState.history st ++ history_of steps outcomes
    /\ WorkflowState.errors st' = WorkflowState.errors st ++ errors_of steps outcomes.
Proof.
  induction steps as [|s rest IH]; intros st b st' b' C.
  - inversion C; subst. exists []. simpl. now rewrite !List.app_nil_r.
  - cbn [run_steps] in C. unfold bind in C.
    destruct (node w s st b) as [[st1|e] b1] eqn:N; [|discriminate].
    destruct (node_state _ _ _ _ _ _ _ _ _ _ _ N) as (inputs & o & ->).
    destruct (IH _ _ _ _ C) as (os & Len & H & E).
    exists ((inputs, o) :: os). split; [simpl; now rewrite Len|].
    rewrite H, E. unfold history_of, errors_of. cbn [combine flat_map fst snd].
    destruct o; simpl; rewrite <- ?List.app_assoc; split; reflexivity.
Qed.

Lemma outcomes_count (steps : list Step.t) : forall outcomes,
  length outcomes = length steps ->
  length (history_of steps outcomes) + length (errors_of steps outcomes) = length steps.
Proof.
  induction steps as [|s rest IH]; intros [|[inputs o] os] Len; try discriminate.
  - reflexivity.
  - simpl in Len. injection Len as Len. specialize (IH os Len).
    unfold history_of, errors_of in *. cbn [combine flat_map fst snd].
    rewrite !length_app. destruct o; cbn [length app Nat.add]; lia.
Qed.



(** X4: a run that returns has
    made the handler call of every declared step, each in the state the
    steps before it left and with the agent the registry holds for it: the
    history is the records of the calls that returned and the errors are
    the entries of the calls that raised, both in the declared order.  So
    the records and the errors together are as many as the steps, and
    [success] holds exactly when there is no error, which is when every
    step has its record. *)
Theorem returned_run_accounts_for_every_step w init (b : builder mem) r b' :
  exec w init b = (Ok r, b') ->
  length (calls w (Workflow.steps w) (initial_state w init) (started w b))
  = length (Workflow.steps w)
  /\ RunResult.history r
     = history_of (Workflow.steps w)
         (calls w (Workflow.steps w) (initial_state w init) (started w b))
  /\ RunResult.errors r
     = errors_of (Workflow.steps w)
         (calls w (Workflow.steps w) (initial_state w init) (started w b))
  /\ length (RunResult.history r) + length (RunResult.errors r)
     = length (Workflow.steps w)
  /\ (RunResult.success r = true <-> RunResult.errors r = [])
  /\ (RunResult.success r = true
      <-> length (RunResult.history r) = length (Workflow.steps w)).
Proof.
  intros E.
  destruct (execute_ok_chain _ _ _ _ _ _ _ _ _ _ _ _ E) as (final & bf & C & ->).
  fold (started w b) in C.
  destruct (chain_calls _ _ _ _ _ _ _ _ _ _ _ C) as (Len & H & Er).
  cbn [initial_state WorkflowState.history WorkflowState.errors app] in H, Er.
  cbn [RunResult.history RunResult.errors RunResult.success].
  pose proof (outcomes_count (Workflow.steps w) _ Len) as Cnt.
  rewrite H, Er.
  split; [exact Len|]. split; [reflexivity|]. split; [reflexivity|].
  split; [exact Cnt|]. split.
  - rewrite Nat.eqb_eq. split; [|intros ->; reflexivity].
    now destruct (errors_of (Workflow.steps w) _).
  - rewrite Nat.eqb_eq. lia.
Qed.

(** *** The data of a returned run *)

Lemma keys_fold_record_output_iff hs : forall d k,
  In k (Dict.keys (fold_left record_output hs d))
  <-> In k (Dict.keys d) \/ In k (map History.step hs).
Proof.
  induction hs as [|h hs IH]; intros d k; [simpl; tauto|].
  cbn [fold_left map]. rewrite IH. unfold record_output. rewrite keys_set.
  destruct (existsb (String.eqb (History.step h)) (Dict.keys d)) eqn:X.
  - apply existsb_exists in X. destruct X as (k0 & I & Eq).
    apply String.eqb_eq in Eq. subst k0. simpl. intuition (subst; auto).
  - rewrite in_app_iff. simpl. tauto.
Qed.

Lemma history_of_steps (steps : list Step.t) : forall outcomes h,
  In h (history_of steps outcomes) -> In (History.step h) (map Step.id steps).
Proof.
  induction steps as [|s rest IH]; intros [|[inputs o] os] h I; try contradiction.
  unfold history_of in I. cbn [combine flat_map fst snd] in I.
  apply in_app_or in I. destruct I as [I|I].
  - destruct o; [|contradiction]. destruct I as [<-|[]]. now left.
  - right. apply (IH os). exact I.
Qed.

Lemma history_of_nodup (steps : list Step.t) : forall outcomes,
  NoDup (map Step.id steps) ->
  NoDup (map History.step (history_of steps outcomes)).
Proof.
  induction steps as [|s rest IH]; intros [|[inputs o] os] N; try constructor.
  inversion N as [|? ? Hn Hd]; subst.
  unfold history_of. cbn [combine flat_map fst snd].
  fold (history_of rest os). rewrite map_app.
  destruct o as [result|msg]; cbn [map app]; [|now apply IH].
  constructor; [|now apply IH].
  intros I. apply in_map_iff in I. destruct I as (h & Eh & Ih).
  apply Hn. simpl in Eh. rewrite <- Eh. now apply (history_of_steps rest os).
Qed.

Lemma get_fold_record_output_in hs : forall d h,
  NoDup (map History.step hs) ->
  In h hs ->
  Dict.get (fold_left record_output hs d) (History.step h)
  = Some (JDict [("output", History.output h)]).
Proof.
  induction hs as [|h0 hs IH]; intros d h N I; [contradiction|].
  inversion N as [|? ? Hn Hd]; subst. cbn [fold_left].
  destruct I as [->|I]; [|now apply IH].
  rewrite get_fold_record_output.
  - unfold record_output. apply get_set_same.
  - intros h' I' E. apply Hn. rewrite <- E. now apply in_map.
Qed.

(** X5: the keys of the returned
    data are the seeded keys and the step ids of the history records, and
    no others; under the id of a step without a record the data hold what
    was seeded there, or nothing. *)
Theorem run_data_has_seeded_and_recorded_keys w init (b : builder mem) r b' :
  exec w init b = (Ok r, b') ->
  (forall k,
     In k (Dict.keys (RunResult.data r))
     <-> In k (Dict.keys (initial_or_empty init))
         \/ In k (map History.step (RunResult.history r)))
  /\ (forall s,
        In s (Workflow.steps w) ->
        ~ In (Step.id s) (map History.step (RunResult.history r)) ->
        Dict.get (RunResult.data r) (Step.id s)
        = Dict.get (initial_or_empty init) (Step.id s)).
Proof.
  intros E.
  destruct (execute_ok_chain _ _ _ _ _ _ _ _ _ _ _ _ E) as (final & bf & C & ->).
  destruct (chain_state _ _ _ _ _ _ _ _ _ _ _ C) as (hs & H & D).
  cbn [initial_state WorkflowState.history WorkflowState.data app] in H, D.
  cbn [RunResult.data RunResult.history]. rewrite H, D. split.
  - intros k. apply keys_fold_record_output_iff.
  - intros s _ N. apply get_fold_record_output.
    intros h I Eq. apply N. rewrite <- Eq. now apply in_map.
Qed.

(** X6: no two history records of a
    returned run have one step id; the returned data hold the output of
    each record under its step id, as the entry [output] of a mapping; and
    a reference [{{id.output...}}] resolves in those data inside the
    output of the record. *)
Theorem run_outputs_are_retrievable w init (b : builder mem) r b' :
  exec w init b = (Ok r, b') ->
  NoDup (map History.step (RunResult.history r))
  /\ (forall h,
        In h (RunResult.history r) ->
        Dict.get (RunResult.data r) (History.step h)
        = Some (JDict [("output", History.output h)]))
  /\ (forall h s rest,
        In h (RunResult.history r) ->
        is_reference_string s = true ->
        ref_parts s = History.step h :: "output" :: rest ->
        History.step h <> "config" ->
        resolve_value (workflow_config w) (RunResult.data r) (JStr s)
        = match walk (History.output h) rest with
          | Ok current => (current, [])
          | Raise _ => (JNull, [ref_warning s])
          end).
Proof.
  intros E.
  destruct (execute_returns_wellformed _ _ _ _ _ _ _ _ _ _ _ _ E) as (_ & N & _).
  destruct (execute_ok_chain _ _ _ _ _ _ _ _ _ _ _ _ E) as (final & bf & C & ->).
  destruct (chain_state _ _ _ _ _ _ _ _ _ _ _ C) as (hs & H & D).
  destruct (chain_outcomes _ _ _ _ _ _ C) as (os & _ & Ho & _).
  cbn [initial_state WorkflowState.history WorkflowState.data app] in H, D, Ho.
  cbn [RunResult.data RunResult.history].
  assert (Nh : NoDup (map History.step (WorkflowState.history final))).
  { rewrite Ho. now apply history_of_nodup. }
  assert (G : forall h, In h (WorkflowState.history final) ->
                Dict.get (WorkflowState.data final) (History.step h)
                = Some (JDict [("output", History.output h)])).
  { intros h I. rewrite D. rewrite H in *. now apply get_fold_record_output_in. }
  split; [exact Nh|]. split; [exact G|].
  intros h s rest I R P K. rewrite resolve_value_reference by exact R.
  unfold ref_root. rewrite P. cbn [hd].
  destruct (String.eqb_spec (History.step h) "config"); [contradiction|].
  cbn [walk]. rewrite (G h I). cbn [Dict.get String.eqb Ascii.eqb Bool.eqb].
  reflexivity.
Qed.


(** *** A handler that returns *)

(** X7: when the handler call of a step
    returns, the node function binds the result in the data under the
    step's id, as the entry [output] of a mapping, and leaves every other
    key as it was; the step becomes the current step, its record is
    appended to the history, the errors are as they were and the
    completion is logged.  A reference [{{id.output...}}] then resolves
    inside the result. *)
Theorem handler_result_is_stored w s st (b : builder mem)
    agent inputs tc b1 tools result m' :
  prep w s st b = (Ok (agent, inputs, tc), b1) ->
  walk tc ["tools"%string] = Ok tools ->
  agent_execute (Agent.class agent) (Agent.agent_name agent) (Agent.memory agent)
                inputs (or_default (Step.instructions s) ""%string) tools
  = (inl result, m') ->
  exists st' b',
    node w s st b = (Ok st', b')
    /\ Dict.get (WorkflowState.data st') (Step.id s)
       = Some (JDict [("output"%string, result)])
    /\ (forall k, k <> Step.id s ->
          Dict.get (WorkflowState.data st') k = Dict.get (WorkflowState.data st) k)
    /\ WorkflowState.current_step st' = Step.id s
    /\ WorkflowState.errors st' = WorkflowState.errors st
    /\ WorkflowState.history st'
       = WorkflowState.history st
         ++ [History.mk (Step.id s) (Step.agent s) inputs result]
    /\ log b'
       = log b1 ++ [(INFO, ("Node " ++ Step.id s ++ " completed successfully")%string)]
    /\ (forall r rest,
          is_reference_string r = true ->
          ref_parts r = Step.id s :: "output"%string :: rest ->
          Step.id s <> "config"%string ->
          resolve_value (workflow_config w) (WorkflowState.data st') (JStr r)
          = match walk result rest with
            | Ok current => (current, [])
            | Raise _ => (JNull, [ref_warning r])
            end).
Proof.
  intros P W H.
  assert (N : node w s st b
              = (Ok (state_after_result s inputs result st),
                 mk_builder
                   (assoc_set (agents b1) (Step.agent s)
                      (Agent.mk (Agent.obj agent) (Agent.class agent)
                                (Agent.agent_name agent) m'))
                   (next_obj b1)
                   (log b1 ++ [(INFO, ("Node " ++ Step.id s
                                       ++ " completed successfully")%string)]))).
  { unfold node_function, bind. rewrite P. unfold attempt. rewrite W.
    unfold call_agent. rewrite H. reflexivity. }
  eexists _, _. split; [exact N|].
  cbn [state_after_result WorkflowState.data WorkflowState.current_step
       WorkflowState.errors WorkflowState.history log].
  split; [apply get_set_same|].
  split; [intros k K; now apply get_set_other|].
  repeat (split; [reflexivity|]).
  intros r rest R Pr C. rewrite resolve_value_reference by exact R.
  unfold ref_root. rewrite Pr. cbn [hd].
  destruct (String.eqb_spec (Step.id s) "config"); [contradiction|].
  cbn [walk]. rewrite get_set_same. cbn [Dict.get String.eqb Ascii.eqb Bool.eqb].
  reflexivity.
Qed.

(** *** Which workflows become a graph *)

Lemma add_nodes_raises steps : forall g (b : builder mem) e b',
  add_nodes refuses g steps b = (Raise e, b') ->
  b' = b
  /\ (exists msg, e = ValueError msg)
  /\ ~ (NoDup (map fst (StateGraph.nodes g) ++ map Step.id steps)
        /\ Forall (fun s => refuses (Step.id s) = None) steps).
Proof.
  induction steps as [|s rest IH]; intros g b e b' H; [discriminate|].
  cbn [add_nodes] in H. unfold bind, add_node in H.
  destruct (assoc (StateGraph.nodes g) (Step.id s)) as [x|] eqn:A.
  - unfold raise in H. inversion H; subst. split; [reflexivity|].
    split; [eauto|]. intros [N _].
    apply NoDup_remove_2 in N. apply N. apply in_or_app. left.
    clear -A. induction (StateGraph.nodes g) as [|[k v] l IHl]; [discriminate|].
    simpl in *. destruct (String.eqb_spec k (Step.id s)); [now left | right; auto].
  - destruct (refuses (Step.id s)) as [msg|] eqn:R.
    + unfold raise in H. inversion H; subst. split; [reflexivity|].
      split; [eauto|]. intros [_ F]. inversion F; congruence.
    + unfold ret in H. apply IH in H. destruct H as (-> & M & Not).
      split; [reflexivity|]. split; [exact M|].
      intros [N F]. apply Not. cbn [StateGraph.nodes]. split.
      * rewrite map_app. cbn [map fst]. rewrite <- List.app_assoc. exact N.
      * now inversion F.
Qed.

(** X8: [build_graph] returns exactly for the
    workflows with at least one step, distinct step ids and no id the
    library refuses; the graph is then the chain of the steps, with as
    many nodes as steps and one edge out of each.  Otherwise it raises
    [IndexError] for no step and [ValueError] else, nothing is logged,
    and [execute] raises the same exception before any node runs. *)
Theorem build_graph_outcome w (b : builder mem) :
  match graph_of w b with
  | (Ok g, b') =>
      Workflow.steps w <> []
      /\ NoDup (map Step.id (Workflow.steps w))
      /\ Forall (fun s => refuses (Step.id s) = None) (Workflow.steps w)
      /\ g = chain_graph (Workflow.steps w)
      /\ length (StateGraph.nodes g) = length (Workflow.steps w)
      /\ length (StateGraph.edges g) = length (Workflow.steps w)
      /\ log b' = log b ++ [(INFO, "LangGraph built successfully"%string)]
  | (Raise e, b') =>
      b' = b
      /\ (forall init, exec w init b = (Raise e, b))
      /\ ((Workflow.steps w = [] /\ e = IndexError)
          \/ (Workflow.steps w <> []
              /\ (exists msg, e = ValueError msg)
              /\ ~ (NoDup (map Step.id (Workflow.steps w))
                    /\ Forall (fun s => refuses (Step.id s) = None)
                              (Workflow.steps w))))
  end.
Proof.
  destruct (graph_of w b) as [[g|e] b'] eqn:B.
  - assert (W : Workflow.steps w <> []
                /\ NoDup (map Step.id (Workflow.steps w))
                /\ Forall (fun s => refuses (Step.id s) = None) (Workflow.steps w)).
    { unfold build_graph, bind in B.
      destruct (add_nodes _ _ (Workflow.steps w) b) as [[g0|e] b0] eqn:A;
        [|discriminate].
      apply add_nodes_distinct in A. destruct A as (N & Acc & _).
      split; [|split; assumption].
      destruct (Workflow.steps w); [unfold raise in B; discriminate | discriminate]. }
    destruct W as (NE & N & A).
    rewrite (build_graph_chain _ _ _ _ NE N A) in B. inversion B; subst.
    repeat (split; [assumption || reflexivity|]).
    cbn [chain_graph StateGraph.nodes StateGraph.edges log].
    rewrite length_map. split; [reflexivity|]. split; [|reflexivity].
    clear. induction (Workflow.steps w) as [|a rest IH]; [reflexivity|].
    cbn [edges_of length]. now rewrite IH.
  - assert (X : b' = b
                /\ ((Workflow.steps w = [] /\ e = IndexError)
                    \/ (Workflow.steps w <> []
                        /\ (exists msg, e = ValueError msg)
                        /\ ~ (NoDup (map Step.id (Workflow.steps w))
                              /\ Forall (fun s => refuses (Step.id s) = None)
                                        (Workflow.steps w))))).
    { unfold build_graph, bind in B.
      destruct (add_nodes _ _ (Workflow.steps w) b) as [[g0|e0] b0] eqn:A.
      - destruct (Workflow.steps w) as [|first rest] eqn:S.
        + cbn in A. inversion A; subst. unfold raise in B. inversion B. auto.
        + discriminate B.
      - inversion B; subst. apply add_nodes_raises in A.
        destruct A as (-> & M & Not). split; [reflexivity|]. right.
        split; [|split; [exact M | exact Not]].
        intros S. rewrite S in Not. apply Not. split; constructor. }
    destruct X as (-> & X). split; [reflexivity|]. split; [|exact X].
    intros init. unfold execute, bind at 1. now rewrite B.
Qed.

End EngineRuns.

(** ** The registry *)

(** X9: the lookup yields a class
    exactly for the names of the seven agent classes, spelt as the classes
    are; a name that differs from one of them in the case of its letters
    finds the module and not the attribute. *)
Theorem registry_resolves_exact_class_names name :
  (forall c, lookup_class name = inl (Class c)
             <-> c <> BaseAgent /\ name = class_name c)
  /\ (forall c,
        c <> BaseAgent ->
        PyStr.lower name = PyStr.lower (class_name c) ->
        name <> class_name c ->
        lookup_class name
        = inr (AttributeError ("agents." ++ PyStr.lower name) name)).
Proof.
  split.
  - intros c. split.
    + intros L. pose proof (lookup_class_cases name) as C. now rewrite L in C.
    + intros [N ->]. destruct c; [congruence | reflexivity ..].
  - intros c N L D.
    destruct c; [congruence | ..];
      match type of L with
      | _ = ?r => let v := eval vm_compute in r in change r with v in L
      end;
      unfold lookup_class; rewrite L;
      match goal with
      | |- context [assoc agent_modules ?k] =>
          let v := eval vm_compute in (assoc agent_modules k) in
          change (assoc agent_modules k) with v
      end;
      cbv iota; unfold getattr; cbn [assoc];
      repeat match goal with
             | |- context [String.eqb ?a ?b] =>
                 destruct (String.eqb_spec a b); [subst|]; cbv iota
             end;
      first [ reflexivity
            | now (exfalso; apply D)
            | now (exfalso; vm_compute in L; discriminate L) ].
Qed.

(** ** The further properties on sample data *)

Lemma reference_padding_witness :
  resolve_value JNull Fixture.data (JStr "{{ a.output.count  }}"%string)
  = (JNum 3, []).
Proof.
  exact (eq_trans
           (proj2 (reference_ignores_padding JNull Fixture.data " "%string
                     "a.output.count"%string "  "%string eq_refl eq_refl))
           eq_refl).
Defined.

Lemma reference_composition_witness :
  resolve_value JNull Fixture.data (JStr "{{a.output.count}}"%string)
  = (JNum 3, []).
Proof.
  destruct (reference_paths_compose JNull Fixture.data "a.output"%string
              "count"%string eq_refl eq_refl eq_refl) as [H _].
  exact (H (JDict [("count"%string, JNum 3); ("leads"%string, JList [JStr "x"%string])])
           eq_refl).
Defined.

Lemma reference_into_list_witness :
  resolve_value JNull Fixture.data (JStr "{{a.output.leads.0}}"%string)
  = (JNull, [(WARNING, "Could not resolve reference: a.output.leads.0"%string)]).
Proof.
  refine (reference_through_non_mapping JNull Fixture.data
            "{{a.output.leads.0}}"%string ["a"; "output"; "leads"]%string
            "0"%string [] (JList [JStr "x"%string]) eq_refl eq_refl eq_refl _).
  intros members H. discriminate H.
Defined.

Lemma run_accounting_witness :
  exists r,
    fst (sample_execute Sample.no_env Sample.three_steps None (new_builder nat))
    = Ok r
    /\ map History.step (RunResult.history r) = ["a"; "b"]%string
    /\ RunResult.errors r = ["x: boom"%string]
    /\ length (RunResult.history r) + length (RunResult.errors r) = 3.
Proof.
  destruct (sample_execute Sample.no_env Sample.three_steps None (new_builder nat))
    as [[r|e] b'] eqn:E.
  - exists r. split; [reflexivity|].
    destruct (returned_run_accounts_for_every_step nat 0 Sample.handler
                Sample.no_env Sample.describe Sample.refuses
                Sample.recursion_limit Sample.three_steps None
                (new_builder nat) r b' E) as (_ & H & Er & Cnt & _).
    split; [rewrite H; vm_compute; reflexivity|].
    split; [rewrite Er; vm_compute; reflexivity | exact Cnt].
  - vm_compute in E. discriminate.
Defined.

Lemma run_data_keys_witness :
  exists r,
    fst (sample_execute Sample.no_env Sample.three_steps (Some Sample.seed)
                        (new_builder nat))
    = Ok r
    /\ Dict.get (RunResult.data r) "x"%string = None.
Proof.
  destruct (sample_execute Sample.no_env Sample.three_steps (Some Sample.seed)
                           (new_builder nat))
    as [[r|e] b'] eqn:E.
  - exists r. split; [reflexivity|].
    refine (eq_trans
              (proj2 (run_data_has_seeded_and_recorded_keys nat 0 Sample.handler
                        Sample.no_env Sample.describe Sample.refuses
                        Sample.recursion_limit Sample.three_steps (Some Sample.seed)
                        (new_builder nat) r b' E) Sample.step_X _ _)
              eq_refl).
    + simpl. auto.
    + vm_compute in E. inversion E; subst. simpl.
      intros [H|[H|[]]]; discriminate H.
  - vm_compute in E. discriminate.
Defined.

Lemma run_outputs_witness :
  exists r,
    fst (sample_execute Sample.no_env Sample.two_steps None (new_builder nat))
    = Ok r
    /\ resolve_value (workflow_config Sample.two_steps) (RunResult.data r)
                     (JStr "{{b.output.doubled}}"%string)
       = (JNum 6, []).
Proof.
  destruct (sample_execute Sample.no_env Sample.two_steps None (new_builder nat))
    as [[r|e] b'] eqn:E.
  - exists r. split; [reflexivity|].
    destruct (run_outputs_are_retrievable nat 0 Sample.handler
                Sample.no_env Sample.describe Sample.refuses
                Sample.recursion_limit Sample.two_steps None
                (new_builder nat) r b' E) as (_ & _ & R).
    rewrite (R (History.mk "b"%string "B"%string [("n"%string, JNum 3)]
                  (JDict [("doubled"%string, JNum 6)]))
               "{{b.output.doubled}}"%string ["doubled"%string]).
    + reflexivity.
    + vm_compute in E. inversion E; subst. simpl. auto.
    + reflexivity.
    + reflexivity.
    + discriminate.
  - vm_compute in E. discriminate.
Defined.

Lemma handler_result_witness :
  exists st' b',
    node_function 0 Sample.handler Sample.no_env Sample.describe Sample.two_steps
                  Sample.step_A Sample.empty_state (new_builder nat)
    = (Ok st', b')
    /\ Dict.get (WorkflowState.data st') "a"%string
       = Some (JDict [("output"%string, JDict [("count"%string, JNum 3)])]).
Proof.
  destruct (handler_result_is_stored nat 0 Sample.handler Sample.no_env
              Sample.describe Sample.two_steps Sample.step_A Sample.empty_state
              (new_builder nat)
              (Agent.mk 0 BaseAgent "A"%string 0) [] (JDict [("tools"%string, JList [])])
              (mk_builder [("A"%string, Agent.mk 0 BaseAgent "A"%string 0)] 1
                 [(INFO, "Executing node: a (A)"%string);
                  (ERROR, "Failed to load agent A: No module named 'agents.a'"%string)])
              (JList []) (JDict [("count"%string, JNum 3)]) 1)
    as (st' & b' & N & G & _).
  - vm_compute. reflexivity.
  - reflexivity.
  - reflexivity.
  - exists st', b'. split; [exact N | exact G].
Defined.

(** ** The loader *)

Lemma get_some_key (d : dict) k v :
  Dict.get d k = Some v -> existsb (String.eqb k) (Dict.keys d) = true.
Proof.
  induction d as [|[k' v'] d IH]; simpl; [discriminate|].
  rewrite (String.eqb_sym k k').
  destruct (String.eqb k' k); [reflexivity | exact IH].
Qed.

Lemma validate_mapping (d : dict) :
  Loader._validate_workflow (JDict d)
  = if negb (existsb (String.eqb "workflow_name") (Dict.keys d))
    then Raise (ValueError "Missing required key in workflow: workflow_name")
    else match Dict.get d "steps" with
         | None => Raise (ValueError "Missing required key in workflow: steps")
         | Some steps =>
             if Py.truthy steps then Ok (INFO, "Workflow validation passed"%string)
             else Raise (ValueError "Workflow must have at least one step")
         end.
Proof.
  unfold Loader._validate_workflow. cbn [Loader.check_required Py.has].
  destruct (existsb (String.eqb "workflow_name") (Dict.keys d)); [|reflexivity].
  cbn [negb]. destruct (Dict.get d "steps") as [steps|] eqn:G.
  - rewrite (get_some_key _ _ _ G). cbn [walk]. now rewrite G.
  - apply get_none_keys in G.
    destruct (existsb (String.eqb "steps") (Dict.keys d)) eqn:X; [|reflexivity].
    apply existsb_exists in X. destruct X as (k & I & E).
    apply String.eqb_eq in E. subst k. contradiction.
Qed.

Lemma validate_raises config e :
  Loader._validate_workflow config = Raise e ->
  e = TypeError \/ exists msg, e = ValueError msg.
Proof.
  unfold Loader._validate_workflow.
  assert (C : forall keys e0, Loader.check_required config keys = Raise e0 ->
                e0 = TypeError \/ exists msg, e0 = ValueError msg).
  { induction keys as [|k keys IH]; intros e0 H; [discriminate|].
    cbn [Loader.check_required] in H.
    destruct (Py.has config k) as [[|]|e1] eqn:P.
    - now apply IH.
    - inversion H. eauto.
    - inversion H; subst. left.
      destruct config; cbn in P; congruence. }
  destruct (Loader.check_required config _) as [u|e0] eqn:R.
  - destruct (walk config ["steps"%string]) as [steps|e1] eqn:W.
    + destruct (Py.truthy steps); [discriminate|]. intros H. inversion H. eauto.
    + intros H. inversion H; subst.
      destruct config; cbn in W; try (inversion W; now left).
      destruct (Dict.get members "steps") eqn:G; [discriminate|].
      exfalso. cbn [Loader.check_required Py.has] in R.
      destruct (existsb (String.eqb "workflow_name") (Dict.keys members));
        [|discriminate].
      destruct (existsb (String.eqb "steps") (Dict.keys members)) eqn:X;
        [|discriminate].
      apply get_none_keys in G. apply existsb_exists in X.
      destruct X as (k & I & E). apply String.eqb_eq in E. subst k. contradiction.
  - intros H. inversion H; subst. now apply (C _ _ R).
Qed.

Section LoaderFacts.

Variable workflow_path : string.
Variable files : string -> Loader.file.
Variable py_str : json -> string.
Variable decode_error : string -> string.

Local Abbreviation load := (Loader.load_workflow workflow_path files py_str decode_error).
Local Abbreviation ensure := (Loader.ensure_loaded workflow_path files py_str decode_error).

(** X10: a document with integral numbers
    and distinct keys, with a [workflow_name] and a [steps] entry that
    Python takes as true, and written to the workflow file as [json.dump]
    writes it, is what [load_workflow] returns and stores; the two
    records logged are the name and the passed validation. *)
Theorem load_workflow_reads_back (d : dict) name steps (b : Loader.builder) :
  files workflow_path = Loader.Text (Json.dumps (JDict d)) ->
  integral (JDict d) = true ->
  distinct_keys (JDict d) ->
  Dict.get d "workflow_name" = Some name ->
  Dict.get d "steps" = Some steps ->
  Py.truthy steps = true ->
  load b
  = (inl (JDict d),
     Loader.mk (Some (JDict d))
       (Loader.records b
        ++ [(INFO, ("Loaded workflow: " ++ py_str name)%string);
            (INFO, "Workflow validation passed"%string)])).
Proof.
  intros F I D N S T. unfold Loader.load_workflow. rewrite F.
  rewrite (loads_dumps _ I), (normalize_distinct _ D).
  rewrite validate_mapping, (get_some_key _ _ _ N), S, T, N.
  cbn [negb or_default]. unfold Loader.logged.
  cbn [Loader.workflow_config Loader.records]. now rewrite <- List.app_assoc.
Qed.

(** X11: what [load_workflow] leaves behind
    when it raises.  A missing file and a text that is no JSON are
    logged once as [ERROR] and leave [workflow_config] as it was.  Every
    other exception of a file that opens (a missing key, no step, a
    document that is no mapping) comes after the decoded document has
    replaced [workflow_config], and adds no [ERROR] record; if that
    document is taken as true, [build_graph] does not load again. *)
Theorem load_workflow_failure (b : Loader.builder) e b' :
  load b = (inr e, b') ->
  match e with
  | Py.FileNotFoundError =>
      files workflow_path = Loader.Missing
      /\ Loader.workflow_config b' = Loader.workflow_config b
      /\ Loader.records b'
         = Loader.records b
           ++ [(ERROR, ("Workflow file not found: " ++ workflow_path)%string)]
  | Py.Engine JSONDecodeError =>
      (exists content,
         files workflow_path = Loader.Text content /\ Json.loads content = None
         /\ Loader.records b'
            = Loader.records b
              ++ [(ERROR, ("Invalid JSON in workflow file: "
                           ++ decode_error content)%string)])
      /\ Loader.workflow_config b' = Loader.workflow_config b
  | Py.OSError => files workflow_path = Loader.Unreadable /\ b' = b
  | _ =>
      exists content config,
        files workflow_path = Loader.Text content
        /\ Json.loads content = Some config
        /\ Loader.workflow_config b' = Some config
        /\ filter Loader.is_error (Loader.records b') = filter Loader.is_error (Loader.records b)
        /\ (Py.truthy config = true -> ensure b' = (inl tt, b'))
  end.
Proof.
  unfold Loader.load_workflow. destruct (files workflow_path) as [content| |] eqn:F.
  - destruct (Json.loads content) as [config|] eqn:L.
    + destruct config as [| | | | | |members];
        try (intros H; inversion H; subst; exists content; eexists;
             split; [reflexivity|]; split; [exact L|];
             repeat (split; [reflexivity|]); cbn [Loader.workflow_config];
             intros T; unfold Loader.ensure_loaded; cbn [Loader.workflow_config];
             now rewrite T).
      destruct (Loader._validate_workflow (JDict members)) as [r|e0] eqn:V;
        [discriminate|].
      intros H. inversion H; subst.
      assert (X : exists content0 config,
                 Loader.Text content = Loader.Text content0
                 /\ Json.loads content0 = Some config
                 /\ Loader.workflow_config
                      (Loader.logged (Loader.mk (Some (JDict members)) (Loader.records b))
                         (INFO, ("Loaded workflow: "
                                 ++ py_str (or_default (Dict.get members "workflow_name")
                                                       JNull))%string))
                    = Some config
                 /\ filter Loader.is_error
                      (Loader.records
                         (Loader.logged (Loader.mk (Some (JDict members)) (Loader.records b))
                            (INFO, ("Loaded workflow: "
                                    ++ py_str (or_default (Dict.get members "workflow_name")
                                                          JNull))%string)))
                    = filter Loader.is_error (Loader.records b)
                 /\ (Py.truthy config = true ->
                     ensure (Loader.logged (Loader.mk (Some (JDict members)) (Loader.records b))
                               (INFO, ("Loaded workflow: "
                                       ++ py_str (or_default (Dict.get members "workflow_name")
                                                             JNull))%string))
                     = (inl tt,
                        Loader.logged (Loader.mk (Some (JDict members)) (Loader.records b))
                          (INFO, ("Loaded workflow: "
                                  ++ py_str (or_default (Dict.get members "workflow_name")
                                                        JNull))%string)))).
      { exists content, (JDict members). split; [reflexivity|]. split; [exact L|].
        split; [reflexivity|]. split.
        - unfold Loader.logged. cbn [Loader.records]. rewrite filter_app. simpl.
          now rewrite List.app_nil_r.
        - intros T. unfold Loader.ensure_loaded, Loader.logged.
          cbn [Loader.workflow_config]. now rewrite T. }
      destruct (validate_raises _ _ V) as [->|[msg ->]]; exact X.
    + intros H. inversion H; subst. split; [|reflexivity].
      exists content. now repeat split.
  - intros H. inversion H; subst. now repeat split.
  - intros H. inversion H; subst. now split.
Qed.

End LoaderFacts.

(** X12: on the document of a
    workflow, [_validate_workflow] passes exactly when there is a step,
    whatever the steps hold; and a workflow that passed never makes
    [build_graph] raise [IndexError]. *)
Theorem validation_guards_build_graph (w : Workflow.t) :
  Loader._validate_workflow (workflow_config w)
  = match Workflow.steps w with
    | [] => Raise (ValueError "Workflow must have at least one step")
    | _ => Ok (INFO, "Workflow validation passed"%string)
    end
  /\ (forall (mem : Type) refuses (b : builder mem) r,
        Loader._validate_workflow (workflow_config w) = Ok r ->
        fst (build_graph refuses w b) <> Raise IndexError).
Proof.
  assert (V : Loader._validate_workflow (workflow_config w)
              = match Workflow.steps w with
                | [] => Raise (ValueError "Workflow must have at least one step")
                | _ => Ok (INFO, "Workflow validation passed"%string)
                end).
  { unfold workflow_config. rewrite validate_mapping. cbn.
    now destruct (Workflow.steps w). }
  split; [exact V|].
  intros mem refuses b r H. rewrite V in H.
  destruct (Workflow.steps w) as [|first rest] eqn:S; [discriminate|].
  unfold build_graph, bind. rewrite S.
  destruct (add_nodes refuses _ (first :: rest) b) as [[g|e] b1] eqn:A.
  - cbn. discriminate.
  - apply add_nodes_raises in A. destruct A as (_ & [msg ->] & _).
    cbn. discriminate.
Qed.

(** ** The loader on sample files *)

Lemma load_workflow_reads_back_witness :
  Loader.load_workflow "workflow.json" Loader.Sample.files Loader.Sample.py_str
    Loader.Sample.decode_error (Loader.mk None [])
  = (inl (JDict Loader.Sample.document),
     Loader.mk (Some (JDict Loader.Sample.document))
       [(INFO, "Loaded workflow: demo"%string);
        (INFO, "Workflow validation passed"%string)]).
Proof.
  refine (load_workflow_reads_back "workflow.json"%string Loader.Sample.files
            Loader.Sample.py_str Loader.Sample.decode_error
            Loader.Sample.document (JStr "demo"%string)
            (JList [JDict [("id"%string, JStr "a"%string);
                           ("agent"%string, JStr "A"%string)]])
            (Loader.mk None []) eq_refl eq_refl _ eq_refl eq_refl eq_refl).
  vm_compute. repeat constructor; intros H; simpl in H; intuition discriminate.
Defined.

Lemma load_workflow_failure_witness :
  exists content config,
    Loader.Sample.files "draft.json" = Loader.Text content
    /\ Json.loads content = Some config
    /\ Loader.workflow_config
         (Loader.mk (Some (JDict Loader.Sample.draft))
            [(INFO, "Loaded workflow: None"%string)])
       = Some config
    /\ filter Loader.is_error [(INFO, "Loaded workflow: None"%string)]
       = filter Loader.is_error []
    /\ (Py.truthy config = true ->
        Loader.ensure_loaded "draft.json" Loader.Sample.files Loader.Sample.py_str
          Loader.Sample.decode_error
          (Loader.mk (Some (JDict Loader.Sample.draft))
             [(INFO, "Loaded workflow: None"%string)])
        = (inl tt,
           Loader.mk (Some (JDict Loader.Sample.draft))
             [(INFO, "Loaded workflow: None"%string)])).
Proof.
  exact (load_workflow_failure "draft.json"%string Loader.Sample.files
           Loader.Sample.py_str Loader.Sample.decode_error (Loader.mk None [])
           (Py.Engine
              (ValueError "Missing required key in workflow: workflow_name"))
           (Loader.mk (Some (JDict Loader.Sample.draft))
              [(INFO, "Loaded workflow: None"%string)])
           eq_refl).
Defined.

Lemma validation_guard_witness :
  Loader._validate_workflow (workflow_config Sample.two_steps)
  = Ok (INFO, "Workflow validation passed"%string)
  /\ fst (build_graph Sample.refuses Sample.two_steps (new_builder nat)) <> Raise IndexError.
Proof.
  split.
  - exact (proj1 (validation_guards_build_graph Sample.two_steps)).
  - exact (proj2 (validation_guards_build_graph Sample.two_steps) nat Sample.refuses
             (new_builder nat) (INFO, "Workflow validation passed"%string)
             (proj1 (validation_guards_build_graph Sample.two_steps))).
Defined.

(** * The agents *)

(** ** Loops *)

Lemma for_each_app {X S : Type} (a b : list X) (body : S -> X -> S + Py.raised) :
  forall s, Py.for_each (a ++ b) body s
            = Py.bind (Py.for_each a body s) (Py.for_each b body).
Proof.
  induction a as [|x a IH]; intros s; [reflexivity|].
  cbn [app Py.for_each]. destruct (body s x) as [s'|e]; [apply IH | reflexivity].
Qed.

Lemma existsb_eqb_in (e : string) (l : list string) :
  existsb (String.eqb e) l = true <-> In e l.
Proof.
  rewrite existsb_exists. split.
  - intros (x & I & E). apply String.eqb_eq in E. now subst.
  - intros I. exists e. split; [exact I | apply String.eqb_refl].
Qed.

Lemma existsb_eqb_out (e : string) (l : list string) :
  existsb (String.eqb e) l = false <-> ~ In e l.
Proof.
  rewrite <- existsb_eqb_in. destruct (existsb (String.eqb e) l); split; congruence.
Qed.

Lemma existsb_reversed {A : Type} (f : A -> bool) (l : list A) :
  existsb f (rev l) = existsb f l.
Proof.
  induction l as [|a l IH]; [reflexivity|].
  cbn [rev existsb]. rewrite List.existsb_app, IH. cbn [existsb].
  now rewrite orb_false_r, orb_comm.
Qed.

(** ** [ProspectSearchAgent]: deduplication *)

Section Dedup.

Local Abbreviation email_of := Agents.ProspectSearchAgent.email_of.
Local Abbreviation keep_new := Agents.ProspectSearchAgent.keep_new.
Local Abbreviation dedup := Agents.ProspectSearchAgent._deduplicate_leads.
Local Abbreviation email_among := Agents.ProspectSearchAgent.email_among.

(** The emails of leads, one by one. *)
Local Abbreviation keyed := (Forall2 (fun lead e => email_of lead = inl e)).

Lemma keep_new_cases seen acc lead :
  match email_of lead with
  | inl e =>
      keep_new (seen, acc) lead
      = inl (if negb (String.eqb e "") && negb (existsb (String.eqb e) seen)
             then (e :: seen, acc ++ [lead]) else (seen, acc))
  | inr x => keep_new (seen, acc) lead = inr x
  end.
Proof.
  unfold Agents.ProspectSearchAgent.keep_new.
  destruct (email_of lead) as [e|x]; cbn [Py.bind]; [|reflexivity].
  now destruct (negb (String.eqb e "") && negb (existsb (String.eqb e) seen)).
Qed.

Lemma is_new_true e seen :
  negb (String.eqb e "") && negb (existsb (String.eqb e) seen) = true
  <-> e <> ""%string /\ ~ In e seen.
Proof.
  rewrite andb_true_iff, !negb_true_iff, existsb_eqb_out, String.eqb_neq. tauto.
Qed.

(** What the loop keeps: the invariant of [seen_emails] and
    [unique_leads]. *)
Lemma dedup_loop leads : forall seen acc seen' acc' ks,
  Py.for_each leads keep_new (seen, acc) = inl (seen', acc') ->
  keyed acc ks -> seen = rev ks -> NoDup ks -> ~ In ""%string ks ->
  exists new ks',
    acc' = acc ++ new
    /\ keyed new ks'
    /\ seen' = rev (ks ++ ks')
    /\ NoDup (ks ++ ks')
    /\ ~ In ""%string (ks ++ ks')
    /\ incl new leads
    /\ (forall lead e, In lead leads -> email_of lead = inl e -> e <> ""%string ->
        In e (ks ++ ks')).
Proof.
  induction leads as [|lead leads IH]; intros seen acc seen' acc' ks L K S N E.
  - cbn in L. inversion L; subst. exists [], []. rewrite !List.app_nil_r.
    repeat split; auto using List.incl_nil_l. intros lead e I. destruct I.
  - cbn [Py.for_each] in L. pose proof (keep_new_cases seen acc lead) as C.
    destruct (email_of lead) as [e|x] eqn:EL; rewrite C in L; [|discriminate].
    destruct (negb (String.eqb e "") && negb (existsb (String.eqb e) seen)) eqn:F.
    + apply is_new_true in F. destruct F as [NE NI].
      assert (NI' : ~ In e ks) by (intros I; apply NI; subst seen; now apply List.in_rev in I).
      destruct (IH (e :: seen) (acc ++ [lead]) seen' acc' (ks ++ [e]) L)
        as (new & ks' & A & K' & S' & N' & E' & I' & Cov).
      * apply Forall2_app; [exact K | now constructor].
      * subst seen. now rewrite List.rev_app_distr.
      * apply NoDup_app; [exact N | repeat constructor; intros I; destruct I |].
        intros a Ia [<-|I]; [contradiction | destruct I].
      * rewrite List.in_app_iff. intros [I|[I|[]]]; [now apply E | now apply NE].
      * exists (lead :: new), (e :: ks'). rewrite <- !List.app_assoc in *. cbn [app] in *.
        repeat split; auto.
        -- intros a [<-|Ia]; [now left | right; now apply I'].
        -- intros l0 e0 [<-|Il] El Ne.
           ++ rewrite EL in El. inversion El; subst. apply List.in_or_app. right. now left.
           ++ now apply (Cov l0).
    + destruct (IH seen acc seen' acc' ks L K S N E)
        as (new & ks' & A & K' & S' & N' & E' & I' & Cov).
      exists new, ks'. repeat split; auto.
      * intros a Ia. right. now apply I'.
      * intros l0 e0 [<-|Il] El Ne; [|now apply (Cov l0)].
        rewrite EL in El. inversion El; subst e0.
        apply List.in_or_app. left.
        destruct (String.eqb_spec e ""); [contradiction|]. cbn [negb andb] in F.
        apply negb_false_iff, existsb_eqb_in in F. subst seen. now apply List.in_rev.
Qed.

(** Leads with distinct, non-empty emails that are not yet seen are all
    kept. *)
Lemma dedup_keeps leads : forall ks seen acc,
  keyed leads ks -> NoDup ks -> ~ In ""%string ks ->
  (forall e, In e ks -> ~ In e seen) ->
  Py.for_each leads keep_new (seen, acc) = inl (rev ks ++ seen, acc ++ leads).
Proof.
  induction leads as [|lead leads IH]; intros ks seen acc K N E D.
  - inversion K; subst. cbn. now rewrite List.app_nil_r.
  - inversion K as [|? e ? ks0 El K0]; subst. cbn [Py.for_each].
    pose proof (keep_new_cases seen acc lead) as C. rewrite El in C. rewrite C.
    assert (F : negb (String.eqb e "") && negb (existsb (String.eqb e) seen) = true).
    { apply is_new_true. split.
      - intros ->. apply E. now left.
      - apply D. now left. }
    rewrite F. inversion N; subst.
    rewrite (IH ks0 (e :: seen) (acc ++ [lead])); auto.
    + cbn [rev]. now rewrite <- !List.app_assoc.
    + intros I. apply E. now right.
    + intros e0 I [<-|I']; [contradiction|]. apply (D e0); [now right | exact I'].
Qed.

(** The loop from two sets of seen emails, one holding [extra] more. *)
Lemma dedup_loop_seen leads : forall extra seen seen0 acc acc0 seen1 out,
  (forall e, In e seen <-> In e extra \/ In e seen0) ->
  Py.for_each leads keep_new (seen0, acc0) = inl (seen1, out) ->
  exists seen' X,
    out = acc0 ++ X
    /\ Py.for_each leads keep_new (seen, acc)
       = inl (seen',
              acc ++ filter (fun lead =>
                               match email_of lead with
                               | inl e => negb (existsb (String.eqb e) extra)
                               | inr _ => false
                               end) X)
    /\ (forall e, In e seen' <-> In e extra \/ In e seen1).
Proof.
  induction leads as [|lead leads IH]; intros extra seen seen0 acc acc0 seen1 out Eq L.
  - cbn in L. inversion L; subst. exists seen, []. cbn. rewrite !List.app_nil_r. auto.
  - cbn [Py.for_each] in *.
    pose proof (keep_new_cases seen0 acc0 lead) as C0.
    pose proof (keep_new_cases seen acc lead) as C.
    destruct (email_of lead) as [e|x] eqn:El; rewrite C0 in L; [|discriminate].
    rewrite C.
    destruct (String.eqb_spec e "") as [E0|NE]; cbn [negb andb] in *.
    { destruct (IH extra seen seen0 acc acc0 seen1 out Eq L) as (s' & X & -> & R & Q).
      exists s', X. auto. }
    destruct (existsb (String.eqb e) seen0) eqn:B0; cbn [negb] in *.
    + assert (B : existsb (String.eqb e) seen = true).
      { apply existsb_eqb_in, Eq. right. now apply existsb_eqb_in. }
      rewrite B. cbn [negb].
      destruct (IH extra seen seen0 acc acc0 seen1 out Eq L) as (s' & X & -> & R & Q).
      exists s', X. auto.
    + destruct (existsb (String.eqb e) extra) eqn:Bx.
      * assert (B : existsb (String.eqb e) seen = true).
        { apply existsb_eqb_in, Eq. left. now apply existsb_eqb_in. }
        rewrite B. cbn [negb].
        destruct (IH extra seen (e :: seen0) acc (acc0 ++ [lead]) seen1 out) as
          (s' & X & -> & R & Q); [|exact L|].
        { intros a. rewrite Eq. cbn [In]. split; [tauto|].
          intros [I|[<-|I]]; auto. left. now apply existsb_eqb_in. }
        exists s', (lead :: X). rewrite <- List.app_assoc. split; [reflexivity|].
        split; [|exact Q]. cbn [filter]. rewrite El, Bx. exact R.
      * assert (B : existsb (String.eqb e) seen = false).
        { apply existsb_eqb_out. rewrite Eq. intros [I|I].
          - apply existsb_eqb_out in Bx. contradiction.
          - apply existsb_eqb_out in B0. contradiction. }
        rewrite B. cbn [negb].
        destruct (IH extra (e :: seen) (e :: seen0) (acc ++ [lead]) (acc0 ++ [lead])
                     seen1 out) as (s' & X & -> & R & Q); [|exact L|].
        { intros a. cbn [In]. rewrite Eq. tauto. }
        exists s', (lead :: X). rewrite <- List.app_assoc. split; [reflexivity|].
        split; [|exact Q]. cbn [filter]. rewrite El, Bx. cbn [negb].
        rewrite R. now rewrite <- List.app_assoc.
Qed.

Lemma dedup_returns leads unique :
  dedup leads = inl unique <->
  exists seen, Py.for_each leads keep_new ([], []) = inl (seen, unique).
Proof.
  unfold Agents.ProspectSearchAgent._deduplicate_leads.
  destruct (Py.for_each leads keep_new ([], [])) as [[seen u]|x]; cbn; split.
  - intros H. inversion H. eauto.
  - intros (s & H). now inversion H.
  - discriminate.
  - intros (s & H). discriminate.
Qed.

(** X13: when
    [_deduplicate_leads] returns, the leads it returns are leads of the
    input, with emails that are not empty and differ pairwise, letter
    case apart; every email of the input that is not empty is the email
    of a returned lead; and deduplicating the result again changes
    nothing. *)
Theorem deduplication_keeps_one_lead_per_email (leads unique : list json) :
  dedup leads = inl unique ->
  (exists emails,
     Forall2 (fun lead e => email_of lead = inl e) unique emails
     /\ NoDup emails /\ ~ In ""%string emails
     /\ (forall lead e, In lead leads -> email_of lead = inl e -> e <> ""%string ->
         In e emails))
  /\ incl unique leads
  /\ length unique <= length leads
  /\ dedup unique = inl unique.
Proof.
  intros H. apply dedup_returns in H. destruct H as (seen & L).
  destruct (dedup_loop leads [] [] seen unique [] L) as
    (new & ks & A & K & S & N & E & I & Cov); auto using NoDup_nil.
  cbn [app] in *. subst new. split; [|split; [|split]].
  - exists ks. auto.
  - exact I.
  - clear - L. revert L. generalize (@nil string). 
    assert (G : forall leads seen acc seen' acc',
               Py.for_each leads keep_new (seen, acc) = inl (seen', acc') ->
               length acc' <= length acc + length leads).
    { clear. induction leads as [|lead leads IH]; intros seen acc seen' acc' L.
      - cbn in L. inversion L. lia.
      - cbn [Py.for_each] in L. pose proof (keep_new_cases seen acc lead) as C.
        destruct (email_of lead) as [e|x]; rewrite C in L; [|discriminate].
        destruct (negb (String.eqb e "") && negb (existsb (String.eqb e) seen));
          apply IH in L; cbn [length]; [rewrite List.length_app in L; cbn in L|]; lia. }
    intros l L. apply G in L. cbn in L. lia.
  - apply dedup_returns. exists (rev ks ++ []).
    apply (dedup_keeps unique ks [] [] K N E). intros e _ F. destruct F.
Qed.

(** X14: deduplicating two lists
    one after the other keeps the deduplicated first list whole, and of
    the deduplicated second list the leads whose email no lead kept from
    the first list has: on an email both have, the first list wins. *)
Theorem deduplication_first_source_wins (a b ua ub : list json) :
  dedup a = inl ua ->
  dedup b = inl ub ->
  dedup (a ++ b) = inl (ua ++ filter (fun lead => negb (email_among ua lead)) ub).
Proof.
  intros A B. apply dedup_returns in A, B.
  destruct A as (sa & A), B as (sb & B).
  unfold Agents.ProspectSearchAgent._deduplicate_leads.
  rewrite for_each_app, A. cbn [Py.bind].
  destruct (dedup_loop a [] [] sa ua [] A) as
    (new & ks & E1 & K & S & N & E & I & Cov); auto using NoDup_nil.
  cbn [app] in *. subst new.
  destruct (dedup_loop_seen b sa sa [] ua [] sb ub) as (s' & X & E2 & R & Q);
    [intros e; cbn; tauto | exact B |].
  cbn [app] in E2. subst X. rewrite R. cbn [Py.bind snd]. f_equal. f_equal.
  destruct (dedup_loop b [] [] sb ub [] B) as
    (new & kb & E3 & Kb & _); auto using NoDup_nil.
  cbn [app] in E3. subst new.
  apply List.filter_ext_in. intros lead Il.
  unfold Agents.ProspectSearchAgent.email_among.
  assert (Hk : exists e, email_of lead = inl e).
  { clear - Kb Il. induction Kb as [|u k ub kb Ek Kb IH]; [destruct Il|].
    destruct Il as [<-|Il]; eauto. }
  destruct Hk as (e & ->). f_equal.
  subst sa. clear - K.
  assert (G : forall e, existsb (String.eqb e) (rev ks)
                        = existsb (fun other => match email_of other with
                                                | inl e0 => String.eqb e0 e
                                                | inr _ => false
                                                end) ua).
  { intros e0. rewrite existsb_reversed. induction K as [|u k ua ks Ek K IH]; [reflexivity|].
    cbn [existsb]. rewrite Ek, IH, (String.eqb_sym e0 k). reflexivity. }
  apply G.
Qed.

(** Leads whose emails are all seen are all passed over. *)
Lemma dedup_skips leads : forall ks seen acc,
  keyed leads ks -> (forall e, In e ks -> In e seen) ->
  Py.for_each leads keep_new (seen, acc) = inl (seen, acc).
Proof.
  induction leads as [|lead leads IH]; intros ks seen acc K I; [reflexivity|].
  inversion K as [|? e ? ks0 El K0]; subst. cbn [Py.for_each].
  pose proof (keep_new_cases seen acc lead) as C. rewrite El in C. rewrite C.
  assert (F : existsb (String.eqb e) seen = true).
  { apply existsb_eqb_in, I. now left. }
  rewrite F, andb_false_r. apply (IH ks0); [exact K0|].
  intros e0 I0. apply I. now right.
Qed.

Lemma dedup_distinct leads ks :
  keyed leads ks -> NoDup ks -> ~ In ""%string ks -> dedup leads = inl leads.
Proof.
  intros K N E. apply dedup_returns. exists (rev ks ++ []).
  apply (dedup_keeps leads ks [] [] K N E). intros e _ F. destruct F.
Qed.

Lemma email_of_returns lead :
  (exists e, email_of lead = inl e)
  <-> Agents.ProspectSearchAgent.has_text_email lead = true.
Proof.
  unfold Agents.ProspectSearchAgent.email_of,
    Agents.ProspectSearchAgent.has_text_email.
  destruct lead as [| | | | | |d]; cbn;
    try (split; [intros (e & H); discriminate H | discriminate]).
  destruct (Dict.get d "email") as [[| | | | | |]|]; cbn;
    split; eauto; try discriminate; intros (e & H); discriminate H.
Qed.

Lemma email_of_raises lead x :
  email_of lead = inr x ->
  x = Py.AttributeError (Py.type_name lead) "get"
  \/ exists v, Py.get lead "email" (JStr "") = inl v
               /\ x = Py.AttributeError (Py.type_name v) "lower".
Proof.
  unfold Agents.ProspectSearchAgent.email_of.
  destruct lead as [| | | | | |d]; cbn; try (intros H; inversion H; now left).
  destruct (or_default (Dict.get d "email") (JStr "")) as [| | | | | |] eqn:G; cbn;
    try discriminate; intros H; inversion H; right; eexists; split; reflexivity.
Qed.

(** X15:
    [_deduplicate_leads] returns exactly when every lead is a mapping
    whose [email], if it has one, is a string.  Otherwise it raises the
    [AttributeError] of the first lead that is not: of [get] on a lead
    that is no mapping, of [lower] on an email that is no string, as the
    [null] of a response is. *)
Theorem deduplication_raises_on_malformed_lead (leads : list json) :
  ((exists unique, dedup leads = inl unique)
   <-> forallb Agents.ProspectSearchAgent.has_text_email leads = true)
  /\ (forall x, dedup leads = inr x ->
      exists before lead after,
        leads = before ++ lead :: after
        /\ forallb Agents.ProspectSearchAgent.has_text_email before = true
        /\ Agents.ProspectSearchAgent.has_text_email lead = false
        /\ email_of lead = inr x
        /\ (x = Py.AttributeError (Py.type_name lead) "get"
            \/ exists v, Py.get lead "email" (JStr "") = inl v
                         /\ x = Py.AttributeError (Py.type_name v) "lower")).
Proof.
  unfold Agents.ProspectSearchAgent._deduplicate_leads.
  assert (G : forall leads state,
             match Py.for_each leads keep_new state with
             | inl _ => forallb Agents.ProspectSearchAgent.has_text_email leads = true
             | inr x =>
                 exists before lead after,
                   leads = before ++ lead :: after
                   /\ forallb Agents.ProspectSearchAgent.has_text_email before = true
                   /\ Agents.ProspectSearchAgent.has_text_email lead = false
                   /\ email_of lead = inr x
             end).
  { clear. induction leads as [|lead leads IH]; intros [seen acc]; [reflexivity|].
    cbn [Py.for_each forallb]. pose proof (keep_new_cases seen acc lead) as C.
    destruct (email_of lead) as [e|x] eqn:El; rewrite C.
    - assert (T : Agents.ProspectSearchAgent.has_text_email lead = true)
        by (apply email_of_returns; eauto).
      match goal with |- match Py.for_each _ _ ?s with _ => _ end => specialize (IH s) end.
      destruct (Py.for_each leads keep_new _) as [s'|x].
      + now rewrite T, IH.
      + destruct IH as (before & l0 & after & -> & Fb & Fl & El0).
        exists (lead :: before), l0, after. cbn [forallb app]. now rewrite T, Fb.
    - exists [], lead, leads. repeat split; auto.
      destruct (Agents.ProspectSearchAgent.has_text_email lead) eqn:T; [|reflexivity].
      apply email_of_returns in T. destruct T as (e & T). congruence. }
  specialize (G leads ([], [])).
  destruct (Py.for_each leads keep_new ([], [])) as [s|x]; cbn [Py.bind].
  - split; [split; eauto | discriminate].
  - destruct G as (before & lead & after & -> & Fb & Fl & El). split.
    + split; [intros (u & H); discriminate H|].
      rewrite List.forallb_app. cbn [forallb]. rewrite Fl, andb_false_r. discriminate.
    + intros x0 H. inversion H; subst x0. exists before, lead, after.
      repeat split; auto.
      apply (email_of_raises _ _ El).
Qed.

End Dedup.

(** ** [ProspectSearchAgent]: the mock leads *)

Lemma lower_app a b : PyStr.lower (a ++ b) = (PyStr.lower a ++ PyStr.lower b)%string.
Proof. induction a as [|c a IH]; [reflexivity|]. cbn. now rewrite IH. Qed.

Lemma uint_digits d :
  free_of "@" (NilEmpty.string_of_uint d) = true
  /\ PyStr.lower (NilEmpty.string_of_uint d) = NilEmpty.string_of_uint d.
Proof.
  induction d as [|d [F L]|d [F L]|d [F L]|d [F L]|d [F L]|d [F L]|d [F L]|d [F L]
                  |d [F L]|d [F L]];
    cbn [NilEmpty.string_of_uint free_of PyStr.lower]; [split; reflexivity|..];
    rewrite L; split; try reflexivity; exact F.
Qed.

Lemma str_nat_digits n :
  free_of "@" (Py.str_nat n) = true /\ PyStr.lower (Py.str_nat n) = Py.str_nat n.
Proof.
  unfold Py.str_nat, Json.string_of_Z.
  destruct (Z.of_nat n) as [|p|p] eqn:E; [split; reflexivity| |lia].
  cbn [Z.to_int NilZero.string_of_int]. unfold NilZero.string_of_uint.
  destruct (Pos.to_uint p); try (split; reflexivity); apply uint_digits.
Qed.

Lemma str_nat_inj n m : Py.str_nat n = Py.str_nat m -> n = m.
Proof.
  intros H. apply (f_equal Json.Z_of_string) in H.
  unfold Py.str_nat in H. rewrite !Z_of_string_of_Z in H. lia.
Qed.

Lemma free_split c a : forall a' r r',
  free_of c a = true -> free_of c a' = true ->
  (a ++ String c r)%string = (a' ++ String c r')%string -> a = a'.
Proof.
  induction a as [|x a IH]; intros [|x' a'] r r' F F' E; cbn in *.
  - reflexivity.
  - inversion E; subst. rewrite Ascii.eqb_refl in F'. discriminate.
  - inversion E; subst. rewrite Ascii.eqb_refl in F. discriminate.
  - inversion E; subst. f_equal.
    destruct (Ascii.eqb x' c); [discriminate|]. cbn in *. now apply (IH a' r r').
Qed.

Section MockLeads.

Local Abbreviation email_of := Agents.ProspectSearchAgent.email_of.
Local Abbreviation dedup := Agents.ProspectSearchAgent._deduplicate_leads.
Local Abbreviation email_among := Agents.ProspectSearchAgent.email_among.
Local Abbreviation mock_record := Agents.ProspectSearchAgent.mock_record.
Local Abbreviation signal_of := Agents.ProspectSearchAgent.signal_of.
Local Abbreviation generate := Agents.ProspectSearchAgent._generate_mock_leads.
Local Abbreviation mock_email i :=
  (PyStr.lower ("john.doe" ++ Py.str_nat (i + 1) ++ "@"
                ++ PyStr.replace " " ""
                     (PyStr.lower
                        (Agents.ProspectSearchAgent.cyclic
                           Agents.ProspectSearchAgent.companies i))
                ++ ".com")).

Lemma generate_cases source icp count :
  generate source icp count
  = match count with
    | O => inl []
    | S _ =>
        match signal_of icp with
        | inl signal => inl (map (fun i => mock_record source i signal) (seq 0 count))
        | inr e => inr e
        end
    end.
Proof.
  unfold Agents.ProspectSearchAgent._generate_mock_leads.
  assert (G : forall n start acc,
             Py.for_each (seq start n)
               (fun mock_leads i =>
                  Py.bind (Agents.ProspectSearchAgent.mock_lead source icp i)
                          (fun lead => inl (mock_leads ++ [lead])))
               acc
             = match n with
               | O => inl acc
               | S _ =>
                   match signal_of icp with
                   | inl signal =>
                       inl (acc ++ map (fun i => mock_record source i signal)
                                       (seq start n))
                   | inr e => inr e
                   end
               end).
  { induction n as [|n IH]; intros start acc; [reflexivity|].
    assert (ML : Agents.ProspectSearchAgent.mock_lead source icp start
                 = match signal_of icp with
                   | inl signal => inl (mock_record source start signal)
                   | inr e => inr e
                   end).
    { unfold Agents.ProspectSearchAgent.mock_lead. now destruct (signal_of icp). }
    cbn [seq Py.for_each]. rewrite ML.
    destruct (signal_of icp) as [signal|e] eqn:Sg; cbn [Py.bind]; [|reflexivity].
    rewrite IH; try rewrite Sg. destruct n as [|n]; [reflexivity|].
    cbn [map]. now rewrite <- List.app_assoc. }
  rewrite G. destruct count; [reflexivity|]. now destruct (signal_of icp).
Qed.

Lemma mock_email_of source i signal :
  email_of (mock_record source i signal) = inl (mock_email i).
Proof. reflexivity. Qed.

Lemma mock_email_inj i j : mock_email i = mock_email j -> i = j.
Proof.
  rewrite !lower_app. cbn [PyStr.lower append]. intros H.
  apply (f_equal (PyStr.drop 8)) in H. cbn [PyStr.drop] in H.
  destruct (str_nat_digits (i + 1)) as [Fi Li], (str_nat_digits (j + 1)) as [Fj Lj].
  rewrite Li, Lj in H.
  change (PyStr.lower_char "@") with "@"%char in H.
  apply free_split in H; [|exact Fi | exact Fj].
  apply str_nat_inj in H. lia.
Qed.

Lemma mock_emails_distinct l : NoDup l -> NoDup (map (fun i => mock_email i) l).
Proof.
  induction 1 as [|i l NI N IH]; cbn [map]; constructor; [|exact IH].
  rewrite in_map_iff. intros (j & E & I). apply mock_email_inj in E. now subst.
Qed.

Lemma mock_emails_not_empty l : ~ In ""%string (map (fun i => mock_email i) l).
Proof.
  rewrite in_map_iff. intros (j & E & _). rewrite lower_app in E. discriminate E.
Qed.

Lemma mock_keyed source signal l :
  Forall2 (fun lead e => email_of lead = inl e)
    (map (fun i => mock_record source i signal) l) (map (fun i => mock_email i) l).
Proof. induction l; cbn [map]; constructor; auto. Qed.

Lemma mock_dedup source signal l :
  NoDup l -> dedup (map (fun i => mock_record source i signal) l)
             = inl (map (fun i => mock_record source i signal) l).
Proof.
  intros N. apply (dedup_distinct _ (map (fun i => mock_email i) l)).
  - apply mock_keyed.
  - now apply mock_emails_distinct.
  - apply mock_emails_not_empty.
Qed.

Lemma mock_collide source other signal signal' l :
  NoDup l ->
  dedup (map (fun i => mock_record source i signal) l
         ++ map (fun i => mock_record other i signal') l)
  = inl (map (fun i => mock_record source i signal) l).
Proof.
  intros N. unfold Agents.ProspectSearchAgent._deduplicate_leads.
  rewrite for_each_app.
  rewrite (dedup_keeps _ (map (fun i => mock_email i) l) [] []
             (mock_keyed source signal l) (mock_emails_distinct l N)
             (mock_emails_not_empty l)).
  - cbn [Py.bind app].
    rewrite (dedup_skips _ (map (fun i => mock_email i) l) _ _ (mock_keyed other signal' l)).
    + reflexivity.
    + intros e I. apply List.in_or_app. left. now apply List.in_rev in I.
  - intros e _ F. destruct F.
Qed.

(** X16: when
    [_generate_mock_leads] returns, there are [count] leads and
    deduplication keeps them all; the mock leads of any other source, for
    the same profile and count, have the same emails, so that
    deduplicating the two lists together leaves the first alone. *)
Theorem mock_leads_collide_across_sources (source : string) (icp : json)
    (count : nat) (leads : list json) :
  generate source icp count = inl leads ->
  length leads = count
  /\ dedup leads = inl leads
  /\ forall other,
       exists leads',
         generate other icp count = inl leads'
         /\ length leads' = count
         /\ dedup (leads ++ leads') = inl leads.
Proof.
  rewrite generate_cases. intros H.
  destruct count as [|n].
  - inversion H; subst. repeat split.
    intros other. exists []. rewrite generate_cases. repeat split.
  - destruct (signal_of icp) as [signal|e] eqn:Sg; [|discriminate].
    assert (E : leads = map (fun i => mock_record source i signal) (seq 0 (S n)))
      by congruence.
    clear H. subst leads. split; [now rewrite length_map, length_seq|]. split.
    + apply mock_dedup, seq_NoDup.
    + intros other. exists (map (fun i => mock_record other i signal) (seq 0 (S n))).
      rewrite generate_cases, Sg. split; [reflexivity|].
      split; [now rewrite length_map, length_seq|].
      apply mock_collide, seq_NoDup.
Qed.

End MockLeads.

(** ** [ProspectSearchAgent]: the search *)

Section Search.

Variable apollo_attempt clay_attempt : option (list json).

Local Abbreviation email_of := Agents.ProspectSearchAgent.email_of.
Local Abbreviation dedup := Agents.ProspectSearchAgent._deduplicate_leads.
Local Abbreviation generate := Agents.ProspectSearchAgent._generate_mock_leads.
Local Abbreviation not_configured := Agents.ProspectSearchAgent.not_configured.
Local Abbreviation act :=
  (Agents.ProspectSearchAgent._act apollo_attempt clay_attempt).

Lemma getitem_truthy t key v : Py.getitem t key = inl v -> Py.truthy t = true.
Proof.
  destruct t as [| | | | | |d]; cbn; try discriminate.
  destruct d; [discriminate | reflexivity].
Qed.

(** X17: whatever the two services
    answer, a result of [_act] has the four keys [leads], [count],
    [sources] and [reasoning]; [count] is the number of leads, the emails
    of the leads are not empty and differ pairwise, and [sources] names
    both services, also when only one tool or none was given. *)
Theorem search_result_is_deduplicated (reasoning : string) (inputs : dict)
    (tools result : json) :
  act reasoning inputs tools = inl result ->
  exists leads emails,
    result = JDict [("leads"%string, JList leads);
                    ("count"%string, JNum (Z.of_nat (length leads)));
                    ("sources"%string, JList [JStr "Apollo"; JStr "Clay"]);
                    ("reasoning"%string, JStr reasoning)]
    /\ Forall2 (fun lead e => email_of lead = inl e) leads emails
    /\ NoDup emails
    /\ ~ In ""%string emails
    /\ dedup leads = inl leads.
Proof.
  unfold Agents.ProspectSearchAgent._act. intros H.
  destruct (Py.next_tool tools "ApolloAPI") as [ta|x]; cbn [Py.bind] in H; [|discriminate].
  destruct (Agents.ProspectSearchAgent.search_with ta _ _) as [la|x];
    cbn [Py.bind] in H; [|discriminate].
  destruct (Py.next_tool tools "ClayAPI") as [tc|x]; cbn [Py.bind] in H; [|discriminate].
  destruct (Agents.ProspectSearchAgent.search_with tc _ _) as [lc|x];
    cbn [Py.bind] in H; [|discriminate].
  destruct (dedup (la ++ lc)) as [unique|x] eqn:D; cbn [Py.bind] in H; [|discriminate].
  injection H as <-.
  apply dedup_returns in D. destruct D as (seen & L).
  destruct (dedup_loop _ [] [] seen unique [] L) as
    (new & emails & A & K & _ & N & E & _); auto using NoDup_nil.
  cbn [app] in *. subst new.
  exists unique, emails. repeat split; auto.
  apply (dedup_distinct _ _ K N E).
Qed.

(** X18: with both
    tools given and neither key configured (empty, missing, or starting
    with [MISSING]), [_act] returns the five mock leads of Apollo and
    nothing else, the five of Clay being dropped as duplicates; it raises
    what the mock leads raise, if they do. *)
Theorem unconfigured_search_returns_apollo_mock_leads (reasoning : string)
    (inputs : dict) (tools apollo clay apollo_config clay_config apollo_key clay_key : json) :
  Py.next_tool tools "ApolloAPI" = inl (Some apollo) ->
  Py.next_tool tools "ClayAPI" = inl (Some clay) ->
  Py.getitem apollo "config" = inl apollo_config ->
  Py.getitem clay "config" = inl clay_config ->
  Py.get apollo_config "api_key" (JStr "") = inl apollo_key ->
  Py.get clay_config "api_key" (JStr "") = inl clay_key ->
  not_configured apollo_key = inl true ->
  not_configured clay_key = inl true ->
  act reasoning inputs tools
  = Py.bind (generate "Apollo" (or_default (Dict.get inputs "icp") (JDict [])) 5)
      (fun leads =>
         inl (JDict [("leads"%string, JList leads);
                     ("count"%string, JNum 5);
                     ("sources"%string, JList [JStr "Apollo"; JStr "Clay"]);
                     ("reasoning"%string, JStr reasoning)])).
Proof.
  intros Ta Tc Ca Cc Ka Kc Na Nc.
  unfold Agents.ProspectSearchAgent._act. rewrite Ta, Tc. cbn [Py.bind].
  unfold Agents.ProspectSearchAgent.search_with.
  rewrite (getitem_truthy _ _ _ Ca), (getitem_truthy _ _ _ Cc), Ca, Cc. cbn [Py.bind].
  unfold Agents.ProspectSearchAgent._search_apollo,
    Agents.ProspectSearchAgent._search_clay.
  rewrite Ka, Kc. cbn [Py.bind]. rewrite Na, Nc. cbn [Py.bind].
  rewrite !generate_cases.
  destruct (Agents.ProspectSearchAgent.signal_of _) as [signal|x]; cbn [Py.bind];
    [|reflexivity].
  rewrite mock_collide by apply seq_NoDup. cbn [Py.bind].
  now rewrite length_map, length_seq.
Qed.

End Search.

(** ** [ProspectSearchAgent] on sample leads *)

Lemma deduplication_witness :
  Agents.ProspectSearchAgent._deduplicate_leads [Agents.Sample.ada; Agents.Sample.bob]
  = inl [Agents.Sample.ada; Agents.Sample.bob].
Proof.
  exact (proj2 (proj2 (proj2
           (deduplication_keeps_one_lead_per_email
              [Agents.Sample.ada; Agents.Sample.nameless; Agents.Sample.ada_again;
               Agents.Sample.bob]
              [Agents.Sample.ada; Agents.Sample.bob] eq_refl)))).
Defined.

Lemma deduplication_sources_witness :
  Agents.ProspectSearchAgent._deduplicate_leads
    ([Agents.Sample.ada] ++ [Agents.Sample.ada_again; Agents.Sample.bob])
  = inl [Agents.Sample.ada; Agents.Sample.bob].
Proof.
  exact (deduplication_first_source_wins
           [Agents.Sample.ada] [Agents.Sample.ada_again; Agents.Sample.bob]
           [Agents.Sample.ada] [Agents.Sample.ada_again; Agents.Sample.bob]
           eq_refl eq_refl).
Defined.

Lemma mock_leads_witness :
  exists leads,
    Agents.ProspectSearchAgent._generate_mock_leads "Apollo" (JDict []) 5 = inl leads
    /\ length leads = 5.
Proof.
  eexists. split; [reflexivity|].
  exact (proj1 (mock_leads_collide_across_sources "Apollo"%string (JDict []) 5 _ eq_refl)).
Defined.

Lemma search_result_witness :
  exists leads emails,
    Forall2 (fun lead e => Agents.ProspectSearchAgent.email_of lead = inl e) leads emails
    /\ NoDup emails.
Proof.
  destruct (search_result_is_deduplicated (Some [Agents.Sample.ada; Agents.Sample.ada_again])
              None "r"%string [] (JList [JDict [("name"%string, JStr "ApolloAPI");
                                               ("config"%string,
                                                JDict [("api_key"%string, JStr "k")])]])
              _ eq_refl) as (leads & emails & _ & K & N & _).
  exists leads, emails. split; assumption.
Defined.

Lemma unconfigured_search_witness :
  exists leads,
    Agents.ProspectSearchAgent._act (Some []) None "r" [] Agents.Sample.unconfigured_tools
    = inl (JDict [("leads"%string, JList leads);
                  ("count"%string, JNum 5);
                  ("sources"%string, JList [JStr "Apollo"; JStr "Clay"]);
                  ("reasoning"%string, JStr "r")]).
Proof.
  eexists.
  refine (eq_trans
            (unconfigured_search_returns_apollo_mock_leads (Some []) None "r"%string []
               Agents.Sample.unconfigured_tools _ _ _ _ _ _
               eq_refl eq_refl eq_refl eq_refl eq_refl eq_refl eq_refl eq_refl) _).
  reflexivity.
Defined.

Lemma deduplication_null_email_witness :
  exists before lead after,
    [Agents.Sample.ada; JDict [("email"%string, JNull)]; Agents.Sample.bob]
    = before ++ lead :: after
    /\ Agents.ProspectSearchAgent.has_text_email lead = false
    /\ Agents.ProspectSearchAgent.email_of lead
       = inr (Py.AttributeError "NoneType" "lower").
Proof.
  destruct (proj2 (deduplication_raises_on_malformed_lead
                     [Agents.Sample.ada; JDict [("email"%string, JNull)];
                      Agents.Sample.bob])
              (Py.AttributeError "NoneType" "lower") eq_refl)
    as (before & lead & after & E & _ & T & R & _).
  exists before, lead, after. auto.
Defined.

(** ** [DataEnrichmentAgent] *)

Lemma contains_iff s sub :
  Py.contains s sub = true <-> exists a b, s = (a ++ sub ++ b)%string.
Proof.
  split.
  - induction s as [|c s IH]; cbn [Py.contains]; intros H.
    + rewrite orb_false_r in H. apply startswith_split in H.
      exists ""%string. eexists. exact H.
    + apply orb_prop in H. destruct H as [H|H].
      * apply startswith_split in H. exists ""%string. eexists. exact H.
      * destruct (IH H) as (a & b & ->). exists (String c a), b. reflexivity.
  - intros (a & b & ->). induction a as [|c a IH]; cbn [append].
    + destruct (sub ++ b)%string eqn:E; cbn [Py.contains];
        rewrite <- E, startswith_app; reflexivity.
    + cbn [Py.contains]. now rewrite IH, orb_true_r.
Qed.

Lemma lower_char_idempotent c :
  PyStr.lower_char (PyStr.lower_char c) = PyStr.lower_char c.
Proof. destruct c as [[] [] [] [] [] [] [] []]; reflexivity. Qed.

Lemma lower_idempotent s : PyStr.lower (PyStr.lower s) = PyStr.lower s.
Proof.
  induction s as [|c s IH]; [reflexivity|].
  cbn [PyStr.lower]. now rewrite lower_char_idempotent, IH.
Qed.

Section Seniority.

Local Abbreviation seniority := Agents.DataEnrichmentAgent._determine_seniority.
Local Abbreviation any_in := Agents.DataEnrichmentAgent.any_in.

Lemma any_in_iff s words :
  any_in s words = true
  <-> exists word a b, In word words /\ s = (a ++ word ++ b)%string.
Proof.
  unfold Agents.DataEnrichmentAgent.any_in. rewrite existsb_exists. split.
  - intros (w & I & C). apply contains_iff in C. destruct C as (a & b & E). eauto.
  - intros (w & a & b & I & E). exists w. split; [exact I|].
    apply contains_iff. eauto.
Qed.

Lemma any_in_around s words a b :
  any_in (PyStr.lower s) words = true ->
  any_in (PyStr.lower (a ++ s ++ b)) words = true.
Proof.
  rewrite !any_in_iff. intros (w & x & y & I & E).
  exists w, (PyStr.lower a ++ x)%string, (y ++ PyStr.lower b)%string.
  split; [exact I|]. rewrite !lower_app, E, !str_app_assoc. reflexivity.
Qed.

(** X19: the seniority of a
    title that is a string is decided by what its lower-cased text
    holds, anywhere, also inside a word: [Executive] exactly when it
    holds [vp], [chief], [head] or [director]; [Manager] exactly when it
    holds none of these but [manager] or [lead]; [Individual
    Contributor] otherwise.  Letter case does not matter, and text put
    around the title of an executive leaves an executive. *)
Theorem seniority_is_decided_by_substrings (title : string) :
  let has words :=
    exists word a b, In word words /\ PyStr.lower title = (a ++ word ++ b)%string in
  exists level,
    seniority (JStr title) = inl level
    /\ (level = "Executive"%string <-> has ["vp"; "chief"; "head"; "director"]%string)
    /\ (level = "Manager"%string
        <-> ~ has ["vp"; "chief"; "head"; "director"]%string
            /\ has ["manager"; "lead"]%string)
    /\ (level = "Individual Contributor"%string
        <-> ~ has ["vp"; "chief"; "head"; "director"]%string
            /\ ~ has ["manager"; "lead"]%string)
    /\ seniority (JStr (PyStr.lower title)) = inl level
    /\ (level = "Executive"%string ->
        forall a b, seniority (JStr (a ++ title ++ b)) = inl "Executive"%string).
Proof.
  intros has. unfold Agents.DataEnrichmentAgent._determine_seniority.
  cbn [Py.lower Py.bind]. rewrite lower_idempotent.
  pose proof (any_in_iff (PyStr.lower title) ["vp"; "chief"; "head"; "director"]%string) as E.
  pose proof (any_in_iff (PyStr.lower title) ["manager"; "lead"]%string) as M.
  fold (has ["vp"; "chief"; "head"; "director"]%string) in E.
  fold (has ["manager"; "lead"]%string) in M.
  destruct (any_in (PyStr.lower title) ["vp"; "chief"; "head"; "director"]%string) eqn:X.
  - exists "Executive"%string. split; [reflexivity|].
    assert (H : has ["vp"; "chief"; "head"; "director"]%string) by now apply E.
    repeat split; try tauto; try discriminate.
    intros _ a b. now rewrite (any_in_around title _ a b X).
  - assert (H : ~ has ["vp"; "chief"; "head"; "director"]%string).
    { intros H. apply E in H. discriminate. }
    destruct (any_in (PyStr.lower title) ["manager"; "lead"]%string) eqn:Y.
    + exists "Manager"%string. split; [reflexivity|].
      assert (H' : has ["manager"; "lead"]%string) by now apply M.
      repeat split; try tauto; try discriminate.
    + exists "Individual Contributor"%string. split; [reflexivity|].
      assert (H' : ~ has ["manager"; "lead"]%string).
      { intros H'. apply M in H'. discriminate. }
      repeat split; try tauto; try discriminate.
Qed.

End Seniority.

Section Enrichment.

Variable builtwith_attempt : nat -> option (list json).

Local Abbreviation seniority := Agents.DataEnrichmentAgent._determine_seniority.
Local Abbreviation update := Agents.DataEnrichmentAgent.update.
Local Abbreviation mock_enrichment := Agents.DataEnrichmentAgent.mock_enrichment.
Local Abbreviation with_builtwith :=
  (Agents.DataEnrichmentAgent.with_builtwith builtwith_attempt).
Local Abbreviation call_builtwith :=
  (Agents.DataEnrichmentAgent._call_builtwith builtwith_attempt).
Local Abbreviation enrich := (Agents.DataEnrichmentAgent._enrich_lead builtwith_attempt).
Local Abbreviation act := (Agents.DataEnrichmentAgent._act builtwith_attempt).

Lemma get_update_other (pairs : list (string * json)) : forall (d : dict) k,
  ~ In k (map fst pairs) -> Dict.get (update d pairs) k = Dict.get d k.
Proof.
  unfold Agents.DataEnrichmentAgent.update.
  induction pairs as [|[k0 v0] pairs IH]; intros d k N; [reflexivity|].
  cbn [fold_left fst snd]. rewrite IH.
  - apply get_set_other. intros ->. apply N. now left.
  - intros I. apply N. now right.
Qed.

Lemma keys_update (pairs : list (string * json)) : forall (d : dict) k,
  In k (Dict.keys d) -> In k (Dict.keys (update d pairs)).
Proof.
  unfold Agents.DataEnrichmentAgent.update.
  induction pairs as [|[k0 v0] pairs IH]; intros d k I; [exact I|].
  cbn [fold_left fst snd]. apply IH. rewrite keys_set.
  destruct (existsb _ _); [exact I | apply List.in_or_app; now left].
Qed.

Lemma call_builtwith_cases position company api_key data :
  call_builtwith position company api_key = inl data ->
  data = []
  \/ exists technologies,
       builtwith_attempt position = Some technologies
       /\ Py.has company "." = Ok true
       /\ data = [("technologies"%string, JList technologies);
                  ("builtwith_enriched"%string, JBool true)].
Proof.
  unfold Agents.DataEnrichmentAgent._call_builtwith.
  destruct (Py.truthy company); cbn [negb]; [|intros H; injection H as <-; now left].
  destruct (Py.has company ".") as [[|]|e]; cbn [Py.of_result Py.bind negb];
    [|intros H; injection H as <-; now left | discriminate].
  destruct (builtwith_attempt position) as [t|]; intros H; injection H as <-;
    [right; eauto | now left].
Qed.

Lemma with_builtwith_cases position lead enriched tool d' :
  with_builtwith position lead enriched tool = inl d' ->
  d' = enriched
  \/ exists t company technologies,
       tool = Some t
       /\ Py.get lead "company" (JStr "") = inl company
       /\ Py.has company "." = Ok true
       /\ builtwith_attempt position = Some technologies
       /\ d' = update enriched [("technologies"%string, JList technologies);
                                ("builtwith_enriched"%string, JBool true)].
Proof.
  unfold Agents.DataEnrichmentAgent.with_builtwith.
  destruct (Agents.DataEnrichmentAgent.has_key tool) as [keyed|e]; cbn [Py.bind];
    [|discriminate].
  destruct tool as [t|]; [|intros H; injection H as <-; now left].
  destruct keyed; [|intros H; injection H as <-; now left].
  destruct (Py.getitem t "config") as [config|e]; cbn [Py.bind]; [|discriminate].
  destruct (Py.getitem config "api_key") as [api_key|e]; cbn [Py.bind]; [|discriminate].
  destruct (Py.startswith api_key "MISSING") as [[|]|e]; cbn [Py.bind];
    [intros H; injection H as <-; now left | | discriminate].
  destruct (Py.get lead "company" (JStr "")) as [company|e] eqn:C; cbn [Py.bind];
    [|discriminate].
  destruct (call_builtwith position company api_key) as [data|e] eqn:B; cbn [Py.bind];
    [|discriminate].
  destruct (call_builtwith_cases _ _ _ _ B) as [->|(technologies & A & D & ->)];
    intros H; injection H as <-; [now left|].
  right. exists t, company, technologies. auto.
Qed.

(** X20: when [_enrich_lead]
    returns, the lead was a mapping and its title, if any, a string; the
    enriched lead has every key of the lead, with the value the lead had
    under every key but the nine that enrichment writes; [role] is the
    title ([Unknown] without one), [seniority] the seniority of the
    title, [department] is [Sales], whatever the lead held there. *)
Theorem enrichment_keeps_the_other_fields (position : nat) (lead : json)
    (builtwith_tool : option json) (enriched_lead : json) :
  enrich position lead builtwith_tool = inl enriched_lead ->
  exists d d' level,
    lead = JDict d
    /\ enriched_lead = JDict d'
    /\ seniority (or_default (Dict.get d "title") (JStr "")) = inl level
    /\ Dict.get d' "role" = Some (or_default (Dict.get d "title") (JStr "Unknown"))
    /\ Dict.get d' "seniority" = Some (JStr level)
    /\ Dict.get d' "department" = Some (JStr "Sales")
    /\ (forall k,
          ~ In k ["role"; "seniority"; "department"; "technologies"; "company_size";
                  "company_industry"; "funding_stage"; "enrichment_confidence";
                  "builtwith_enriched"]%string ->
          Dict.get d' k = Dict.get d k)
    /\ (forall k, In k (Dict.keys d) -> In k (Dict.keys d')).
Proof.
  unfold Agents.DataEnrichmentAgent._enrich_lead.
  destruct lead as [| | | | | |d]; cbn [Agents.DataEnrichmentAgent.copy Py.bind Py.type_name];
    try discriminate.
  cbn [Py.get Py.bind].
  destruct (seniority (or_default (Dict.get d "title") (JStr ""))) as [level|e] eqn:S;
    cbn [Py.bind]; [|discriminate].
  destruct (with_builtwith position (JDict d)
              (update d (mock_enrichment (or_default (Dict.get d "title") (JStr "Unknown"))
                           level)) builtwith_tool) as [d'|e] eqn:W;
    cbn [Py.bind]; [|discriminate].
  intros H. injection H as <-. exists d, d', level.
  split; [reflexivity|]. split; [reflexivity|]. split; [exact S|].
  assert (M : forall k v,
             In (k, v) (mock_enrichment (or_default (Dict.get d "title") (JStr "Unknown"))
                          level) ->
             k <> "technologies"%string ->
             Dict.get (update d (mock_enrichment
                                   (or_default (Dict.get d "title") (JStr "Unknown")) level))
                      k = Some v).
  { intros k v I _. unfold Agents.DataEnrichmentAgent.update,
      Agents.DataEnrichmentAgent.mock_enrichment in *. cbn [fold_left fst snd].
    cbn [In] in I.
    repeat (destruct I as [I|I];
            [injection I as <- <-;
             repeat (rewrite get_set_other by discriminate); apply get_set_same|]).
    destruct I. }
  assert (G : forall k v,
             In (k, v) (mock_enrichment (or_default (Dict.get d "title") (JStr "Unknown"))
                          level) ->
             k <> "technologies"%string -> Dict.get d' k = Some v).
  { intros k v I N.
    destruct (with_builtwith_cases _ _ _ _ _ W) as [->|(t & c & techs & _ & _ & _ & _ & ->)].
    - now apply M.
    - rewrite get_update_other; [now apply M|].
      cbn [map fst In]. intros [E|[E|[]]]; subst k; [now apply N|].
      cbn [In] in I. repeat (destruct I as [I|I]; [discriminate I|]). destruct I. }
  split; [apply G; [now left | discriminate]|].
  split; [apply G; [right; now left | discriminate]|].
  split; [apply G; [right; right; now left | discriminate]|].
  split.
  - intros k N.
    assert (E : Dict.get (update d (mock_enrichment
                                      (or_default (Dict.get d "title") (JStr "Unknown"))
                                      level)) k = Dict.get d k).
    { apply get_update_other. cbn [map fst Agents.DataEnrichmentAgent.mock_enrichment].
      intros I. apply N. cbn [In] in *. tauto. }
    destruct (with_builtwith_cases _ _ _ _ _ W) as [->|(t & c & techs & _ & _ & _ & _ & ->)];
      [exact E|].
    rewrite get_update_other; [exact E|].
    cbn [map fst]. intros I. apply N. cbn [In] in *. tauto.
  - intros k I.
    destruct (with_builtwith_cases _ _ _ _ _ W) as [->|(t & c & techs & _ & _ & _ & _ & ->)];
      repeat apply keys_update; exact I.
Qed.

Lemma enrich_loop tool items : forall p acc p' acc',
  Py.for_each items
    (fun state lead =>
       let (position, enriched_leads) := state : nat * list json in
       Py.bind (enrich position lead tool)
         (fun enriched_lead => inl (S position, enriched_leads ++ [enriched_lead])))
    (p, acc) = inl (p', acc') ->
  exists new,
    acc' = acc ++ new
    /\ length new = length items
    /\ forall i lead, nth_error items i = Some lead ->
         exists e, nth_error new i = Some e /\ enrich (p + i) lead tool = inl e.
Proof.
  induction items as [|lead items IH]; intros p acc p' acc' H.
  - cbn in H. injection H as <- <-. exists []. rewrite List.app_nil_r.
    repeat split. intros [|i] l E; discriminate E.
  - cbn [Py.for_each] in H.
    destruct (enrich p lead tool) as [e|x] eqn:E; cbn [Py.bind] in H; [|discriminate].
    destruct (IH _ _ _ _ H) as (new & -> & L & N).
    exists (e :: new). rewrite <- List.app_assoc. split; [reflexivity|].
    split; [cbn [length]; now rewrite L|].
    intros [|i] l I; cbn [nth_error] in *.
    + injection I as <-. exists e. now rewrite Nat.add_0_r.
    + destruct (N i l I) as (e' & Ne & Ee). exists e'.
      now rewrite <- Nat.add_succ_comm.
Qed.

(** X21: a result of [_act] has as many
    enriched leads as there are leads, in their order: the one at a
    position is what [_enrich_lead] returns for the lead at that
    position; [count] is their number.  So one lead that cannot be
    enriched leaves no result at all. *)
Theorem enrichment_is_one_to_one (reasoning : string) (inputs : dict)
    (tools result : json) :
  act reasoning inputs tools = inl result ->
  exists items tool enriched,
    Py.iter (or_default (Dict.get inputs "leads") (JList [])) = inl items
    /\ Py.next_tool tools "BuiltWithTool" = inl tool
    /\ result = JDict [("enriched_leads"%string, JList enriched);
                       ("count"%string, JNum (Z.of_nat (length items)));
                       ("reasoning"%string, JStr reasoning)]
    /\ length enriched = length items
    /\ forall i lead, nth_error items i = Some lead ->
         exists e, nth_error enriched i = Some e /\ enrich i lead tool = inl e.
Proof.
  unfold Agents.DataEnrichmentAgent._act. intros H.
  destruct (Py.len _) as [n|x]; cbn [Py.bind] in H; [|discriminate].
  destruct (Py.next_tool tools "BuiltWithTool") as [tool|x]; cbn [Py.bind] in H;
    [|discriminate].
  destruct (Py.iter _) as [items|x]; cbn [Py.bind] in H; [|discriminate].
  destruct (Py.for_each items _ (0, [])) as [[p enriched]|x] eqn:L; cbn [Py.bind] in H;
    [|discriminate].
  injection H as <-. apply enrich_loop in L. destruct L as (new & -> & Len & N).
  cbn [app snd]. exists items, tool, new. rewrite Len. repeat split; auto.
Qed.

Lemma company_has_no_dot j :
  exists company,
    Agents.ProspectSearchAgent.cyclic Agents.ProspectSearchAgent.companies j = company
    /\ Py.has (JStr company) "." = Ok false.
Proof.
  unfold Agents.ProspectSearchAgent.cyclic.
  change (length Agents.ProspectSearchAgent.companies) with 10.
  pose proof (Nat.mod_upper_bound j 10) as B.
  destruct (j mod 10) as [|[|[|[|[|[|[|[|[|[|n]]]]]]]]]];
    try (eexists; split; reflexivity). lia.
Qed.

(** X22: a mock lead of
    [ProspectSearchAgent] is enriched without BuiltWith, whatever tool
    and key are given and whatever the service would answer: its company
    name holds no dot, so [_call_builtwith] returns before the request.
    The technologies stay the three mock ones. *)
Theorem mock_leads_never_reach_builtwith (position : nat) (source : string) (j : nat)
    (signal : json) (builtwith_tool : option json) (enriched_lead : json) :
  enrich position (Agents.ProspectSearchAgent.mock_record source j signal) builtwith_tool
  = inl enriched_lead ->
  enrich position (Agents.ProspectSearchAgent.mock_record source j signal) None
  = inl enriched_lead
  /\ Py.get enriched_lead "technologies" JNull
     = inl (JList [JStr "Salesforce"; JStr "HubSpot"; JStr "Outreach"])
  /\ Py.get enriched_lead "builtwith_enriched" JNull = inl JNull.
Proof.
  unfold Agents.DataEnrichmentAgent._enrich_lead, Agents.ProspectSearchAgent.mock_record.
  cbn [Agents.DataEnrichmentAgent.copy Py.bind Py.type_name].
  set (d := [("company"%string, _); _; _; _; _; _; _]).
  change (Py.get (JDict d) "title" (JStr "Unknown"))
    with (@inl json Py.raised
            (JStr (Agents.ProspectSearchAgent.cyclic Agents.ProspectSearchAgent.titles j))).
  change (Py.get (JDict d) "title" (JStr ""))
    with (@inl json Py.raised
            (JStr (Agents.ProspectSearchAgent.cyclic Agents.ProspectSearchAgent.titles j))).
  cbn [Py.bind].
  destruct (seniority _) as [level|x]; cbn [Py.bind]; [|discriminate].
  set (enriched := update d _).
  destruct (with_builtwith position (JDict d) enriched builtwith_tool) as [d'|x] eqn:W;
    cbn [Py.bind]; [|discriminate].
  intros H. injection H as <-.
  assert (E : d' = enriched).
  { destruct (with_builtwith_cases _ _ _ _ _ W) as [->|(t & c & techs & _ & C & D & _)];
      [reflexivity|].
    exfalso. destruct (company_has_no_dot j) as (company & Ec & Hc).
    change (Py.get (JDict d) "company" (JStr ""))
      with (@inl json Py.raised
              (JStr (Agents.ProspectSearchAgent.cyclic
                       Agents.ProspectSearchAgent.companies j))) in C.
    injection C as <-. rewrite Ec in D. congruence. }
  subst d'. split; [reflexivity|]. split; reflexivity.
Qed.

End Enrichment.

(** ** [DataEnrichmentAgent] on sample leads *)

Lemma enrichment_fields_witness :
  exists d',
    Agents.DataEnrichmentAgent._enrich_lead (fun _ => None) 0
      (JDict [("title"%string, JStr "VP Sales"); ("role"%string, JStr "old")]) None
    = inl (JDict d')
    /\ Dict.get d' "role" = Some (JStr "VP Sales").
Proof.
  destruct (enrichment_keeps_the_other_fields (fun _ => None) 0
              (JDict [("title"%string, JStr "VP Sales"); ("role"%string, JStr "old")])
              None _ eq_refl)
    as (d & d' & level & E & E' & _ & R & _).
  injection E as <-. exists d'. split; [now rewrite <- E' | exact R].
Defined.

Lemma enrichment_count_witness :
  exists enriched,
    Agents.DataEnrichmentAgent._act (fun _ => None) "r"
      [("leads"%string, JList [Agents.Sample.ada; Agents.Sample.bob])] (JList [])
    = inl (JDict [("enriched_leads"%string, JList enriched);
                  ("count"%string, JNum 2);
                  ("reasoning"%string, JStr "r")])
    /\ length enriched = 2.
Proof.
  destruct (enrichment_is_one_to_one (fun _ => None) "r"%string
              [("leads"%string, JList [Agents.Sample.ada; Agents.Sample.bob])]
              (JList []) _ eq_refl)
    as (items & tool & enriched & I & _ & R & L & _).
  injection I as <-. exists enriched. split; [|exact L].
  injection R as <-. reflexivity.
Defined.

Lemma mock_lead_enrichment_witness :
  Agents.DataEnrichmentAgent._enrich_lead (fun _ => Some [JStr "React"]) 0
    (Agents.ProspectSearchAgent.mock_record "Apollo" 0 (JStr "s")) None
  = Agents.DataEnrichmentAgent._enrich_lead (fun _ => Some [JStr "React"]) 0
      (Agents.ProspectSearchAgent.mock_record "Apollo" 0 (JStr "s"))
      (Some (JDict [("name"%string, JStr "BuiltWithTool");
                    ("config"%string, JDict [("api_key"%string, JStr "k")])])).
Proof.
  exact (proj1 (mock_leads_never_reach_builtwith (fun _ => Some [JStr "React"]) 0
                  "Apollo"%string 0 (JStr "s"%string)
                  (Some (JDict [("name"%string, JStr "BuiltWithTool");
                                ("config"%string, JDict [("api_key"%string, JStr "k")])]))
                  _ eq_refl)).
Defined.

Lemma seniority_witness :
  Agents.DataEnrichmentAgent._determine_seniority (JStr "Former Headhunter (retired)")
  = inl "Executive"%string.
Proof.
  destruct (seniority_is_decided_by_substrings "Head"%string)
    as (level & S & _ & _ & _ & _ & M).
  vm_compute in S. injection S as <-.
  exact (M eq_refl "Former "%string "hunter (retired)"%string).
Defined.

(** ** Loops that count *)

Section IndexedLoop.

Context {X Y : Type}.
Variable f : nat -> X -> Y + Py.raised.
Variable body : nat * list Y -> X -> (nat * list Y) + Py.raised.
Hypothesis body_is :
  forall p acc x, body (p, acc) x = Py.bind (f p x) (fun y => inl (S p, acc ++ [y])).

Lemma indexed_loop_returns items : forall p acc p' acc',
  Py.for_each items body (p, acc) = inl (p', acc') ->
  exists new,
    acc' = acc ++ new
    /\ length new = length items
    /\ forall i x, nth_error items i = Some x ->
         exists y, nth_error new i = Some y /\ f (p + i) x = inl y.
Proof.
  induction items as [|x items IH]; intros p acc p' acc' H.
  - cbn in H. injection H as <- <-. exists []. rewrite List.app_nil_r.
    repeat split. intros [|i] l E; discriminate E.
  - cbn [Py.for_each] in H. rewrite body_is in H.
    destruct (f p x) as [y|e] eqn:E; cbn [Py.bind] in H; [|discriminate].
    destruct (IH _ _ _ _ H) as (new & -> & L & N).
    exists (y :: new). rewrite <- List.app_assoc. split; [reflexivity|].
    split; [cbn [length]; now rewrite L|].
    intros [|i] l I; cbn [nth_error] in *.
    + injection I as <-. exists y. now rewrite Nat.add_0_r.
    + destruct (N i l I) as (y' & Ny & Ey). exists y'.
      now rewrite <- Nat.add_succ_comm.
Qed.

Lemma indexed_loop_raises items : forall p acc e,
  Py.for_each items body (p, acc) = inr e ->
  exists i x, nth_error items i = Some x /\ f (p + i) x = inr e.
Proof.
  induction items as [|x items IH]; intros p acc e H; [discriminate|].
  cbn [Py.for_each] in H. rewrite body_is in H.
  destruct (f p x) as [y|e'] eqn:E; cbn [Py.bind] in H.
  - destruct (IH _ _ _ H) as (i & x' & N & F). exists (S i), x'.
    split; [exact N|]. now rewrite <- Nat.add_succ_comm.
  - injection H as <-. exists 0, x. now rewrite Nat.add_0_r.
Qed.

Lemma indexed_loop_total items : forall p acc,
  (forall i x, nth_error items i = Some x -> exists y, f (p + i) x = inl y) ->
  exists state, Py.for_each items body (p, acc) = inl state.
Proof.
  intros p acc T. destruct (Py.for_each items body (p, acc)) as [state|e] eqn:H; [eauto|].
  destruct (indexed_loop_raises _ _ _ _ H) as (i & x & N & F).
  destruct (T i x N) as (y & E). congruence.
Qed.

End IndexedLoop.

(** ** [OutreachContentAgent] *)

Section Outreach.

Variable reply : nat -> option string.
Variable py_str : json -> string.

Local Abbreviation top := Agents.OutreachContentAgent.top.
Local Abbreviation top_grade := Agents.OutreachContentAgent.top_grade.
Local Abbreviation parsed_reply := (Agents.OutreachContentAgent.parsed_reply reply).
Local Abbreviation fallback := (Agents.OutreachContentAgent.fallback py_str).
Local Abbreviation generate :=
  (Agents.OutreachContentAgent._generate_message reply py_str).
Local Abbreviation entry := Agents.OutreachContentAgent.entry.
Local Abbreviation act := (Agents.OutreachContentAgent._act reply py_str).

Lemma top_returns items top_leads :
  top items = inl top_leads ->
  map JDict top_leads
  = filter (fun v => match v with
                     | JDict l => top_grade l
                     | _ => false
                     end) items
  /\ Forall (fun l => top_grade l = true) top_leads.
Proof.
  revert top_leads. induction items as [|v items IH]; intros top_leads H.
  - injection H as <-. split; [reflexivity | constructor].
  - destruct v as [| | | | | |l]; try discriminate H.
    cbn [Agents.OutreachContentAgent.top] in H.
    destruct (top items) as [kept|e]; cbn [Py.bind] in H; [|discriminate].
    injection H as <-. destruct (IH kept eq_refl) as [M F]. cbn [filter].
    destruct (top_grade l) eqn:G; [|auto].
    cbn [map]. rewrite M. split; [reflexivity | now constructor].
Qed.

Lemma top_raises items e :
  top items = inr e ->
  exists v, In v items /\ e = Py.AttributeError (Py.type_name v) "get"
            /\ forall l, v <> JDict l.
Proof.
  induction items as [|v items IH]; intros H; [discriminate|].
  destruct v as [| | | | | |l];
    try (injection H as <-; eexists; split; [now left|]; split; [reflexivity|];
         intros l; discriminate).
  cbn [Agents.OutreachContentAgent.top] in H.
  destruct (top items) as [kept|e']; cbn [Py.bind] in H; [discriminate|].
  injection H as <-. destruct (IH eq_refl) as (v & I & E & N).
  exists v. split; [now right | auto].
Qed.

Lemma entry_fields lead message m :
  entry lead message = inl m ->
  Py.get m "email" JNull = inl (or_default (Dict.get lead "email") (JStr ""))
  /\ Py.get m "company" JNull = inl (or_default (Dict.get lead "company") (JStr ""))
  /\ Py.get m "grade" JNull = inl (or_default (Dict.get lead "grade") (JStr "N/A"))
  /\ Py.getitem message "subject" = Py.get m "subject" JNull
  /\ Py.getitem message "body" = Py.get m "email_body" JNull.
Proof.
  unfold Agents.OutreachContentAgent.entry.
  destruct (Py.getitem message "subject") as [s|e]; cbn [Py.bind]; [|discriminate].
  destruct (Py.getitem message "body") as [b|e]; cbn [Py.bind]; [|discriminate].
  intros H. injection H as <-. repeat split.
Qed.

Lemma top_grade_cases l :
  top_grade l = true ->
  Dict.get l "grade" = Some (JStr "A") \/ Dict.get l "grade" = Some (JStr "B").
Proof.
  unfold Agents.OutreachContentAgent.top_grade.
  destruct (Dict.get l "grade") as [[| | | |s| |]|]; cbn; try discriminate.
  intros H. apply orb_prop in H. destruct H as [H|H]; apply String.eqb_eq in H; subst; auto.
Qed.

(** X23: a result
    of [_act] holds one message for each of the first twenty leads of
    grade [A] or [B], in the order of [ranked_leads], and none for any
    other lead; [count] is their number, at most twenty.  The message at
    a position carries the email and the grade of the lead at that
    position. *)
Theorem outreach_writes_to_the_first_twenty_top_leads (reasoning : string)
    (inputs : dict) (tools result : json) :
  act reasoning inputs tools = inl result ->
  exists items top_leads messages,
    Py.iter (or_default (Dict.get inputs "ranked_leads") (JList [])) = inl items
    /\ map JDict top_leads
       = filter (fun v => match v with
                          | JDict l => top_grade l
                          | _ => false
                          end) items
    /\ result = JDict [("messages"%string, JList messages);
                       ("count"%string, JNum (Z.of_nat (length messages)));
                       ("reasoning"%string, JStr reasoning)]
    /\ length messages = Nat.min 20 (length top_leads)
    /\ forall p lead, p < 20 -> nth_error top_leads p = Some lead ->
         exists m,
           nth_error messages p = Some m
           /\ entry lead (generate p lead) = inl m
           /\ Py.get m "email" JNull = inl (or_default (Dict.get lead "email") (JStr ""))
           /\ (Py.get m "grade" JNull = inl (JStr "A")
               \/ Py.get m "grade" JNull = inl (JStr "B")).
Proof.
  unfold Agents.OutreachContentAgent._act. intros H.
  destruct (Py.iter _) as [items|e]; cbn [Py.bind] in H; [|discriminate].
  destruct (top items) as [top_leads|e] eqn:T; cbn [Py.bind] in H; [|discriminate].
  destruct (Py.for_each _ _ (0, [])) as [[p' messages]|e] eqn:L; cbn [Py.bind] in H;
    [|discriminate].
  injection H as <-. cbn [snd].
  apply (indexed_loop_returns (fun p lead => entry lead (generate p lead))) in L;
    [|reflexivity].
  destruct L as (new & -> & Len & N). cbn [app] in *.
  destruct (top_returns _ _ T) as [M F].
  exists items, top_leads, new. split; [reflexivity|]. split; [exact M|].
  split; [reflexivity|]. split; [now rewrite Len, length_firstn|].
  intros p lead P I.
  assert (I' : nth_error (firstn 20 top_leads) p = Some lead).
  { rewrite nth_error_firstn. apply Nat.ltb_lt in P. now rewrite P. }
  destruct (N p lead I') as (m & Nm & E). exists m.
  split; [exact Nm|]. split; [exact E|].
  destruct (entry_fields _ _ _ E) as (Em & _ & Eg & _). split; [exact Em|].
  rewrite Eg. rewrite Forall_forall in F.
  destruct (top_grade_cases lead (F lead (nth_error_In _ _ I))) as [-> | ->]; auto.
Qed.

Lemma top_of_mappings leads :
  top (map JDict leads) = inl (filter top_grade leads).
Proof.
  induction leads as [|l leads IH]; [reflexivity|].
  cbn [map Agents.OutreachContentAgent.top filter]. rewrite IH. reflexivity.
Qed.

Lemma parsed_reply_some p lead message_data :
  parsed_reply p lead = Some message_data ->
  exists content,
    reply p = Some content
    /\ Py.contains content "{" && Py.contains content "}" = true
    /\ Json.loads (Agents.OutreachContentAgent.braced content) = Some message_data.
Proof.
  unfold Agents.OutreachContentAgent.parsed_reply.
  destruct (Agents.OutreachContentAgent.joinable _); [|discriminate].
  destruct (reply p) as [content|]; [|discriminate].
  destruct (Py.contains content "{" && Py.contains content "}") eqn:B; [|discriminate].
  intros H. exists content. auto.
Qed.

Lemma entry_fallback lead :
  entry lead (fallback lead)
  = inl (JDict [("lead"%string, or_default (Dict.get lead "contact_name") (JStr "Unknown"));
                ("email"%string, or_default (Dict.get lead "email") (JStr ""));
                ("company"%string, or_default (Dict.get lead "company") (JStr ""));
                ("subject"%string,
                 JStr ("Quick question about "
                       ++ Agents.OutreachContentAgent.field py_str lead "company"
                            "your company"
                       ++ "'s analytics"));
                ("email_body"%string,
                 or_default (Dict.get (match fallback lead with
                                       | JDict d => d
                                       | _ => []
                                       end) "body") JNull);
                ("score"%string, or_default (Dict.get lead "score") (JNum 0));
                ("grade"%string, or_default (Dict.get lead "grade") (JStr "N/A"))]).
Proof. reflexivity. Qed.

(** X24: when the
    model gives no usable reply (the call raises, the content has no
    pair of braces, or what is between them is no JSON), [_act] on a
    list of mappings still returns: each of the first twenty top leads
    gets the template, whose subject is [Quick question about
    <company>'s analytics]. *)
Theorem outreach_falls_back_when_no_reply_is_usable (reasoning : string)
    (inputs : dict) (tools : json) (leads : list dict) :
  (forall p content, p < 20 -> reply p = Some content ->
     Py.contains content "{" && Py.contains content "}" = false
     \/ Json.loads (Agents.OutreachContentAgent.braced content) = None) ->
  Py.iter (or_default (Dict.get inputs "ranked_leads") (JList [])) = inl (map JDict leads) ->
  exists messages,
    act reasoning inputs tools
    = inl (JDict [("messages"%string, JList messages);
                  ("count"%string, JNum (Z.of_nat (length messages)));
                  ("reasoning"%string, JStr reasoning)])
    /\ length messages = Nat.min 20 (length (filter top_grade leads))
    /\ forall p lead, nth_error (firstn 20 (filter top_grade leads)) p = Some lead ->
         exists m,
           nth_error messages p = Some m
           /\ entry lead (fallback lead) = inl m
           /\ Py.get m "subject" JNull
              = inl (JStr ("Quick question about "
                           ++ Agents.OutreachContentAgent.field py_str lead "company"
                                "your company"
                           ++ "'s analytics")).
Proof.
  intros U I. unfold Agents.OutreachContentAgent._act. rewrite I. cbn [Py.bind].
  rewrite top_of_mappings. cbn [Py.bind].
  assert (G : forall p lead, nth_error (firstn 20 (filter top_grade leads)) p = Some lead ->
                generate p lead = fallback lead).
  { intros p lead N.
    assert (P : p < 20).
    { apply (Nat.lt_le_trans _ (length (firstn 20 (filter top_grade leads)))).
      - apply nth_error_Some. congruence.
      - rewrite length_firstn. apply Nat.le_min_l. }
    unfold Agents.OutreachContentAgent._generate_message.
    destruct (parsed_reply p lead) as [m|] eqn:R; [|reflexivity].
    destruct (parsed_reply_some _ _ _ R) as (content & Rp & B & L).
    destruct (U p content P Rp) as [X|X]; congruence. }
  destruct (indexed_loop_total (fun p lead => entry lead (generate p lead))
              (fun state lead =>
                 let (position, messages) := state : nat * list json in
                 Py.bind (entry lead (generate position lead))
                   (fun m => inl (S position, messages ++ [m])))
              (fun _ _ _ => eq_refl)
              (firstn 20 (filter top_grade leads)) 0 []) as ([p' messages] & L).
  { intros i x N. cbn [Nat.add]. rewrite (G i x N), entry_fallback. eauto. }
  rewrite L. cbn [Py.bind snd]. exists messages. split; [reflexivity|].
  apply (indexed_loop_returns (fun p lead => entry lead (generate p lead))) in L;
    [|reflexivity].
  destruct L as (new & -> & Len & N). cbn [app] in *.
  split; [now rewrite Len, length_firstn|].
  intros p lead Np. destruct (N p lead Np) as (m & Nm & E).
  cbn [Nat.add] in E. rewrite (G p lead Np) in E. exists m. split; [exact Nm|]. split; [exact E|].
  rewrite entry_fallback in E. injection E as <-. reflexivity.
Qed.

(** X25: [_act]
    raises in three cases only: [ranked_leads] cannot be iterated; one of
    its items is no mapping; or, for one of the first twenty top leads,
    the model replied with JSON that decodes but from which [subject] or
    [body] cannot be read.  A reply that fails or does not decode never
    makes it raise. *)
Theorem outreach_raises_only_on_a_reply_without_fields (reasoning : string)
    (inputs : dict) (tools : json) (e : Py.raised) :
  act reasoning inputs tools = inr e ->
  Py.iter (or_default (Dict.get inputs "ranked_leads") (JList [])) = inr e
  \/ (exists items v,
        Py.iter (or_default (Dict.get inputs "ranked_leads") (JList [])) = inl items
        /\ In v items /\ (forall l, v <> JDict l)
        /\ e = Py.AttributeError (Py.type_name v) "get")
  \/ (exists items top_leads p lead content message_data,
        Py.iter (or_default (Dict.get inputs "ranked_leads") (JList [])) = inl items
        /\ top items = inl top_leads
        /\ p < 20
        /\ nth_error top_leads p = Some lead
        /\ reply p = Some content
        /\ Py.contains content "{" && Py.contains content "}" = true
        /\ Json.loads (Agents.OutreachContentAgent.braced content) = Some message_data
        /\ (Py.getitem message_data "subject" = inr e
            \/ Py.getitem message_data "body" = inr e)).
Proof.
  unfold Agents.OutreachContentAgent._act. intros H.
  destruct (Py.iter _) as [items|x]; cbn [Py.bind] in H; [|injection H as <-; now left].
  right.
  destruct (top items) as [top_leads|x] eqn:T; cbn [Py.bind] in H.
  - right.
    destruct (Py.for_each _ _ (0, [])) as [state|x] eqn:L; cbn [Py.bind] in H;
      [discriminate|].
    injection H as <-.
    apply (indexed_loop_raises (fun p lead => entry lead (generate p lead))) in L;
      [|reflexivity].
    destruct L as (p & lead & N & F). cbn [Nat.add] in F.
    assert (P : p < 20).
    { apply (Nat.lt_le_trans _ (length (firstn 20 top_leads))).
      - apply nth_error_Some. congruence.
      - rewrite length_firstn. apply Nat.le_min_l. }
    assert (N' : nth_error top_leads p = Some lead).
    { rewrite nth_error_firstn in N. apply Nat.ltb_lt in P. now rewrite P in N. }
    unfold Agents.OutreachContentAgent._generate_message in F.
    destruct (parsed_reply p lead) as [m|] eqn:R;
      [|rewrite entry_fallback in F; discriminate].
    destruct (parsed_reply_some _ _ _ R) as (content & Rp & B & Lo).
    exists items, top_leads, p, lead, content, m.
    repeat (split; [assumption || reflexivity|]).
    unfold Agents.OutreachContentAgent.entry in F.
    destruct (Py.getitem m "subject") as [sj|x1]; cbn [Py.bind] in F; [|now left].
    destruct (Py.getitem m "body") as [bd|x2]; cbn [Py.bind] in F; [discriminate|now right].
  - left. injection H as <-. destruct (top_raises _ _ T) as (v & I & E & N).
    exists items, v. auto.
Qed.

End Outreach.

(** ** [OutreachContentAgent] on sample leads *)

Lemma outreach_top_leads_witness :
  exists messages,
    Agents.OutreachContentAgent._act (fun _ => None) (fun _ => "?"%string) "r"
      [("ranked_leads"%string,
        JList [JDict [("grade"%string, JStr "C")];
               JDict [("grade"%string, JStr "A"); ("email"%string, JStr "a@x.io")]])]
      (JList [])
    = inl (JDict [("messages"%string, JList messages);
                  ("count"%string, JNum (Z.of_nat (length messages)));
                  ("reasoning"%string, JStr "r")])
    /\ length messages = 1.
Proof.
  destruct (outreach_writes_to_the_first_twenty_top_leads
              (fun _ => None) (fun _ => "?"%string) "r"%string
              [("ranked_leads"%string,
                JList [JDict [("grade"%string, JStr "C")];
                       JDict [("grade"%string, JStr "A");
                              ("email"%string, JStr "a@x.io")]])]
              (JList []) _ eq_refl)
    as (items & top_leads & messages & I & M & R & L & _).
  injection I as <-.
  destruct top_leads as [|l [|l' top_leads]]; try discriminate M.
  exists messages. split; [|exact L]. injection R as <-. reflexivity.
Defined.

Lemma outreach_fallback_witness :
  exists messages,
    Agents.OutreachContentAgent._act (fun _ => None) (fun _ => "?"%string) "r"
      [("ranked_leads"%string,
        JList [JDict [("grade"%string, JStr "B"); ("company"%string, JStr "Acme")]])]
      (JList [])
    = inl (JDict [("messages"%string, JList messages);
                  ("count"%string, JNum (Z.of_nat (length messages)));
                  ("reasoning"%string, JStr "r")])
    /\ length messages = 1.
Proof.
  destruct (outreach_falls_back_when_no_reply_is_usable
              (fun _ => None) (fun _ => "?"%string) "r"%string
              [("ranked_leads"%string,
                JList [JDict [("grade"%string, JStr "B");
                              ("company"%string, JStr "Acme")]])]
              (JList [])
              [[("grade"%string, JStr "B"); ("company"%string, JStr "Acme")]])
    as (messages & A & L & _).
  - intros p content _ H. discriminate H.
  - reflexivity.
  - exists messages. split; [exact A | exact L].
Defined.

Lemma outreach_reply_without_subject_witness :
  exists content message_data,
    Json.loads (Agents.OutreachContentAgent.braced content) = Some message_data
    /\ Py.getitem message_data "subject" = inr (Py.Engine (KeyError "subject")).
Proof.
  destruct (outreach_raises_only_on_a_reply_without_fields
              (fun _ => Some (Json.dumps (JDict [("title"%string, JStr "Hi")])))
              (fun _ => "?"%string) "r"%string
              [("ranked_leads"%string, JList [JDict [("grade"%string, JStr "A")]])]
              (JList []) (Py.Engine (KeyError "subject")))
    as [H|[(items & v & _ & _ & _ & H)|
           (items & top_leads & p & lead & content & m & _ & _ & _ & _ & R & _ & L & G)]].
  - vm_compute. reflexivity.
  - discriminate H.
  - discriminate H.
  - exists content, m. split; [exact L|].
    destruct G as [G|G]; [exact G|].
    injection R as <-. vm_compute in L. injection L as <-. discriminate G.
Defined.

(** ** [OutreachExecutorAgent] *)

Lemma len_iter v n :
  Py.len v = inl n -> exists items, Py.iter v = inl items /\ length items = n.
Proof.
  destruct v as [| | | |s|l|d]; cbn; try discriminate; intros H; injection H as <-;
    eexists; split; try reflexivity.
  - rewrite length_map. induction s as [|c s IH]; [reflexivity|]. cbn. now rewrite IH.
  - unfold Dict.keys. now rewrite !length_map.
Qed.

Section Executor.

Variable now : Z.
Variable delivered : nat -> bool.
Variable sent_at : nat -> string.

Local Abbreviation send := (Agents.OutreachExecutorAgent._send_email delivered sent_at).
Local Abbreviation count_sent := Agents.OutreachExecutorAgent.count_sent.
Local Abbreviation act := (Agents.OutreachExecutorAgent._act now delivered sent_at).

Lemma send_returns position message campaign_id s :
  send position message campaign_id = inl s ->
  Py.get s "email" JNull = Py.get message "email" (JStr "")
  /\ Py.get s "contact_name" JNull = Py.get message "lead" (JStr "")
  /\ Py.get s "company" JNull = Py.get message "company" (JStr "")
  /\ Py.getitem s "status" = inl (JStr (if delivered position then "sent" else "failed"))
  /\ Py.getitem s "campaign_id" = inl (JStr campaign_id)
  /\ Py.getitem s "error"
     = inl (if delivered position then JNull else JStr "Simulated failure").
Proof.
  unfold Agents.OutreachExecutorAgent._send_email.
  destruct message as [| | | | | |d]; cbn; try discriminate.
  intros H. injection H as <-. repeat split.
Qed.

Lemma send_mapping position (d : dict) campaign_id :
  exists s, send position (JDict d) campaign_id = inl s.
Proof. unfold Agents.OutreachExecutorAgent._send_email. cbn. eauto. Qed.

Lemma count_sent_positions sent_status : forall p,
  (forall i s, nth_error sent_status i = Some s ->
     Py.getitem s "status" = inl (JStr (if delivered (p + i) then "sent" else "failed"))) ->
  count_sent sent_status
  = inl (length (filter delivered (seq p (length sent_status)))).
Proof.
  induction sent_status as [|s rest IH]; intros p H; [reflexivity|].
  cbn [Agents.OutreachExecutorAgent.count_sent length seq filter].
  pose proof (H 0 s eq_refl) as H0. rewrite Nat.add_0_r in H0. rewrite H0.
  cbn [Py.bind]. rewrite (IH (S p)).
  - cbn [Py.bind]. now destruct (delivered p).
  - intros i s' N. rewrite (H (S i) s' N). now rewrite <- Nat.add_succ_comm.
Qed.

(** X26: a result
    of [_act] has one status for each message, in order; [total] is the
    number of messages and [success_count] the number of those the
    generator let through, so at most [total]; every status carries the
    email of its message and the one campaign id of the call, and is
    [sent] without an error or [failed] with [Simulated failure]. *)
Theorem outreach_execution_accounts_for_every_message (reasoning : string)
    (inputs : dict) (tools result : json) :
  act reasoning inputs tools = inl result ->
  exists items sent_status,
    Py.iter (or_default (Dict.get inputs "messages") (JList [])) = inl items
    /\ result
       = JDict [("sent_status"%string, JList sent_status);
                ("campaign_id"%string, JStr ("campaign_" ++ Json.string_of_Z now));
                ("success_count"%string,
                 JNum (Z.of_nat (length (filter delivered (seq 0 (length items))))));
                ("total"%string, JNum (Z.of_nat (length items)));
                ("reasoning"%string, JStr reasoning)]
    /\ length sent_status = length items
    /\ length (filter delivered (seq 0 (length items))) <= length items
    /\ forall p message, nth_error items p = Some message ->
         exists s,
           nth_error sent_status p = Some s
           /\ Py.get s "email" JNull = Py.get message "email" (JStr "")
           /\ Py.getitem s "status"
              = inl (JStr (if delivered p then "sent" else "failed"))
           /\ Py.getitem s "campaign_id"
              = inl (JStr ("campaign_" ++ Json.string_of_Z now))
           /\ Py.getitem s "error"
              = inl (if delivered p then JNull else JStr "Simulated failure").
Proof.
  unfold Agents.OutreachExecutorAgent._act. intros H.
  destruct (Py.len _) as [total|x] eqn:Ln; cbn [Py.bind] in H; [|discriminate].
  destruct (Py.next_tool tools "ApolloAPI") as [tool|x]; cbn [Py.bind] in H;
    [|discriminate].
  destruct (len_iter _ _ Ln) as (items & It & Len). rewrite It in *. cbn [Py.bind] in H.
  destruct (Py.for_each items _ (0, [])) as [[p' sent_status]|x] eqn:L;
    cbn [Py.bind snd] in H; [|discriminate].
  apply (indexed_loop_returns
           (fun p message => send p message ("campaign_" ++ Json.string_of_Z now)%string))
    in L; [|reflexivity].
  destruct L as (new & -> & Ls & N). cbn [app] in *.
  rewrite (count_sent_positions new 0) in H.
  - cbn [Py.bind] in H. injection H as <-. exists items, new.
    split; [reflexivity|]. rewrite Ls, Len. split; [reflexivity|].
    split; [reflexivity|]. split.
    + eapply Nat.le_trans; [apply filter_length_le | now rewrite length_seq].
    + intros p message Np. destruct (N p message Np) as (s & Ns & S).
      cbn [Nat.add] in S. destruct (send_returns _ _ _ _ S) as (E & _ & _ & St & C & Er).
      exists s. auto.
  - intros i s Ns.
    assert (I : i < length items).
    { rewrite <- Ls. apply nth_error_Some. congruence. }
    destruct (nth_error items i) as [message|] eqn:Ni;
      [|apply nth_error_None in Ni; lia].
    destruct (N i message Ni) as (s' & Ns' & S). rewrite Ns in Ns'. injection Ns' as <-.
    now destruct (send_returns _ _ _ _ S) as (_ & _ & _ & St & _).
Qed.

(** The executor on a list of mappings. *)
Lemma executor_on_mappings (reasoning : string) (tools : json) (tool : option json)
    (messages : list json) :
  Py.next_tool tools "ApolloAPI" = inl tool ->
  (forall m, In m messages -> exists d, m = JDict d) ->
  exists sent_status,
    act reasoning [("messages"%string, JList messages)] tools
    = inl (JDict [("sent_status"%string, JList sent_status);
                  ("campaign_id"%string, JStr ("campaign_" ++ Json.string_of_Z now));
                  ("success_count"%string,
                   JNum (Z.of_nat (length (filter delivered
                                             (seq 0 (length messages))))));
                  ("total"%string, JNum (Z.of_nat (length messages)));
                  ("reasoning"%string, JStr reasoning)])
    /\ length sent_status = length messages
    /\ forall p m, nth_error messages p = Some m ->
         exists s, nth_error sent_status p = Some s
                   /\ Py.get s "email" JNull = Py.get m "email" (JStr "")
                   /\ Py.get s "contact_name" JNull = Py.get m "lead" (JStr "").
Proof.
  intros T M. unfold Agents.OutreachExecutorAgent._act.
  cbn [Dict.get String.eqb Ascii.eqb Bool.eqb or_default Py.len Py.iter Py.bind].
  change (Dict.get [("messages"%string, JList messages)] "messages")
    with (Some (JList messages)).
  cbn [or_default Py.len Py.iter Py.bind]. rewrite T. cbn [Py.bind].
  destruct (indexed_loop_total
              (fun p message => send p message ("campaign_" ++ Json.string_of_Z now)%string)
              (fun state message =>
                 let (position, sent_status) := state : nat * list json in
                 Py.bind (send position message
                            ("campaign_" ++ Json.string_of_Z now)%string)
                   (fun status => inl (S position, sent_status ++ [status])))
              (fun _ _ _ => eq_refl) messages 0 []) as ([p' sent_status] & L).
  { intros i x N. destruct (M x (nth_error_In _ _ N)) as (d & ->). apply send_mapping. }
  rewrite L. cbn [Py.bind snd].
  apply (indexed_loop_returns
           (fun p message => send p message ("campaign_" ++ Json.string_of_Z now)%string))
    in L; [|reflexivity].
  destruct L as (new & -> & Ls & N). cbn [app] in *.
  rewrite (count_sent_positions new 0).
  - cbn [Py.bind]. rewrite Ls. exists new. split; [reflexivity|]. split; [exact Ls|].
    intros p m Np. destruct (N p m Np) as (s & Ns & S). cbn [Nat.add] in S.
    destruct (send_returns _ _ _ _ S) as (E & C & _). exists s. auto.
  - intros i s Ns.
    assert (I : i < length messages).
    { rewrite <- Ls. apply nth_error_Some. congruence. }
    destruct (nth_error messages i) as [message|] eqn:Ni;
      [|apply nth_error_None in Ni; lia].
    destruct (N i message Ni) as (s' & Ns' & S). rewrite Ns in Ns'. injection Ns' as <-.
    now destruct (send_returns _ _ _ _ S) as (_ & _ & _ & St & _).
Qed.

End Executor.

(** ** From [OutreachContentAgent] to [OutreachExecutorAgent] *)

Lemma entry_mapping lead message m :
  Agents.OutreachContentAgent.entry lead message = inl m ->
  exists d, m = JDict d
            /\ Dict.get d "email" = Some (or_default (Dict.get lead "email") (JStr ""))
            /\ Dict.get d "lead"
               = Some (or_default (Dict.get lead "contact_name") (JStr "Unknown")).
Proof.
  unfold Agents.OutreachContentAgent.entry.
  destruct (Py.getitem message "subject") as [sj|x]; cbn [Py.bind]; [|discriminate].
  destruct (Py.getitem message "body") as [bd|x]; cbn [Py.bind]; [|discriminate].
  intros H. injection H as <-. eexists. repeat split.
Qed.

(** X27: the
    messages that [OutreachContentAgent] returns are messages that
    [OutreachExecutorAgent] takes: given them, and tools whose names can
    be read, it returns, with a [total] that is the [count] of the
    content agent, at most twenty, and in each status the email and the
    contact of the message at its position. *)
Theorem executor_accepts_the_messages_of_outreach_content
    (reply : nat -> option string) (py_str : json -> string)
    (now : Z) (delivered : nat -> bool) (sent_at : nat -> string)
    (reasoning reasoning' : string) (inputs : dict) (tools tools' result : json)
    (tool : option json) :
  Agents.OutreachContentAgent._act reply py_str reasoning inputs tools = inl result ->
  Py.next_tool tools' "ApolloAPI" = inl tool ->
  exists messages sent_status,
    Py.getitem result "messages" = inl (JList messages)
    /\ Py.getitem result "count" = inl (JNum (Z.of_nat (length messages)))
    /\ Agents.OutreachExecutorAgent._act now delivered sent_at reasoning'
         [("messages"%string, JList messages)] tools'
       = inl (JDict [("sent_status"%string, JList sent_status);
                     ("campaign_id"%string, JStr ("campaign_" ++ Json.string_of_Z now));
                     ("success_count"%string,
                      JNum (Z.of_nat (length (filter delivered
                                                (seq 0 (length messages))))));
                     ("total"%string, JNum (Z.of_nat (length messages)));
                     ("reasoning"%string, JStr reasoning')])
    /\ length sent_status = length messages
    /\ length messages <= 20
    /\ forall p m, nth_error messages p = Some m ->
         exists s, nth_error sent_status p = Some s
                   /\ Py.get s "email" JNull = Py.getitem m "email"
                   /\ Py.get s "contact_name" JNull = Py.getitem m "lead".
Proof.
  unfold Agents.OutreachContentAgent._act. intros H T.
  destruct (Py.iter _) as [items|e]; cbn [Py.bind] in H; [|discriminate].
  destruct (Agents.OutreachContentAgent.top items) as [top_leads|e]; cbn [Py.bind] in H;
    [|discriminate].
  destruct (Py.for_each _ _ (0, [])) as [[p' messages]|e] eqn:L; cbn [Py.bind] in H;
    [|discriminate].
  injection H as <-. cbn [snd].
  apply (indexed_loop_returns
           (fun p lead =>
              Agents.OutreachContentAgent.entry lead
                (Agents.OutreachContentAgent._generate_message reply py_str p lead)))
    in L; [|reflexivity].
  destruct L as (new & -> & Len & N). cbn [app] in *.
  assert (M : forall m, In m new ->
                exists d, m = JDict d /\ (exists v, Dict.get d "email" = Some v)
                          /\ (exists v, Dict.get d "lead" = Some v)).
  { intros m I. apply In_nth_error in I. destruct I as (i & Ni).
    assert (B : i < length (firstn 20 top_leads)).
    { rewrite <- Len. apply nth_error_Some. congruence. }
    destruct (nth_error (firstn 20 top_leads) i) as [lead|] eqn:Nl;
      [|apply nth_error_None in Nl; lia].
    destruct (N i lead Nl) as (m' & Nm & E). rewrite Ni in Nm. injection Nm as <-.
    destruct (entry_mapping _ _ _ E) as (d & -> & Ee & El).
    exists d. split; [reflexivity|]. split; eexists; eassumption. }
  assert (M' : forall m, In m new -> exists d, m = JDict d).
  { intros m I. destruct (M m I) as (d & -> & _). eauto. }
  destruct (executor_on_mappings now delivered sent_at reasoning' tools' tool new T M')
    as (sent_status & A & Ls & P).
  exists new, sent_status. split; [reflexivity|]. split; [reflexivity|].
  split; [exact A|]. split; [exact Ls|]. split.
  - rewrite Len, length_firstn. apply Nat.le_min_l.
  - intros p m Np. destruct (P p m Np) as (s & Ns & E & C). exists s.
    split; [exact Ns|].
    destruct (M m (nth_error_In _ _ Np)) as (d & -> & (v & Ev) & (w & Ew)).
    rewrite E, C. cbn [Py.get Py.getitem]. rewrite Ev, Ew. now split.
Qed.

(** ** [OutreachExecutorAgent] on sample messages *)

Lemma outreach_execution_witness :
  exists sent_status,
    Agents.OutreachExecutorAgent._act 17 (fun p => Nat.eqb p 0) (fun _ => "t"%string)
      "r" [("messages"%string, JList [Agents.Sample.ada; Agents.Sample.bob])] (JList [])
    = inl (JDict [("sent_status"%string, JList sent_status);
                  ("campaign_id"%string, JStr "campaign_17");
                  ("success_count"%string, JNum 1);
                  ("total"%string, JNum 2);
                  ("reasoning"%string, JStr "r")])
    /\ length sent_status = 2.
Proof.
  destruct (outreach_execution_accounts_for_every_message
              17%Z (fun p => Nat.eqb p 0) (fun _ => "t"%string) "r"%string
              [("messages"%string, JList [Agents.Sample.ada; Agents.Sample.bob])]
              (JList []) _ eq_refl)
    as (items & sent_status & I & R & L & _).
  injection I as <-. exists sent_status. split; [|exact L].
  injection R as <-. reflexivity.
Defined.

Lemma content_to_executor_witness :
  exists messages sent_status,
    Agents.OutreachExecutorAgent._act 17 (fun _ => true) (fun _ => "t"%string) "r2"
      [("messages"%string, JList messages)] (JList [])
    = inl (JDict [("sent_status"%string, JList sent_status);
                  ("campaign_id"%string, JStr "campaign_17");
                  ("success_count"%string,
                   JNum (Z.of_nat (length (filter (fun _ => true)
                                             (seq 0 (length messages))))));
                  ("total"%string, JNum (Z.of_nat (length messages)));
                  ("reasoning"%string, JStr "r2")])
    /\ length sent_status = length messages.
Proof.
  destruct (executor_accepts_the_messages_of_outreach_content
              (fun _ => None) (fun _ => "?"%string) 17%Z (fun _ => true)
              (fun _ => "t"%string) "r1"%string "r2"%string
              [("ranked_leads"%string,
                JList [JDict [("grade"%string, JStr "A");
                              ("email"%string, JStr "a@x.io")]])]
              (JList []) (JList []) _ None eq_refl eq_refl)
    as (messages & sent_status & _ & _ & A & L & _).
  exists messages, sent_status. split; [exact A | exact L].
Defined.

(** ** [ResponseTrackerAgent] *)

Lemma filter_length_mono {A : Type} (f g : A -> bool) (l : list A) :
  (forall x, f x = true -> g x = true) ->
  length (filter f l) <= length (filter g l).
Proof.
  intros H. induction l as [|x l IH]; [apply Nat.le_refl|]. cbn [filter].
  destruct (f x) eqn:F.
  - rewrite (H x F). cbn [length]. lia.
  - destruct (g x); cbn [length]; lia.
Qed.

Lemma fold_append {A B : Type} (f : A -> B) (l : list A) : forall acc,
  fold_left (fun acc x => acc ++ [f x]) l acc = acc ++ map f l.
Proof.
  induction l as [|x l IH]; intros acc; cbn [fold_left map].
  - now rewrite List.app_nil_r.
  - rewrite IH. now rewrite <- List.app_assoc.
Qed.

Section Tracker.

Variable num_sent : nat.
Variable draw : nat -> nat -> bool.
Variable rate : nat -> nat -> json.

Local Abbreviation mock_response := (Agents.ResponseTrackerAgent.mock_response draw).
Local Abbreviation count := Agents.ResponseTrackerAgent.count.
Local Abbreviation act := (Agents.ResponseTrackerAgent._act num_sent draw rate).

Lemma count_flag key campaign_id (flag : nat -> bool) (l : list nat) :
  (forall i, Py.get (mock_response campaign_id i) key JNull = inl (JBool (flag i))) ->
  count key (map (mock_response campaign_id) l) = inl (length (filter flag l)).
Proof.
  intros H. induction l as [|i l IH]; [reflexivity|].
  cbn [map Agents.ResponseTrackerAgent.count filter]. rewrite H, IH. cbn [Py.bind Py.truthy].
  now destruct (flag i).
Qed.

(** X28: with at least one response
    generated, as [randint(15, 20)] makes sure, [_act] returns, with one
    response for each contact from [contact_1] on, and with metrics whose
    counts only narrow: meetings booked are at most the replies, these at
    most the clicks, these at most the opens, these at most the total
    sent.  In each response a later stage is true only if the stage
    before it is, and the sentiment is [positive] exactly for a reply. *)
Theorem tracked_funnel_only_narrows (reasoning : string) (inputs : dict) (tools : json) :
  0 < num_sent ->
  exists responses opened clicked replied meetings,
    act reasoning inputs tools
    = inl (JDict
             [("responses"%string, JList responses);
              ("campaign_id"%string, or_default (Dict.get inputs "campaign_id") (JStr ""));
              ("metrics"%string,
               JDict [("total_sent"%string, JNum (Z.of_nat num_sent));
                      ("open_rate"%string, rate opened num_sent);
                      ("click_rate"%string, rate clicked num_sent);
                      ("reply_rate"%string, rate replied num_sent);
                      ("meeting_rate"%string, rate meetings num_sent);
                      ("opened"%string, JNum (Z.of_nat opened));
                      ("clicked"%string, JNum (Z.of_nat clicked));
                      ("replied"%string, JNum (Z.of_nat replied));
                      ("meetings_booked"%string, JNum (Z.of_nat meetings))]);
              ("reasoning"%string, JStr reasoning)])
    /\ length responses = num_sent
    /\ meetings <= replied /\ replied <= clicked /\ clicked <= opened
    /\ opened <= num_sent
    /\ forall i r, nth_error responses i = Some r ->
         exists o c p m : bool,
           Py.get r "contact_id" JNull = inl (JStr ("contact_" ++ Py.str_nat (i + 1)))
           /\ Py.get r "opened" JNull = inl (JBool o)
           /\ Py.get r "clicked" JNull = inl (JBool c)
           /\ Py.get r "replied" JNull = inl (JBool p)
           /\ Py.get r "meeting_booked" JNull = inl (JBool m)
           /\ Py.get r "sentiment" JNull
              = inl (JStr (if p then "positive" else "neutral"))
           /\ (m = true -> p = true) /\ (p = true -> c = true) /\ (c = true -> o = true).
Proof.
  intros P. unfold Agents.ResponseTrackerAgent._act,
    Agents.ResponseTrackerAgent._generate_mock_responses.
  set (campaign_id := or_default (Dict.get inputs "campaign_id") (JStr "")).
  rewrite (fold_append (mock_response campaign_id)). cbn [app].
  unfold Agents.ResponseTrackerAgent._calculate_metrics.
  rewrite length_map, length_seq.
  destruct (Nat.eqb_spec num_sent 0) as [Z|_]; [lia|].
  rewrite (count_flag "opened" campaign_id (fun i => draw i 0)) by reflexivity.
  rewrite (count_flag "clicked" campaign_id (fun i => draw i 0 && draw i 1))
    by reflexivity.
  rewrite (count_flag "replied" campaign_id (fun i => draw i 0 && draw i 1 && draw i 2))
    by reflexivity.
  rewrite (count_flag "meeting_booked" campaign_id
             (fun i => draw i 0 && draw i 1 && draw i 2 && draw i 3)) by reflexivity.
  cbn [Py.bind]. do 5 eexists. split; [reflexivity|].
  split; [now rewrite length_map, length_seq|].
  split; [apply filter_length_mono; intros x H; now apply andb_prop in H|].
  split; [apply filter_length_mono; intros x H; now apply andb_prop in H|].
  split; [apply filter_length_mono; intros x H; now apply andb_prop in H|].
  split.
  - eapply Nat.le_trans; [apply filter_length_le | now rewrite length_seq].
  - intros i r N. rewrite nth_error_map in N.
    destruct (nth_error (seq 0 num_sent) i) as [j|] eqn:Nj; [|discriminate].
    cbn [option_map] in N. injection N as <-.
    assert (j = i).
    { assert (I : i < num_sent).
      { rewrite <- (length_seq num_sent 0). apply nth_error_Some. congruence. }
      rewrite nth_error_seq in Nj. apply Nat.ltb_lt in I. rewrite I in Nj.
      now injection Nj. }
    subst j.
    exists (draw i 0), (draw i 0 && draw i 1), (draw i 0 && draw i 1 && draw i 2),
      (draw i 0 && draw i 1 && draw i 2 && draw i 3).
    repeat split; try reflexivity; intros H; now apply andb_prop in H.
Qed.

End Tracker.

(** ** [ResponseTrackerAgent] on sample draws *)

Lemma tracked_funnel_witness :
  exists (responses : list json) opened clicked,
    length responses = 15 /\ clicked <= opened /\ opened <= 15.
Proof.
  destruct (tracked_funnel_only_narrows 15 (fun i k => Nat.leb k i)
              (fun _ _ => JNull) "r"%string [] (JList []))
    as (responses & opened & clicked & replied & meetings & _ & L & _ & _ & C & O & _).
  - lia.
  - exists responses, opened, clicked. auto.
Defined.

(** ** [BaseAgent] *)

Section BaseExecute.

Variable reasoning : json.
Variable act : json -> dict -> json -> json + Py.raised.

Local Abbreviation build_prompt := Agents.BaseAgent._build_react_prompt.
Local Abbreviation execute := (Agents.BaseAgent.execute reasoning act).

Lemma read_names_returns items :
  Forall (fun t => exists name, Py.getitem t "name" = inl name) items ->
  Py.for_each items
    (fun (_ : unit) tool =>
       Py.bind (Py.getitem tool "name")
         (fun _ => Py.bind (Py.get tool "description" (JStr "No description"))
                     (fun _ => inl tt)))
    tt = inl tt.
Proof.
  induction 1 as [|t items (name & N) F IH]; [reflexivity|].
  cbn [Py.for_each]. rewrite N. cbn [Py.bind].
  destruct t as [| | | | | |d]; try discriminate N. cbn [Py.get Py.bind]. exact IH.
Qed.

Lemma read_names_raises before t after e :
  Forall (fun t => exists name, Py.getitem t "name" = inl name) before ->
  Py.getitem t "name" = inr e ->
  Py.for_each (before ++ t :: after)
    (fun (_ : unit) tool =>
       Py.bind (Py.getitem tool "name")
         (fun _ => Py.bind (Py.get tool "description" (JStr "No description"))
                     (fun _ => inl tt)))
    tt = inr e.
Proof.
  intros F N. rewrite for_each_app, (read_names_returns _ F). cbn [Py.bind Py.for_each].
  now rewrite N.
Qed.

(** X29: [execute] reads the
    name of every tool before the model is asked and before [_act] runs,
    for the agents of every class.  When the tools cannot be iterated, or
    one of them has no name that can be read, it raises ([KeyError] for a
    mapping without [name], [TypeError] for a tool that is no mapping),
    [_act] is not run and [reasoning_history] stays as it was.  When all
    names can be read, it returns what [_act] returns and appends one
    entry to [reasoning_history]; if [_act] raises, nothing is appended. *)
Theorem execute_reads_every_tool_name_first (reasoning_history : list Agents.BaseAgent.entry)
    (inputs : dict) (instructions : string) (tools : json) :
  match Py.iter tools with
  | inr e => execute reasoning_history inputs instructions tools = (inr e, reasoning_history)
  | inl items =>
      (Forall (fun t => exists name, Py.getitem t "name" = inl name) items ->
       execute reasoning_history inputs instructions tools
       = match act reasoning inputs tools with
         | inl result =>
             (inl result,
              reasoning_history ++ [Agents.BaseAgent.mk_entry inputs reasoning result])
         | inr e => (inr e, reasoning_history)
         end)
      /\ (forall before t after e,
            items = before ++ t :: after ->
            Forall (fun t => exists name, Py.getitem t "name" = inl name) before ->
            Py.getitem t "name" = inr e ->
            execute reasoning_history inputs instructions tools
            = (inr e, reasoning_history)
            /\ (e = Py.Engine (KeyError "name") \/ e = Py.Engine TypeError))
  end.
Proof.
  unfold Agents.BaseAgent.execute, Agents.BaseAgent._build_react_prompt.
  destruct (Py.iter tools) as [items|e]; cbn [Py.bind]; [|reflexivity].
  split.
  - intros F. now rewrite (read_names_returns _ F).
  - intros before t after e -> F N. rewrite (read_names_raises _ _ _ _ F N).
    split; [reflexivity|].
    destruct t as [| | | | | |d]; cbn in N; try (injection N as <-; now right).
    destruct (Dict.get d "name"); [discriminate|]. injection N as <-. now left.
Qed.

End BaseExecute.

(** ** A step of the engine run by the base class *)

Section FallbackStep.

Variable reason :
  string -> list Agents.BaseAgent.entry -> dict -> string -> json -> json.
Variable describe_raised : Py.raised -> string.
Variable act_of : agent_class -> json -> dict -> json -> json + Py.raised.
Variable env : environ.
Variable describe : lookup_error -> string.

Local Abbreviation handler := (Agents.handler reason describe_raised act_of).
Local Abbreviation node := (node_function [] handler env describe).

(** X30: a step whose agent
    name cannot be looked up, and is not cached, is run by an agent of the
    base class under that name.  If its tool configs resolve and every
    tool has a name, the node function returns without an error entry:
    the output stored under the step's id is the mapping of [status]
    [completed], the reasoning, the resolved inputs as
    [inputs_processed] and the agent name; the history has the record;
    the builder holds the agent with one entry of reasoning history, and
    the failed lookup is in the log. *)
Theorem unknown_agent_step_echoes_its_inputs (w : Workflow.t) (s : Step.t)
    (st : WorkflowState.t) (b : builder (list Agents.BaseAgent.entry))
    (e : lookup_error) (tc tools : json) (items : list json) :
  lookup_class (Step.agent s) = inr e ->
  assoc (agents b) (Step.agent s) = None ->
  _resolve_env_variables env (JDict [("tools"%string, JList (or_default (Step.tools s) []))])
  = Ok tc ->
  walk tc ["tools"%string] = Ok tools ->
  Py.iter tools = inl items ->
  Forall (fun t => exists name, Py.getitem t "name" = inl name) items ->
  let inputs :=
    fst (_resolve_inputs (workflow_config w) (or_default (Step.inputs s) []) st) in
  let reasoning :=
    reason (Step.agent s) [] inputs (or_default (Step.instructions s) ""%string) tools in
  let output :=
    JDict [("status"%string, JStr "completed");
           ("reasoning"%string, reasoning);
           ("inputs_processed"%string, JDict inputs);
           ("agent"%string, JStr (Step.agent s))] in
  exists st' b',
    node w s st b = (Ok st', b')
    /\ Dict.get (WorkflowState.data st') (Step.id s)
       = Some (JDict [("output"%string, output)])
    /\ WorkflowState.errors st' = WorkflowState.errors st
    /\ WorkflowState.history st'
       = WorkflowState.history st ++ [History.mk (Step.id s) (Step.agent s) inputs output]
    /\ assoc (agents b') (Step.agent s)
       = Some (Agent.mk (next_obj b) BaseAgent (Step.agent s)
                 [Agents.BaseAgent.mk_entry inputs reasoning output])
    /\ In (ERROR, ("Failed to load agent " ++ Step.agent s ++ ": " ++ describe e)%string)
          (log b').
Proof.
  intros L C R W I F inputs reasoning output.
  assert (Ld : agent_loads (Step.agent s) = true).
  { unfold agent_loads. now rewrite L. }
  pose proof (prepare_unfold _ [] env describe w s st b) as P.
  rewrite (get_agent_fresh _ [] describe (Step.agent s)
             (mk_builder (agents b) (next_obj b) (log b ++ [executing_record s])) Ld C)
    in P.
  rewrite R in P. cbv zeta in P. fold inputs in P.
  unfold fresh_agent, load_records in P. rewrite L in P.
  cbn [agents next_obj log] in P.
  unfold node_function, bind. rewrite P.
  unfold attempt. rewrite W. unfold call_agent.
  cbn [Agent.class Agent.agent_name Agent.memory Agent.obj].
  unfold Agents.handler, Agents.BaseAgent.execute, Agents.BaseAgent._build_react_prompt.
  rewrite I. cbn [Py.bind]. rewrite (read_names_returns _ F).
  cbn [Agents.BaseAgent._act app]. fold reasoning. fold output.
  unfold commit, bind, logger_info, logger, ret. cbn [agents next_obj log].
  eexists _, _. split; [reflexivity|].
  cbn [WorkflowState.data WorkflowState.errors WorkflowState.history agents log].
  split; [apply get_set_same|]. split; [reflexivity|]. split; [reflexivity|].
  split; [apply assoc_set_same|].
  apply List.in_or_app. left. apply List.in_or_app. left. apply List.in_or_app. right.
  now left.
Qed.

End FallbackStep.

(** ** The base class on a sample step *)

Lemma unknown_agent_step_witness :
  exists st' b',
    node_function []
      (Agents.handler (fun _ _ _ _ _ => JStr "thought") (fun _ => "error"%string)
                      (fun _ _ _ _ => inr (Py.Engine TypeError)))
      Sample.no_env Sample.describe Sample.two_steps Sample.step_B
      Sample.empty_state (new_builder (list Agents.BaseAgent.entry))
    = (Ok st', b')
    /\ WorkflowState.errors st' = [].
Proof.
  destruct (unknown_agent_step_echoes_its_inputs
              (fun _ _ _ _ _ => JStr "thought") (fun _ => "error"%string)
              (fun _ _ _ _ => inr (Py.Engine TypeError))
              Sample.no_env Sample.describe Sample.two_steps Sample.step_B
              Sample.empty_state (new_builder (list Agents.BaseAgent.entry))
              (ImportError "agents.b")
              (JDict [("tools"%string,
                       JList [JDict [("name"%string, JStr "Clay");
                                     ("config"%string,
                                      JDict [("api_key"%string,
                                              JStr "MISSING_API_KEY")])]])])
              (JList [JDict [("name"%string, JStr "Clay");
                             ("config"%string,
                              JDict [("api_key"%string, JStr "MISSING_API_KEY")])]])
              [JDict [("name"%string, JStr "Clay");
                      ("config"%string,
                       JDict [("api_key"%string, JStr "MISSING_API_KEY")])]])
    as (st' & b' & N & _ & E & _).
  - vm_compute. reflexivity.
  - reflexivity.
  - vm_compute. reflexivity.
  - reflexivity.
  - reflexivity.
  - repeat constructor. eexists. reflexivity.
  - exists st', b'. split; [exact N | exact E].
Defined.

Lemma nameless_tool_witness :
  Agents.BaseAgent.execute (JStr "thought") (Agents.BaseAgent._act "A") [] [] ""
    (JList [JDict [("name"%string, JStr "Clay")];
            JDict [("description"%string, JStr "no name")]])
  = (inr (Py.Engine (KeyError "name")), []).
Proof.
  refine (proj1 (proj2 (execute_reads_every_tool_name_first (JStr "thought")
                          (Agents.BaseAgent._act "A") [] [] ""%string
                          (JList [JDict [("name"%string, JStr "Clay")];
                                  JDict [("description"%string, JStr "no name")]]))
                   [JDict [("name"%string, JStr "Clay")]]
                   (JDict [("description"%string, JStr "no name")]) []
                   (Py.Engine (KeyError "name")) eq_refl _ eq_refl)).
  repeat constructor. exists (JStr "Clay"). reflexivity.
Defined.
